(* ===== verification/_CoqProject ===== *)
-Q . S2P
Prelude.v
GoStrings.v
Float64.v
GoTime.v
Scores.v
Json.v
Job.v
Redis.v
Store.v
SortedSet.v
Middleware.v
Manager.v
Retry.v
Working.v
Fetch.v
Scheduler.v
Reaper.v
Helpers.v
Instances.v
JsNum.v
Dashboard.v
Page.v
Application.v
Wire.v
Workers.v
Mutate.v
Server.v
JsonLine.v
Client.v
Handshake.v
Stream.v
Tasks.v
Session.v
Pool.v
Timeago.v
Locale.v
Config.v
Pages.v
Draw.v
Listings.v
Graph.v
Security.v
