(* ===== verification/Prelude.v ===== *)
(** * Faktory: a verification development

    Faktory is a work server: clients push jobs, workers fetch them, acknowledge them
    or report their failure, and the server keeps jobs, retries, schedules and
    statistics in a Redis process of its own.  A web interface shows the queues and,
    with two scripts, refreshes itself and draws graphs.  The development covers the
    web interface's scripts and its pages, the server's job manager with its storage,
    the server's commands, workers and tasks, its configuration, and the client library
    with its connection pool.

    ** The scripts (src/webui/static/)

    - Dashboard.v: dashboard.js but for its events.  [numberWithDelimiter],
      [createSeries], [updateStatsSummary], [updateServerStats], [setSliderLabel] and
      the others keep their names; [realtime_hover] and [history_hover] are the two
      [render] methods; [realtime_args] and [history_args] what Rickshaw is given.
    - Page.v: the page as a state machine.  [page] is the window's timers, [poller],
      [Faktory.processed], the graphs with their counter [i], the requests under way;
      [step] has one case per event: the ready event, a tick of the interval, a reply
      in any order, a slider change, a resize, a timeout, the end of a delay.
    - Application.v: application.js, polling and clicks, as a second state machine,
      with the locale names and the navigation bar.
    - JsNum.v: JavaScript's numbers: arithmetic, [Number::toString], [parseInt],
      [parseFloat], [Math.round].

    Scripts run to completion, so a run is a list of events ([run], [happens]);
    invariants are proved for one step and lifted to runs ([run_invariant]).  What the
    scripts ask of jQuery is the list of their calls.  Theorems: one interval is
    alive and feeds the graph shown ([one_poller_alive]); the graph gets the growth of
    the totals ([points_are_differences]); resizes coalesce ([resizes_coalesce]);
    polling and the beacon never get stuck ([page_keeps_updating], [beacon_rests]);
    the series is in the order of time ([createSeries_in_time]) and reads the days the
    server writes ([history_day_parses]); script and server write counts alike
    ([numberWithDelimiter_as_server]); a page shows the last answer
    ([page_shows_last_answer]).  [two_pollers], the NaN of
    [points_are_differences] and the undefined of [server_figures] are defects of the
    scripts.

    ** The job manager (src/manager/) and its storage (src/storage/)

    - Redis.v: Redis as a class: a dataset and the documented effect of each command;
      a command may fail, leaving the dataset as it was.  [MemRedis] is an instance.
    - Store.v, SortedSet.v: queues, counters, raw keys; the sorted sets of scheduled,
      retried, dead and working jobs.  Scores.v: instants as scores.
    - Job.v, Json.v, GoTime.v, GoStrings.v, Float64.v: the job record and what it uses
      of Go's packages.
    - Middleware.v, Manager.v, Retry.v, Working.v, Fetch.v, Scheduler.v, Reaper.v: one
      file per file of src/manager/ (the reaper is part of working.go); functions keep
      their names.  Helpers.v: src/webui/helpers.go.
    - Instances.v: concrete states for the hypotheses of these theorems, and the round
      trips of the stored texts.

    Handlers are written in the state-and-error monad [M] below: a state, and a value,
    an error or a panic; what changed before an error stays changed, as in Go.  Laws
    are stated with [wp], the weakest precondition of a handler, one rule per
    operation, and a theorem turns the rule into a statement about the run
    ([wp_exec]).  Theorems: pushing validates, enqueues or schedules ([Push_*]); a
    queue is first in, first out across push and fetch ([queue_is_fifo]); fetches
    serve active queues in order ([Fetch_serves], [Fetch_spares_paused]); failures are
    retried and then buried ([Fail_settles], [retries_exhaust], [nextRetry_bounds]);
    acknowledging, extending, expiring and restarting keep memory and the working set
    in agreement ([Acknowledge_releases], [Reap_*], [restart_restores]); due jobs
    move ([schedule_moves_due]); paging visits all ([Each_visits_all]).

    ** The server (src/server/) and its clients (src/client/)

    - Wire.v: replies as bytes (connection.go) and the client's reader of them.
      JsonLine.v: a JSON text is one line.
    - Handshake.v: the greeting, [dial]'s answer and the server's check of it.
    - Workers.v: workers.go.  A client's data is shared by its connection and the
      registry, so the data are a heap ([clients]) and both hold addresses; [occur] has
      one case per event: a connection, a beat, a closing, a reaping, a signal from the
      web page.
    - Mutate.v: bulk operations, both sides (mutate.go in client and server) and the scan
      of a sorted set ([Find]).
    - Server.v: every command of commands.go, the loop over a connection's lines
      ([processLines]) and the task runner (task_runner.go, tasks.go, scanner.go).
      Stream.v: the loop on a stream that arrives in pieces.  Tasks.v: the scanners at
      work.
    - Client.v: the requests of client.go, and [link], a client joined to the server by
      bytes both ways.  Session.v: client, wire, server, job manager and storage together.

    The specification of the wire is [perform]: what each request does on the server and
    answers, without bytes.  [session_refines] shows that a session over the wire leaves
    the server as [serve_all] does and gives the client each answer's meaning; it rests on
    the round trip of replies ([replies_round_trip]), of jobs and of payloads, and
    [pieces_make_no_difference] shows that how the network cuts the bytes is no matter.
    [pushed_jobs_come_back] puts the parts together: over the wire a queue gives back
    the jobs pushed, in order. [handshake_agrees]: the same password is accepted, and
    only passwords that hash alike. [worker_registry_sound], [workers_only_forward] and
    [reap_removes_silent] are about every history of the registry;
    [discard_takes_selected] is about scans that may yield anything Redis's contract
    allows; [due_jobs_move_in_five_seconds] joins the task runner and the scheduler.
    Defects shown: [second_connection_unseen], [bare_command_panics],
    [broken_reply_left_behind], [requeue_duplicates] and [flush_leaves_memory].

    ** The web interface (src/webui/)

    - Pages.v: web.go and pages.go.  [serve] takes a request through the prefix of the
      proxy, the table of [routes], the forgery check, [basicAuth] and the page's
      handler, and gives the status, what the template is drawn from and the new
      state.  [Lifecycle] is the subsystem's start, reload and shutdown.
    - Locale.v: context.go and the tables of texts ([newContext], [localeFromHeader],
      [translations]), with the tables kept between requests as the state; it is apart
      from the state of Pages.v, because no handler looks at the language.
    - Timeago.v: timeago.go and [relativeTime], the words for how long ago.
    - Draw.v: the templates (.ego) and the helpers they walk the server with.  A template is
      a program over the server and the texts written so far ([canvas]); [draw] has one
      case per page, and [respond] is the handler with its page.
    - Listings.v: the list of the queues and the boxes of a queue's page.  Graph.v: the
      counters of the last days, from the database through the page to dashboard.js.

    Theorems: a request without the password learns and changes nothing
    ([strangers_see_nothing]); whatever is not a POST leaves jobs, sets, workers and the
    values of the counters alone, drawing included ([looking_changes_little], and
    [visiting_makes_queue] for what it does write); no text of a page ends the markup it
    stands in ([data_is_escaped]); the link a page draws for a job leads to that job
    ([link_leads_to_job]), and the boxes checked to the jobs they stand for
    ([checked_boxes_delete]); the queues are all listed ([queues_lists_all]); the history
    graph has the server's counts ([history_reaches_graph]); a dead job that never failed
    has no page ([dead_page_needs_failure]); a changed password waits for the next start
    ([reload_keeps_password]); the language is the best that the header asks for
    ([context_of_request]); the words are within a rounding of the time
    ([Timeago_near]), and the more distant of two times never has the nearer words
    ([Timeago_mono]).  Behind a proxy the query is lost, and with it the links to the
    other pages of a listing ([proxied_query_lost]).

    ** The pool (src/internal/pool/, src/client/pool.go)

    Pool.v: the channel of idle connections and its lock as steps ([pool_keeps_clients],
    [unusable_never_returns], [closed_pool_leaks_nothing]).  [Get] reads the channel
    without the lock, so its steps interleave with those of [Close]; [get_races_close]
    shows the panic that comes of it.

    ** The configuration (src/cli/cli.go, src/server/config.go)

    Config.v: [BuildServer] from flags, environment and files to the server's options,
    the password above all ([server_has_password]).  Security.v joins it with
    Handshake.v and Pages.v: in production neither port lets a stranger in
    ([production_is_closed]).

    ** Numbers, fuel, effects

    Go's int64 wraps ([wrap64]); Go's float64 and JavaScript's numbers are binary64, a
    finite one being the integer multiple of 2^-1074 it is, with explicit rounding
    (Float64.v). Strings are bytes. Times are nanoseconds, and the clock, the random
    jitter and the job id are arguments; the server's readings of the clock are a
    sequence, of which each reading takes the next. Where one operation reads the clock
    several times in a row (a push's two stamps, a worker's start and first beat), the
    readings are taken to be one. Loops over pages of a sorted set take fuel, one unit
    per page; the theorems ask for as many pages as there are entries to visit ([50 *
    fuel], [100 * fuel] or [10 * fuel] above their number; one unit per entry in a scan)
    and then give the result, so fuel never hides a loop that does not end. The loop
    over lines has the length of its input as fuel, which is enough ([loop_fuel]). Locks
    are taken around whole operations, so concurrent requests are sequences of
    operations.

    ** Not modelled

    D3, Rickshaw, jQuery, timeago and Bootstrap, bundled at the head of the two script
    files, are third-party: jQuery's selections in a reply and the browser's reading
    of dates that are not ISO dates are parameters; drawing and animation are left
    out.  The Redis process and its protocol are the class of Redis.v, with its glob
    matching and its scan cursor; SHA-256, the TOML reader, the file system and the
    forgery token's check are parameters.  Sockets, deadlines and the listener, the
    start and stop of the process, flags, signals and logging are input and output.
    Of the templates (.ego) the markup is left out, with the words of the language, the
    custom fields of a job and what the debug page says of the machine; the code made from
    them is generated, and stands for its escaping only.  Batches and tracking
    (client/batch.go, tracking.go) are commands this server refuses.  The client's
    [Generic] command lines and its dialling over TLS are not modelled.  A reply that
    lacks the fields the script reads is not considered. *)
From stdpp Require Export base list strings gmap sets sorting.
From Stdlib Require Export ZArith Lia Ascii String.
From Corelib Require Export ssreflect.

(** [length] is that of lists; a string's is [String.length]. *)
Notation length := Datatypes.length.

#[global] Open Scope Z_scope.
#[global] Open Scope list_scope.
#[global] Open Scope general_if_scope.
#[global] Arguments String.append : simpl nomatch.
Declare Scope go_scope.
Delimit Scope go_scope with go.

(** [lia] reasons about [Z.div] and [Z.modulo]. *)
Ltac Zify.zify_post_hook ::= Z.div_mod_to_equations.

Create HintDb go_strings.

(** ** Errors, as Go returns them

    [ErrMsg] is what [fmt.Errorf] and [errors.New] build, [ErrCoded] the
    server's [codedError] (the only [KnownError]), [ErrProtocol] the client's
    [ProtocolError]. *)
Inductive goerr :=
| ErrMsg (msg : string)
| ErrCoded (code msg : string)
| ErrProtocol (msg : string).

#[global] Instance goerr_eq_dec : EqDecision goerr.
Proof. solve_decision. Defined.
(** The message: [Error()]. *)
Definition err_text (e : goerr) : string :=
  match e with
  | ErrMsg msg => msg
  | ErrCoded code msg => String.append code (String " "%char msg)
  | ErrProtocol msg => msg
  end.

(** ** Outcomes: a value, an error return, or a run-time panic *)
Inductive outcome (A : Type) :=
| Ok (a : A)
| Err (e : goerr)
| Panic (msg : string).
Arguments Ok {A} a.
Arguments Err {A} e.
Arguments Panic {A} msg.

#[global] Instance outcome_eq_dec {A} `{EqDecision A} : EqDecision (outcome A).
Proof. solve_decision. Defined.

Definition omap_outcome {A B} (f : A → B) (o : outcome A) : outcome B :=
  match o with Ok a => Ok (f a) | Err e => Err e | Panic m => Panic m end.

(** ** The state-and-error monad the handlers are written in

    State changes made before an error are kept, as in Go. *)
Definition M (S A : Type) : Type := S → outcome A * S.

Definition retM {S A} (a : A) : M S A := λ s, (Ok a, s).
Definition bindM {S A B} (m : M S A) (k : A → M S B) : M S B :=
  λ s, match m s with
       | (Ok a, s') => k a s'
       | (Err e, s') => (Err e, s')
       | (Panic p, s') => (Panic p, s')
       end.
Definition failM {S A} (e : goerr) : M S A := λ s, (Err e, s).
Definition panicM {S A} (p : string) : M S A := λ s, (Panic p, s).
Definition getM {S} : M S S := λ s, (Ok s, s).
Definition putM {S} (s : S) : M S unit := λ _, (Ok tt, s).
Definition modifyM {S} (f : S → S) : M S unit := λ s, (Ok tt, f s).
Definition ofOutcome {S A} (o : outcome A) : M S A := λ s, (o, s).

(** [x, err := f()]: the error becomes a value, a panic still unwinds. *)
Definition tryM {S A} (m : M S A) : M S (A + goerr) :=
  λ s, match m s with
       | (Ok a, s') => (Ok (inl a), s')
       | (Err e, s') => (Ok (inr e), s')
       | (Panic p, s') => (Panic p, s')
       end.

(** [_ = f()]: the error is dropped. *)
Definition ignoreM {S A} (m : M S A) : M S unit :=
  λ s, match m s with
       | (Ok _, s') => (Ok tt, s')
       | (Err _, s') => (Ok tt, s')
       | (Panic p, s') => (Panic p, s')
       end.

(** Run an operation on one part of a larger state. *)
Definition zoomM {S T A} (get : S → T) (set : T → S → S) (m : M T A) : M S A :=
  λ s, match m (get s) with (r, t) => (r, set t s) end.

Notation "'let*' x := m 'in' k" := (bindM m (λ x, k))
  (at level 10, x pattern, m at level 100, k at level 200) : go_scope.
Notation "m ;;; k" := (bindM m (λ _, k)) (at level 100, right associativity) : go_scope.
#[global] Open Scope go_scope.

(** Left-to-right iteration: [for _, x := range l { body }]. *)
Fixpoint forM {S A} (l : list A) (body : A → M S unit) : M S unit :=
  match l with
  | [] => retM tt
  | x :: l' => body x ;;; forM l' body
  end.

(** ** Equations of the monad *)

Lemma bindM_ok {S A B} (m : M S A) (k : A → M S B) s a s' :
  m s = (Ok a, s') → bindM m k s = k a s'.
Proof. by rw /bindM => ->. Qed.

Lemma bindM_err {S A B} (m : M S A) (k : A → M S B) s e s' :
  m s = (Err e, s') → bindM m k s = (Err e, s').
Proof. by rw /bindM => ->. Qed.

Lemma bindM_assoc {S A B C} (m : M S A) (f : A → M S B) (g : B → M S C) s :
  bindM (bindM m f) g s = bindM m (λ a, bindM (f a) g) s.
Proof. rw /bindM. by destruct (m s) as [[] ?]. Qed.

Lemma bindM_inv_ok {S A B} (m : M S A) (k : A → M S B) s b s'' :
  bindM m k s = (Ok b, s'') →
  ∃ a s', m s = (Ok a, s') ∧ k a s' = (Ok b, s'').
Proof. rw /bindM. destruct (m s) as [[] ?]; naive_solver. Qed.

Lemma forM_app {S A} (l1 l2 : list A) (body : A → M S unit) s :
  forM (l1 ++ l2) body s = (forM l1 body ;;; forM l2 body) s.
Proof.
  revert s; induction l1 as [|x l1 IH]; intros s; [done|].
  simpl. rw bindM_assoc /bindM. destruct (body x s) as [[] s']; [|done..].
  by rw IH.
Qed.

(** ** Weakest preconditions

    [wp m s Q]: running [m] from [s] ends with an outcome and a state in [Q]. *)
Definition wp {S A} (m : M S A) (s : S) (Q : outcome A → S → Prop) : Prop :=
  Q (m s).1 (m s).2.
Definition wp_ok {A} (P : A → Prop) (E : goerr → Prop) (o : outcome A) : Prop :=
  match o with Ok a => P a | Err e => E e | Panic _ => False end.

Lemma wp_ret {S A} (a : A) (s : S) Q : Q (Ok a) s → wp (retM a) s Q.
Proof. done. Qed.
Lemma wp_fail {S A} e (s : S) (Q : outcome A → S → Prop) : Q (Err e) s → wp (failM e) s Q.
Proof. done. Qed.
Lemma wp_get {S} (s : S) Q : Q (Ok s) s → wp getM s Q.
Proof. done. Qed.
Lemma wp_modify {S} f (s : S) Q : Q (Ok tt) (f s) → wp (modifyM f) s Q.
Proof. done. Qed.
Lemma wp_bind {S A B} (m : M S A) (k : A → M S B) (s : S) Q :
  wp m s (λ r s', match r with
                  | Ok a => wp (k a) s' Q
                  | Err e => Q (Err e) s'
                  | Panic p => Q (Panic p) s'
                  end) →
  wp (bindM m k) s Q.
Proof. rw /wp /bindM. by destruct (m s) as [[] s']. Qed.
Lemma wp_try {S A} (m : M S A) (s : S) Q :
  wp m s (λ r s', match r with
                  | Ok a => Q (Ok (inl a)) s'
                  | Err e => Q (Ok (inr e)) s'
                  | Panic p => Q (Panic p) s'
                  end) →
  wp (tryM m) s Q.
Proof. rw /wp /tryM. by destruct (m s) as [[] s']. Qed.
Lemma wp_ignore {S A} (m : M S A) (s : S) Q :
  wp m s (λ r s', match r with Panic p => Q (Panic p) s' | _ => Q (Ok tt) s' end) →
  wp (ignoreM m) s Q.
Proof. rw /wp /ignoreM. by destruct (m s) as [[] s']. Qed.
Lemma wp_mono {S A} (m : M S A) (s : S) (P Q : outcome A → S → Prop) :
  wp m s P → (∀ r s', P r s' → Q r s') → wp m s Q.
Proof. rw /wp. eauto. Qed.
Lemma wp_outcome {S A} (o : outcome A) (s : S) Q : Q o s → wp (ofOutcome o) s Q.
Proof. done. Qed.
(** What was proved of a run holds of its result. *)
Lemma wp_run {S A} (m : M S A) (s : S) Q r s' : wp m s Q → m s = (r, s') → Q r s'.
Proof. rw /wp. intros HQ E. by rw E in HQ. Qed.
Lemma wp_exec {S A} (m : M S A) (s : S) Q : wp m s Q → ∃ r s', m s = (r, s') ∧ Q r s'.
Proof. rw /wp. intros HQ. exists (m s).1, (m s).2. by destruct (m s). Qed.

(** Strip the structural layers of a program. *)
Ltac wp_step :=
  lazymatch goal with
  | |- wp (bindM _ _) _ _ => apply wp_bind
  | |- wp (retM _) _ _ => apply wp_ret
  | |- wp (failM _) _ _ => apply wp_fail
  | |- wp (tryM _) _ _ => apply wp_try
  | |- wp (ignoreM _) _ _ => apply wp_ignore
  | |- wp getM _ _ => apply wp_get
  | |- wp (modifyM _) _ _ => apply wp_modify
  | |- wp (ofOutcome _) _ _ => apply wp_outcome
  end; cbn beta iota.
Ltac wp_steps := repeat wp_step.

(** ** Tactics of the development *)

(** Case on the innermost scrutinee of a [match] in the goal. *)
Ltac case_goal :=
  match goal with
  | |- context [match ?x with _ => _ end] =>
      lazymatch x with context [match _ with _ => _ end] => fail | _ => idtac end;
      destruct x eqn:?
  end.

(** Unfold the monad at the head of the goal and compute one step. *)
Ltac run_step := progress cbv beta iota zeta delta
  [bindM retM failM panicM getM putM modifyM ofOutcome tryM ignoreM zoomM fst snd].

(** Close a goal by evaluation. *)
Ltac by_compute := vm_compute; reflexivity.

(** ** Lists and integers *)

Lemma filter_partition_perm {A} (P : A → Prop) `{∀ x, Decision (P x)} (l : list A) :
  filter P l ++ filter (λ x, ¬ P x) l ≡ₚ l.
Proof.
  induction l as [|x l IH]; [done|].
  rw !filter_cons. destruct (decide (P x)), (decide (¬ P x)); try tauto; simpl.
  - by rw IH.
  - by rw -Permutation_middle IH.
Qed.

Lemma Z_div_mod_unique (a b q r : Z) :
  0 < b → 0 ≤ r < b → a = b * q + r → a `div` b = q ∧ a `mod` b = r.
Proof.
  intros Hb Hr ->. split.
  - symmetry. eapply Z.div_unique; [left|]; eauto.
  - symmetry. eapply Z.mod_unique; [left|]; eauto.
Qed.
