(* ===== verification/GoStrings.v ===== *)
(** * The part of Go's [strings], [bytes] and [strconv] packages the program uses

    A Go string is a sequence of bytes; [String.string] is exactly that.
    Functions are named after the Go ones.  Slicing out of range panics. *)
From S2P Require Import Prelude.

#[global] Open Scope string_scope.
#[global] Open Scope Z_scope.

Definition chr (n : Z) : ascii := ascii_of_nat (Z.to_nat n).
Definition byte_val (c : ascii) : Z := Z.of_nat (nat_of_ascii c).

(** The double quote, which Rocq strings only write doubled. *)
Definition DQ : string := String (chr 34) "".
Definition LF : string := String (chr 10) "".
Definition CRLF : string := String (chr 13) LF.

Definition slen (s : string) : Z := Z.of_nat (String.length s).

(** [strings.HasPrefix] *)
Fixpoint has_prefix (p s : string) : bool :=
  match p, s with
  | EmptyString, _ => true
  | String a p', String b s' => bool_decide (a = b) && has_prefix p' s'
  | _, _ => false
  end.

Fixpoint drop_str (n : nat) (s : string) : string :=
  match n, s with
  | O, _ => s
  | S n', String _ s' => drop_str n' s'
  | _, EmptyString => EmptyString
  end.
Fixpoint take_str (n : nat) (s : string) : string :=
  match n, s with
  | S n', String a s' => String a (take_str n' s')
  | _, _ => EmptyString
  end.

(** [s[n:]]: panics when [n > len(s)]. *)
Definition slice_from {S} (n : nat) (s : string) : M S string :=
  if bool_decide (n ≤ String.length s)%nat then retM (drop_str n s)
  else panicM "slice bounds out of range".

(** [strings.Index], [-1] when absent. *)
Fixpoint index_from (i : Z) (sub s : string) : Z :=
  if has_prefix sub s then i
  else match s with
       | EmptyString => -1
       | String _ s' => index_from (i + 1) sub s'
       end.
Definition index_of (s sub : string) : Z := index_from 0 sub s.

(** [strings.Split] with a one-byte separator: never returns an empty list. *)
Fixpoint split_char (c : ascii) (s : string) : list string :=
  match s with
  | EmptyString => [""]
  | String a s' =>
      if bool_decide (a = c) then "" :: split_char c s'
      else match split_char c s' with
           | w :: ws => String a w :: ws
           | [] => [String a ""]
           end
  end.

(** [strings.Join] *)
Fixpoint join (sep : string) (l : list string) : string :=
  match l with
  | [] => ""
  | [w] => w
  | w :: ws => w +:+ sep +:+ join sep ws
  end.

(** [strings.TrimSpace]: Unicode's White_Space code points in UTF-8. *)
Fixpoint of_bytes (l : list Z) : string :=
  match l with [] => "" | b :: l' => String (chr b) (of_bytes l') end.
Definition space_runes : list string :=
  List.map of_bytes
    ([[9]; [10]; [11]; [12]; [13]; [32]; [194; 133]; [194; 160]; [225; 154; 128];
      [226; 128; 168]; [226; 128; 169]; [226; 128; 175]; [226; 129; 159]; [227; 128; 128]]
     ++ List.map (λ k, [226; 128; 128 + Z.of_nat k]) (seq 0 11)).
Definition space_len (s : string) : nat :=
  match List.find (λ r, has_prefix r s) space_runes with
  | Some r => String.length r
  | None => 0
  end.
Fixpoint trim_left_fuel (fuel : nat) (s : string) : string :=
  match fuel, space_len s with
  | O, _ | _, O => s
  | S f, n => trim_left_fuel f (drop_str n s)
  end.
Definition trim_left (s : string) : string := trim_left_fuel (String.length s) s.
Fixpoint trim_right (s : string) : string :=
  if bool_decide (trim_left s = "") then ""
  else match s with
       | EmptyString => ""
       | String a s' => String a (trim_right s')
       end.
Definition trim_space (s : string) : string := trim_right (trim_left s).

(** ** Decimal integers: [strconv.FormatInt(n, 10)] and [strconv.Atoi] *)

Definition digit (d : Z) : ascii := chr (48 + d).
Definition is_digit (c : ascii) : bool := (48 <=? byte_val c) && (byte_val c <=? 57).
Definition digit_val (c : ascii) : Z := byte_val c - 48.

Fixpoint dec_fuel (fuel : nat) (n : Z) (acc : string) : string :=
  match fuel with
  | O => acc
  | S f =>
      let acc' := String (digit (n `mod` 10)) acc in
      if n <? 10 then acc' else dec_fuel f (n `div` 10) acc'
  end.
Definition dec_nat (n : Z) : string := dec_fuel (S (Z.to_nat (Z.log2 n))) n "".
Definition dec (n : Z) : string := if n <? 0 then String "-" (dec_nat (- n)) else dec_nat n.

Fixpoint all_digits (s : string) : bool :=
  match s with EmptyString => true | String c s' => is_digit c && all_digits s' end.
Fixpoint digits_val (acc : Z) (s : string) : Z :=
  match s with EmptyString => acc | String c s' => digits_val (acc * 10 + digit_val c) s' end.

(** An unsigned decimal literal: at least one digit, nothing else. *)
Definition parse_nat (s : string) : option Z :=
  if bool_decide (s = "") then None
  else if all_digits s then Some (digits_val 0 s) else None.

Definition in_int64 (n : Z) : bool := (- 2 ^ 63 <=? n) && (n <? 2 ^ 63).

Definition parse_signed (s : string) : option Z :=
  match s with
  | String "-" s' => Z.opp <$> parse_nat s'
  | String "+" s' => parse_nat s'
  | _ => parse_nat s
  end.
Definition atoi (s : string) : option Z :=
  match parse_signed s with
  | Some n => if in_int64 n then Some n else None
  | None => None
  end.

(** Fixed-width decimal, as [%02d]; wider numbers keep all their digits. *)
Fixpoint zeros (n : nat) : string :=
  match n with O => "" | S n' => String "0" (zeros n') end.
Definition pad_dec (w : nat) (n : Z) : string :=
  zeros (w - String.length (dec_nat n)) +:+ dec_nat n.

(** ** Lemmas *)

Lemma app_str_nil_r (s : string) : s +:+ "" = s.
Proof. by induction s as [|c s IH]; simpl; [|rw IH]. Qed.

Lemma app_str_assoc (a b c : string) : (a +:+ b) +:+ c = a +:+ (b +:+ c).
Proof. by induction a as [|x a IH]; simpl; [|rw IH]. Qed.

Lemma length_app_str (a b : string) :
  String.length (a +:+ b) = (String.length a + String.length b)%nat.
Proof. induction a; simpl; lia. Qed.

Lemma take_str_app (a b : string) : take_str (String.length a) (a +:+ b) = a.
Proof. by induction a as [|c a IH]; simpl; [destruct b|rw IH]. Qed.

Lemma drop_str_app (a b : string) : drop_str (String.length a) (a +:+ b) = b.
Proof. induction a; simpl; [by destruct b|done]. Qed.

Lemma has_prefix_app (a b : string) : has_prefix a (a +:+ b) = true.
Proof. induction a; simpl; [done|]. by rw bool_decide_eq_true_2. Qed.

Lemma has_prefix_spec (p s : string) : has_prefix p s = true ↔ ∃ t, s = p +:+ t.
Proof.
  split.
  - revert s; induction p as [|a p IH]; intros s; [by exists s|].
    destruct s as [|b s]; [done|]; simpl.
    case_bool_decide; [|done]. intros [t ->]%IH. subst. by exists t.
  - intros [t ->]. apply has_prefix_app.
Qed.

(** [index_of] finds the sub-string exactly when it occurs. *)
Lemma index_from_ge (i : Z) (sub s : string) : index_from i sub s = -1 ∨ i ≤ index_from i sub s.
Proof.
  revert i; induction s as [|c s IH]; intros i; simpl; destruct (has_prefix sub _); auto; [lia|lia|].
  destruct (IH (i + 1)); auto; lia.
Qed.

Lemma index_from_occurs (i : Z) (sub a b : string) :
  0 ≤ i → 0 ≤ index_from i sub (a +:+ sub +:+ b).
Proof.
  revert i; induction a as [|c a IH]; intros i Hi; simpl.
  - destruct (sub +:+ b) eqn:E; simpl; rw -E has_prefix_app; done.
  - case_goal; [done|]. apply IH. lia.
Qed.

(** Splitting what was joined gives the words back, and the converse. *)
Lemma split_char_nonempty c s : split_char c s ≠ [].
Proof. destruct s; simpl; [done|]. case_bool_decide; [done|]. by destruct (split_char c s). Qed.

Lemma join_split (c : ascii) (s : string) : join (String c "") (split_char c s) = s.
Proof.
  induction s as [|a s IH]; [done|]; simpl.
  pose proof (split_char_nonempty c s) as Hne.
  case_bool_decide as Hc.
  - subst a. destruct (split_char c s) as [|w ws]; [done|]. simpl in *. by rw IH.
  - destruct (split_char c s) as [|w [|w' ws]]; [done|..]; simpl in *; by rw IH.
Qed.

Fixpoint no_char (c : ascii) (s : string) : bool :=
  match s with EmptyString => true | String a s' => negb (bool_decide (a = c)) && no_char c s' end.

Lemma no_char_app c s t : no_char c (s +:+ t) = no_char c s && no_char c t.
Proof. induction s as [|a s IH]; [done|]. cbn. by rw IH andb_assoc. Qed.
Lemma split_char_no (c : ascii) (w : string) : no_char c w = true → split_char c w = [w].
Proof.
  induction w as [|a w IH]; [done|]; simpl. intros [Ha Hw]%andb_true_iff.
  apply negb_true_iff in Ha. rw Ha IH //.
Qed.

Lemma split_char_app (c : ascii) (w s : string) :
  no_char c w = true → split_char c (w +:+ String c s) = w :: split_char c s.
Proof.
  induction w as [|a w IH]; simpl.
  - intros _. by rw bool_decide_eq_true_2.
  - intros [Ha Hw]%andb_true_iff. apply negb_true_iff in Ha. rw Ha IH //.
Qed.

Lemma split_join (c : ascii) (l : list string) :
  l ≠ [] → Forall (λ w, no_char c w = true) l → split_char c (join (String c "") l) = l.
Proof.
  intros Hne Hl. induction Hl as [|w l Hw Hl IH]; [done|].
  destruct l as [|w' l]; [by apply split_char_no|].
  change (join (String c "") (w :: w' :: l)) with (w +:+ String c (join (String c "") (w' :: l))).
  rw split_char_app // IH //.
Qed.

(** *** Decimal round trips *)

Lemma byte_val_chr (n : Z) : 0 ≤ n < 256 → byte_val (chr n) = n.
Proof. intros H. rw /byte_val /chr nat_ascii_embedding; lia. Qed.

Lemma byte_val_range (c : ascii) : 0 ≤ byte_val c < 256.
Proof. rw /byte_val. pose proof (nat_ascii_bounded c). lia. Qed.

Lemma byte_val_inj (a b : ascii) : byte_val a = byte_val b → a = b.
Proof.
  rw /byte_val => H. rw -(ascii_nat_embedding a) -(ascii_nat_embedding b). f_equal. lia.
Qed.

Lemma chr_byte_val (c : ascii) : chr (byte_val c) = c.
Proof. apply byte_val_inj. apply byte_val_chr, byte_val_range. Qed.

Lemma digit_is_digit (d : Z) : 0 ≤ d < 10 → is_digit (digit d) = true.
Proof. intros. rw /is_digit /digit byte_val_chr; lia. Qed.

Lemma digit_val_digit (d : Z) : 0 ≤ d < 10 → digit_val (digit d) = d.
Proof. intros. rw /digit_val /digit byte_val_chr; lia. Qed.

Lemma digit_digit_val (c : ascii) : is_digit c = true → digit (digit_val c) = c.
Proof.
  rw /is_digit /digit /digit_val => H. replace (48 + _) with (byte_val c) by lia. apply chr_byte_val.
Qed.

Lemma digit_val_range (c : ascii) : is_digit c = true → 0 ≤ digit_val c < 10.
Proof. rw /is_digit /digit_val. lia. Qed.

Lemma all_digits_app (a b : string) : all_digits (a +:+ b) = all_digits a && all_digits b.
Proof. induction a as [|c a IH]; simpl; [done|]. by rw IH andb_assoc. Qed.

Lemma digits_val_app (x : Z) (a b : string) :
  digits_val x (a +:+ b) = digits_val (digits_val x a) b.
Proof. revert x; induction a as [|c a IH]; intros x; simpl; [done|]. apply IH. Qed.

Lemma digits_val_shift (x : Z) (s : string) :
  digits_val x s = x * 10 ^ slen s + digits_val 0 s.
Proof.
  revert x; induction s as [|c s IH]; intros x; rw /slen; simpl; [lia|].
  rw IH (IH (0 * 10 + _)) /slen Nat2Z.inj_succ Z.pow_succ_r; lia.
Qed.

Lemma digits_val_bound (s : string) :
  all_digits s = true → 0 ≤ digits_val 0 s < 10 ^ slen s.
Proof.
  induction s as [|c s IH]; [done|]; simpl. intros [Hc Hs]%andb_true_iff.
  apply digit_val_range in Hc. specialize (IH Hs).
  rw digits_val_shift. change (slen (String c s)) with (Z.of_nat (S (String.length s))).
  fold (slen s) in *. rw Nat2Z.inj_succ Z.pow_succ_r; [lia|]. rw -/(slen s). nia.
Qed.

Lemma dec_fuel_digits (f : nat) (n : Z) (acc : string) :
  0 ≤ n → all_digits acc = true → all_digits (dec_fuel f n acc) = true.
Proof.
  revert n acc; induction f as [|f IH]; intros n acc Hn Hacc; simpl; [done|].
  assert (all_digits (String (digit (n `mod` 10)) acc) = true).
  { simpl. rw digit_is_digit ?Hacc //. lia. }
  case_match; [done|]. apply IH; [lia|done].
Qed.

Lemma dec_fuel_val (f : nat) (n : Z) (acc : string) :
  0 ≤ n < 10 ^ Z.of_nat f →
  ∃ k, 0 ≤ k ∧ ∀ a, digits_val a (dec_fuel f n acc) = digits_val (a * 10 ^ k + n) acc.
Proof.
  revert n acc; induction f as [|f IH]; intros n acc Hn; simpl.
  - exists 0. simpl in Hn. split; [done|]. intros a. f_equal. lia.
  - destruct (Z.ltb_spec n 10) as [Hlt|Hge].
    + exists 1. split; [lia|]. intros a. simpl.
      rw digit_val_digit ?Z.mod_small; f_equal; lia.
    + rw Nat2Z.inj_succ Z.pow_succ_r in Hn; [lia|].
      edestruct (IH (n `div` 10) (String (digit (n `mod` 10)) acc)) as (k & Hk & IHk).
      { split; [lia|]. apply Z.div_lt_upper_bound; lia. }
      exists (k + 1). split; [lia|]. intros a. rw IHk. simpl.
      rw digit_val_digit; [lia|]. f_equal. rw Z.pow_add_r //. lia.
Qed.

Lemma dec_fuel_enough (n : Z) :
  0 ≤ n → 0 ≤ n < 10 ^ Z.of_nat (S (Z.to_nat (Z.log2 n))).
Proof.
  intros Hn. split; [done|].
  rw Nat2Z.inj_succ Z2Nat.id; [apply Z.log2_nonneg|].
  destruct (decide (n = 0)) as [->|]; [done|].
  apply Z.lt_le_trans with (2 ^ Z.succ (Z.log2 n)); [apply Z.log2_spec; lia|].
  apply Z.pow_le_mono_l. lia.
Qed.

Lemma dec_nat_digits (n : Z) : 0 ≤ n → all_digits (dec_nat n) = true.
Proof. intros. by apply dec_fuel_digits. Qed.

Lemma dec_nat_val (n : Z) : 0 ≤ n → digits_val 0 (dec_nat n) = n.
Proof.
  intros Hn. destruct (dec_fuel_val _ _ "" (dec_fuel_enough n Hn)) as (k & _ & Hk).
  rw /dec_nat Hk. simpl. lia.
Qed.

Lemma dec_fuel_nonempty (f : nat) (n : Z) (acc : string) :
  (f ≠ 0%nat ∨ acc ≠ "") → dec_fuel f n acc ≠ "".
Proof.
  revert n acc; induction f as [|f IH]; intros n acc H; simpl; [naive_solver|].
  case_match; [done|]. apply IH. by right.
Qed.

Lemma dec_nat_nonempty (n : Z) : dec_nat n ≠ "".
Proof. apply dec_fuel_nonempty. by left. Qed.

Lemma parse_nat_dec (n : Z) : 0 ≤ n → parse_nat (dec_nat n) = Some n.
Proof.
  intros Hn. rw /parse_nat bool_decide_eq_false_2; [apply dec_nat_nonempty|].
  by rw dec_nat_digits // dec_nat_val.
Qed.

Lemma all_digits_head (s : string) (c : ascii) (t : string) :
  s = String c t → all_digits s = true → is_digit c = true.
Proof. intros ->. simpl. by intros [? _]%andb_true_iff. Qed.

Lemma parse_signed_unsigned (s : string) : all_digits s = true → parse_signed s = parse_nat s.
Proof.
  intros H. destruct s as [|c s]; [done|]. pose proof (all_digits_head _ _ _ eq_refl H) as Hc.
  destruct c as [[] [] [] [] [] [] [] []]; try done; vm_compute in Hc; discriminate.
Qed.

Theorem parse_signed_dec (n : Z) : parse_signed (dec n) = Some n.
Proof.
  rw /dec. destruct (Z.ltb_spec n 0).
  - simpl. rw parse_nat_dec; [lia|]. simpl. f_equal. lia.
  - rw parse_signed_unsigned; [by apply dec_nat_digits|]. by apply parse_nat_dec.
Qed.

Theorem atoi_dec (n : Z) : in_int64 n = true → atoi (dec n) = Some n.
Proof. intros H. by rw /atoi parse_signed_dec H. Qed.

(** *** Padding *)

Lemma zeros_digits (n : nat) : all_digits (zeros n) = true.
Proof. induction n; simpl; done. Qed.
Lemma zeros_val (n : nat) : digits_val 0 (zeros n) = 0.
Proof. by induction n. Qed.
Lemma length_zeros (n : nat) : String.length (zeros n) = n.
Proof. induction n; simpl; congruence. Qed.

Lemma pad_dec_digits (w : nat) (n : Z) : 0 ≤ n → all_digits (pad_dec w n) = true.
Proof. intros. by rw /pad_dec all_digits_app zeros_digits dec_nat_digits. Qed.
Lemma pad_dec_val (w : nat) (n : Z) : 0 ≤ n → digits_val 0 (pad_dec w n) = n.
Proof. intros. by rw /pad_dec digits_val_app zeros_val dec_nat_val. Qed.

Lemma dec_fuel_length (f : nat) (n : Z) (acc : string) (w : nat) :
  0 ≤ n < 10 ^ Z.of_nat w → (0 < w)%nat →
  (String.length (dec_fuel f n acc) ≤ w + String.length acc)%nat.
Proof.
  revert n acc w; induction f as [|f IH]; intros n acc w Hn Hw; simpl; [lia|].
  destruct (Z.ltb_spec n 10); [simpl; lia|].
  destruct w as [|[|w]]; [lia|simpl in Hn; lia|].
  etrans; [apply (IH _ _ (S w))|simpl; lia]; [|lia].
  rw (Nat2Z.inj_succ (S w)) Z.pow_succ_r in Hn; [lia|].
  split; [lia|]. apply Z.div_lt_upper_bound; lia.
Qed.

Lemma length_pad_dec (w : nat) (n : Z) :
  0 ≤ n < 10 ^ Z.of_nat w → (0 < w)%nat → String.length (pad_dec w n) = w.
Proof.
  intros Hn Hw. rw /pad_dec length_app_str length_zeros.
  pose proof (dec_fuel_length (S (Z.to_nat (Z.log2 n))) n "" w Hn Hw) as H.
  fold (dec_nat n) in H. simpl in H. lia.
Qed.

#[export] Hint Resolve dec_nat_digits pad_dec_digits zeros_digits byte_val_range : go_strings.

(** ** Strings over an alphabet *)

Fixpoint all_chars (p : ascii → bool) (s : string) : bool :=
  match s with EmptyString => true | String c s' => p c && all_chars p s' end.
Lemma all_chars_app p a b : all_chars p (a +:+ b) = all_chars p a && all_chars p b.
Proof. induction a as [|c a IH]; simpl; [done|]. by rw IH andb_assoc. Qed.
Lemma all_chars_impl (p q : ascii → bool) s :
  (∀ c, p c = true → q c = true) → all_chars p s = true → all_chars q s = true.
Proof.
  intros Hpq. induction s as [|c s IH]; simpl; [done|]. intros [H1 H2]%andb_prop.
  by rw (Hpq c H1) IH.
Qed.
Lemma all_chars_digits s : all_digits s = all_chars is_digit s.
Proof. induction s as [|c s IH]; simpl; [done|]. by rw IH. Qed.
Lemma all_chars_no_char p c s : p c = false → all_chars p s = true → no_char c s = true.
Proof.
  intros Hc. induction s as [|a s IH]; simpl; [done|]. intros [H1 H2]%andb_prop. rw IH // andb_true_r.
  apply negb_true_iff, bool_decide_eq_false. intros ->. by rw Hc in H1.
Qed.
