(* ===== verification/Float64.v ===== *)
(** * IEEE 754 binary64, as Go's [float64] and JavaScript's numbers

    A finite binary64 is an integer multiple of 2^-1074, so it is carried as
    that integer: equality and order are those of [Z], every operation computes
    exactly and then rounds to nearest, ties to even ([rnd]).  Negative zero is
    not distinguished from zero; values of 2^1024 and more are infinities and
    are recognised by [overflows]. *)
From S2P Require Import Prelude GoStrings.

Definition UNIT : Z := 2 ^ 1074.

(** Integer nearest to [num / den], ties to even ([den > 0]). *)
Definition round_half_even (num den : Z) : Z :=
  let q := num `div` den in
  let r := num `mod` den in
  if 2 * r <? den then q
  else if den <? 2 * r then q + 1
  else if Z.even q then q else q + 1.

(** Exponent of the last place of a positive quantity of [q] units. *)
Definition ulp_exp (q : Z) : Z := Z.max 0 (Z.log2 q - 52).

(** Nearest binary64 to [num / den] units ([den > 0]). *)
Definition rnd (num den : Z) : Z :=
  let a := Z.abs num in
  let u := 2 ^ ulp_exp (a `div` den) in
  Z.sgn num * (round_half_even a (den * u) * u).

Definition overflows (x : Z) : bool := 2 ^ 2098 <=? Z.abs x.

Definition f_of_Z (n : Z) : Z := rnd (n * UNIT) 1.
Definition f_add (x y : Z) : Z := rnd (x + y) 1.
Definition f_sub (x y : Z) : Z := rnd (x - y) 1.
Definition f_mul (x y : Z) : Z := rnd (x * y) UNIT.
Definition f_div (x y : Z) : Z :=
  if y <? 0 then rnd (- x * UNIT) (- y) else rnd (x * UNIT) y.
(** [int64(f)]: truncation towards zero; and [math.Floor]. *)
Definition f_trunc (x : Z) : Z := Z.quot x UNIT.
Definition f_floor (x : Z) : Z := x `div` UNIT.

(** ** Decimal literals *)

(** [m * 10^e] to the nearest binary64. *)
Definition dec_value (m e : Z) : Z :=
  if 0 <=? e then rnd (m * 10 ^ e * UNIT) 1 else rnd (m * UNIT) (10 ^ (- e)).

Fixpoint span_digits (s : string) : string * string :=
  match s with
  | String c s' => if is_digit c then let (a, b) := span_digits s' in (String c a, b) else ("", s)
  | EmptyString => ("", "")
  end.

(** [-? digits (. digits)? ([eE] [+-]? digits)?], the JSON grammar; what
    [strconv.ParseFloat] accepts beyond it (hexadecimal, [inf], [nan]) never
    reaches it in this program. *)
Definition lex_exp (s : string) : option (Z * string) :=
  match s with
  | String c s1 =>
      if bool_decide (c = "e"%char) || bool_decide (c = "E"%char) then
        let '(neg, s2) := match s1 with
                          | String "-" t => (true, t)
                          | String "+" t => (false, t)
                          | _ => (false, s1)
                          end in
        let (ds, rest) := span_digits s2 in
        n ← parse_nat ds; Some (if neg : bool then - n else n, rest)
      else Some (0, s)
  | EmptyString => Some (0, s)
  end.
Definition lex_frac (s : string) : option (string * string) :=
  match s with
  | String "." s1 =>
      let (ds, rest) := span_digits s1 in
      if bool_decide (ds = "") then None else Some (ds, rest)
  | _ => Some ("", s)
  end.
Definition lex_unsigned (s : string) : option (Z * Z * string) :=
  let (ip, s1) := span_digits s in
  if bool_decide (ip = "") then None
  else '(fp, s2) ← lex_frac s1;
       '(e, s3) ← lex_exp s2;
       Some (digits_val 0 (ip +:+ fp), e - slen fp, s3).
(** Mantissa, decimal exponent and the rest of the input. *)
Definition lex_number (s : string) : option (Z * Z * string) :=
  match s with
  | String "-" s' => '(m, e, r) ← lex_unsigned s'; Some (- m, e, r)
  | _ => lex_unsigned s
  end.

(** [strconv.ParseFloat(s, 64)] on such literals. *)
Definition parse_float (s : string) : option Z :=
  '(m, e, rest) ← lex_number s;
  if bool_decide (rest = "") then
    let x := dec_value m e in if overflows x then None else Some x
  else None.

(** ** Shortest formatting that reads back: [strconv.FormatFloat(x, 'f', -1, 64)] *)

(** [floor (log10 v)] for [v = x / UNIT > 0]: an estimate from the binary
    exponent, corrected by one. *)
Definition ge_pow10 (x k : Z) : bool :=
  if 0 <=? k then 10 ^ k * UNIT <=? x else UNIT <=? x * 10 ^ (- k).
Definition log10_floor (x : Z) : Z :=
  let g := ((Z.log2 x - 1074) * 30103) `div` 100000 in
  if ge_pow10 x (g + 1) then g + 1 else if ge_pow10 x g then g else g - 1.

(** The [p]-digit decimal closest to [x]. *)
Definition round_digits (x : Z) (p : nat) : Z * Z :=
  let e := log10_floor x - (Z.of_nat p - 1) in
  (if 0 <=? e then round_half_even x (UNIT * 10 ^ e)
   else round_half_even (x * 10 ^ (- e)) UNIT, e).

(** Positional notation of [d * 10^e]. *)
Definition show_pos (d e : Z) : string :=
  if 0 <=? e then dec_nat d +:+ zeros (Z.to_nat e)
  else dec_nat (d `div` 10 ^ (- e)) +:+ "." +:+ pad_dec (Z.to_nat (- e)) (d `mod` 10 ^ (- e)).

(** The exact expansion, used when no 17-digit decimal reads back. *)
Definition exact_digits (x : Z) : Z * Z := (x * 5 ^ 1074, -1074).

Definition shortest (x : Z) : Z * Z :=
  match List.find (λ de, bool_decide (parse_float (show_pos de.1 de.2) = Some x))
          (List.map (round_digits x) (seq 1 17)) with
  | Some de => de
  | None => exact_digits x
  end.

Definition format_f (x : Z) : string :=
  if bool_decide (x = 0) then "0"
  else let de := shortest (Z.abs x) in
       (if x <? 0 then "-" else "") +:+ show_pos de.1 de.2.

#[global] Arguments overflows : simpl never.
#[global] Arguments dec_value : simpl never.
#[global] Arguments rnd : simpl never.

(** Finite binary64 values. *)
Definition is_f64 (x : Z) : Prop := rnd x 1 = x ∧ overflows x = false.
#[global] Instance is_f64_dec x : Decision (is_f64 x).
Proof. apply and_dec; apply _. Defined.

Example format_ex1 : format_f (f_div (f_of_Z 1) (f_of_Z 10)) = "0.1".
Proof. vm_compute. reflexivity. Qed.
Example format_ex2 : format_f (f_add (f_of_Z 1600000000) (f_div (f_of_Z 123456789) (f_of_Z 1000000000)))
  = "1600000000.1234567".
Proof. vm_compute. reflexivity. Qed.
Example format_ex3 : format_f (f_of_Z (-12345678901234567890)) = "-12345678901234567000".
Proof. vm_compute. reflexivity. Qed.

(** ** Rounding *)

Definition representable (x : Z) : Prop :=
  ∃ m e, 0 ≤ e ∧ Z.abs m ≤ 2 ^ 53 ∧ x = m * 2 ^ e.

Lemma UNIT_pos : 0 < UNIT.
Proof. rw /UNIT. apply Z.pow_pos_nonneg; lia. Qed.
#[export] Hint Resolve UNIT_pos : floats.

Lemma round_half_even_exact (q d : Z) : 0 < d → round_half_even (q * d) d = q.
Proof.
  intros Hd. rw /round_half_even Z.div_mul; [lia|]. rw Z.mod_mul; [lia|].
  destruct (Z.ltb_spec (2 * 0) d); [done|lia].
Qed.

Lemma round_half_even_range (n d : Z) :
  0 < d → n `div` d ≤ round_half_even n d ≤ n `div` d + 1.
Proof. intros Hd. rw /round_half_even. repeat case_match; lia. Qed.

(** Rounding moves a value by at most half a unit. *)
Lemma round_half_even_near (n d : Z) :
  0 < d → 2 * Z.abs (round_half_even n d * d - n) ≤ d.
Proof.
  intros Hd. rw /round_half_even. pose proof (Z.div_mod n d ltac:(lia)) as Hn.
  pose proof (Z.mod_pos_bound n d Hd).
  set (q := n `div` d) in *. set (r := n `mod` d) in *.
  destruct (Z.ltb_spec (2 * r) d); [nia|].
  destruct (Z.ltb_spec d (2 * r)); [nia|].
  destruct (Z.even q); nia.
Qed.

Lemma round_half_even_mono_exact (n d q : Z) :
  0 < d → 2 * Z.abs (n - q * d) < d → round_half_even n d = q.
Proof. intros Hd H. pose proof (round_half_even_near n d Hd). nia. Qed.

Lemma ulp_exp_nonneg (q : Z) : 0 ≤ ulp_exp q.
Proof. rw /ulp_exp. lia. Qed.
#[export] Hint Resolve ulp_exp_nonneg : floats.

Lemma ulp_pos (q : Z) : 0 < 2 ^ ulp_exp q.
Proof. apply Z.pow_pos_nonneg; auto with floats lia. Qed.
#[export] Hint Resolve ulp_pos : floats.

Lemma ulp_divides (m e : Z) :
  0 ≤ e → 0 ≤ m ≤ 2 ^ 53 → (2 ^ ulp_exp (m * 2 ^ e) | m * 2 ^ e).
Proof.
  intros He Hm. destruct (decide (m = 0)) as [->|Hm0]; [by exists 0|].
  assert (Hl : Z.log2 (m * 2 ^ e) = e + Z.log2 m) by (apply Z.log2_mul_pow2; lia).
  rw /ulp_exp Hl.
  destruct (decide (m = 2 ^ 53)) as [->|Hm'].
  - rw Z.log2_pow2; [lia|]. replace (Z.max 0 _) with (e + 1) by lia.
    exists (2 ^ 52). rw (Z.add_comm e) Z.pow_add_r //. lia.
  - assert (Z.log2 m ≤ 52) by (apply Z.lt_succ_r, Z.log2_lt_pow2; simpl; lia).
    set (k := Z.max 0 _). assert (0 ≤ k ≤ e) by lia.
    exists (m * 2 ^ (e - k)). rw -Z.mul_assoc -Z.pow_add_r; [lia..|]. do 2 f_equal. lia.
Qed.

(** A representable value is its own rounding, whatever the denominator. *)
Lemma rnd_exact (x den : Z) : 0 < den → representable x → rnd (x * den) den = x.
Proof.
  intros Hd (m & e & He & Hm & ->). set (x := m * 2 ^ e).
  rw /rnd Z.abs_mul (Z.abs_eq den); [lia|]. rw Z.div_mul; [lia|].
  assert (Habs : Z.abs x = Z.abs m * 2 ^ e).
  { rw /x Z.abs_mul (Z.abs_eq (2 ^ e)) //. apply Z.pow_nonneg. lia. }
  destruct (ulp_divides (Z.abs m) e He ltac:(lia)) as [t Ht]. rw -Habs in Ht.
  set (u := 2 ^ ulp_exp (Z.abs x)) in *.
  assert (0 < u) by apply ulp_pos.
  rw Ht. replace (t * u * den) with (t * (den * u)) by lia.
  rw round_half_even_exact; [nia|]. rw -Ht Z.sgn_mul (Z.sgn_pos den) //.
  rw Z.mul_1_r Z.mul_comm. apply Z.abs_sgn.
Qed.

Lemma rnd_exact_1 (x : Z) : representable x → rnd x 1 = x.
Proof. intros H. rw -{1}(Z.mul_1_r x). by apply rnd_exact. Qed.

(** Every result of rounding is representable. *)
Lemma rnd_representable (num den : Z) : 0 < den → representable (rnd num den).
Proof.
  intros Hd. rw /rnd. set (a := Z.abs num). set (q := a `div` den).
  assert (Ha : 0 ≤ q) by (apply Z.div_pos; lia).
  set (u := 2 ^ ulp_exp q). assert (Hu : 0 < u) by apply ulp_pos.
  exists (Z.sgn num * round_half_even a (den * u)), (ulp_exp q).
  split; [auto with floats|]. split; [|fold u; lia].
  assert (Hr : 0 ≤ round_half_even a (den * u) ≤ 2 ^ 53).
  { pose proof (round_half_even_range a (den * u) ltac:(lia)) as [H1 H2].
    rw -Z.div_div in H1 H2; [lia..|]. fold q in H1, H2.
    assert (0 ≤ q `div` u) by (apply Z.div_pos; lia).
    assert (q `div` u < 2 ^ 53); [|lia].
    apply Z.div_lt_upper_bound; [lia|].
    destruct (decide (q = 0)) as [->|Hq]; [simpl; lia|].
    apply Z.lt_le_trans with (2 ^ Z.succ (Z.log2 q)); [apply Z.log2_spec; lia|].
    rw /u -Z.pow_add_r //; [auto with floats|].
    apply Z.pow_le_mono_r; [lia|]. rw /ulp_exp. lia. }
  rw Z.abs_mul. pose proof (Z.abs_nonneg (Z.sgn num)).
  assert (Z.abs (Z.sgn num) ≤ 1) by (destruct num; simpl; lia). nia.
Qed.

Lemma rnd_opp (num den : Z) : rnd (- num) den = - rnd num den.
Proof. rw /rnd Z.abs_opp Z.sgn_opp. lia. Qed.

Lemma overflows_opp (x : Z) : overflows (- x) = overflows x.
Proof. by rw /overflows Z.abs_opp. Qed.

Lemma is_f64_representable (x : Z) : is_f64 x → representable x.
Proof. intros [<- _]. by apply rnd_representable. Qed.

Lemma is_f64_opp (x : Z) : is_f64 x → is_f64 (- x).
Proof. intros [H1 H2]. split; [by rw rnd_opp H1|by rw overflows_opp]. Qed.

(** ** Rounding is monotone *)

Lemma round_half_even_mono (n m d : Z) :
  0 < d → n ≤ m → round_half_even n d ≤ round_half_even m d.
Proof.
  intros Hd Hnm. destruct (Z.eq_dec (n `div` d) (m `div` d)) as [E|E].
  - rw /round_half_even E. assert (n `mod` d ≤ m `mod` d) by (rw !Z.mod_eq; [lia..|]; rw E; lia).
    repeat case_match; lia.
  - pose proof (Z.div_le_mono n m d Hd Hnm).
    pose proof (round_half_even_range n d Hd). pose proof (round_half_even_range m d Hd). lia.
Qed.

Lemma round_half_even_nonneg (n d : Z) : 0 < d → 0 ≤ n → 0 ≤ round_half_even n d.
Proof.
  intros Hd Hn. pose proof (round_half_even_range n d Hd). pose proof (Z.div_pos n d Hn Hd). lia.
Qed.

Lemma rnd_nonneg_eq (n den : Z) :
  0 ≤ n → 0 < den →
  rnd n den = round_half_even n (den * 2 ^ ulp_exp (n `div` den)) * 2 ^ ulp_exp (n `div` den).
Proof.
  intros Hn Hd. rw /rnd Z.abs_eq //. pose proof (ulp_pos (n `div` den)) as Hu.
  destruct (Z.eq_dec n 0) as [->|Hne]; [|rw Z.sgn_pos; lia].
  rw Z.sgn_0 Z.mul_0_l. pose proof (round_half_even_exact 0 (den * 2 ^ ulp_exp (0 `div` den)) ltac:(nia)) as E.
  rw Z.mul_0_l in E. by rw E.
Qed.

Lemma ulp_exp_mono (p q : Z) : p ≤ q → ulp_exp p ≤ ulp_exp q.
Proof. intros H. rw /ulp_exp. pose proof (Z.log2_le_mono p q H). lia. Qed.

(** A bound the rounding grid holds is kept by rounding. *)
Lemma rnd_le_grid (n den x : Z) :
  0 ≤ n → 0 < den → n ≤ x * den → (2 ^ ulp_exp (n `div` den) | x) → rnd n den ≤ x.
Proof.
  intros Hn Hd Hx [k ->]. rw rnd_nonneg_eq //. pose proof (ulp_pos (n `div` den)) as Hu.
  set (u := 2 ^ ulp_exp _) in *. apply Z.mul_le_mono_nonneg_r; [lia|].
  rw -(round_half_even_exact k (den * u)); [nia|]. apply round_half_even_mono; nia.
Qed.
Lemma rnd_ge_grid (n den x : Z) :
  0 ≤ n → 0 < den → x * den ≤ n → (2 ^ ulp_exp (n `div` den) | x) → x ≤ rnd n den.
Proof.
  intros Hn Hd Hx [k ->]. rw rnd_nonneg_eq //. pose proof (ulp_pos (n `div` den)) as Hu.
  set (u := 2 ^ ulp_exp _) in *. apply Z.mul_le_mono_nonneg_r; [lia|].
  rw -{1}(round_half_even_exact k (den * u)); [nia|]. apply round_half_even_mono; nia.
Qed.

Lemma rnd_nonneg (n den : Z) : 0 ≤ n → 0 < den → 0 ≤ rnd n den.
Proof. intros. apply rnd_ge_grid; [lia..|]. by exists 0. Qed.

Lemma rnd_mono_nonneg (n m den : Z) : 0 < den → 0 ≤ n ≤ m → rnd n den ≤ rnd m den.
Proof.
  intros Hd [Hn Hm]. set (p := n `div` den). set (q := m `div` den).
  assert (Hp : 0 ≤ p) by (apply Z.div_pos; lia).
  assert (Hpq : p ≤ q) by (apply Z.div_le_mono; lia).
  destruct (Z.eq_dec (ulp_exp p) (ulp_exp q)) as [E|E].
  - rw !rnd_nonneg_eq; [lia..|]. fold p q. rw E. pose proof (ulp_pos q).
    apply Z.mul_le_mono_nonneg_r; [lia|]. apply round_half_even_mono; nia.
  - pose proof (ulp_exp_mono _ _ Hpq) as Hlt. pose proof (ulp_exp_nonneg p) as H0.
    assert (Hq : ulp_exp q = Z.log2 q - 52) by (rw /ulp_exp in Hlt E H0 |- *; lia).
    assert (Hl : Z.log2 p < Z.log2 q) by (rw /ulp_exp in Hlt E H0; lia).
    assert (H1 : 2 ^ Z.log2 q ≤ q) by (apply Z.log2_spec; destruct (Z.eq_dec q 0) as [E0|]; [rw E0 in Hl; pose proof (Z.log2_nonneg p); simpl in Hl; lia|lia]).
    assert (H2 : p < 2 ^ Z.log2 q).
    { destruct (Z.eq_dec p 0) as [->|]; [apply Z.pow_pos_nonneg; auto using Z.log2_nonneg with zarith|].
      apply Z.log2_lt_pow2; lia. }
    assert (H3 : q * den ≤ m) by (rw Z.mul_comm; apply Z.mul_div_le; lia).
    assert (H4 : n < (p + 1) * den) by (pose proof (Z.mul_succ_div_gt n den Hd); unfold p; lia).
    apply Z.le_trans with (2 ^ Z.log2 q).
    + apply rnd_le_grid; [lia|lia| |].
      { apply Z.le_trans with ((p + 1) * den); [lia|]. apply Z.mul_le_mono_nonneg_r; lia. } 
      fold p. exists (2 ^ (Z.log2 q - ulp_exp p)).
      rw -Z.pow_add_r; [lia|lia|]. f_equal. lia.
    + apply rnd_ge_grid; [lia|lia| |].
      { apply Z.le_trans with (q * den); [|lia]. apply Z.mul_le_mono_nonneg_r; lia. }
      fold q. exists (2 ^ 52).
      rw -Z.pow_add_r; [lia|lia|]. f_equal. lia.
Qed.

Lemma rnd_mono (n m den : Z) : 0 < den → n ≤ m → rnd n den ≤ rnd m den.
Proof.
  intros Hd H. destruct (Z.le_gt_cases 0 n) as [Hn|Hn]; [by apply rnd_mono_nonneg|].
  rw -(Z.opp_involutive n) rnd_opp. destruct (Z.le_gt_cases 0 m) as [Hm|Hm].
  - pose proof (rnd_nonneg (- n) den ltac:(lia) Hd). pose proof (rnd_nonneg m den Hm Hd). lia.
  - rw -(Z.opp_involutive m) (rnd_opp (- m)).
    pose proof (rnd_mono_nonneg (- m) (- n) den Hd). lia.
Qed.

(** Rounding moves a value by at most half its last place. *)
Lemma rnd_near (n den : Z) :
  0 < den → 0 ≤ n → 2 * Z.abs (rnd n den * den - n) ≤ den * 2 ^ ulp_exp (n `div` den).
Proof.
  intros Hd Hn. rw rnd_nonneg_eq //. pose proof (ulp_pos (n `div` den)) as Hu.
  pose proof (round_half_even_near n (den * 2 ^ ulp_exp (n `div` den)) ltac:(nia)) as H.
  set (u := 2 ^ ulp_exp _) in *. set (r := round_half_even _ _) in *.
  replace (r * u * den) with (r * (den * u)) by lia. done.
Qed.

Lemma ulp_exp_below (q k : Z) : 52 < k → q < 2 ^ k → ulp_exp q ≤ k - 53.
Proof.
  intros Hk Hq. rw /ulp_exp. destruct (Z.le_gt_cases q 0) as [H|H].
  - rw Z.log2_nonpos //. lia.
  - assert (Z.log2 q < k); [|lia]. apply Z.log2_lt_pow2; lia.
Qed.

(** Integers of 53 bits are exact. *)
Lemma f_of_Z_exact (n : Z) : Z.abs n ≤ 2 ^ 53 → f_of_Z n = n * UNIT.
Proof. intros H. rw /f_of_Z. apply rnd_exact_1. exists n, 1074. done. Qed.

(** ** Reading a literal back *)

Lemma dec_value_opp (m e : Z) : dec_value (- m) e = - dec_value m e.
Proof. rw /dec_value. case_match; rw -rnd_opp; f_equal; lia. Qed.

Lemma span_digits_all (s : string) : all_digits s = true → span_digits s = (s, "").
Proof.
  induction s as [|c s IH]; [done|]; simpl. intros [Hc Hs]%andb_true_iff. by rw Hc IH.
Qed.

Lemma span_digits_stop (s t : string) (c : ascii) :
  all_digits s = true → is_digit c = false → span_digits (s +:+ String c t) = (s, String c t).
Proof.
  intros Hs Hc. induction s as [|a s IH]; simpl in *; [by rw Hc|].
  apply andb_true_iff in Hs as [Ha Hs]. by rw Ha IH.
Qed.

Lemma lex_number_digit (s : string) (c : ascii) (t : string) :
  s = String c t → is_digit c = true → lex_number s = lex_unsigned s.
Proof.
  intros -> Hc. destruct c as [[] [] [] [] [] [] [] []]; try done; vm_compute in Hc; discriminate.
Qed.

Lemma digits_first (s t : string) :
  all_digits s = true → s ≠ "" → ∃ c u, s +:+ t = String c u ∧ is_digit c = true.
Proof.
  destruct s as [|c s]; [done|]. simpl. intros [Hc _]%andb_true_iff _. by exists c, (s +:+ t).
Qed.

Lemma slen_pad (w n : Z) : 0 < w → 0 ≤ n < 10 ^ w → slen (pad_dec (Z.to_nat w) n) = w.
Proof. intros. rw /slen length_pad_dec; rw ?Z2Nat.id; lia. Qed.

Lemma slen_zeros (e : Z) : 0 ≤ e → slen (zeros (Z.to_nat e)) = e.
Proof. intros. rw /slen length_zeros Z2Nat.id //. Qed.

(** The text of [d * 10^e] denotes it, and so reads back to its rounding. *)
Lemma lex_show_pos (d e : Z) :
  0 ≤ d → ∃ m' e', lex_number (show_pos d e) = Some (m', e', "") ∧ dec_value m' e' = dec_value d e.
Proof.
  intros Hd. rw /show_pos. destruct (Z.leb_spec 0 e) as [He|He].
  - set (s := dec_nat d +:+ zeros (Z.to_nat e)).
    assert (Hs : all_digits s = true) by (rw /s all_digits_app dec_nat_digits // zeros_digits //).
    destruct (digits_first (dec_nat d) (zeros (Z.to_nat e)) (dec_nat_digits d Hd) (dec_nat_nonempty d))
      as (c & u & Hcu & Hc). fold s in Hcu.
    exists (d * 10 ^ e), 0. split.
    + rw (lex_number_digit s c u Hcu Hc) /lex_unsigned span_digits_all //.
      rw bool_decide_eq_false_2; [by rw Hcu|]. simpl. rw app_str_nil_r /s digits_val_app.
      rw digits_val_shift zeros_val dec_nat_val // slen_zeros //. do 3 f_equal. lia.
    + rw /dec_value. simpl. destruct (Z.leb_spec 0 e); [|lia]. f_equal. lia.
  - set (ip := d `div` 10 ^ (- e)). set (fp := d `mod` 10 ^ (- e)).
    assert (H10 : 0 < 10 ^ (- e)) by (apply Z.pow_pos_nonneg; lia).
    assert (0 ≤ ip) by (apply Z.div_pos; lia).
    assert (Hfp : 0 ≤ fp < 10 ^ (- e)) by (apply Z.mod_pos_bound; lia).
    destruct (digits_first (dec_nat ip) ("." +:+ pad_dec (Z.to_nat (- e)) fp)
      (dec_nat_digits ip ltac:(done)) (dec_nat_nonempty ip)) as (c & u & Hcu & Hc).
    exists d, e. split; [|done].
    rw (lex_number_digit _ c u Hcu Hc) /lex_unsigned. simpl ("." +:+ _).
    rw span_digits_stop //; [by apply dec_nat_digits|]. rw bool_decide_eq_false_2; [apply dec_nat_nonempty|].
    simpl. rw span_digits_all; [apply pad_dec_digits; lia|].
    rw bool_decide_eq_false_2.
    { intros Hn. apply (f_equal slen) in Hn. rw slen_pad in Hn; [lia..|]. by unfold slen in Hn; simpl in Hn; lia. }
    simpl. rw digits_val_app digits_val_shift pad_dec_val; [lia|]. rw dec_nat_val //.
    rw slen_pad; [lia..|]. do 3 f_equal; [|lia].
    rw /ip /fp. pose proof (Z.div_mod d (10 ^ (- e))). lia.
Qed.

Lemma parse_float_lex (s : string) (m e : Z) :
  lex_number s = Some (m, e, "") →
  parse_float s = if overflows (dec_value m e) then None else Some (dec_value m e).
Proof. by rw /parse_float => ->. Qed.

Lemma parse_show_pos (d e : Z) :
  0 ≤ d → overflows (dec_value d e) = false → parse_float (show_pos d e) = Some (dec_value d e).
Proof.
  intros Hd Ho. destruct (lex_show_pos d e Hd) as (m' & e' & Hl & Hv).
  rw /parse_float Hl. simpl. by rw Hv Ho.
Qed.

Lemma pow10_1074 : 10 ^ 1074 = 5 ^ 1074 * UNIT.
Proof. rw /UNIT -Z.pow_mul_l. reflexivity. Qed.

Lemma exact_digits_value (x : Z) :
  representable x → dec_value (exact_digits x).1 (exact_digits x).2 = x.
Proof.
  intros H. change (rnd (x * 5 ^ 1074 * UNIT) (10 ^ 1074) = x).
  rw -Z.mul_assoc -pow10_1074. apply rnd_exact; [|done]. apply Z.pow_pos_nonneg; lia.
Qed.

Lemma pow5_1074_nonneg : 0 ≤ 5 ^ 1074.
Proof. apply Z.pow_nonneg. lia. Qed.

Lemma shortest_reads_back (x : Z) :
  0 ≤ x → is_f64 x → parse_float (show_pos (shortest x).1 (shortest x).2) = Some x.
Proof.
  intros Hx Hf. rw /shortest. destruct (List.find _ _) eqn:E.
  - apply List.find_some in E as [_ E]. by apply bool_decide_eq_true_1 in E.
  - pose proof (exact_digits_value x (is_f64_representable x Hf)) as Hv.
    rw parse_show_pos.
    + pose proof pow5_1074_nonneg. rw /exact_digits /fst. apply Z.mul_nonneg_nonneg; done.
    + rw Hv. apply Hf.
    + by rw Hv.
Qed.

Lemma parse_float_neg (s : string) (x : Z) :
  parse_float s = Some x → lex_number s = lex_unsigned s →
  parse_float (String "-" s) = Some (- x).
Proof.
  rw /parse_float. intros H Hl. rw Hl in H. simpl.
  destruct (lex_unsigned s) as [[[m e] r]|]; [|done]. simpl in *.
  case_bool_decide; [|done]. rw dec_value_opp overflows_opp.
  destruct (overflows (dec_value m e)); [done|]. by injection H as <-.
Qed.

Lemma shortest_nonneg (x : Z) : 0 ≤ x → 0 ≤ (shortest x).1.
Proof.
  intros Hx. pose proof UNIT_pos. rw /shortest. destruct (List.find _ _) as [de|] eqn:E.
  - apply List.find_some in E as [Hin _]. apply List.in_map_iff in Hin as (p & <- & _).
    rw /round_digits. simpl. destruct (Z.leb_spec 0 (log10_floor x - (Z.of_nat p - 1))).
    + apply round_half_even_nonneg; [|done]. apply Z.mul_pos_pos; [done|]. apply Z.pow_pos_nonneg; lia.
    + apply round_half_even_nonneg; [done|]. apply Z.mul_nonneg_nonneg; [done|].
      apply Z.pow_nonneg. lia.
  - apply Z.mul_nonneg_nonneg; [done|apply pow5_1074_nonneg].
Qed.

Lemma show_pos_digit (d e : Z) :
  0 ≤ d → ∃ c u, show_pos d e = String c u ∧ is_digit c = true.
Proof.
  intros Hd. rw /show_pos. case_match; apply digits_first; try apply dec_nat_nonempty;
    apply dec_nat_digits; [done|]. apply Z.div_pos; [done|]. apply Z.pow_pos_nonneg; lia.
Qed.

(** [ParseFloat] of what [FormatFloat] prints is the number itself. *)
Theorem parse_format_f (x : Z) : is_f64 x → parse_float (format_f x) = Some x.
Proof.
  intros Hf. rw /format_f. case_bool_decide as H0; [by subst|].
  assert (Ha : is_f64 (Z.abs x)).
  { destruct (Z.abs_spec x) as [[_ ->]|[_ ->]]; [done|by apply is_f64_opp]. }
  pose proof (shortest_reads_back (Z.abs x) (Z.abs_nonneg x) Ha) as Hs.
  pose proof (shortest_nonneg (Z.abs x) (Z.abs_nonneg x)) as Hn.
  destruct (Z.ltb_spec x 0).
  - destruct (show_pos_digit _ (shortest (Z.abs x)).2 Hn) as (c & u & Hcu & Hc).
    change (?a +:+ ?b) with (String "-" b). rw (parse_float_neg _ (Z.abs x)) //.
    + apply (lex_number_digit _ c u Hcu Hc).
    + f_equal. lia.
  - change ("" +:+ ?b) with b. rw Hs. f_equal. lia.
Qed.
