(* ===== verification/GoTime.v ===== *)
(** * Instants and timestamps: Go's [time] package as [util.go] uses it

    An instant is its number of nanoseconds since the Unix epoch.  Timestamps
    are RFC 3339 strings with up to nine fractional digits
    ([time.RFC3339Nano]), written in UTC by [Thens] and [Nows] and read by
    [ParseTime] (Go 1.16 rules: one-digit hours are accepted, numeric zone
    offsets are accepted, the day is checked against its month). *)
From S2P Require Import Prelude GoStrings.

Definition SEC : Z := 1000000000.
Definition unix_sec (t : Z) : Z := t `div` SEC.
Definition nanosecond (t : Z) : Z := t `mod` SEC.

(** ** The proleptic Gregorian calendar *)

Definition is_leap (y : Z) : bool :=
  (y `mod` 4 =? 0) && (negb (y `mod` 100 =? 0) || (y `mod` 400 =? 0)).
Definition days_in (m y : Z) : Z :=
  if m =? 2 then (if is_leap y then 29 else 28)
  else if (m =? 4) || (m =? 6) || (m =? 9) || (m =? 11) then 30 else 31.

(** Day number (epoch day 0 = 1970-01-01) of a date, counting years from March. *)
Definition days_from_civil (y m d : Z) : Z :=
  let y' := if m <=? 2 then y - 1 else y in
  let era := y' `div` 400 in
  let yoe := y' `mod` 400 in
  let mp := if m <=? 2 then m + 9 else m - 3 in
  let doy := (153 * mp + 2) `div` 5 + d - 1 in
  era * 146097 + (yoe * 365 + yoe `div` 4 - yoe `div` 100 + doy) - 719468.

Definition civil_from_days (z : Z) : Z * Z * Z :=
  let z' := z + 719468 in
  let era := z' `div` 146097 in
  let doe := z' `mod` 146097 in
  let yoe := (doe - doe `div` 1460 + doe `div` 36524 - doe `div` 146096) `div` 365 in
  let doy := doe - (365 * yoe + yoe `div` 4 - yoe `div` 100) in
  let mp := (5 * doy + 2) `div` 153 in
  let d := doy - (153 * mp + 2) `div` 5 + 1 in
  let m := if mp <? 10 then mp + 3 else mp - 9 in
  let y := yoe + era * 400 in
  (if m <=? 2 then y + 1 else y, m, d).

(** ** Formatting *)

Fixpoint strip_zeros (s : string) : string :=
  match s with
  | EmptyString => ""
  | String c s' =>
      let t := strip_zeros s' in
      if bool_decide (t = "") && bool_decide (c = "0"%char) then "" else String c t
  end.
Definition format_frac (ns : Z) : string :=
  if ns =? 0 then "" else "." +:+ strip_zeros (pad_dec 9 ns).
Definition pad_year (y : Z) : string := if y <? 0 then "-" +:+ pad_dec 4 (- y) else pad_dec 4 y.

(** [util.Thens]: [tim.UTC().Format(time.RFC3339Nano)]. *)
Definition Thens (t : Z) : string :=
  let s := unix_sec t in
  let '(y, m, d) := civil_from_days (s `div` 86400) in
  let sod := s `mod` 86400 in
  pad_year y +:+ "-" +:+ pad_dec 2 m +:+ "-" +:+ pad_dec 2 d +:+ "T" +:+
  pad_dec 2 (sod `div` 3600) +:+ ":" +:+ pad_dec 2 (sod `div` 60 `mod` 60) +:+ ":" +:+
  pad_dec 2 (sod `mod` 60) +:+ format_frac (nanosecond t) +:+ "Z".

(** ** Parsing *)

(** [getnum]: two digits, or one when not [fixed]. *)
Definition getnum (fixed : bool) (s : string) : option (Z * string) :=
  match s with
  | String a s1 =>
      if is_digit a then
        match s1 with
        | String b s2 => if is_digit b then Some (digit_val a * 10 + digit_val b, s2)
                         else if fixed then None else Some (digit_val a, s1)
        | EmptyString => if fixed then None else Some (digit_val a, "")
        end
      else None
  | EmptyString => None
  end.
Definition get_year (s : string) : option (Z * string) :=
  if bool_decide (String.length (take_str 4 s) = 4%nat) && all_digits (take_str 4 s)
  then Some (digits_val 0 (take_str 4 s), drop_str 4 s) else None.
Definition skip (c : ascii) (s : string) : option string :=
  match s with String a s' => if bool_decide (a = c) then Some s' else None | _ => None end.
Definition in_range (lo hi : Z) (n : Z) : option unit :=
  if (lo <=? n) && (n <=? hi) then Some tt else None.

(** Up to nine digits after a dot; absent when no digit follows. *)
Fixpoint frac_digits (n : nat) (s : string) : string * string :=
  match n, s with
  | S n', String c s' => if is_digit c then let (a, b) := frac_digits n' s' in (String c a, b)
                         else ("", s)
  | _, _ => ("", s)
  end.
Definition get_frac (s : string) : Z * string :=
  match s with
  | String "." s' =>
      let (ds, rest) := frac_digits 9 s' in
      if bool_decide (ds = "") then (0, s)
      else (digits_val 0 ds * 10 ^ (9 - slen ds), rest)
  | _ => (0, s)
  end.
(** [Z] or [(+|-)hh:mm]: seconds east of UTC. *)
Definition get_zone (s : string) : option (Z * string) :=
  match s with
  | String "Z" s' => Some (0, s')
  | String sg (String h1 (String h2 (String ":" (String m1 (String m2 s'))))) =>
      hr ← parse_signed (String h1 (String h2 ""));
      mm ← parse_signed (String m1 (String m2 ""));
      if bool_decide (sg = "+"%char) then Some ((hr * 60 + mm) * 60, s')
      else if bool_decide (sg = "-"%char) then Some (- ((hr * 60 + mm) * 60), s')
      else None
  | _ => None
  end.

Definition parse_rfc3339 (s : string) : option Z :=
  '(y, s) ← get_year s; s ← skip "-" s;
  '(m, s) ← getnum true s; _ ← in_range 1 12 m; s ← skip "-" s;
  '(d, s) ← getnum true s; s ← skip "T" s;
  '(h, s) ← getnum false s; _ ← in_range 0 23 h; s ← skip ":" s;
  '(mi, s) ← getnum true s; _ ← in_range 0 59 mi; s ← skip ":" s;
  '(sc, s) ← getnum true s; _ ← in_range 0 59 sc;
  let (ns, s) := get_frac s in
  '(off, s) ← get_zone s;
  if bool_decide (s = "") then
    _ ← in_range 1 (days_in m y) d;
    Some ((days_from_civil y m d * 86400 + h * 3600 + mi * 60 + sc - off) * SEC + ns)
  else None.

(** [util.ParseTime] *)
Definition ParseTime (s : string) : outcome Z :=
  match parse_rfc3339 s with
  | Some t => Ok t
  | None => Err (ErrMsg ("parsing time " +:+ s))
  end.

Example thens_ex : Thens 1600000000123456000 = "2020-09-13T12:26:40.123456Z".
Proof. vm_compute. reflexivity. Qed.
Example parse_ex : ParseTime "2020-09-13T14:26:40.5+02:00" = Ok 1600000000500000000.
Proof. vm_compute. reflexivity. Qed.

(** ** Calendar lemmas *)

Lemma yoe_doy (doe : Z) :
  0 ≤ doe < 146097 →
  let yoe := (doe - doe `div` 1460 + doe `div` 36524 - doe `div` 146096) `div` 365 in
  let doy := doe - (365 * yoe + yoe `div` 4 - yoe `div` 100) in
  0 ≤ yoe < 400 ∧ 0 ≤ doy ≤ 365.
Proof. intros H yoe doy. lia. Qed.

Lemma doy_365_leap (doe : Z) :
  0 ≤ doe < 146097 →
  let yoe := (doe - doe `div` 1460 + doe `div` 36524 - doe `div` 146096) `div` 365 in
  let doy := doe - (365 * yoe + yoe `div` 4 - yoe `div` 100) in
  doy = 365 → (yoe + 1) `mod` 4 = 0 ∧ ((yoe + 1) `mod` 100 ≠ 0 ∨ (yoe + 1) `mod` 400 = 0).
Proof. intros H yoe doy Hd. lia. Qed.

(** Month and day of a day of the March-based year, and back. *)
Lemma month_of_doy (doy : Z) :
  0 ≤ doy ≤ 365 →
  let mp := (5 * doy + 2) `div` 153 in
  let d := doy - (153 * mp + 2) `div` 5 + 1 in
  let m := if mp <? 10 then mp + 3 else mp - 9 in
  0 ≤ mp ≤ 11 ∧ 1 ≤ m ≤ 12 ∧ (m ≤ 2 ↔ 10 ≤ mp) ∧ 1 ≤ d ≤ 31 ∧
  (m = 2 → d ≤ 29 ∧ (d = 29 → doy = 365)) ∧
  (m = 4 ∨ m = 6 ∨ m = 9 ∨ m = 11 → d ≤ 30).
Proof. intros H mp d m. unfold m. destruct (Z.ltb_spec mp 10); lia. Qed.

Lemma is_leap_shift (y k : Z) : is_leap (y + k * 400) = is_leap y.
Proof. rw /is_leap. f_equal; [|f_equal]; [|f_equal|]; f_equal; lia. Qed.

Lemma is_leap_true (y : Z) :
  y `mod` 4 = 0 → y `mod` 100 ≠ 0 ∨ y `mod` 400 = 0 → is_leap y = true.
Proof. rw /is_leap. intros -> H. simpl. destruct H; lia. Qed.

(** The date of a day number is a date, and its day number is the day. *)
Theorem civil_from_days_spec (z : Z) :
  let '(y, m, d) := civil_from_days z in
  days_from_civil y m d = z ∧ 1 ≤ m ≤ 12 ∧ 1 ≤ d ≤ days_in m y.
Proof.
  rw /civil_from_days. set (z' := z + 719468). set (era := z' `div` 146097).
  set (doe := z' `mod` 146097).
  assert (Hdoe : 0 ≤ doe < 146097) by (unfold doe; lia).
  pose proof (yoe_doy doe Hdoe) as Hy. pose proof (doy_365_leap doe Hdoe) as Hl. simpl in Hy, Hl.
  set (yoe := (doe - _ + _ - _) `div` 365) in *. set (doy := doe - (_ + _ - _)) in *.
  destruct Hy as [Hyoe Hdoy]. pose proof (month_of_doy doy Hdoy) as Hm. simpl in Hm.
  set (mp := (5 * doy + 2) `div` 153) in *. set (d := doy - _ + 1) in *.
  set (m := if mp <? 10 then mp + 3 else mp - 9) in *.
  destruct Hm as (Hmp & Hmr & Hmm & Hd & Hfeb & H30).
  assert (Hinv : days_from_civil (if m <=? 2 then yoe + era * 400 + 1 else yoe + era * 400) m d = z).
  { rw /days_from_civil. destruct (Z.leb_spec m 2) as [Hm2|Hm2].
    - replace (yoe + era * 400 + 1 - 1) with (yoe + era * 400) by lia.
      rw Z.div_add; [lia|]. rw Z.mod_add; [lia|]. rw Z.div_small // Z.mod_small //.
      replace (m + 9) with mp by (unfold m; destruct (Z.ltb_spec mp 10); lia).
      unfold d, doy, z', era, doe in *; lia.
    - rw Z.div_add; [lia|]. rw Z.mod_add; [lia|]. rw Z.div_small // Z.mod_small //.
      replace (m - 3) with mp by (unfold m; destruct (Z.ltb_spec mp 10); lia).
      unfold d, doy, z', era, doe in *; lia. }
  split; [done|]. split; [done|]. split; [lia|].
  rw /days_in. destruct (Z.eqb_spec m 2) as [Hm2|Hm2].
  - destruct (Hfeb Hm2) as [H29 Hd29]. destruct (Z.leb_spec m 2); [|lia].
    destruct (decide (d = 29)) as [Hd'|]; [|case_match; lia].
    destruct (Hl (Hd29 Hd')) as [Hl1 Hl2].
    replace (yoe + era * 400 + 1) with (yoe + 1 + era * 400) by lia.
    by rw is_leap_shift is_leap_true.
  - destruct (Z.eqb_spec m 4), (Z.eqb_spec m 6), (Z.eqb_spec m 9), (Z.eqb_spec m 11); simpl; lia.
Qed.

(** First day of year 0 and last day of year 9999. *)
Definition day_min : Z := -719528.
Definition day_max : Z := 2932896.

Lemma civil_year_range (z : Z) :
  day_min ≤ z ≤ day_max → let '(y, m, d) := civil_from_days z in 0 ≤ y ≤ 9999.
Proof.
  rw /day_min /day_max => Hz. rw /civil_from_days.
  set (z' := z + 719468). set (era := z' `div` 146097). set (doe := z' `mod` 146097).
  assert (Hdoe : 0 ≤ doe < 146097) by (unfold doe; lia).
  pose proof (yoe_doy doe Hdoe) as Hy. simpl in Hy.
  set (yoe := (doe - _ + _ - _) `div` 365) in *. set (doy := doe - (_ + _ - _)) in *.
  destruct Hy as [Hyoe Hdoy]. pose proof (month_of_doy doy Hdoy) as Hm. simpl in Hm.
  set (mp := (5 * doy + 2) `div` 153) in *.
  set (m := if mp <? 10 then mp + 3 else mp - 9) in *.
  destruct Hm as (Hmp & Hmr & Hmm & _ & _ & _).
  assert (Hz' : z' = era * 146097 + doe) by (unfold era, doe; lia).
  assert (doe = yoe * 365 + yoe `div` 4 - yoe `div` 100 + doy) by (unfold doy; lia).
  assert (-1 ≤ era ≤ 24) by (unfold era, z'; lia).
  assert (Hmp' : mp = (5 * doy + 2) `div` 153) by done.
  clearbody yoe doy mp m doe era. unfold z' in *.
  destruct (Z.leb_spec m 2); lia.
Qed.

(** ** A timestamp reads back to its instant *)

Lemma getnum_pad (b : bool) (n : Z) (s : string) :
  0 ≤ n < 100 → getnum b (pad_dec 2 n +:+ s) = Some (n, s).
Proof.
  intros Hn. pose proof (length_pad_dec 2 n ltac:(simpl; lia) ltac:(lia)) as Hl.
  pose proof (pad_dec_digits 2 n ltac:(lia)) as Hd. pose proof (pad_dec_val 2 n ltac:(lia)) as Hv.
  destruct (pad_dec 2 n) as [|x [|y [|]]]; try done. simpl in *.
  apply andb_true_iff in Hd as [Hx Hy]. rw andb_true_r in Hy. rw Hx Hy. do 2 f_equal. lia.
Qed.

Lemma get_year_pad (y : Z) (s : string) :
  0 ≤ y ≤ 9999 → get_year (pad_dec 4 y +:+ s) = Some (y, s).
Proof.
  intros Hy. pose proof (length_pad_dec 4 y ltac:(simpl; lia) ltac:(lia)) as Hl.
  pose proof (take_str_app (pad_dec 4 y) s) as Ht. pose proof (drop_str_app (pad_dec 4 y) s) as Hr.
  rw Hl in Ht Hr. rw /get_year Ht Hr bool_decide_eq_true_2 // pad_dec_digits; [lia|]. simpl.
  rw pad_dec_val //. lia.
Qed.

Lemma strip_zeros_val (s : string) :
  all_digits s = true →
  all_digits (strip_zeros s) = true ∧
  (String.length (strip_zeros s) ≤ String.length s)%nat ∧
  digits_val 0 s = digits_val 0 (strip_zeros s) * 10 ^ (slen s - slen (strip_zeros s)).
Proof.
  induction s as [|c s IH]; [done|]; simpl. intros [Hc Hs]%andb_true_iff.
  destruct (IH Hs) as (IH1 & IH2 & IH3). clear IH.
  destruct (bool_decide (strip_zeros s = "")) eqn:E1; simpl.
  - apply bool_decide_eq_true_1 in E1. rw E1 in IH3. rw digits_val_shift IH3 E1.
    change (slen "") with 0. rw Z.mul_0_l.
    case_bool_decide as E2; simpl.
    + subst c. split; [done|]. split; [lia|]. change (digit_val "0") with 0. lia.
    + split; [by rw Hc|]. split; [lia|].
      change (slen (String c s)) with (Z.of_nat (S (String.length s))).
      change (slen (String c "")) with 1. rw Nat2Z.inj_succ.
      replace (Z.succ _ - 1) with (slen s) by (unfold slen; lia). lia.
  - split; [by rw Hc IH1|]. split; [lia|].
    rw !(digits_val_shift (0 * 10 + digit_val c)) IH3.
    change (slen (String c ?t)) with (Z.of_nat (S (String.length t))).
    rw !Nat2Z.inj_succ. replace (Z.succ _ - Z.succ _) with (slen s - slen (strip_zeros s)) by (unfold slen; lia).
    replace (slen s) with (slen (strip_zeros s) + (slen s - slen (strip_zeros s))) at 1 by lia.
    rw Z.pow_add_r; unfold slen in *; lia.
Qed.

Lemma frac_digits_stop (n : nat) (s t : string) (c : ascii) :
  all_digits s = true → (String.length s ≤ n)%nat → is_digit c = false →
  frac_digits n (s +:+ String c t) = (s, String c t).
Proof.
  revert s; induction n as [|n IH]; intros [|a s] Hs Hl Hc; simpl in *; try done; [lia|by rw Hc|].
  apply andb_true_iff in Hs as [Ha Hs]. rw Ha IH //. lia.
Qed.

Lemma get_frac_format (ns : Z) (t : string) :
  0 ≤ ns < SEC → get_frac (format_frac ns +:+ String "Z" t) = (ns, String "Z" t).
Proof.
  intros Hn. rw /format_frac. destruct (Z.eqb_spec ns 0) as [->|Hz]; [done|].
  pose proof (length_pad_dec 9 ns ltac:(simpl; unfold SEC in *; lia) ltac:(lia)) as Hl.
  destruct (strip_zeros_val (pad_dec 9 ns)) as (H1 & H2 & H3); [apply pad_dec_digits; lia|].
  rw pad_dec_val in H3; [lia|]. set (ds := strip_zeros _) in *.
  change (("." +:+ ds) +:+ ?x) with (String "." (ds +:+ x)). rw /get_frac.
  rw frac_digits_stop //; [lia|]. rw bool_decide_eq_false_2.
  - intros E. rw E in H3. simpl in H3. lia.
  - f_equal. rw H3. unfold slen. by rw Hl.
Qed.

Definition time_in_range (t : Z) : Prop :=
  day_min * 86400 * SEC ≤ t < (day_max + 1) * 86400 * SEC.
#[global] Instance time_in_range_dec t : Decision (time_in_range t).
Proof. apply and_dec; apply _. Defined.

Lemma days_in_le (m y : Z) : days_in m y ≤ 31.
Proof. rw /days_in. repeat case_match; lia. Qed.

#[local] Arguments days_from_civil : simpl never.
#[local] Arguments Z.mul : simpl never.

Lemma in_range_ok (lo hi n : Z) : lo ≤ n ≤ hi → in_range lo hi n = Some tt.
Proof. intros H. rw /in_range. destruct (Z.leb_spec lo n), (Z.leb_spec n hi); simpl; (done || lia). Qed.

Theorem parse_Thens (t : Z) : time_in_range t → ParseTime (Thens t) = Ok t.
Proof.
  rw /time_in_range /day_min /day_max /SEC => Ht.
  set (s := unix_sec t). assert (Hs : s = t `div` 1000000000) by done.
  set (ns := nanosecond t). assert (Hns : ns = t `mod` 1000000000) by done.
  set (dy := s `div` 86400). set (sod := s `mod` 86400).
  assert (Hdy : day_min ≤ dy ≤ day_max) by (unfold dy, day_min, day_max; lia).
  pose proof (civil_from_days_spec dy) as Hc. pose proof (civil_year_range dy Hdy) as Hy.
  rw /ParseTime /Thens. fold s dy sod ns. destruct (civil_from_days dy) as [[y m] d].
  destruct Hc as (Hinv & Hm & Hd). pose proof (days_in_le m y) as H31.
  assert (Hsod : 0 ≤ sod < 86400) by (unfold sod; lia).
  rw /pad_year. destruct (Z.ltb_spec y 0); [lia|].
  rw /parse_rfc3339 get_year_pad //. simpl.
  rw getnum_pad; [lia|]. simpl. rw (in_range_ok 1 12) //. simpl.
  rw getnum_pad; [lia|]. simpl.
  rw getnum_pad; [lia|]. simpl. rw (in_range_ok 0 23); [lia|]. simpl.
  rw getnum_pad; [lia|]. simpl. rw (in_range_ok 0 59); [lia|]. simpl.
  rw getnum_pad; [lia|]. simpl. rw (in_range_ok 0 59); [lia|]. simpl.
  rw get_frac_format; [unfold SEC; lia|]. simpl.
  rw in_range_ok //. simpl. f_equal. rw Hinv /SEC. unfold sod, dy. lia.
Qed.

(** ** The characters of a timestamp *)

Definition time_char (c : ascii) : bool :=
  is_digit c || bool_decide (c = "-"%char) || bool_decide (c = "T"%char) || bool_decide (c = ":"%char)
  || bool_decide (c = "."%char) || bool_decide (c = "Z"%char).

Lemma pad_dec_chars (w : nat) (n : Z) : 0 ≤ n → all_chars time_char (pad_dec w n) = true.
Proof.
  intros Hn. apply (all_chars_impl is_digit).
  - intros c Hc. by rw /time_char Hc.
  - by rw -all_chars_digits pad_dec_digits.
Qed.

Lemma Thens_chars (t : Z) : all_chars time_char (Thens t) = true.
Proof.
  rw /Thens. pose proof (civil_from_days_spec (unix_sec t `div` 86400)) as Hc.
  destruct (civil_from_days _) as [[y m] d]. destruct Hc as (_ & Hm & Hd).
  set (sod := unix_sec t `mod` 86400). assert (Hsod : 0 ≤ sod < 86400) by (unfold sod; lia).
  assert (Hy : all_chars time_char (pad_year y) = true).
  { rw /pad_year. destruct (Z.ltb_spec y 0); [rw all_chars_app|]; (rw pad_dec_chars; [lia|done]). }
  assert (Hf : all_chars time_char (format_frac (nanosecond t)) = true).
  { rw /format_frac. destruct (_ =? 0); [done|]. rw all_chars_app.
    apply (all_chars_impl is_digit); [intros c Hc; by rw /time_char Hc|].
    rw -all_chars_digits. apply strip_zeros_val, pad_dec_digits. rw /nanosecond /SEC. lia. }
  repeat first [exact Hy | exact Hf | apply pad_dec_chars; lia | reflexivity
               | rw all_chars_app; apply andb_true_intro; split].
Qed.
