(* ===== verification/Scores.v ===== *)
(** * Instants as sorted-set scores (src/storage/sorted_redis.go)

    Redis scores are binary64 seconds.  This file holds the two conversions the
    source writes out at every use, an instant to a score ([score_of]) and back
    ([key_time], in [setEntry.Key]), and what rounding does to them: order is
    kept, instants a microsecond apart stay apart, and the key computed from a
    stored score finds that score again. *)
From S2P Require Import Prelude GoStrings Float64 GoTime.

(** [float64(tim.Unix()) + float64(tim.Nanosecond())/1000000000] *)
Definition score_of (t : Z) : Z :=
  f_add (f_of_Z (unix_sec t)) (f_div (f_of_Z (nanosecond t)) (f_of_Z SEC)).

(** [int64(score)] seconds and the truncated rest in nanoseconds. *)
Definition key_time (score : Z) : Z :=
  let secs := f_trunc score in
  let nsecs := f_trunc (f_mul (f_sub score (f_of_Z secs)) (f_of_Z SEC)) in
  secs * SEC + nsecs.

(** ** Scores

    [score_of] rounds to the nearest binary64, so it keeps the order of
    instants; until 2242 it also separates instants a microsecond apart. *)

Lemma unix_sec_small t : time_in_range t → Z.abs (unix_sec t) ≤ 2 ^ 53.
Proof. rw /time_in_range /unix_sec /SEC /day_min /day_max. lia. Qed.
Lemma nanosecond_range t : 0 ≤ nanosecond t < SEC.
Proof. rw /nanosecond /SEC. lia. Qed.
Lemma SEC_small : Z.abs SEC ≤ 2 ^ 53.
Proof. done. Qed.

(** The fraction of a second, rounded. *)
Definition frac_of (ns : Z) : Z := rnd (ns * UNIT) SEC.

Lemma rnd_scale (a b c : Z) : 0 < c → 0 < b → rnd (a * c) (b * c) = rnd a b.
Proof.
  intros Hc Hb. rw /rnd Z.abs_mul (Z.abs_eq c); [lia|]. rw Z.div_mul_cancel_r; [lia..|].
  rw Z.sgn_mul (Z.sgn_pos c) // Z.mul_1_r. do 2 f_equal.
  set (u := 2 ^ _). assert (0 < u) by apply ulp_pos.
  rw /round_half_even. replace (b * c * u) with (b * u * c) by lia.
  rw Z.div_mul_cancel_r; [nia|lia|]. rw Z.mul_mod_distr_r; [nia|lia|].
  set (r := _ `mod` _). set (q := _ `div` _).
  replace (2 * (r * c) <? b * u * c) with (2 * r <? b * u)
    by (destruct (Z.ltb_spec (2 * r) (b * u)), (Z.ltb_spec (2 * (r * c)) (b * u * c)); nia).
  replace (b * u * c <? 2 * (r * c)) with (b * u <? 2 * r)
    by (destruct (Z.ltb_spec (b * u) (2 * r)), (Z.ltb_spec (b * u * c) (2 * (r * c))); nia).
  done.
Qed.

Lemma score_eq t :
  time_in_range t → score_of t = rnd (unix_sec t * UNIT + frac_of (nanosecond t)) 1.
Proof.
  intros Ht. rw /score_of /f_add. do 2 f_equal; [by apply f_of_Z_exact, unix_sec_small|].
  pose proof (nanosecond_range t) as Hn. pose proof UNIT_pos.
  rw !f_of_Z_exact; [rw /SEC in Hn; lia|done|].
  rw /f_div. destruct (Z.ltb_spec (SEC * UNIT) 0); [rw /SEC in H0; lia|].
  rw rnd_scale //.
Qed.

Lemma frac_mono a b : a ≤ b → frac_of a ≤ frac_of b.
Proof. intros. pose proof UNIT_pos. apply rnd_mono; [done|nia]. Qed.
Lemma frac_range ns : 0 ≤ ns ≤ SEC → 0 ≤ frac_of ns ≤ UNIT.
Proof.
  intros [H1 H2]. pose proof UNIT_pos. split; [apply rnd_nonneg; [nia|done]|].
  apply Z.le_trans with (frac_of SEC); [by apply frac_mono|].
  rw /frac_of (Z.mul_comm SEC) rnd_exact //. by exists 1, 1074.
Qed.

Lemma score_mono t1 t2 :
  time_in_range t1 → time_in_range t2 → t1 ≤ t2 → score_of t1 ≤ score_of t2.
Proof.
  intros R1 R2 H. rw !score_eq //. apply rnd_mono; [done|]. pose proof UNIT_pos.
  pose proof (nanosecond_range t1) as N1. pose proof (nanosecond_range t2) as N2.
  pose proof (frac_range _ (conj (proj1 N1) (Z.lt_le_incl _ _ (proj2 N1)))) as F1.
  pose proof (frac_range _ (conj (proj1 N2) (Z.lt_le_incl _ _ (proj2 N2)))) as F2.
  destruct (Z.eq_dec (unix_sec t1) (unix_sec t2)) as [E|E].
  - rw E. apply Z.add_le_mono_l, frac_mono. revert E H. rw /unix_sec /nanosecond /SEC. lia.
  - assert (unix_sec t1 + 1 ≤ unix_sec t2) by (revert E H; rw /unix_sec /SEC; lia). nia.
Qed.

Lemma rnd_bound x k : 0 ≤ k → Z.abs x ≤ 2 ^ k → Z.abs (rnd x 1) ≤ 2 ^ k.
Proof.
  intros Hk Hx. apply Z.abs_le in Hx as [L U]. apply Z.abs_le.
  apply (rnd_mono _ _ 1) in L; [|done]. apply (rnd_mono _ _ 1) in U; [|done].
  rw rnd_opp in L. rw (rnd_exact_1 (2 ^ k)) in L U; [|done].
  exists 1, k. split_and!; [done|done|lia].
Qed.

Lemma score_is_f64 t : time_in_range t → is_f64 (score_of t).
Proof.
  intros Ht. split; [by apply rnd_exact_1, rnd_representable|].
  pose proof (nanosecond_range t) as N. pose proof UNIT_pos.
  pose proof (frac_range _ (conj (proj1 N) (Z.lt_le_incl _ _ (proj2 N)))) as F.
  pose proof (unix_sec_small t Ht) as S.
  rw score_eq // /overflows. apply Z.leb_gt.
  pose proof (rnd_bound (unix_sec t * UNIT + frac_of (nanosecond t)) 1128 ltac:(done)) as B.
  apply Z.le_lt_trans with (2 ^ 1128); [apply B|by apply Z.pow_lt_mono_r].
  replace (2 ^ 1128) with (2 ^ 54 * UNIT) by (rw /UNIT -Z.pow_add_r //).
  apply Z.abs_le in S. apply Z.abs_le. set (f := frac_of _) in *. set (u := unix_sec t) in *.
  clearbody f u. clear - S F H. nia.
Qed.

(** From [YEAR_2242] seconds after the epoch scores may be a microsecond apart
    or more. *)
Definition YEAR_2242 : Z := 2 ^ 33 - 1.

Lemma score_near t :
  0 ≤ t < YEAR_2242 * SEC → time_in_range t →
  2 * Z.abs (score_of t * SEC - t * UNIT) ≤ SEC * (2 ^ 1054 + 2 ^ 1021).
Proof.
  intros Ht R. rw score_eq //. pose proof (nanosecond_range t) as N. pose proof UNIT_pos as HU.
  pose proof (frac_range _ (conj (proj1 N) (Z.lt_le_incl _ _ (proj2 N)))) as F.
  set (ns := nanosecond t) in *. set (sec := unix_sec t).
  assert (Hsec : 0 ≤ sec < 2 ^ 33 - 1) by (revert Ht; rw /sec /unix_sec /YEAR_2242 /SEC; lia).
  assert (Ht' : t = sec * SEC + ns) by (rw /sec /ns /unix_sec /nanosecond /SEC; lia).
  pose proof (rnd_near (sec * UNIT + frac_of ns) 1 ltac:(done) ltac:(nia)) as H1.
  rw !Z.mul_1_l Z.mul_1_r Z.div_1_r in H1.
  pose proof (rnd_near (ns * UNIT) SEC ltac:(done) ltac:(nia)) as H2. rw -/(frac_of ns) in H2.
  assert (U1 : 2 ^ ulp_exp (sec * UNIT + frac_of ns) ≤ 2 ^ 1054).
  { apply Z.pow_le_mono_r; [done|]. apply (ulp_exp_below _ 1107); [done|].
    replace (2 ^ 1107) with (2 ^ 33 * UNIT) by (rw /UNIT -Z.pow_add_r //). nia. }
  assert (U2 : 2 ^ ulp_exp ((ns * UNIT) `div` SEC) ≤ 2 ^ 1021).
  { apply Z.pow_le_mono_r; [done|]. apply (ulp_exp_below _ 1074); [done|].
    apply Z.div_lt_upper_bound; [done|]. rw -/UNIT. nia. }
  rw {1}Ht'. clearbody ns sec. clear -H1 H2 U1 U2 HU.
  set (u1 := 2 ^ ulp_exp _) in *. set (u2 := 2 ^ ulp_exp _) in *. set (p1 := 2 ^ 1054) in *.
  set (p2 := 2 ^ 1021) in *. set (x := rnd _ _) in *. set (f := frac_of ns) in *.
  assert (0 < SEC) by done. clearbody u1 u2 p1 p2 x f.
  replace (x * SEC - (sec * SEC + ns) * UNIT)
    with ((x - (sec * UNIT + f)) * SEC + (f * SEC - ns * UNIT)) by lia.
  nia.
Qed.

Lemma score_separates t1 t2 :
  time_in_range t1 → time_in_range t2 →
  0 ≤ t1 → t2 < YEAR_2242 * SEC → t1 + 1000 ≤ t2 → score_of t1 < score_of t2.
Proof.
  intros R1 R2 H1 H2 H. pose proof (score_near t1 ltac:(lia) R1) as N1.
  pose proof (score_near t2 ltac:(lia) R2) as N2.
  assert (HU : SEC * (2 ^ 1054 + 2 ^ 1021) < 1000 * UNIT) by (vm_compute; done).
  assert (0 < SEC) by done. pose proof UNIT_pos.
  set (b := SEC * (_ + _)) in *. clearbody b. set (s1 := score_of t1) in *. set (s2 := score_of t2) in *.
  clearbody s1 s2. nia.
Qed.

(** *** The key of an entry finds its score again *)

Lemma rnd_close n s :
  0 ≤ n → (2 ^ ulp_exp n | s) → 2 * Z.abs (n - s) < 2 ^ ulp_exp n → rnd n 1 = s.
Proof.
  intros Hn [k ->] H. rw rnd_nonneg_eq // Z.div_1_r Z.mul_1_l. pose proof (ulp_pos n).
  f_equal. by apply round_half_even_mono_exact.
Qed.

(** Scores of stored entries: [2^30] is 2004. *)
Definition usual_score (s : Z) : Prop :=
  representable s ∧ 2 ^ 30 * UNIT ≤ s < YEAR_2242 * UNIT.

(** A usual score is a 53-bit multiple of a unit between 2^-22 s and 2^-20 s. *)
Lemma usual_score_shape s :
  usual_score s → ∃ a k, 1052 ≤ k ≤ 1054 ∧ s = a * 2 ^ k ∧ 0 ≤ a < 2 ^ 53 ∧
    ulp_exp s = k ∧ s < 2 ^ (k + 53).
Proof.
  intros [(m & e & He & Hm & Hs) [L U]].
  assert (HL : 2 ^ 1104 ≤ s) by (apply Z.le_trans with (2 ^ 30 * UNIT); [rw /UNIT -Z.pow_add_r //|done]).
  assert (HU : s < 2 ^ 1107).
  { apply Z.lt_le_trans with (YEAR_2242 * UNIT); [done|]. apply Z.le_trans with (2 ^ 33 * UNIT); [|rw /UNIT -Z.pow_add_r //].
    apply Z.mul_le_mono_nonneg_r; [pose proof UNIT_pos; lia|done]. }
  assert (H0 : 0 < s) by (apply Z.lt_le_trans with (2 ^ 1104); [by apply Z.pow_pos_nonneg|done]).
  assert (Hl1 : 1104 ≤ Z.log2 s) by (apply Z.log2_le_pow2; done).
  assert (Hl2 : Z.log2 s < 1107) by (apply Z.log2_lt_pow2; done).
  assert (Hk : ulp_exp s = Z.log2 s - 52) by (rw /ulp_exp; lia).
  assert (Hdiv : (2 ^ ulp_exp s | s)).
  { assert (0 ≤ m) by (apply (Z.mul_nonneg_cancel_r m (2 ^ e)); [apply Z.pow_pos_nonneg; lia|lia]). rw Hs. apply ulp_divides; lia. }
  destruct Hdiv as [a Ha]. pose proof (Z.log2_spec s H0) as [_ Hs2]. rw Hk in Ha *.
  exists a, (Z.log2 s - 52). clear Hs Hm. assert (E53 : Z.log2 s - 52 + 53 = Z.succ (Z.log2 s)) by lia.
  split_and!; try lia; try done.
  - assert (Hp : 2 ^ Z.succ (Z.log2 s) = 2 ^ 53 * 2 ^ (Z.log2 s - 52)) by (rw -Z.pow_add_r; [lia..|]; f_equal; lia).
    rw Hp in Hs2. pose proof (Z.pow_pos_nonneg 2 (Z.log2 s - 52) ltac:(lia) ltac:(lia)).
    set (p := 2 ^ (Z.log2 s - 52)) in *. set (q := 2 ^ 53) in *. clearbody p q. nia.
  - by rw E53.
Qed.

(** [Key]'s arithmetic: whole seconds and whole nanoseconds of the score. *)
Lemma key_time_parts s :
  usual_score s →
  let sec := s `div` UNIT in let ns := ((s - sec * UNIT) * SEC) `div` UNIT in
  key_time s = sec * SEC + ns ∧ 0 ≤ ns < SEC ∧ 0 ≤ sec < YEAR_2242.
Proof.
  intros Hs sec ns. pose proof UNIT_pos as HU.
  assert (Hp : 0 ≤ s < YEAR_2242 * UNIT) by (destruct Hs as [_ [? ?]]; lia).
  destruct (usual_score_shape s Hs) as (a & k & Hk & Ha & Ha1 & _ & _).
  assert (HUk : UNIT = 2 ^ (1074 - k) * 2 ^ k) by (rw /UNIT -Z.pow_add_r; [lia..|]; f_equal; lia).
  assert (Hm : 0 ≤ s - sec * UNIT < UNIT) by (rw /sec; lia).
  assert (Hsec : 0 ≤ sec < YEAR_2242).
  { split; [apply Z.div_pos; lia|]. apply Z.div_lt_upper_bound; lia. }
  set (fr := s - sec * UNIT) in *.
  assert (Hfr : ∃ c, fr = c * 2 ^ k ∧ 0 ≤ c < 2 ^ 22).
  { assert (0 < 2 ^ k) by (apply Z.pow_pos_nonneg; lia).
    assert (2 ^ (1074 - k) ≤ 2 ^ 22) by (apply Z.pow_le_mono_r; lia).
    exists (a - sec * 2 ^ (1074 - k)). assert (E : fr = (a - sec * 2 ^ (1074 - k)) * 2 ^ k) by (rw /fr Ha HUk; lia).
    split; [done|]. set (c := a - _) in *. set (p := 2 ^ k) in *. set (q := 2 ^ (1074 - k)) in *.
    rw E HUk in Hm. clear - H H0 Hm. clearbody c p q. nia. }
  destruct Hfr as (c & Hc & Hc1).
  assert (R1 : representable fr) by (exists c, k; lia).
  assert (R2 : representable (fr * SEC)) by (exists (c * SEC), k; rw Hc /SEC; lia).
  assert (E : key_time s = sec * SEC + ns).
  { rw /key_time. assert (Ht : f_trunc s = sec) by (apply Z.quot_div_nonneg; lia). rw Ht.
    rw (f_of_Z_exact sec); [rw /YEAR_2242 in Hsec; lia|]. rw (f_of_Z_exact SEC) //.
    rw /f_sub -/fr (rnd_exact_1 fr) // /f_mul. replace (fr * (SEC * UNIT)) with (fr * SEC * UNIT) by lia.
    rw (rnd_exact (fr * SEC)) // /f_trunc Z.quot_div_nonneg //. rw /SEC. lia. }
  split_and!; try lia; rw /ns; fold fr; [apply Z.div_pos; rw /SEC; lia|].
  apply Z.div_lt_upper_bound; [done|]. rw /SEC. lia.
Qed.

Lemma key_time_in_range s : usual_score s → time_in_range (key_time s).
Proof.
  intros Hs. destruct (key_time_parts s Hs) as (-> & Hns & Hsec).
  set (sec := s `div` UNIT) in *. set (ns := _ `div` UNIT) in Hns |- *. clearbody sec ns.
  rw /time_in_range /day_min /day_max /SEC. rw /YEAR_2242 in Hsec. rw /SEC in Hns. lia.
Qed.

Lemma key_time_score s : usual_score s → score_of (key_time s) = s.
Proof.
  intros Hs. pose proof UNIT_pos as HU. destruct (key_time_parts s Hs) as (E & Hns & Hsec).
  destruct (usual_score_shape s Hs) as (a & k & Hk & Ha & Ha1 & Hulp & Hlt).
  set (sec := s `div` UNIT) in *. set (ns := _ `div` UNIT) in E, Hns.
  assert (Hu : unix_sec (key_time s) = sec ∧ nanosecond (key_time s) = ns).
  { rw E /unix_sec /nanosecond. apply Z_div_mod_unique; [done|lia|]. lia. }
  rw score_eq.
  { rw E /time_in_range /day_min /day_max /SEC. rw /YEAR_2242 in Hsec. rw /SEC in Hns. lia. }
  destruct Hu as [-> ->].
  pose proof (rnd_near (ns * UNIT) SEC ltac:(done) ltac:(nia)) as H2. rw -/(frac_of ns) in H2.
  assert (U2 : 2 ^ ulp_exp ((ns * UNIT) `div` SEC) ≤ 2 ^ 1021).
  { apply Z.pow_le_mono_r; [done|]. apply (ulp_exp_below _ 1074); [done|].
    apply Z.div_lt_upper_bound; [done|]. rw -/UNIT. nia. }
  assert (Hn : ns * UNIT ≤ (s - sec * UNIT) * SEC < ns * UNIT + UNIT) by (rw /ns; lia).
  set (n := sec * UNIT + frac_of ns) in *.
  (* the reconstructed instant is within two nanoseconds of the score *)
  assert (Hd : 2 * Z.abs (n - s) < 2 ^ 1051 ∧ n - s < 2 ^ k).
  { assert (HB : UNIT * 2 + SEC * 2 ^ 1021 < SEC * 2 ^ 1051) by (vm_compute; done).
    assert (Hk2 : 2 ^ 1051 ≤ 2 ^ k) by (apply Z.pow_le_mono_r; lia).
    assert (0 < SEC) by done. set (u2 := 2 ^ ulp_exp _) in *. set (p := 2 ^ 1021) in *.
    set (q := 2 ^ 1051) in *. set (r := 2 ^ k) in *.
    assert (Hf : n - s = frac_of ns - (s - sec * UNIT)) by (rw /n; lia).
    set (f := frac_of ns) in *. set (fr := s - sec * UNIT) in *. rw Hf.
    clear - H2 U2 Hn HB H Hk2 HU. clearbody u2 p q r f fr ns. nia. }
  assert (HL : 2 ^ 1104 ≤ s).
  { destruct Hs as [_ [L _]]. apply Z.le_trans with (2 ^ 30 * UNIT); [rw /UNIT -Z.pow_add_r //|done]. }
  assert (Hn3 : 2 ^ 1103 ≤ n).
  { assert (2 ^ 1104 = 2 * 2 ^ 1103) by done. assert (2 ^ 1051 ≤ 2 ^ 1103) by (by apply Z.pow_le_mono_r). lia. }
  assert (H0 : 0 < n) by (apply Z.lt_le_trans with (2 ^ 1103); [by apply Z.pow_pos_nonneg|done]).
  assert (Hlog : 1103 ≤ Z.log2 n) by (apply Z.log2_le_pow2; done).
  assert (Hge : 1051 ≤ ulp_exp n) by (rw /ulp_exp; lia).
  assert (Hle : ulp_exp n ≤ k).
  { apply (Z.le_trans _ (k + 53 - 53)); [|lia]. apply ulp_exp_below; [lia|].
    assert (2 ^ (k + 53) = 2 ^ 53 * 2 ^ k) by (rw -Z.pow_add_r; [lia..|]; f_equal; lia).
    destruct Hd as [_ Hd]. set (p := 2 ^ k) in *. rw H Ha in Hlt |- *.
    set (q := 2 ^ 53) in *. clear - Hd Ha Ha1 Hlt. nia. }
  apply rnd_close; [lia| |].
  - rw Ha. exists (a * 2 ^ (k - ulp_exp n)). rw -Z.mul_assoc -Z.pow_add_r; [lia..|]. do 2 f_equal. lia.
  - apply Z.lt_le_trans with (2 ^ 1051); [tauto|]. apply Z.pow_le_mono_r; lia.
Qed.
