(* ===== verification/Json.v ===== *)
(** * [encoding/json]: text of JSON values, and back

    [json] is the syntax tree with number literals kept as written; [print]
    is [json.Marshal]'s compact text (HTML escaping on, invalid UTF-8 replaced
    by U+FFFD) and [parse] the scanner and unquoting of [json.Unmarshal] (the
    nesting limit of 10000 is not modelled).  [gov] is what an [interface{}]
    holds after decoding. *)
From S2P Require Import Prelude GoStrings Float64.

Inductive json :=
| JNull
| JBool (b : bool)
| JNum (lit : string)
| JStr (s : string)
| JArr (l : list json)
| JObj (l : list (string * json)).

(** ** UTF-8 *)

Definition byte_in (lo hi : Z) (s : string) (i : nat) : bool :=
  match drop_str i s with
  | String c _ => (lo <=? byte_val c) && (byte_val c <=? hi)
  | EmptyString => false
  end.
(** Length of the valid encoding at the head of [s] (bytes >= 0x80 only), or 0. *)
Definition utf8_len (s : string) : nat := (
  let cont := byte_in 128 191 s in
  if byte_in 194 223 s 0 && cont 1%nat then 2
  else if byte_in 224 224 s 0 && byte_in 160 191 s 1 && cont 2%nat then 3
  else if (byte_in 225 236 s 0 || byte_in 238 239 s 0) && cont 1%nat && cont 2%nat then 3
  else if byte_in 237 237 s 0 && byte_in 128 159 s 1 && cont 2%nat then 3
  else if byte_in 240 240 s 0 && byte_in 144 191 s 1 && cont 2%nat && cont 3%nat then 4
  else if byte_in 241 243 s 0 && cont 1%nat && cont 2%nat && cont 3%nat then 4
  else if byte_in 244 244 s 0 && byte_in 128 143 s 1 && cont 2%nat && cont 3%nat then 4
  else 0)%nat.
Definition utf8_encode (r : Z) : string :=
  if r <? 128 then of_bytes [r]
  else if r <? 2048 then of_bytes [192 + r `div` 64; 128 + r `mod` 64]
  else if r <? 65536 then of_bytes [224 + r `div` 4096; 128 + r `div` 64 `mod` 64; 128 + r `mod` 64]
  else of_bytes [240 + r `div` 262144; 128 + r `div` 4096 `mod` 64;
                 128 + r `div` 64 `mod` 64; 128 + r `mod` 64].
Definition RUNE_ERROR : Z := 65533.

(** ** Writing strings *)

Definition hex_digit (d : Z) : ascii := if d <? 10 then chr (48 + d) else chr (87 + d).
Definition BS : string := String (chr 92) "".
Definition escape_ascii (c : ascii) : string :=
  let b := byte_val c in
  if (b =? 92) || (b =? 34) then BS +:+ String c ""
  else if b =? 10 then BS +:+ "n"
  else if b =? 13 then BS +:+ "r"
  else if b =? 9 then BS +:+ "t"
  else if (b <? 32) || (b =? 60) || (b =? 62) || (b =? 38)
  then BS +:+ "u00" +:+ String (hex_digit (b `div` 16)) (String (hex_digit (b `mod` 16)) "")
  else String c "".
Fixpoint escape_fuel (fuel : nat) (s : string) : string :=
  match fuel, s with
  | S f, String c s' =>
      if byte_val c <? 128 then escape_ascii c +:+ escape_fuel f s'
      else match utf8_len s with
           | O => BS +:+ "ufffd" +:+ escape_fuel f s'
           | n => (if bool_decide (take_str n s = of_bytes [226; 128; 168]) then BS +:+ "u2028"
                   else if bool_decide (take_str n s = of_bytes [226; 128; 169]) then BS +:+ "u2029"
                   else take_str n s) +:+ escape_fuel f (drop_str n s)
           end
  | _, _ => ""
  end.
Definition escape (s : string) : string := escape_fuel (String.length s) s.
Definition quote (s : string) : string := DQ +:+ escape s +:+ DQ.

(** ** Reading strings *)

Definition hex_val (c : ascii) : option Z :=
  let b := byte_val c in
  if (48 <=? b) && (b <=? 57) then Some (b - 48)
  else if (97 <=? b) && (b <=? 102) then Some (b - 87)
  else if (65 <=? b) && (b <=? 70) then Some (b - 55)
  else None.
Definition hex4 (s : string) : option (Z * string) :=
  match s with
  | String a (String b (String c (String d s'))) =>
      a ← hex_val a; b ← hex_val b; c ← hex_val c; d ← hex_val d;
      Some (a * 4096 + b * 256 + c * 16 + d, s')
  | _ => None
  end.
(** [\uXXXX], joining a surrogate pair; a lone surrogate becomes U+FFFD. *)
Definition unescape_u (s : string) : option (string * string) :=
  '(r, s1) ← hex4 s;
  if (55296 <=? r) && (r <=? 57343) then
    match s1 with
    | String b (String "u" s2) =>
        if bool_decide (String b "" = BS) then
          '(r2, s3) ← hex4 s2;
          if (r <=? 56319) && (56320 <=? r2) && (r2 <=? 57343)
          then Some (utf8_encode ((r - 55296) * 1024 + (r2 - 56320) + 65536), s3)
          else Some (utf8_encode RUNE_ERROR, s1)
        else Some (utf8_encode RUNE_ERROR, s1)
    | _ => Some (utf8_encode RUNE_ERROR, s1)
    end
  else Some (utf8_encode r, s1).
Definition simple_escape (c : ascii) : option string :=
  let b := byte_val c in
  if (b =? 34) || (b =? 92) || (b =? 47) then Some (String c "")
  else if b =? 98 then Some (of_bytes [8])
  else if b =? 102 then Some (of_bytes [12])
  else if b =? 110 then Some (of_bytes [10])
  else if b =? 114 then Some (of_bytes [13])
  else if b =? 116 then Some (of_bytes [9])
  else None.

(** Contents up to the closing quote, and what follows it. *)
Fixpoint read_str (fuel : nat) (s : string) : option (string * string) :=
  match fuel, s with
  | S f, String c s' =>
      let b := byte_val c in
      if b =? 34 then Some ("", s')
      else if b <? 32 then None
      else if b =? 92 then
        match s' with
        | String "u" s2 => '(x, s3) ← unescape_u s2; '(t, r) ← read_str f s3; Some (x +:+ t, r)
        | String e s2 => x ← simple_escape e; '(t, r) ← read_str f s2; Some (x +:+ t, r)
        | EmptyString => None
        end
      else if b <? 128 then '(t, r) ← read_str f s'; Some (String c t, r)
      else match utf8_len s with
           | O => '(t, r) ← read_str f s'; Some (utf8_encode RUNE_ERROR +:+ t, r)
           | n => '(t, r) ← read_str f (drop_str n s); Some (take_str n s +:+ t, r)
           end
  | _, _ => None
  end.

(** ** Numbers: the literal's text *)

Definition json_int (s : string) : option (string * string) :=
  match s with
  | String "0" s' => Some ("0", s')
  | _ => let (ds, r) := span_digits s in if bool_decide (ds = "") then None else Some (ds, r)
  end.
Definition json_frac (s : string) : option (string * string) :=
  match s with
  | String "." s1 =>
      let (ds, r) := span_digits s1 in
      if bool_decide (ds = "") then None else Some ("." +:+ ds, r)
  | _ => Some ("", s)
  end.
Definition json_exp (s : string) : option (string * string) :=
  match s with
  | String c s1 =>
      if bool_decide (c = "e"%char) || bool_decide (c = "E"%char) then
        let '(sg, s2) := match s1 with
                         | String "-" t => (String c "-", t)
                         | String "+" t => (String c "+", t)
                         | _ => (String c "", s1)
                         end in
        let (ds, r) := span_digits s2 in
        if bool_decide (ds = "") then None else Some (sg +:+ ds, r)
      else Some ("", s)
  | EmptyString => Some ("", s)
  end.
Definition json_unsigned (s : string) : option (string * string) :=
  '(a, s1) ← json_int s; '(b, s2) ← json_frac s1; '(c, s3) ← json_exp s2;
  Some (a +:+ b +:+ c, s3).
Definition json_number (s : string) : option (string * string) :=
  match s with
  | String "-" s' => '(l, r) ← json_unsigned s'; Some (String "-" l, r)
  | _ => json_unsigned s
  end.

(** ** Printing and parsing values *)

Fixpoint sep_concat (l : list string) : string :=
  match l with [] => "" | [x] => x | x :: l' => x +:+ "," +:+ sep_concat l' end.

Fixpoint print (v : json) : string :=
  match v with
  | JNull => "null"
  | JBool true => "true"
  | JBool false => "false"
  | JNum lit => lit
  | JStr s => quote s
  | JArr l => "[" +:+ sep_concat (List.map print l) +:+ "]"
  | JObj l => "{" +:+ sep_concat (List.map (λ kv, quote kv.1 +:+ ":" +:+ print kv.2) l) +:+ "}"
  end.

Definition is_ws (c : ascii) : bool :=
  let b := byte_val c in (b =? 32) || (b =? 9) || (b =? 10) || (b =? 13).
Fixpoint skip_ws (s : string) : string :=
  match s with String c s' => if is_ws c then skip_ws s' else s | EmptyString => "" end.
Definition expect (p s : string) : option string :=
  if has_prefix p s then Some (drop_str (String.length p) s) else None.

Section values.
Context (value : string → option (json * string)).

Fixpoint parse_elems (fuel : nat) (s : string) : option (list json * string) :=
  match fuel with
  | O => None
  | S f =>
      '(v, s1) ← value s;
      match skip_ws s1 with
      | String "]" s2 => Some ([v], s2)
      | String "," s2 => '(l, s3) ← parse_elems f s2; Some (v :: l, s3)
      | _ => None
      end
  end.
Definition parse_member (s : string) : option (string * json * string) :=
  s0 ← expect DQ (skip_ws s);
  '(k, s1) ← read_str (String.length s0) s0;
  s2 ← expect ":" (skip_ws s1);
  '(v, s3) ← value s2;
  Some (k, v, s3).
Fixpoint parse_members (fuel : nat) (s : string) : option (list (string * json) * string) :=
  match fuel with
  | O => None
  | S f =>
      '(k, v, s3) ← parse_member s;
      match skip_ws s3 with
      | String "}" s4 => Some ([(k, v)], s4)
      | String "," s4 => '(l, s5) ← parse_members f s4; Some ((k, v) :: l, s5)
      | _ => None
      end
  end.
End values.

Fixpoint parse_value (fuel : nat) (s : string) : option (json * string) :=
  match fuel with
  | O => None
  | S f =>
      match skip_ws s with
      | String "[" s1 =>
          match skip_ws s1 with
          | String "]" s2 => Some (JArr [], s2)
          | _ => '(l, r) ← parse_elems (parse_value f) (S f) s1; Some (JArr l, r)
          end
      | String "{" s1 =>
          match skip_ws s1 with
          | String "}" s2 => Some (JObj [], s2)
          | _ => '(l, r) ← parse_members (parse_value f) (S f) s1; Some (JObj l, r)
          end
      | String c s1 as s0 =>
          if byte_val c =? 34 then '(t, r) ← read_str (String.length s1) s1; Some (JStr t, r)
          else if bool_decide (c = "t"%char) then r ← expect "true" s0; Some (JBool true, r)
          else if bool_decide (c = "f"%char) then r ← expect "false" s0; Some (JBool false, r)
          else if bool_decide (c = "n"%char) then r ← expect "null" s0; Some (JNull, r)
          else '(l, r) ← json_number s0; Some (JNum l, r)
      | EmptyString => None
      end
  end.

(** A nested value is shorter than the text around it, so the text's length is
    enough fuel. *)
Definition parse (s : string) : option json :=
  '(v, r) ← parse_value (S (String.length s)) s;
  if bool_decide (skip_ws r = "") then Some v else None.

(** ** Well-formed values *)

Inductive utf8 : string → Prop :=
| utf8_nil : utf8 ""
| utf8_ascii c s : byte_val c < 128 → utf8 s → utf8 (String c s)
| utf8_multi ch s : utf8_len ch = String.length ch → ch ≠ "" → utf8 s → utf8 (ch +:+ s).

Definition num_ok (lit : string) : Prop := json_number lit = Some (lit, "").

Fixpoint wf_json (v : json) : Prop :=
  match v with
  | JNum lit => num_ok lit
  | JStr s => utf8 s
  | JArr l => (fix go l := match l with [] => True | x :: l' => wf_json x ∧ go l' end) l
  | JObj l => (fix go l := match l with
                           | [] => True
                           | kv :: l' => (utf8 kv.1 ∧ wf_json kv.2) ∧ go l' end) l
  | _ => True
  end.

Lemma wf_arr (l : list json) : wf_json (JArr l) ↔ Forall wf_json l.
Proof.
  induction l as [|x l IH]; simpl; [done|]. by rw Forall_cons -IH.
Qed.
Lemma wf_obj (l : list (string * json)) :
  wf_json (JObj l) ↔ Forall (λ kv, utf8 kv.1 ∧ wf_json kv.2) l.
Proof.
  induction l as [|x l IH]; simpl; [done|]. by rw Forall_cons -IH.
Qed.

(** ** Strings read back *)

Ltac split_str ch := destruct ch as [|? [|? [|? [|? [|? ?]]]]].

Ltac split_len H :=
  repeat match type of H with
  | (if ?b then _ else _) = _ => destruct b; [try (exfalso; discriminate H)|]
  end; try discriminate H; try reflexivity.

Lemma utf8_len_bound (s : string) : (utf8_len s ≤ 4)%nat.
Proof.
  unfold utf8_len. repeat match goal with |- ((if ?b then _ else _) ≤ _)%nat => destruct b; [lia|] end. lia.
Qed.

Lemma utf8_len_local (ch t : string) :
  utf8_len ch = String.length ch → ch ≠ "" → utf8_len (ch +:+ t) = String.length ch.
Proof.
  intros H Hne. pose proof (utf8_len_bound ch) as Hb.
  split_str ch; [done|..]; cbn [String.length] in *; try lia; clear Hb Hne; revert H;
    unfold utf8_len, byte_in; cbn [drop_str String.append];
    rewrite ?andb_false_r; intros H; split_len H.
Qed.

Lemma utf8_multi_head (c : ascii) (s : string) :
  utf8_len (String c s) ≠ 0%nat → 128 ≤ byte_val c.
Proof.
  unfold utf8_len, byte_in. cbn [drop_str]. intros H. apply Z.nlt_ge. intros Hlt. apply H.
  repeat match goal with |- context [(?lo <=? byte_val c)] =>
    replace (lo <=? byte_val c) with false by lia end. done.
Qed.

Lemma utf8_of_ascii_cons (c : ascii) (s : string) : byte_val c < 128 → utf8 s → utf8 (String c s).
Proof. apply utf8_ascii. Qed.
Lemma utf8_of_ascii s : all_chars (λ c, byte_val c <? 128) s = true → utf8 s.
Proof.
  induction s as [|c s IH]; [constructor|]. cbn [all_chars]. intros [Hc Hs]%andb_prop.
  apply utf8_of_ascii_cons; [by apply Z.ltb_lt|by apply IH].
Qed.

Lemma read_escape_ascii (f : nat) (c : ascii) (t : string) :
  byte_val c < 128 →
  read_str (S f) (escape_ascii c +:+ t) = ('(x, r) ← read_str f t; Some (String c x, r)).
Proof.
  intros H. destruct c as [[] [] [] [] [] [] [] []]; try (vm_compute in H; discriminate); clear H.
  all: match goal with |- context [escape_ascii ?c] =>
         let e := eval vm_compute in (escape_ascii c) in change (escape_ascii c) with e end.
  all: reflexivity.
Qed.

Lemma escape_ascii_length (c : ascii) : (1 ≤ String.length (escape_ascii c))%nat.
Proof. rw /escape_ascii. repeat case_match; simpl; lia. Qed.

Lemma read_2028 (f : nat) (t : string) :
  read_str (S f) ((BS +:+ "u2028") +:+ t)
  = ('(x, r) ← read_str f t; Some (of_bytes [226; 128; 168] +:+ x, r)).
Proof. reflexivity. Qed.
Lemma read_2029 (f : nat) (t : string) :
  read_str (S f) ((BS +:+ "u2029") +:+ t)
  = ('(x, r) ← read_str f t; Some (of_bytes [226; 128; 169] +:+ x, r)).
Proof. reflexivity. Qed.

Lemma read_multi (f : nat) (ch t : string) :
  utf8_len ch = String.length ch → ch ≠ "" →
  read_str (S f) (ch +:+ t) = ('(x, r) ← read_str f t; Some (ch +:+ x, r)).
Proof.
  intros Hl Hne. pose proof (utf8_len_local ch t Hl Hne) as Hlt.
  destruct ch as [|c ch]; [done|].
  assert (Hc : 128 ≤ byte_val c) by (apply (utf8_multi_head c ch); rw Hl; done).
  pose proof (take_str_app ch t) as Ht. pose proof (drop_str_app ch t) as Hd.
  set (whole := String c ch) in *. assert (whole +:+ t = String c (ch +:+ t)) as Hw by done.
  rw Hw in Hlt. rw Hw. simpl read_str.
  destruct (Z.eqb_spec (byte_val c) 34); [lia|]. destruct (Z.ltb_spec (byte_val c) 32); [lia|].
  destruct (Z.eqb_spec (byte_val c) 92); [lia|]. destruct (Z.ltb_spec (byte_val c) 128); [lia|].
  rw Hlt. change (String.length whole) with (S (String.length ch)) in *. simpl.
  by rw Hd Ht.
Qed.

Lemma read_str_escape (s : string) :
  utf8 s → ∀ f g r, (String.length s ≤ g)%nat → (String.length (escape_fuel g s) < f)%nat →
  read_str f (escape_fuel g s +:+ DQ +:+ r) = Some (s, r).
Proof.
  induction 1 as [|c s Hc Hs IH|ch s Hl Hne Hs IH]; intros f g r Hg Hf.
  - destruct f; [lia|]. by destruct g.
  - destruct g as [|g]; [simpl in Hg; lia|]. simpl in *.
    destruct (Z.ltb_spec (byte_val c) 128); [|lia].
    rw length_app_str in Hf. pose proof (escape_ascii_length c).
    destruct f as [|f]; [lia|]. rw app_str_assoc read_escape_ascii // IH //; lia.
  - pose proof (utf8_len_local ch s Hl Hne) as Hls. rw length_app_str in Hg.
    destruct ch as [|c ch]; [done|].
    assert (Hc : 128 ≤ byte_val c) by (apply (utf8_multi_head c ch); rw Hl; done).
    destruct g as [|g]; [simpl in Hg; lia|].
    pose proof (take_str_app (String c ch) s) as Ht. pose proof (drop_str_app (String c ch) s) as Hd.
    assert (Hesc : escape_fuel (S g) (String c ch +:+ s) =
      (if bool_decide (String c ch = of_bytes [226; 128; 168]) then BS +:+ "u2028"
       else if bool_decide (String c ch = of_bytes [226; 128; 169]) then BS +:+ "u2029"
       else String c ch) +:+ escape_fuel g s).
    { simpl. destruct (Z.ltb_spec (byte_val c) 128); [lia|]. simpl in Hls. rw Hls. simpl in Ht, Hd.
      rw Ht Hd. done. }
    rw Hesc in Hf |- *. rw length_app_str in Hf. rw app_str_assoc.
    destruct f as [|f]; [lia|].
    case_bool_decide as E1; [|case_bool_decide as E2].
    + rw read_2028 IH; [simpl in *; lia..|]. by rw -E1.
    + rw read_2029 IH; [simpl in *; lia..|]. by rw -E2.
    + rw read_multi // IH; [simpl in *; lia..|]. done.
Qed.

Lemma read_quote (s r : string) (f : nat) :
  utf8 s → (String.length (escape s) < f)%nat →
  read_str f (escape s +:+ DQ +:+ r) = Some (s, r).
Proof. intros. by apply read_str_escape. Qed.

(** ** Number literals followed by a delimiter *)

(** What can follow a value in printed text. *)
Definition delim (r : string) : Prop :=
  match r with
  | EmptyString => True
  | String c _ => c = ","%char ∨ c = "]"%char ∨ c = "}"%char ∨ c = chr 13
  end.

Ltac delim_cases r Hr :=
  destruct r as [|? r]; [|destruct Hr as [-> | [-> | [-> | ->]]]].

Lemma span_digits_delim (s r : string) :
  delim r → span_digits (s +:+ r) = ((span_digits s).1, (span_digits s).2 +:+ r).
Proof.
  intros Hr. induction s as [|c s IH]; simpl.
  - delim_cases r Hr; done.
  - destruct (is_digit c); [|done]. rw IH. by destruct (span_digits s).
Qed.

Lemma head_is (c : ascii) (s : string) : (∃ s', s = String c s') ∨ (∀ s', s ≠ String c s').
Proof.
  destruct s as [|a s]; [by right|]. destruct (decide (a = c)) as [->|]; [left; eauto|].
  right. intros s' [=]. done.
Qed.

Lemma json_int_nonzero (s : string) :
  (∀ s', s ≠ String "0" s') →
  json_int s = let (ds, r) := span_digits s in if bool_decide (ds = "") then None else Some (ds, r).
Proof.
  intros Hn. destruct s as [|[[] [] [] [] [] [] [] []] s]; try done. by destruct (Hn s).
Qed.

Lemma json_int_delim (s r x y : string) :
  delim r → json_int s = Some (x, y) → json_int (s +:+ r) = Some (x, y +:+ r).
Proof.
  intros Hr H. destruct (head_is "0" s) as [[s' ->]|Hn].
  { simpl in *. by injection H as <- <-. }
  rw json_int_nonzero // in H. rw json_int_nonzero.
  { intros s'. destruct s as [|a s]; [|intros [=]; by destruct (Hn s); subst].
    delim_cases r Hr; done. }
  rw span_digits_delim //. destruct (span_digits s) as [ds t]. simpl.
  case_bool_decide; [done|]. by injection H as <- <-.
Qed.

Lemma json_frac_delim (s r x y : string) :
  delim r → json_frac s = Some (x, y) → json_frac (s +:+ r) = Some (x, y +:+ r).
Proof.
  intros Hr H. destruct s as [|c s].
  - injection H as <- <-. simpl. delim_cases r Hr; done.
  - destruct (decide (c = "."%char)) as [->|Hc].
    + simpl in *. rw span_digits_delim //. destruct (span_digits s) as [ds t]. simpl.
      case_bool_decide; [done|]. by injection H as <- <-.
    + assert (∀ u, json_frac (String c u) = Some ("", String c u)) as E.
      { intros u. destruct c as [[] [] [] [] [] [] [] []]; try done. }
      rw E in H. injection H as <- <-. by rw -/(String.append (String c s) r) E.
Qed.

Lemma json_exp_delim (s r x y : string) :
  delim r → json_exp s = Some (x, y) → json_exp (s +:+ r) = Some (x, y +:+ r).
Proof.
  intros Hr H. destruct s as [|c s].
  - injection H as <- <-. simpl. delim_cases r Hr; done.
  - simpl in H |- *. destruct (bool_decide (c = "e"%char) || bool_decide (c = "E"%char)).
    2: by injection H as <- <-.
    destruct (match s with String "-" t => (String c "-", t) | String "+" t => (String c "+", t)
                         | _ => (String c "", s) end) as [sg s2] eqn:E.
    assert (s2 ≠ "" ∨ s2 = "") as [Hs2|Hs2] by (destruct s2; auto).
    2: { subst s2. simpl in H. done. }
    assert (match s +:+ r with String "-" t => (String c "-", t) | String "+" t => (String c "+", t)
                         | _ => (String c "", s +:+ r) end = (sg, s2 +:+ r)) as E'.
    { destruct s as [|d s]; [by injection E as <- <-|].
      destruct d as [[] [] [] [] [] [] [] []]; simpl; injection E as <- <-; done. }
    rw E' span_digits_delim //. destruct (span_digits s2) as [ds t]. simpl.
    case_bool_decide; [done|]. by injection H as <- <-.
Qed.

Lemma json_unsigned_delim (s r x y : string) :
  delim r → json_unsigned s = Some (x, y) → json_unsigned (s +:+ r) = Some (x, y +:+ r).
Proof.
  rw /json_unsigned => Hr H.
  destruct (json_int s) as [[a s1]|] eqn:E1; [|done]. rw (json_int_delim _ _ _ _ Hr E1). simpl in *.
  destruct (json_frac s1) as [[b s2]|] eqn:E2; [|done]. rw (json_frac_delim _ _ _ _ Hr E2). simpl in *.
  destruct (json_exp s2) as [[e s3]|] eqn:E3; [|done]. rw (json_exp_delim _ _ _ _ Hr E3). simpl in *.
  by injection H as <- <-.
Qed.

Lemma json_number_delim (lit r : string) :
  delim r → num_ok lit → json_number (lit +:+ r) = Some (lit, r).
Proof.
  rw /num_ok => Hr H. destruct lit as [|c s]; [done|].
  destruct (decide (c = "-"%char)) as [->|Hc].
  - simpl in *. destruct (json_unsigned s) as [[l t]|] eqn:E; [|done].
    rw (json_unsigned_delim _ _ _ _ Hr E). simpl in *. injection H as Hl Ht. by subst.
  - assert (∀ u, json_number (String c u) = json_unsigned (String c u)) as E.
    { intros u. destruct c as [[] [] [] [] [] [] [] []]; done. }
    rw E in H. change (String c s +:+ r) with (String c (s +:+ r)). rw E.
    by rw -/(String.append (String c s) r) (json_unsigned_delim _ _ _ _ Hr H).
Qed.

(** The first character of a literal is a digit or a minus sign. *)
Lemma num_ok_head (lit : string) :
  num_ok lit → ∃ c t, lit = String c t ∧ (c = "-"%char ∨ is_digit c = true).
Proof.
  rw /num_ok => H. destruct lit as [|c s]; [done|]. exists c, s. split; [done|].
  destruct (is_digit c) eqn:Hc; [by right|]. left.
  destruct (decide (c = "-"%char)) as [|Hm]; [done|exfalso].
  assert (json_number (String c s) = json_unsigned (String c s)) as E.
  { destruct c as [[] [] [] [] [] [] [] []]; done. }
  rw E in H. revert H. rw /json_unsigned.
  assert (json_int (String c s) = None) as ->; [|done].
  destruct c as [[] [] [] [] [] [] [] []]; try done.
Qed.

(** ** Values read back *)


#[local] Arguments quote : simpl never.
#[local] Arguments escape : simpl never.

Lemma quote_app (s r : string) : quote s +:+ r = String (chr 34) (escape s +:+ DQ +:+ r).
Proof. rw /quote. simpl. by rw app_str_assoc. Qed.

Lemma print_head (v : json) :
  wf_json v → ∃ c t, print v = String c t ∧ is_ws c = false ∧ c ≠ "]"%char ∧ c ≠ "}"%char.
Proof.
  destruct v as [|[]|lit|s|l|l]; simpl; intros Hw; try (eexists _, _; split; [reflexivity|done]).
  destruct (num_ok_head lit Hw) as (c & t & -> & Hc). exists c, t. split; [done|].
  destruct Hc as [->|Hc]; [done|].
  destruct c as [[] [] [] [] [] [] [] []]; try done; vm_compute in Hc; discriminate.
Qed.

Lemma skip_ws_print (v : json) (r : string) :
  wf_json v → skip_ws (print v +:+ r) = print v +:+ r.
Proof. intros Hw. destruct (print_head v Hw) as (c & t & -> & Hc & _). simpl. by rw Hc. Qed.

Lemma expect_app (p s : string) : expect p (p +:+ s) = Some s.
Proof. rw /expect has_prefix_app. by rw drop_str_app. Qed.

Definition reads (value : string → option (json * string)) (v : json) : Prop :=
  ∀ r, delim r → value (print v +:+ r) = Some (v, r).

Lemma parse_elems_print value (l : list json) (fuel : nat) (r : string) :
  l ≠ [] → Forall (reads value) l → (length l ≤ fuel)%nat →
  parse_elems value fuel (sep_concat (List.map print l) +:+ "]" +:+ r) = Some (l, r).
Proof.
  intros Hne Hl. revert fuel Hne; induction Hl as [|x l Hx Hl IH]; intros fuel Hne Hf; [done|].
  destruct fuel as [|fuel]; [simpl in Hf; lia|].
  destruct l as [|x' l].
  - simpl. rw Hx; [by right; left|]. done.
  - change (sep_concat (List.map print (x :: x' :: l)))
      with (print x +:+ "," +:+ sep_concat (List.map print (x' :: l))).
    rw !app_str_assoc. simpl parse_elems. rw Hx; [by left|]. cbn [mbind option_bind skip_ws String.append].
    change (is_ws ",") with false. cbn iota. rw IH //. simpl in *. lia.
Qed.

Definition print_member (kv : string * json) : string := quote kv.1 +:+ ":" +:+ print kv.2.

Lemma parse_member_print value (k : string) (x : json) (t : string) :
  utf8 k → reads value x → delim t →
  parse_member value (print_member (k, x) +:+ t) = Some (k, x, t).
Proof.
  intros Hk Hx Ht. rw /parse_member /print_member /= !app_str_assoc. simpl. rw read_quote //.
  { rw !length_app_str. simpl. lia. }
  cbn [mbind option_bind skip_ws String.append]. change (is_ws ":") with false. cbn iota.
  change (String ":" ?u) with (":" +:+ u). rw expect_app. cbn [mbind option_bind]. by rw Hx.
Qed.

Lemma parse_members_print value (l : list (string * json)) (fuel : nat) (r : string) :
  l ≠ [] → Forall (λ kv, utf8 kv.1 ∧ reads value kv.2) l → (length l ≤ fuel)%nat →
  parse_members value fuel (sep_concat (List.map print_member l) +:+ "}" +:+ r) = Some (l, r).
Proof.
  intros Hne Hl. revert fuel Hne; induction Hl as [|[k x] l [Hk Hx] Hl IH]; intros fuel Hne Hf; [done|].
  destruct fuel as [|fuel]; [simpl in Hf; lia|].
  destruct l as [|kv' l].
  - cbn [sep_concat List.map parse_members].
    rw parse_member_print //. by right; right; left.
  - change (sep_concat (List.map print_member ((k, x) :: kv' :: l)))
      with (print_member (k, x) +:+ "," +:+ sep_concat (List.map print_member (kv' :: l))).
    rw (app_str_assoc (print_member (k, x))) (app_str_assoc ","). cbn [parse_members].
    rw parse_member_print //; [by left|].
    cbn [mbind option_bind skip_ws String.append].
    change (is_ws ",") with false. cbn iota. rw IH //. simpl in *. lia.
Qed.

Lemma sep_concat_cons (y z : string) (l : list string) :
  String.length (sep_concat (y :: z :: l))
  = (String.length y + S (String.length (sep_concat (z :: l))))%nat.
Proof. change (sep_concat (y :: z :: l)) with (y +:+ "," +:+ sep_concat (z :: l)). by rw !length_app_str. Qed.

Lemma sep_concat_length (l : list string) (x : string) :
  x ∈ l → (String.length x ≤ String.length (sep_concat l))%nat.
Proof.
  induction l as [|y l IH]; [by intros ?%not_elem_of_nil|].
  intros H. destruct l as [|z l].
  - apply list_elem_of_singleton in H as ->. simpl. lia.
  - rw sep_concat_cons. apply elem_of_cons in H as [->|H]; [lia|]. specialize (IH H). lia.
Qed.

Lemma sep_concat_count (l : list string) : (length l ≤ S (String.length (sep_concat l)))%nat.
Proof.
  induction l as [|y [|z l] IH]; [simpl; lia..|]. rw sep_concat_cons. simpl in *. lia.
Qed.

Lemma parse_value_num (f : nat) (c : ascii) (u : string) :
  c = "-"%char ∨ is_digit c = true →
  parse_value (S f) (String c u)
  = ('(l, r) ← json_number (String c u); Some (JNum l, r)).
Proof.
  intros [->|Hc]; [reflexivity|].
  destruct c as [[] [] [] [] [] [] [] []]; try (vm_compute in Hc; discriminate); reflexivity.
Qed.

Lemma parse_value_str (f : nat) (u : string) :
  parse_value (S f) (String (chr 34) u)
  = ('(t, r) ← read_str (String.length u) u; Some (JStr t, r)).
Proof. reflexivity. Qed.

Lemma parse_value_arr (f : nat) (c : ascii) (u : string) :
  is_ws c = false → c ≠ "]"%char →
  parse_value (S f) (String "[" (String c u))
  = ('(l, r) ← parse_elems (parse_value f) (S f) (String c u); Some (JArr l, r)).
Proof.
  intros Hw Hc. simpl. rw Hw. destruct c as [[] [] [] [] [] [] [] []]; try done.
Qed.

Lemma parse_value_obj (f : nat) (u : string) :
  parse_value (S f) (String "{" (String (chr 34) u))
  = ('(l, r) ← parse_members (parse_value f) (S f) (String (chr 34) u); Some (JObj l, r)).
Proof. reflexivity. Qed.

Lemma parse_value_print (f : nat) (v : json) (r : string) :
  wf_json v → delim r → (String.length (print v) ≤ f)%nat →
  parse_value f (print v +:+ r) = Some (v, r).
Proof.
  revert v r; induction f as [|f IH]; intros v r Hw Hr Hf.
  { destruct (print_head v Hw) as (c & t & Hp & _). rw Hp in Hf. simpl in Hf. lia. }
  destruct v as [|[]|lit|s|l|l]; [reflexivity..| | | |].
  - change (print (JNum lit)) with lit in *. destruct (num_ok_head lit Hw) as (c & t & E & Hc).
    pose proof (json_number_delim lit r Hr Hw) as Hn. rw E in Hn |- *.
    change (String c t +:+ r) with (String c (t +:+ r)) in *. by rw parse_value_num // Hn.
  - change (print (JStr s)) with (quote s). rw quote_app parse_value_str read_quote // !length_app_str. simpl. lia.
  - rw wf_arr in Hw. change (print (JArr l)) with ("[" +:+ sep_concat (List.map print l) +:+ "]") in *.
    destruct l as [|x l]; [done|].
    assert (Hhd : ∃ c t, sep_concat (List.map print (x :: l)) = String c t
                         ∧ is_ws c = false ∧ c ≠ "]"%char).
    { apply Forall_cons in Hw as [Hx _]. destruct (print_head x Hx) as (c & t & Hp & Hc & Hc' & _).
      simpl. rw Hp. destruct (List.map print l); eexists _, _; split; try done; reflexivity. }
    assert (Hel : parse_elems (parse_value f) (S f)
      (sep_concat (List.map print (x :: l)) +:+ "]" +:+ r) = Some (x :: l, r)).
    { apply parse_elems_print; [done|..].
      - apply Forall_forall. intros y Hy r' Hr'. apply IH; [exact (proj1 (Forall_forall _ _) Hw y Hy)|done|].
        assert (String.length (print y) ≤ String.length (sep_concat (List.map print (x :: l))))%nat.
        { apply sep_concat_length, list_elem_of_In, List.in_map, list_elem_of_In, Hy. }
        simpl in *. rw length_app_str in Hf. simpl in Hf. lia.
      - pose proof (sep_concat_count (List.map print (x :: l))) as Hc. rw length_map in Hc.
        simpl in *. rw length_app_str in Hf. simpl in Hf. lia. }
    destruct Hhd as (c & t & Hs & Hc & Hc'). rw Hs in Hel |- *. cbn [String.append] in *.
    rw app_str_assoc parse_value_arr //. cbn [String.append]. by rewrite Hel.
  - rw wf_obj in Hw.
    change (print (JObj l)) with ("{" +:+ sep_concat (List.map print_member l) +:+ "}") in *.
    destruct l as [|[k x] l]; [done|].
    assert (Hhd : ∃ t, sep_concat (List.map print_member ((k, x) :: l)) = String (chr 34) t).
    { cbn [List.map]. destruct (List.map print_member l); eexists; reflexivity. }
    assert (Hel : parse_members (parse_value f) (S f)
      (sep_concat (List.map print_member ((k, x) :: l)) +:+ "}" +:+ r) = Some ((k, x) :: l, r)).
    { apply parse_members_print; [done|..].
      - apply Forall_forall. intros [k' y] Hy. destruct (proj1 (Forall_forall _ _) Hw _ Hy) as [Hk' Hy'].
        split; [done|]. intros r' Hr'. apply IH; [done..|].
        assert (H : (String.length (print_member (k', y)) ≤
                 String.length (sep_concat (List.map print_member ((k, x) :: l))))%nat).
        { apply sep_concat_length, list_elem_of_In, List.in_map, list_elem_of_In, Hy. }
        rw {1}/print_member !length_app_str in H. simpl in *. rw length_app_str in Hf. simpl in Hf. lia.
      - pose proof (sep_concat_count (List.map print_member ((k, x) :: l))) as Hc. rw length_map in Hc.
        simpl in *. rw length_app_str in Hf. simpl in Hf. lia. }
    destruct Hhd as (t & Hs). rw Hs in Hel |- *. cbn [String.append] in *.
    rw app_str_assoc parse_value_obj //. by rewrite Hel.
Qed.

(** [json.Unmarshal] of what [json.Marshal] wrote, at the level of syntax trees. *)
Theorem parse_print (v : json) : wf_json v → parse (print v) = Some v.
Proof.
  intros Hw. rw /parse -{2}(app_str_nil_r (print v)) parse_value_print //. lia.
Qed.

(** ** Numbers as [json.Marshal] writes them *)

Definition exp_form (d e : Z) : string :=
  match dec_nat d with
  | String c rest =>
      let x := e + slen rest in
      String c ((if bool_decide (rest = "") then "" else "." +:+ rest) +:+
                "e" +:+ (if x <? 0 then "-" else "+") +:+ dec_nat (Z.abs x))
  | EmptyString => ""
  end.
(** [floatEncoder]: exponent form below 1e-6 and from 1e21 on. *)
Definition json_abs_num (a : Z) : string :=
  let de := shortest a in
  if (a <? dec_value 1 (-6)) || (dec_value 1 21 <=? a) then exp_form de.1 de.2
  else show_pos de.1 de.2.
Definition json_num (x : Z) : string :=
  if bool_decide (x = 0) then "0"
  else (if x <? 0 then "-" else "") +:+ json_abs_num (Z.abs x).

Lemma dec_fuel_head (f : nat) (n : Z) (acc : string) :
  0 < n < 10 ^ Z.of_nat f → ∃ d t, dec_fuel f n acc = String (digit d) t ∧ 1 ≤ d ≤ 9.
Proof.
  revert n acc; induction f as [|f IH]; intros n acc Hn; [simpl in Hn; lia|]. simpl.
  destruct (Z.ltb_spec n 10).
  - exists n, acc. rw Z.mod_small; [lia|]. split; [done|lia].
  - apply IH. rw Nat2Z.inj_succ Z.pow_succ_r in Hn; [lia|].
    split; [lia|]. apply Z.div_lt_upper_bound; lia.
Qed.

Lemma dec_nat_head (n : Z) : 0 < n → ∃ d t, dec_nat n = String (digit d) t ∧ 1 ≤ d ≤ 9.
Proof.
  intros H. rw /dec_nat. apply dec_fuel_head.
  split; [done|]. by apply dec_fuel_enough, Z.lt_le_incl.
Qed.

(** A digit string without a superfluous leading zero. *)
Definition int_text (s : string) : Prop :=
  all_digits s = true ∧ (s = "0" ∨ (s ≠ "" ∧ ∀ t, s ≠ String "0" t)).

Lemma digit_not_zero (d : Z) : 1 ≤ d ≤ 9 → digit d ≠ "0"%char.
Proof. intros Hd E. apply (f_equal digit_val) in E. rw digit_val_digit in E; [lia|]. vm_compute in E. lia. Qed.

Lemma int_text_dec (n : Z) : 0 ≤ n → int_text (dec_nat n).
Proof.
  intros Hn. split; [by apply dec_nat_digits|]. destruct (decide (n = 0)) as [->|]; [by left|right].
  destruct (dec_nat_head n ltac:(lia)) as (d & t & -> & Hd). split; [done|].
  intros t' [= Ez _]. exact (digit_not_zero _ ltac:(eassumption) Ez).
Qed.

(** [json_int] takes an integer text whole when no digit follows. *)
Definition no_digit (r : string) : Prop :=
  match r with String c _ => is_digit c = false | EmptyString => True end.

Lemma span_digits_no_digit (s r : string) :
  all_digits s = true → no_digit r → span_digits (s +:+ r) = (s, r).
Proof.
  intros Hs Hr. destruct r as [|c r]; [rw app_str_nil_r; by apply span_digits_all|].
  by apply span_digits_stop.
Qed.

Lemma json_int_text (s r : string) : int_text s → no_digit r → json_int (s +:+ r) = Some (s, r).
Proof.
  intros [Hd [->|[Hne Hz]]] Hr; [done|]. rw json_int_nonzero.
  - intros t E. destruct s as [|c s]; [done|]. injection E as -> _. by apply (Hz s).
  - rw span_digits_no_digit //. by rw bool_decide_eq_false_2.
Qed.

Lemma json_number_unsigned (s : string) (c : ascii) (t : string) :
  s = String c t → is_digit c = true → json_number s = json_unsigned s.
Proof.
  intros -> Hc. destruct c as [[] [] [] [] [] [] [] []]; try done; vm_compute in Hc; discriminate.
Qed.

Lemma num_ok_int (n : Z) : num_ok (dec n).
Proof.
  assert (Hu : ∀ m, 0 ≤ m → json_unsigned (dec_nat m) = Some (dec_nat m, "")).
  { intros m Hm. rw /json_unsigned -{1}(app_str_nil_r (dec_nat m)).
    rw json_int_text //; [by apply int_text_dec|]. simpl. by rw !app_str_nil_r. }
  rw /num_ok /dec. destruct (Z.ltb_spec n 0).
  - simpl. rw Hu //. lia.
  - destruct (digits_first (dec_nat n) "" (dec_nat_digits n ltac:(done)) (dec_nat_nonempty n))
      as (c & u & E & Hc). rw app_str_nil_r in E.
    rw (json_number_unsigned _ c u E Hc). by apply Hu.
Qed.

Lemma unsigned_show_pos (d e : Z) :
  0 < d → json_unsigned (show_pos d e) = Some (show_pos d e, "").
Proof.
  intros Hd. rw /show_pos. destruct (Z.leb_spec 0 e).
  - set (s := dec_nat d +:+ _). rw /json_unsigned -{1}(app_str_nil_r s) json_int_text //.
    + split; [rw /s all_digits_app dec_nat_digits ?zeros_digits //; lia|]. right.
      destruct (dec_nat_head d Hd) as (x & t & E & Hx). rw /s E. split; [done|].
      intros t' [= Ez _]. exact (digit_not_zero _ ltac:(eassumption) Ez).
    + simpl. by rw !app_str_nil_r.
  - assert (0 < 10 ^ (- e)) by (apply Z.pow_pos_nonneg; lia).
    assert (0 ≤ d `div` 10 ^ (- e)) by (apply Z.div_pos; lia).
    assert (Hfp : 0 ≤ d `mod` 10 ^ (- e) < 10 ^ (- e)) by (apply Z.mod_pos_bound; lia).
    rw /json_unsigned json_int_text //; [by apply int_text_dec|]. simpl.
    rw span_digits_all; [apply pad_dec_digits; lia|]. rw bool_decide_eq_false_2.
    { intros E. apply (f_equal slen) in E. rw slen_pad in E; [lia..|]. rw /slen /= in E. lia. }
    simpl. by rw app_str_nil_r.
Qed.

(** The exponent form denotes [d * 10^e] too, and is a literal. *)
Lemma exp_form_spec (d e : Z) :
  0 < d →
  json_unsigned (exp_form d e) = Some (exp_form d e, "") ∧
  lex_number (exp_form d e) = Some (d, e, "") ∧
  ∃ c t, exp_form d e = String c t ∧ is_digit c = true.
Proof.
  intros Hd. destruct (dec_nat_head d Hd) as (x & rest & E & Hx).
  pose proof (dec_nat_digits d ltac:(lia)) as Hdig. pose proof (dec_nat_val d ltac:(lia)) as Hval.
  rw /exp_form E. rw E in Hdig, Hval. simpl in Hdig. apply andb_true_iff in Hdig as [Hc Hrest].
  set (k := e + slen rest). set (sg := if k <? 0 then "-" else "+").
  set (tail := "e" +:+ sg +:+ dec_nat (Z.abs k)).
  set (fr := if bool_decide (rest = "") then "" else "." +:+ rest).
  assert (Hexp : json_exp tail = Some (tail, "") ∧ lex_exp tail = Some (k, "")).
  { rw /tail /sg. pose proof (dec_nat_digits (Z.abs k) (Z.abs_nonneg k)) as Hk.
    destruct (Z.ltb_spec k 0); simpl; rw span_digits_all //.
    all: rw bool_decide_eq_false_2 ?parse_nat_dec; [apply dec_nat_nonempty|lia|].
    all: split; [done|]; simpl; do 3 f_equal; lia. }
  destruct Hexp as [He1 He2].
  assert (Hfr : json_frac (fr +:+ tail) = Some (fr, tail) ∧ lex_frac (fr +:+ tail) = Some (rest, tail)).
  { rw /fr. case_bool_decide as Hr; [by rw Hr|]. simpl.
    change (rest +:+ tail) with (rest +:+ String "e" (sg +:+ dec_nat (Z.abs k))).
    rw span_digits_stop //. by rw bool_decide_eq_false_2. }
  destruct Hfr as [Hf1 Hf2].
  assert (Hnd : no_digit (fr +:+ tail)).
  { rw /fr. by case_bool_decide. }
  assert (Hsp : span_digits (String (digit x) (fr +:+ tail)) = (String (digit x) "", fr +:+ tail)).
  { change (String (digit x) ?u) with (String (digit x) "" +:+ u).
    apply span_digits_no_digit; [by simpl; rw Hc|done]. }
  clearbody tail fr. split; [|split].
  - rw /json_unsigned json_int_nonzero; [intros t [= Ez _]; exact (digit_not_zero _ Hx Ez)|].
    rw Hsp. simpl. rw Hf1. simpl. rw He1. simpl. done.
  - rw (lex_number_digit _ (digit x) (fr +:+ tail)) // /lex_unsigned Hsp. simpl. rw Hf2. simpl.
    rw He2. simpl. do 2 f_equal. f_equal; [done|]. rw /k. lia.
  - eexists _, _. split; [reflexivity|done].
Qed.

Lemma rnd_0 (den : Z) : rnd 0 den = 0.
Proof. rw /rnd. change (Z.sgn 0) with 0. apply Z.mul_0_l. Qed.

Lemma dec_value_0 (e : Z) : dec_value 0 e = 0.
Proof. rw /dec_value !Z.mul_0_l. destruct (0 <=? e); apply rnd_0. Qed.

Lemma shortest_pos (x : Z) : 0 < x → is_f64 x → 0 < (shortest x).1.
Proof.
  intros Hx Hf. pose proof (shortest_nonneg x ltac:(lia)) as Hn.
  destruct (decide ((shortest x).1 = 0)) as [H0|]; [|lia]. exfalso.
  pose proof (shortest_reads_back x ltac:(lia) Hf) as Hr.
  destruct (lex_show_pos (shortest x).1 (shortest x).2 Hn) as (m & e & Hl & Hv).
  rw (parse_float_lex _ _ _ Hl) Hv H0 in Hr.
  assert (dec_value 0 (shortest x).2 = 0) as Hz by (apply dec_value_0).
  rw Hz in Hr. change (overflows 0) with false in Hr. injection Hr. lia.
Qed.

Lemma json_abs_num_spec (x : Z) :
  0 < x → is_f64 x →
  json_unsigned (json_abs_num x) = Some (json_abs_num x, "") ∧
  parse_float (json_abs_num x) = Some x ∧
  ∃ c t, json_abs_num x = String c t ∧ is_digit c = true.
Proof.
  intros Hx Hf. pose proof (shortest_pos x Hx Hf) as Hp.
  pose proof (shortest_reads_back x ltac:(lia) Hf) as Hr.
  rw /json_abs_num. set (de := shortest x) in *. destruct (_ || _).
  - destruct (exp_form_spec de.1 de.2 Hp) as (H1 & H2 & H3). split_and!; [done| |done].
    destruct (lex_show_pos de.1 de.2 ltac:(lia)) as (m & e & Hl & Hv).
    rw (parse_float_lex _ _ _ Hl) Hv in Hr. by rw (parse_float_lex _ _ _ H2).
  - split_and!; [by apply unsigned_show_pos|done|]. apply show_pos_digit. lia.
Qed.

(** Every finite number is written as a literal that reads back to it. *)
Lemma json_num_spec (x : Z) :
  is_f64 x → num_ok (json_num x) ∧ parse_float (json_num x) = Some x.
Proof.
  intros Hf. rw /json_num. case_bool_decide as H0; [by subst|].
  assert (Ha : is_f64 (Z.abs x)).
  { destruct (Z.abs_spec x) as [[_ ->]|[_ ->]]; [done|by apply is_f64_opp]. }
  destruct (json_abs_num_spec (Z.abs x) ltac:(lia) Ha) as (H1 & H2 & c & t & Hc & Hd).
  destruct (Z.ltb_spec x 0).
  - change (?a +:+ ?b) with (String "-" b). split.
    + rw /num_ok /= H1 //.
    + rw (parse_float_neg _ (Z.abs x)) //; [by apply (lex_number_digit _ c t)|]. f_equal. lia.
  - change ("" +:+ ?b) with b. split.
    + by rw /num_ok (json_number_unsigned _ c t).
    + rw H2. f_equal. lia.
Qed.

(** ** Dynamic values: what an [interface{}] holds

    Objects are Go maps: keys are unique, and kept here in the order
    [json.Marshal] prints them (sorted by bytes). *)
Inductive gov :=
| GNil
| GBool (b : bool)
| GNum (x : Z)
| GStr (s : string)
| GArr (l : list gov)
| GObj (l : list (string * gov)).

Fixpoint of_gov (g : gov) : json :=
  match g with
  | GNil => JNull
  | GBool b => JBool b
  | GNum x => JNum (json_num x)
  | GStr s => JStr s
  | GArr l => JArr (List.map of_gov l)
  | GObj l => JObj (List.map (λ kv, (kv.1, of_gov kv.2)) l)
  end.

(** Insert a key unless it is there (a later duplicate wins). *)
Fixpoint insert_absent {A} (k : string) (v : A) (l : list (string * A)) : list (string * A) :=
  match l with
  | [] => [(k, v)]
  | (k', v') :: t =>
      match String.compare k k' with
      | Eq => l
      | Lt => (k, v) :: l
      | Gt => (k', v') :: insert_absent k v t
      end
  end.

Fixpoint to_gov (v : json) : option gov :=
  match v with
  | JNull => Some GNil
  | JBool b => Some (GBool b)
  | JNum lit => GNum <$> parse_float lit
  | JStr s => Some (GStr s)
  | JArr l =>
      GArr <$> (fix go l := match l with
                            | [] => Some []
                            | x :: l' => g ← to_gov x; gs ← go l'; Some (g :: gs)
                            end) l
  | JObj l =>
      GObj <$> (fix go l := match l with
                            | [] => Some []
                            | (k, x) :: l' => g ← to_gov x; gs ← go l'; Some (insert_absent k g gs)
                            end) l
  end.
Definition to_govs (l : list json) : option (list gov) :=
  match to_gov (JArr l) with Some (GArr gs) => Some gs | _ => None end.
Definition to_gov_map (l : list (string * json)) : option (list (string * gov)) :=
  match to_gov (JObj l) with Some (GObj gs) => Some gs | _ => None end.

Definition keys_sorted {A} (l : list (string * A)) : Prop :=
  StronglySorted (λ a b, String.compare a.1 b.1 = Lt) l.

Fixpoint wf_gov (g : gov) : Prop :=
  match g with
  | GNum x => is_f64 x
  | GStr s => utf8 s
  | GArr l => (fix go l := match l with [] => True | x :: l' => wf_gov x ∧ go l' end) l
  | GObj l => keys_sorted l ∧
      (fix go l := match l with
                   | [] => True
                   | kv :: l' => (utf8 kv.1 ∧ wf_gov kv.2) ∧ go l' end) l
  | _ => True
  end.

Section gov_induction.
Context (P : gov → Prop).
Hypothesis Hnil : P GNil.
Hypothesis Hbool : ∀ b, P (GBool b).
Hypothesis Hnum : ∀ x, P (GNum x).
Hypothesis Hstr : ∀ s, P (GStr s).
Hypothesis Harr : ∀ l, Forall P l → P (GArr l).
Hypothesis Hobj : ∀ l, Forall (λ kv, P kv.2) l → P (GObj l).

Fixpoint gov_ind' (g : gov) : P g :=
  match g with
  | GNil => Hnil
  | GBool b => Hbool b
  | GNum x => Hnum x
  | GStr s => Hstr s
  | GArr l => Harr l ((fix go l := match l return Forall P l with
                                   | [] => @List.Forall_nil _ _
                                   | x :: l' => @List.Forall_cons _ _ x l' (gov_ind' x) (go l')
                                   end) l)
  | GObj l => Hobj l ((fix go l := match l return Forall (λ kv, P kv.2) l with
                                   | [] => @List.Forall_nil _ _
                                   | kv :: l' => @List.Forall_cons _ _ kv l' (gov_ind' kv.2) (go l')
                                   end) l)
  end.
End gov_induction.

Lemma insert_absent_front {A} (k : string) (v : A) (l : list (string * A)) :
  keys_sorted ((k, v) :: l) → insert_absent k v l = (k, v) :: l.
Proof.
  intros H. destruct l as [|[k' v'] l]; [done|]. simpl.
  apply StronglySorted_inv in H as [_ H]. apply Forall_cons in H as [H _]. simpl in H. by rw H.
Qed.

Lemma of_gov_spec (g : gov) : wf_gov g → wf_json (of_gov g) ∧ to_gov (of_gov g) = Some g.
Proof.
  induction g as [|b|x|s|l IH|l IH] using gov_ind'; simpl; intros Hw; try done.
  - destruct (json_num_spec x Hw) as [H1 H2]. by rw H2.
  - induction IH as [|x l Hx Hl IHl]; simpl; [done|]. destruct Hw as [Hw1 Hw2].
    destruct (Hx Hw1) as [Hj ->]. destruct (IHl Hw2) as [Hj2 Ht]. split; [done|].
    simpl in Ht |- *. match type of Ht with (_ <$> ?o) = _ => destruct o; [|done] end.
    simpl in *. by injection Ht as ->.
  - destruct Hw as [Hs Hw]. induction IH as [|[k x] l Hx Hl IHl]; simpl; [done|].
    destruct Hw as [[Hk Hw1] Hw2]. destruct (Hx Hw1) as [Hj Hxg]. simpl in Hxg. rw Hxg.
    destruct (IHl (proj1 (StronglySorted_inv Hs)) Hw2) as [Hj2 Ht]. split; [done|].
    simpl in Ht |- *. match type of Ht with (_ <$> ?o) = _ => destruct o; [|done] end.
    simpl in *. injection Ht as ->. by rw insert_absent_front.
Qed.

(** ** Decoding objects into structs

    A field is found by its name up to ASCII case; an unknown key is skipped;
    [null] leaves a string or a number as it is. *)
Definition lower_ascii (c : ascii) : ascii :=
  let b := byte_val c in if (65 <=? b) && (b <=? 90) then chr (b + 32) else c.
Fixpoint lower (s : string) : string :=
  match s with String c s' => String (lower_ascii c) (lower s') | EmptyString => "" end.

Section struct.
Context {R : Type} (field : string → json → R → option R).
Fixpoint decode_fields (l : list (string * json)) (r : R) : option R :=
  match l with
  | [] => Some r
  | (k, v) :: l' => r' ← field (lower k) v r; decode_fields l' r'
  end.
Definition decode_struct (v : json) (r : R) : option R :=
  match v with JObj l => decode_fields l r | JNull => Some r | _ => None end.

Lemma decode_fields_cons k v l r :
  decode_fields ((k, v) :: l) r = r' ← field (lower k) v r; decode_fields l r'.
Proof. done. Qed.
End struct.

Definition dec_str {R} (set : string → R → R) (v : json) (r : R) : option R :=
  match v with JStr s => Some (set s r) | JNull => Some r | _ => None end.
Definition dec_int {R} (set : Z → R → R) (v : json) (r : R) : option R :=
  match v with JNum lit => n ← atoi lit; Some (set n r) | JNull => Some r | _ => None end.

(** [omitempty] *)
Definition omit_str (k s : string) : list (string * json) :=
  if bool_decide (s = "") then [] else [(k, JStr s)].
Definition omit_int (k : string) (n : Z) : list (string * json) :=
  if bool_decide (n = 0) then [] else [(k, JNum (dec n))].

(** [json.Unmarshal] reports malformed text and mismatched types alike. *)
Definition json_error : goerr := ErrMsg "json".
Definition unmarshal {R} (field : string → json → R → option R) (data : string) (r : R) : outcome R :=
  match v ← parse data; decode_struct field v r with
  | Some x => Ok x
  | None => Err json_error
  end.

Section struct_lemmas.
Context {R : Type} (field : string → json → R → option R).

Lemma decode_omit_str (set : string → R → R) k s l r :
  field (lower k) (JStr s) r = Some (set s r) → (s = "" → set "" r = r) →
  decode_fields field (omit_str k s ++ l) r = decode_fields field l (set s r).
Proof.
  rw /omit_str => H1 H2. case_bool_decide as E; simpl; [by rw E H2|]. by rw H1.
Qed.
Lemma decode_omit_int (set : Z → R → R) k n l r :
  field (lower k) (JNum (dec n)) r = Some (set n r) → (n = 0 → set 0 r = r) →
  decode_fields field (omit_int k n ++ l) r = decode_fields field l (set n r).
Proof.
  rw /omit_int => H1 H2. case_bool_decide as E; simpl; [by rw E H2|]. by rw H1.
Qed.
Lemma decode_str_field (set : string → R → R) k s l r :
  field (lower k) (JStr s) r = Some (set s r) →
  decode_fields field ((k, JStr s) :: l) r = decode_fields field l (set s r).
Proof. simpl. by move=> ->. Qed.
End struct_lemmas.

Lemma dec_int_ok {R} (set : Z → R → R) n r :
  in_int64 n = true → dec_int set (JNum (dec n)) r = Some (set n r).
Proof. intros H. rw /dec_int atoi_dec //. Qed.
