(* ===== verification/Job.v ===== *)
(** * Jobs and their JSON form (src/client/job.go)

    [Job] and [Failure] are the Go structs; the slices and maps whose nil and
    empty values cannot be told apart by the code are plain lists, [Args], which
    [Push] compares with nil, is an option.  [marshal_job] and [unmarshal_job]
    are [json.Marshal] and [json.Unmarshal] driven by the struct tags. *)
From S2P Require Import Prelude GoStrings Float64 Json.

Record Failure := mkFailure {
  RetryCount : Z;
  FailedAt : string;
  NextAt : string;
  ErrorMessage : string;
  ErrorType : string;
  FBacktrace : list string
}.

Record Job := mkJob {
  Jid : string;
  Queue : string;
  Type_ : string;
  Args : option (list gov);
  CreatedAt : string;
  EnqueuedAt : string;
  At : string;
  ReserveFor : Z;
  Retry : Z;
  Backtrace : Z;
  JFailure : option Failure;
  Custom : list (string * gov)
}.

(** Field updates. *)
Definition set_RetryCount (v : Z) (r : Failure) : Failure :=
  mkFailure v r.(FailedAt) r.(NextAt) r.(ErrorMessage) r.(ErrorType) r.(FBacktrace).
Definition set_FailedAt (v : string) (r : Failure) : Failure :=
  mkFailure r.(RetryCount) v r.(NextAt) r.(ErrorMessage) r.(ErrorType) r.(FBacktrace).
Definition set_NextAt (v : string) (r : Failure) : Failure :=
  mkFailure r.(RetryCount) r.(FailedAt) v r.(ErrorMessage) r.(ErrorType) r.(FBacktrace).
Definition set_ErrorMessage (v : string) (r : Failure) : Failure :=
  mkFailure r.(RetryCount) r.(FailedAt) r.(NextAt) v r.(ErrorType) r.(FBacktrace).
Definition set_ErrorType (v : string) (r : Failure) : Failure :=
  mkFailure r.(RetryCount) r.(FailedAt) r.(NextAt) r.(ErrorMessage) v r.(FBacktrace).
Definition set_FBacktrace (v : list string) (r : Failure) : Failure :=
  mkFailure r.(RetryCount) r.(FailedAt) r.(NextAt) r.(ErrorMessage) r.(ErrorType) v.
Definition set_Jid (v : string) (r : Job) : Job :=
  mkJob v r.(Queue) r.(Type_) r.(Args) r.(CreatedAt) r.(EnqueuedAt) r.(At) r.(ReserveFor) r.(Retry) r.(Backtrace) r.(JFailure) r.(Custom).
Definition set_Queue (v : string) (r : Job) : Job :=
  mkJob r.(Jid) v r.(Type_) r.(Args) r.(CreatedAt) r.(EnqueuedAt) r.(At) r.(ReserveFor) r.(Retry) r.(Backtrace) r.(JFailure) r.(Custom).
Definition set_Type_ (v : string) (r : Job) : Job :=
  mkJob r.(Jid) r.(Queue) v r.(Args) r.(CreatedAt) r.(EnqueuedAt) r.(At) r.(ReserveFor) r.(Retry) r.(Backtrace) r.(JFailure) r.(Custom).
Definition set_Args (v : option (list gov)) (r : Job) : Job :=
  mkJob r.(Jid) r.(Queue) r.(Type_) v r.(CreatedAt) r.(EnqueuedAt) r.(At) r.(ReserveFor) r.(Retry) r.(Backtrace) r.(JFailure) r.(Custom).
Definition set_CreatedAt (v : string) (r : Job) : Job :=
  mkJob r.(Jid) r.(Queue) r.(Type_) r.(Args) v r.(EnqueuedAt) r.(At) r.(ReserveFor) r.(Retry) r.(Backtrace) r.(JFailure) r.(Custom).
Definition set_EnqueuedAt (v : string) (r : Job) : Job :=
  mkJob r.(Jid) r.(Queue) r.(Type_) r.(Args) r.(CreatedAt) v r.(At) r.(ReserveFor) r.(Retry) r.(Backtrace) r.(JFailure) r.(Custom).
Definition set_At (v : string) (r : Job) : Job :=
  mkJob r.(Jid) r.(Queue) r.(Type_) r.(Args) r.(CreatedAt) r.(EnqueuedAt) v r.(ReserveFor) r.(Retry) r.(Backtrace) r.(JFailure) r.(Custom).
Definition set_ReserveFor (v : Z) (r : Job) : Job :=
  mkJob r.(Jid) r.(Queue) r.(Type_) r.(Args) r.(CreatedAt) r.(EnqueuedAt) r.(At) v r.(Retry) r.(Backtrace) r.(JFailure) r.(Custom).
Definition set_Retry (v : Z) (r : Job) : Job :=
  mkJob r.(Jid) r.(Queue) r.(Type_) r.(Args) r.(CreatedAt) r.(EnqueuedAt) r.(At) r.(ReserveFor) v r.(Backtrace) r.(JFailure) r.(Custom).
Definition set_Backtrace (v : Z) (r : Job) : Job :=
  mkJob r.(Jid) r.(Queue) r.(Type_) r.(Args) r.(CreatedAt) r.(EnqueuedAt) r.(At) r.(ReserveFor) r.(Retry) v r.(JFailure) r.(Custom).
Definition set_JFailure (v : option Failure) (r : Job) : Job :=
  mkJob r.(Jid) r.(Queue) r.(Type_) r.(Args) r.(CreatedAt) r.(EnqueuedAt) r.(At) r.(ReserveFor) r.(Retry) r.(Backtrace) v r.(Custom).
Definition set_Custom (v : list (string * gov)) (r : Job) : Job :=
  mkJob r.(Jid) r.(Queue) r.(Type_) r.(Args) r.(CreatedAt) r.(EnqueuedAt) r.(At) r.(ReserveFor) r.(Retry) r.(Backtrace) r.(JFailure) v.

Definition zero_failure : Failure := mkFailure 0 "" "" "" "" [].
Definition zero_job : Job := mkJob "" "" "" None "" "" "" 0 0 0 None [].

#[global] Instance failure_eq_dec : EqDecision Failure.
Proof. solve_decision. Defined.

(** ** Marshalling *)

Definition failure_to_json (f : Failure) : json :=
  JObj ([("retry_count", JNum (dec f.(RetryCount))); ("failed_at", JStr f.(FailedAt))]
        ++ omit_str "next_at" f.(NextAt)
        ++ omit_str "message" f.(ErrorMessage)
        ++ omit_str "errtype" f.(ErrorType)
        ++ match f.(FBacktrace) with
           | [] => []
           | bt => [("backtrace", JArr (List.map JStr bt))]
           end).
Definition job_to_json (j : Job) : json :=
  JObj ([("jid", JStr j.(Jid)); ("queue", JStr j.(Queue)); ("jobtype", JStr j.(Type_));
         ("args", match j.(Args) with Some l => JArr (List.map of_gov l) | None => JNull end)]
        ++ omit_str "created_at" j.(CreatedAt)
        ++ omit_str "enqueued_at" j.(EnqueuedAt)
        ++ omit_str "at" j.(At)
        ++ omit_int "reserve_for" j.(ReserveFor)
        ++ [("retry", JNum (dec j.(Retry)))]
        ++ omit_int "backtrace" j.(Backtrace)
        ++ match j.(JFailure) with Some f => [("failure", failure_to_json f)] | None => [] end
        ++ match j.(Custom) with [] => [] | m => [("custom", of_gov (GObj m))] end).
Definition marshal_job (j : Job) : string := print (job_to_json j).

(** ** Unmarshalling, into a struct that may already hold values *)

Fixpoint dec_strings (l : list json) : option (list string) :=
  match l with
  | [] => Some []
  | JStr s :: l' => ss ← dec_strings l'; Some (s :: ss)
  | JNull :: l' => ss ← dec_strings l'; Some ("" :: ss)
  | _ :: _ => None
  end.
Definition failure_field (k : string) (v : json) (f : Failure) : option Failure :=
  if bool_decide (k = "retry_count") then dec_int set_RetryCount v f
  else if bool_decide (k = "failed_at") then dec_str set_FailedAt v f
  else if bool_decide (k = "next_at") then dec_str set_NextAt v f
  else if bool_decide (k = "message") then dec_str set_ErrorMessage v f
  else if bool_decide (k = "errtype") then dec_str set_ErrorType v f
  else if bool_decide (k = "backtrace") then
    match v with
    | JArr l => bt ← dec_strings l; Some (set_FBacktrace bt f)
    | JNull => Some (set_FBacktrace [] f)
    | _ => None
    end
  else Some f.

(** Entries decoded into an existing map overwrite it key by key. *)
Definition merge_map (new old : list (string * gov)) : list (string * gov) :=
  List.fold_right (λ kv acc, insert_absent kv.1 kv.2 acc) new old.

Definition job_field (k : string) (v : json) (j : Job) : option Job :=
  if bool_decide (k = "jid") then dec_str set_Jid v j
  else if bool_decide (k = "queue") then dec_str set_Queue v j
  else if bool_decide (k = "jobtype") then dec_str set_Type_ v j
  else if bool_decide (k = "args") then
    match v with
    | JArr l => gs ← to_govs l; Some (set_Args (Some gs) j)
    | JNull => Some (set_Args None j)
    | _ => None
    end
  else if bool_decide (k = "created_at") then dec_str set_CreatedAt v j
  else if bool_decide (k = "enqueued_at") then dec_str set_EnqueuedAt v j
  else if bool_decide (k = "at") then dec_str set_At v j
  else if bool_decide (k = "reserve_for") then dec_int set_ReserveFor v j
  else if bool_decide (k = "retry") then dec_int set_Retry v j
  else if bool_decide (k = "backtrace") then dec_int set_Backtrace v j
  else if bool_decide (k = "failure") then
    match v with
    | JNull => Some (set_JFailure None j)
    | JObj l => f ← decode_fields failure_field l (default zero_failure j.(JFailure));
                Some (set_JFailure (Some f) j)
    | _ => None
    end
  else if bool_decide (k = "custom") then
    match v with
    | JNull => Some (set_Custom [] j)
    | JObj l => m ← to_gov_map l; Some (set_Custom (merge_map m j.(Custom)) j)
    | _ => None
    end
  else Some j.

(** [json.Unmarshal(data, &job)] where [job] holds [init]. *)
Definition unmarshal_job (init : Job) (data : string) : outcome Job :=
  unmarshal job_field data init.

(** ** Constructors and custom data *)

(** [NewJob]; [jid] is [RandomJid()] and [now] the formatted clock. *)
Definition NewJob (jid now : string) (jobtype : string) (args : list gov) : Job :=
  mkJob jid "default" jobtype (Some args) now "" "" 0 25 0 None [].
Definition GetCustom (j : Job) (name : string) : option gov :=
  snd <$> List.find (λ kv, bool_decide (kv.1 = name)) j.(Custom).
Definition SetCustom (name : string) (value : gov) (j : Job) : Job :=
  set_Custom (merge_map [(name, value)] j.(Custom)) j.
Definition SetUniqueFor (secs : Z) (j : Job) : Job := SetCustom "unique_for" (GNum (f_of_Z secs)) j.
Definition SetUniqueness (until : string) (j : Job) : Job := SetCustom "unique_until" (GStr until) j.
Definition SetExpiresAt (expires_at : string) (j : Job) : Job :=
  SetCustom "expires_at" (GStr expires_at) j.

(** ** Well-formed jobs: what Go can hold and JSON can carry *)

Definition wf_failure (f : Failure) : Prop :=
  in_int64 f.(RetryCount) = true ∧ utf8 f.(FailedAt) ∧ utf8 f.(NextAt) ∧
  utf8 f.(ErrorMessage) ∧ utf8 f.(ErrorType) ∧ Forall utf8 f.(FBacktrace).
Definition wf_job (j : Job) : Prop :=
  utf8 j.(Jid) ∧ utf8 j.(Queue) ∧ utf8 j.(Type_) ∧
  (∀ l, j.(Args) = Some l → wf_gov (GArr l)) ∧
  utf8 j.(CreatedAt) ∧ utf8 j.(EnqueuedAt) ∧ utf8 j.(At) ∧
  in_int64 j.(ReserveFor) = true ∧ in_int64 j.(Retry) = true ∧ in_int64 j.(Backtrace) = true ∧
  (∀ f, j.(JFailure) = Some f → wf_failure f) ∧ wf_gov (GObj j.(Custom)).

(** ** Round trips *)

Lemma failure_eta (f : Failure) :
  set_ErrorType f.(ErrorType) (set_ErrorMessage f.(ErrorMessage) (set_NextAt f.(NextAt)
    (set_FailedAt f.(FailedAt) (set_RetryCount f.(RetryCount) zero_failure))))
  = set_FBacktrace [] f.
Proof. by destruct f. Qed.

Lemma dec_strings_map (l : list string) : dec_strings (List.map JStr l) = Some l.
Proof. induction l as [|s l IH]; simpl; [done|]. by rw IH. Qed.

Lemma decode_failure (f : Failure) :
  wf_failure f →
  match failure_to_json f with
  | JObj l => decode_fields failure_field l zero_failure
  | _ => None
  end = Some f.
Proof.
  intros (Hn & _). rw /failure_to_json. cbn [app].
  rw decode_fields_cons. change (failure_field (lower "retry_count")) with (dec_int set_RetryCount).
  rw dec_int_ok //. cbn [mbind option_bind].
  rw (decode_str_field _ set_FailedAt) //.
  rw (decode_omit_str _ set_NextAt) //. rw (decode_omit_str _ set_ErrorMessage) //.
  rw (decode_omit_str _ set_ErrorType) //. rw failure_eta.
  destruct f as [? ? ? ? ? bt]. destruct bt as [|s bt]; [done|].
  cbn [FBacktrace]. rw decode_fields_cons.
  change (failure_field (lower "backtrace") (JArr ?l) ?f)
    with (bt ← dec_strings l; Some (set_FBacktrace bt f)).
  by rw dec_strings_map.
Qed.

Lemma to_govs_map (l : list gov) : wf_gov (GArr l) → to_govs (List.map of_gov l) = Some l.
Proof. intros H. rw /to_govs. by rw (proj2 (of_gov_spec (GArr l) H) : to_gov (JArr _) = _). Qed.
Lemma to_gov_map_map (m : list (string * gov)) :
  wf_gov (GObj m) → to_gov_map (List.map (λ kv, (kv.1, of_gov kv.2)) m) = Some m.
Proof. intros H. rw /to_gov_map. by rw (proj2 (of_gov_spec (GObj m) H) : to_gov (JObj _) = _). Qed.

Lemma merge_map_nil (m : list (string * gov)) : merge_map m [] = m.
Proof. done. Qed.

(** The fields before the optional struct and map. *)
Definition job_scalars (j : Job) : Job :=
  set_JFailure None (set_Custom [] j).

Lemma job_eta (r : Z) (j : Job) (a : option (list gov)) :
  set_Backtrace j.(Backtrace) (set_Retry j.(Retry) (set_ReserveFor j.(ReserveFor)
    (set_At j.(At) (set_EnqueuedAt j.(EnqueuedAt) (set_CreatedAt j.(CreatedAt)
    (set_Args a (set_Type_ j.(Type_) (set_Queue j.(Queue) (set_Jid j.(Jid) (set_Retry r zero_job))))))))))
  = set_Args a (job_scalars j).
Proof. by destruct j. Qed.

Lemma decode_args (j0 : Job) (a : option (list gov)) l :
  (∀ gs, a = Some gs → wf_gov (GArr gs)) → j0.(Args) = None →
  decode_fields job_field
    (("args", match a with Some gs => JArr (List.map of_gov gs) | None => JNull end) :: l) j0
  = decode_fields job_field l (set_Args a j0).
Proof.
  intros Hw H0. rw decode_fields_cons. destruct a as [gs|].
  - change (job_field (lower "args") (JArr ?l) ?j) with (gs ← to_govs l; Some (set_Args (Some gs) j)).
    rw to_govs_map //. by apply Hw.
  - done.
Qed.

(** The retry count is always in the text, so what it was before does not matter. *)
Lemma decode_job (r : Z) (j : Job) :
  wf_job j →
  decode_struct job_field (job_to_json j) (set_Retry r zero_job) = Some j.
Proof.
  intros (_ & _ & _ & Ha & _ & _ & _ & Hr & Ht & Hb & Hf & Hc).
  rw /job_to_json. cbn [app decode_struct].
  rw (decode_str_field _ set_Jid) // (decode_str_field _ set_Queue) // (decode_str_field _ set_Type_) //.
  rw decode_args //.
  rw (decode_omit_str _ set_CreatedAt) // (decode_omit_str _ set_EnqueuedAt) // (decode_omit_str _ set_At) //.
  rw (decode_omit_int _ set_ReserveFor) //; [by apply dec_int_ok|].
  cbn [app]. rw decode_fields_cons.
  change (job_field (lower "retry")) with (dec_int set_Retry). rw dec_int_ok //. cbn [mbind option_bind].
  rw (decode_omit_int _ set_Backtrace) //; [by apply dec_int_ok|]. rw job_eta.
  assert (Hcustom : ∀ f, decode_fields job_field
     match j.(Custom) with [] => [] | m => [("custom", of_gov (GObj m))] end
     (set_JFailure f (set_Custom [] j)) = Some (set_JFailure f j)).
  { intros f. destruct j as [? ? ? ? ? ? ? ? ? ? ? m]. cbn [Custom] in *. destruct m as [|kv m]; [done|].
    rw decode_fields_cons. cbn [of_gov].
    change (job_field (lower "custom") (JObj ?l) ?j)
      with (m ← to_gov_map l; Some (set_Custom (merge_map m j.(Custom)) j)).
    by rw to_gov_map_map. }
  destruct j as [? ? ? args ? ? ? ? ? ? fl m]. cbn [JFailure Custom Args] in *.
  destruct fl as [f|].
  - cbn [app]. rw decode_fields_cons.
    pose proof (decode_failure f (Hf f eq_refl)) as Hd. rw /failure_to_json in Hd |- *.
    change (job_field (lower "failure") (JObj ?l) ?j)
      with (f ← decode_fields failure_field l (default zero_failure j.(JFailure)); Some (set_JFailure (Some f) j)).
    cbn [job_scalars set_Args set_JFailure set_Custom JFailure default from_option]. rw Hd.
    cbn [mbind option_bind]. exact (Hcustom (Some f)).
  - exact (Hcustom None).
Qed.

Lemma wf_omit_str (k s : string) : utf8 k → utf8 s → Forall (λ kv, utf8 kv.1 ∧ wf_json kv.2) (omit_str k s).
Proof. intros. rw /omit_str. case_bool_decide; repeat constructor; done. Qed.
Lemma wf_omit_int (k : string) (n : Z) : utf8 k → Forall (λ kv, utf8 kv.1 ∧ wf_json kv.2) (omit_int k n).
Proof.
  intros. rw /omit_int. case_bool_decide; [constructor|]. constructor; [|constructor].
  split; [done|]. apply num_ok_int.
Qed.

(** Struct tags are ASCII. *)
Ltac ascii_lit := repeat (apply utf8_ascii; [done|]); apply utf8_nil.

(** Split the well-formedness of a literal list of fields. *)
Ltac wf_fields :=
  repeat (apply Forall_cons; split; [split; [ascii_lit|]|]); try apply Forall_nil_2.

Lemma wf_failure_json (f : Failure) : wf_failure f → wf_json (failure_to_json f).
Proof.
  intros (_ & H1 & H2 & H3 & H4 & H5). rw /failure_to_json. apply wf_obj.
  rw !Forall_app. split_and!; try (apply wf_omit_str; [ascii_lit|done]).
  - wf_fields; [apply num_ok_int|done].
  - destruct f.(FBacktrace) as [|s bt]; [constructor|]. constructor; [|constructor]. split; [ascii_lit|].
    apply wf_arr. apply Forall_map. apply (Forall_impl _ _ _ H5). done.
Qed.

Lemma wf_job_json (j : Job) : wf_job j → wf_json (job_to_json j).
Proof.
  intros (H1 & H2 & H3 & Ha & H5 & H6 & H7 & _ & _ & _ & Hf & Hc).
  rw /job_to_json. apply wf_obj. rw !Forall_app.
  split_and!; try (apply wf_omit_str; [ascii_lit|done]); try (apply wf_omit_int; ascii_lit).
  - wf_fields; try done. destruct j.(Args) as [l|]; [|done].
    by apply (of_gov_spec (GArr l)), Ha.
  - wf_fields. apply num_ok_int.
  - destruct j.(JFailure) as [f|]; [|constructor]. constructor; [|constructor].
    split; [ascii_lit|]. by apply wf_failure_json, Hf.
  - destruct j.(Custom) as [|kv m]; [constructor|]. constructor; [|constructor].
    split; [ascii_lit|]. by apply (of_gov_spec (GObj (kv :: m))).
Qed.

(** A job survives the queue: what is read back is what was stored. *)
Lemma unmarshal_marshal_job_from (r : Z) (j : Job) :
  wf_job j → unmarshal_job (set_Retry r zero_job) (marshal_job j) = Ok j.
Proof.
  intros Hw. rw /unmarshal_job /unmarshal /marshal_job parse_print; [by apply wf_job_json|].
  cbn [mbind option_bind]. by rw decode_job.
Qed.
Lemma unmarshal_marshal_job (j : Job) :
  wf_job j → unmarshal_job zero_job (marshal_job j) = Ok j.
Proof. exact (unmarshal_marshal_job_from 0 j). Qed.
