(* ===== verification/Redis.v ===== *)
(** * The Redis server, as an interface

    Redis and its Go driver are not part of this repository: they are the
    parameter [Redis] of the development.  [cmd] lists the commands the source
    issues, with the type of their replies; [redis_doc] states their documented
    effect on a dataset; an instance provides a server state, a way to execute
    commands, and the law that a command answered normally has its documented
    effect.  The server may also fail ([exec] returns an error that
    [redis_doc] does not); [up] says it will not.

    [MemRedis] is an instance used to run the model on concrete inputs: a
    dataset with a plan of which commands fail. *)
From S2P Require Import Prelude GoStrings Float64.

(** ** Data *)

Inductive rval :=
| RStr (s : string)
| RList (l : list string)
| RSet (s : gset string)
| RZSet (z : gmap string Z).

Abbreviation dataset := (gmap string rval).

(** Byte order on strings, which breaks ties between equal scores. *)
Fixpoint str_leb (a b : string) : bool :=
  match a, b with
  | EmptyString, _ => true
  | _, EmptyString => false
  | String x a', String y b' =>
      if byte_val x <? byte_val y then true
      else if byte_val y <? byte_val x then false else str_leb a' b'
  end.
Definition zle (a b : Z * string) : Prop :=
  a.1 < b.1 ∨ (a.1 = b.1 ∧ str_leb a.2 b.2 = true).
#[global] Instance zle_dec : RelDecision zle.
Proof. intros a b. apply or_dec; [apply _|]. apply and_dec; apply _. Defined.

Definition zelems (z : gmap string Z) : list (Z * string) :=
  merge_sort zle ((λ kv : string * Z, (kv.2, kv.1)) <$> map_to_list z).

Lemma elem_of_zelems z sc m : (sc, m) ∈ zelems z ↔ z !! m = Some sc.
Proof.
  rw /zelems. rewrite merge_sort_Permutation list_elem_of_fmap. split.
  - intros ([m' sc'] & [= -> ->] & H). by apply elem_of_map_to_list in H.
  - intros H. exists (m, sc). split; [done|]. by apply elem_of_map_to_list.
Qed.

(** ** Commands *)

Inductive cmd : Type → Type :=
| SAdd (k m : string) : cmd Z
| SRem (k m : string) : cmd Z
| SIsMember (k m : string) : cmd bool
| SMembers (k : string) : cmd (list string)
| LPush (k v : string) : cmd Z
| RPop (k : string) : cmd (option string)
| BRPop (ks : list string) : cmd (option (string * string))
| LRange (k : string) (start stop : Z) : cmd (list string)
| LLen (k : string) : cmd Z
| LRem (k : string) (count : Z) (v : string) : cmd Z
| ZAdd (k : string) (score : Z) (m : string) : cmd Z
| ZRem (k m : string) : cmd Z
| ZCard (k : string) : cmd Z
| ZRangeByScore (k min max : string) (count : Z) : cmd (list string)
| ZRangeWithScores (k : string) (start stop : Z) : cmd (list (Z * string))
| Unlink (k : string) : cmd Z
| IncrBy (k : string) (n : Z) : cmd Z
| KGet (k : string) : cmd (option string)
| KSet (k v : string) : cmd unit
| FlushDB : cmd unit.

Definition wrongtype : goerr :=
  ErrMsg "WRONGTYPE Operation against a key holding the wrong kind of value".
Definition not_integer : goerr := ErrMsg "ERR value is not an integer or out of range".
Definition bad_float : goerr := ErrMsg "ERR min or max is not a float".

(** A missing key reads as an empty container; an empty container is removed. *)
Definition as_list (d : dataset) (k : string) : outcome (list string) :=
  match d !! k with None => Ok [] | Some (RList l) => Ok l | _ => Err wrongtype end.
Definition as_set (d : dataset) (k : string) : outcome (gset string) :=
  match d !! k with None => Ok ∅ | Some (RSet s) => Ok s | _ => Err wrongtype end.
Definition as_zset (d : dataset) (k : string) : outcome (gmap string Z) :=
  match d !! k with None => Ok ∅ | Some (RZSet z) => Ok z | _ => Err wrongtype end.
Definition as_int (d : dataset) (k : string) : outcome Z :=
  match d !! k with
  | None => Ok 0
  | Some (RStr s) => match atoi s with Some n => Ok n | None => Err not_integer end
  | _ => Err wrongtype
  end.
Definition put_list (k : string) (l : list string) (d : dataset) : dataset :=
  if decide (l = []) then delete k d else <[k := RList l]> d.
Definition put_set (k : string) (s : gset string) (d : dataset) : dataset :=
  if decide (s = ∅) then delete k d else <[k := RSet s]> d.
Definition put_zset (k : string) (z : gmap string Z) (d : dataset) : dataset :=
  if decide (z = ∅) then delete k d else <[k := RZSet z]> d.

(** Redis index ranges: negative indexes count from the end, both ends included. *)
Definition range_of {A} (l : list A) (start stop : Z) : list A :=
  let n := Z.of_nat (length l) in
  let a := Z.max 0 (if start <? 0 then n + start else start) in
  let b := if stop <? 0 then n + stop else stop in
  take (Z.to_nat (b - a + 1)) (drop (Z.to_nat a) l).

(** Remove the first [n] occurrences of [v] from the head ([LREM] with count > 0). *)
Fixpoint list_rem (n : nat) (v : string) (l : list string) : list string :=
  match n, l with
  | S n', x :: l' => if bool_decide (x = v) then list_rem n' v l' else x :: list_rem n v l'
  | _, _ => l
  end.

Definition parse_bound (s : string) : option (option Z) :=
  if bool_decide (s = "-inf") then Some None else Some <$> parse_float s.
Definition in_bounds (lo hi : option Z) (x : Z) : bool :=
  match lo with Some a => a <=? x | None => true end &&
  match hi with Some b => x <=? b | None => false end.

Fixpoint brpop_doc (ks : list string) (d : dataset) : outcome (option (string * string)) * dataset :=
  match ks with
  | [] => (Ok None, d)
  | k :: ks' =>
      match as_list d k with
      | Ok l => match last l with
                | Some v => (Ok (Some (k, v)), put_list k (List.removelast l) d)
                | None => brpop_doc ks' d
                end
      | Err e => (Err e, d)
      | Panic p => (Panic p, d)
      end
  end.

(** Read a container, compute the reply and the new dataset. *)
Definition with_val {V A} (r : outcome V) (d : dataset) (k : V → A * dataset) : outcome A * dataset :=
  match r with
  | Ok v => let (a, d') := k v in (Ok a, d')
  | Err e => (Err e, d)
  | Panic p => (Panic p, d)
  end.

(** Documented effect of each command. *)
Definition redis_doc {A} (c : cmd A) (d : dataset) : outcome A * dataset :=
  match c in cmd A return outcome A * dataset with
  | SAdd k m => with_val (as_set d k) d (λ s, (if decide (m ∈ s) then 0 else 1, put_set k ({[m]} ∪ s) d))
  | SRem k m => with_val (as_set d k) d (λ s, (if decide (m ∈ s) then 1 else 0, put_set k (s ∖ {[m]}) d))
  | SIsMember k m => with_val (as_set d k) d (λ s, (bool_decide (m ∈ s), d))
  | SMembers k => with_val (as_set d k) d (λ s, (elements s, d))
  | LPush k v => with_val (as_list d k) d
                   (λ l, (Z.of_nat (length (v :: l)), put_list k (v :: l) d))
  | RPop k => with_val (as_list d k) d (λ l, (last l, put_list k (List.removelast l) d))
  | BRPop ks => brpop_doc ks d
  | LRange k a b => with_val (as_list d k) d (λ l, (range_of l a b, d))
  | LLen k => with_val (as_list d k) d (λ l, (Z.of_nat (length l), d))
  | LRem k n v => with_val (as_list d k) d
                    (λ l, let l' := list_rem (Z.to_nat n) v l in
                          (Z.of_nat (length l - length l'), put_list k l' d))
  | ZAdd k sc m => with_val (as_zset d k) d
                     (λ z, (if decide (is_Some (z !! m)) then 0 else 1, put_zset k (<[m := sc]> z) d))
  | ZRem k m => with_val (as_zset d k) d
                  (λ z, (if decide (is_Some (z !! m)) then 1 else 0, put_zset k (delete m z) d))
  | ZCard k => with_val (as_zset d k) d (λ z, (Z.of_nat (size z), d))
  | ZRangeByScore k lo hi n =>
      match parse_bound lo, parse_bound hi with
      | Some a, Some b =>
          with_val (as_zset d k) d
            (λ z, let l := snd <$> filter (λ e, in_bounds a b e.1 = true) (zelems z) in
                  (if n =? 0 then l else take (Z.to_nat n) l, d))
      | _, _ => (Err bad_float, d)
      end
  | ZRangeWithScores k a b => with_val (as_zset d k) d (λ z, (range_of (zelems z) a b, d))
  | Unlink k => (Ok (if decide (is_Some (d !! k)) then 1 else 0), delete k d)
  | IncrBy k n =>
      with_val (as_int d k) d (λ x, (x + n, <[k := RStr (dec (x + n))]> d))
  | KGet k => match d !! k with
              | None => (Ok None, d)
              | Some (RStr s) => (Ok (Some s), d)
              | _ => (Err wrongtype, d)
              end
  | KSet k v => (Ok tt, <[k := RStr v]> d)
  | FlushDB => (Ok tt, ∅)
  end.

(** Members and scores alternately, as ZSCAN answers them. *)
Fixpoint flat (l : list (string * string)) : list string :=
  match l with [] => [] | (m, sc) :: l' => m :: sc :: flat l' end.

(** ** The interface

    [scan k cursor pat n] is [ZSCAN k cursor MATCH pat COUNT n]: the next cursor, 0 at
    the end, and some of the members that match with their scores.  Redis promises no
    more of a page than that; [glob] is its pattern language. *)

Class Redis := {
  rdb : Type;
  exec : ∀ {A}, cmd A → M rdb A;
  view : rdb → dataset;
  up : rdb → Prop;
  exec_up : ∀ {A} (c : cmd A) s, up s →
    ∃ s', exec c s = ((redis_doc c (view s)).1, s') ∧ view s' = (redis_doc c (view s)).2 ∧ up s';
  exec_ok : ∀ {A} (c : cmd A) s a s',
    exec c s = (Ok a, s') → redis_doc c (view s) = (Ok a, view s');
  glob : string → string → bool;
  glob_star v : glob "*" v = true;
  scan : string → Z → string → Z → M rdb (Z * list string);
  scan_up k cursor pat n s z : up s → as_zset (view s) k = Ok z →
    ∃ next l s', scan k cursor pat n s = (Ok (next, flat l), s') ∧ view s' = view s ∧ up s' ∧
      Forall (λ e : string * string, glob pat e.1 = true ∧
                ∃ sc, z !! e.1 = Some sc ∧ (is_f64 sc → parse_float e.2 = Some sc)) l;
}.

(** ** An in-memory instance with a fault plan *)

Module MemRedis.
Definition oom : goerr := ErrMsg "OOM command not allowed when used memory > 'maxmemory'.".
Record mem := { data : dataset; faults : list bool }.
Definition run {A} (c : cmd A) : M mem A :=
  λ s, match s.(faults) with
       | true :: fs => (Err oom, {| data := s.(data); faults := fs |})
       | _ => let (r, d) := redis_doc c s.(data) in (r, {| data := d; faults := tail s.(faults) |})
       end.
(** Patterns of stars and plain characters. *)
Fixpoint star (fuel : nat) (pat s : string) : bool :=
  match fuel with
  | O => false
  | S f =>
      match pat, s with
      | "", "" => true
      | String c p, _ =>
          if bool_decide (c = "*"%char) then
            star f p s || match s with String _ t => star f pat t | "" => false end
          else match s with String d t => bool_decide (c = d) && star f p t | "" => false end
      | "", _ => false
      end
  end.
Definition mem_glob (pat s : string) : bool :=
  bool_decide (pat = "*") || star (S (String.length pat + String.length s)) pat s.
(** The whole set in one page, as for a set of small encoding. *)
Definition mem_page (pat : string) (z : gmap string Z) : list (string * string) :=
  (λ e : Z * string, (e.2, format_f e.1)) <$> filter (λ e, mem_glob pat e.2 = true) (zelems z).
Definition mem_scan (k : string) (cursor : Z) (pat : string) (n : Z) : M mem (Z * list string) :=
  λ s, match s.(faults) with
       | true :: fs => (Err oom, {| data := s.(data); faults := fs |})
       | _ => (omap_outcome (λ z, (0, flat (mem_page pat z))) (as_zset s.(data) k),
               {| data := s.(data); faults := tail s.(faults) |})
       end.
Definition healthy (s : mem) : Prop := Forall (λ b, b = false) s.(faults).

#[global] Program Instance mem_redis : Redis :=
  {| rdb := mem; exec := @run; view := data; up := healthy;
     glob := mem_glob; scan := mem_scan |}.
Next Obligation.
  intros A c [d fs] H. rw /run /=. destruct fs as [|[] fs].
  - destruct (redis_doc c d) as [r d']. by eexists.
  - by apply Forall_cons in H as [? _].
  - apply Forall_cons in H as [_ H]. destruct (redis_doc c d) as [r d']. by eexists.
Qed.
Next Obligation.
  intros A c [d fs] a s'. rw /run /=. destruct fs as [|[] fs]; [|done|];
    destruct (redis_doc c d) as [r d']; intros [= -> <-]; done.
Qed.
Next Obligation. done. Qed.
Next Obligation.
  intros k cursor pat n [d fs] z Hs Hz. rw /mem_scan. cbn [data] in *. rw Hz.
  assert (Hl : Forall (λ e, mem_glob pat e.1 = true ∧
    ∃ sc, z !! e.1 = Some sc ∧ (is_f64 sc → parse_float e.2 = Some sc)) (mem_page pat z)).
  { apply Forall_fmap, Forall_forall. intros [sc m] [Hg Hm]%list_elem_of_filter. split; [exact Hg|].
    exists sc. split; [by apply elem_of_zelems|]. apply parse_format_f. }
  destruct fs as [|[] fs]; [|by apply Forall_cons in Hs as [? _]|apply Forall_cons in Hs as [_ Hs]]; by do 3 eexists.
Qed.

Definition fresh : mem := {| data := ∅; faults := [] |}.
Lemma fresh_up : @up mem_redis fresh.
Proof. constructor. Defined.
End MemRedis.

(** ** Lemmas on datasets *)

Lemma as_put_list k l d : as_list (put_list k l d) k = Ok l.
Proof.
  rw /as_list /put_list. case_decide as H; [by rw lookup_delete_eq H|by rw lookup_insert_eq].
Qed.
Lemma as_put_set k s d : as_set (put_set k s d) k = Ok s.
Proof.
  rw /as_set /put_set. case_decide as H; [by rw lookup_delete_eq H|by rw lookup_insert_eq].
Qed.
Lemma as_put_zset k z d : as_zset (put_zset k z d) k = Ok z.
Proof.
  rw /as_zset /put_zset. case_decide as H; [by rw lookup_delete_eq H|by rw lookup_insert_eq].
Qed.
Lemma put_list_ne k k' l d : k ≠ k' → put_list k l d !! k' = d !! k'.
Proof. intros. rw /put_list. case_decide; [by rw lookup_delete_ne|by rw lookup_insert_ne]. Qed.
Lemma put_set_ne k k' s d : k ≠ k' → put_set k s d !! k' = d !! k'.
Proof. intros. rw /put_set. case_decide; [by rw lookup_delete_ne|by rw lookup_insert_ne]. Qed.
Lemma put_zset_ne k k' z d : k ≠ k' → put_zset k z d !! k' = d !! k'.
Proof. intros. rw /put_zset. case_decide; [by rw lookup_delete_ne|by rw lookup_insert_ne]. Qed.

Lemma as_list_ext k d d' : d !! k = d' !! k → as_list d k = as_list d' k.
Proof. by rw /as_list => ->. Qed.
Lemma as_zset_ext k d d' : d !! k = d' !! k → as_zset d k = as_zset d' k.
Proof. by rw /as_zset => ->. Qed.
Lemma as_set_ext k d d' : d !! k = d' !! k → as_set d k = as_set d' k.
Proof. by rw /as_set => ->. Qed.
Lemma as_int_ext k d d' : d !! k = d' !! k → as_int d k = as_int d' k.
Proof. by rw /as_int => ->. Qed.

Create HintDb redis.
#[export] Hint Rewrite as_put_list as_put_set as_put_zset : redis.

Lemma str_leb_refl a : str_leb a a = true.
Proof. induction a as [|c a IH]; simpl; [done|]. by rw Z.ltb_irrefl. Qed.
Lemma str_leb_total a b : str_leb a b = true ∨ str_leb b a = true.
Proof.
  revert b; induction a as [|x a IH]; intros [|y b]; simpl; auto.
  destruct (Z.ltb_spec (byte_val x) (byte_val y)), (Z.ltb_spec (byte_val y) (byte_val x)); auto.
Qed.
Lemma str_leb_trans a b c : str_leb a b = true → str_leb b c = true → str_leb a c = true.
Proof.
  revert b c; induction a as [|x a IH]; intros [|y b] [|z c]; simpl; try done.
  destruct (Z.ltb_spec (byte_val x) (byte_val y)), (Z.ltb_spec (byte_val y) (byte_val x)),
    (Z.ltb_spec (byte_val y) (byte_val z)), (Z.ltb_spec (byte_val z) (byte_val y)),
    (Z.ltb_spec (byte_val x) (byte_val z)), (Z.ltb_spec (byte_val z) (byte_val x));
    try done; try lia. apply IH.
Qed.

#[global] Instance zle_trans : Transitive zle.
Proof.
  intros a b c [H1|[H1 H1']] [H2|[H2 H2']]; rw /zle; [left; lia..|right].
  split; [lia|]. exact (str_leb_trans _ _ _ H1' H2').
Qed.
#[global] Instance zle_total : Total zle.
Proof.
  intros a b. rw /zle. destruct (str_leb_total a.2 b.2); destruct (Z.lt_trichotomy a.1 b.1) as [|[|]]; auto.
Qed.

Lemma zelems_sorted z : StronglySorted zle (zelems z).
Proof. apply (StronglySorted_merge_sort zle). Qed.
Lemma zelems_length z : length (zelems z) = size z.
Proof.
  rw /zelems. rewrite merge_sort_Permutation length_fmap. by rewrite length_map_to_list.
Qed.
Lemma zelems_members z : (zelems z).*2 ≡ₚ (map_to_list z).*1.
Proof.
  rw /zelems. rewrite merge_sort_Permutation -list_fmap_compose. done.
Qed.
Lemma zelems_NoDup z : NoDup (zelems z).*2.
Proof. rewrite zelems_members. apply NoDup_fst_map_to_list. Qed.

(** Sorted sets are determined by their members: removing one removes it from
    the sequence. *)
Lemma str_leb_antisym a b : str_leb a b = true → str_leb b a = true → a = b.
Proof.
  revert b; induction a as [|x a IH]; intros [|y b]; simpl; try done.
  destruct (Z.ltb_spec (byte_val x) (byte_val y)), (Z.ltb_spec (byte_val y) (byte_val x)); try done; try lia.
  intros H1 H2. f_equal; [apply byte_val_inj; lia|by apply IH].
Qed.
#[global] Instance zle_antisym : AntiSymm (=) zle.
Proof.
  intros [s1 m1] [s2 m2] [H1|[H1 H1']] [H2|[H2 H2']]; cbn in *; try lia. subst. f_equal.
  by apply str_leb_antisym.
Qed.

Lemma StronglySorted_filter {A} (R : A → A → Prop) (P : A → Prop) `{∀ x, Decision (P x)} l :
  StronglySorted R l → StronglySorted R (filter P l).
Proof.
  induction 1 as [|x l Hl IH Hx]; [constructor|]. rw filter_cons. destruct (decide (P x)); [|done].
  constructor; [done|]. rw Forall_forall. intros y [_ Hy]%list_elem_of_filter.
  rw Forall_forall in Hx. by apply Hx.
Qed.
Lemma zelems_filter (P : string → Prop) `{∀ m, Decision (P m)} z :
  zelems (filter (λ kv, P kv.1) z) = filter (λ e, P e.2) (zelems z).
Proof.
  apply (StronglySorted_unique zle); [apply zelems_sorted|apply StronglySorted_filter, zelems_sorted|].
  apply NoDup_Permutation.
  - eapply NoDup_fmap_1, zelems_NoDup.
  - apply NoDup_filter. eapply NoDup_fmap_1, zelems_NoDup.
  - intros [sc m]. rw list_elem_of_filter !elem_of_zelems map_lookup_filter_Some. naive_solver.
Qed.

