(* ===== verification/Store.v ===== *)
(** * The store and its queues (src/storage/redis.go, queue_redis.go, history.go, raw.go)

    [store] is [redisStore]: the Redis connection and the cache of known
    queues.  Every operation runs in a larger state [S] that holds a store
    ([HasStore]), so that callbacks passed to it can act on that state.
    [time.Now()] is an argument: one reading per operation. *)
From S2P Require Import Prelude GoStrings Float64 GoTime Json Job Redis.

Section store.
Context `{Redis}.

Record redisQueue := mkQueue { qname : string; done_ : bool }.
Record store := mkStore { rclient : rdb; queueSet : gmap string redisQueue }.

Class HasStore (S : Type) := {
  get_store : S → store;
  set_store : store → S → S;
  get_set_store : ∀ st s, get_store (set_store st s) = st;
  set_set_store : ∀ st st' s, set_store st (set_store st' s) = set_store st s;
  set_get_store : ∀ s, set_store (get_store s) s = s;
}.
#[global] Program Instance store_self : HasStore store :=
  {| get_store := λ s, s; set_store := λ st _, st |}.
Solve All Obligations with done.
#[global] Program Instance store_pair {S X} `{HasStore S} : HasStore (S * X) :=
  {| get_store := λ s, get_store s.1; set_store := λ st s, (set_store st s.1, s.2) |}.
Next Obligation. intros. apply get_set_store. Qed.
Next Obligation. intros. by rw /= set_set_store. Qed.
Next Obligation. intros ? ? ? [s x]. by rw /= set_get_store. Qed.

Context {S : Type} `{HasStore S}.

Definition set_rclient (r : rdb) (st : store) : store := mkStore r st.(queueSet).
Definition set_queueSet (q : gmap string redisQueue) (st : store) : store := mkStore st.(rclient) q.

(** Run one Redis command on the store's connection. *)
Definition redis {A} (c : cmd A) : M S A :=
  λ s, match exec c (get_store s).(rclient) with
       | (r, db) => (r, set_store (set_rclient db (get_store s)) s)
       end.
(** [.Val()]: the zero value on an error. *)
Definition redis_val {A} (zero : A) (c : cmd A) : M S A :=
  let* r := tryM (redis c) in
  retM (match r with inl a => a | inr _ => zero end).

(** ** Queues *)

Definition NewQueue (name : string) : redisQueue := mkQueue name false.
Definition q_Pause (q : redisQueue) : M S unit := redis (SAdd "paused" q.(qname)) ;;; retM tt.
Definition q_Resume (q : redisQueue) : M S unit := redis (SRem "paused" q.(qname)) ;;; retM tt.
Definition q_IsPaused (q : redisQueue) : M S bool := redis_val false (SIsMember "paused" q.(qname)).
Definition q_Close (q : redisQueue) : redisQueue := mkQueue q.(qname) true.

(** Call [fn] on each element with its index; the first error stops. *)
Fixpoint each_from {A} (idx : Z) (l : list A) (fn : Z → A → M S unit) : M S unit :=
  match l with
  | [] => retM tt
  | x :: l' => fn idx x ;;; each_from (idx + 1) l' fn
  end.
Definition q_Page (q : redisQueue) (start count : Z) (fn : Z → string → M S unit) : M S unit :=
  let* slice := redis (LRange q.(qname) start (start + count)) in
  each_from 0 slice fn.
Definition q_Each (q : redisQueue) (fn : Z → string → M S unit) : M S unit := q_Page q 0 (-1) fn.
Definition q_Clear (q : redisQueue) : M S Z :=
  ignoreM (redis (Unlink q.(qname))) ;;;
  ignoreM (redis (SRem "queues" q.(qname))) ;;;
  modifyM (λ s, set_store (set_queueSet (delete q.(qname) (get_store s).(queueSet)) (get_store s)) s) ;;;
  retM 0.
Definition q_Size (q : redisQueue) : M S Z := redis_val 0 (LLen q.(qname)).
Definition q_init (q : redisQueue) : M S unit := q_Size q ;;; retM tt.
(** The reply of [LPUSH], errors included, is not looked at. *)
Definition q_Push (q : redisQueue) (payload : string) : M S unit :=
  ignoreM (redis (LPush q.(qname) payload)).
Definition q_Add (now : Z) (q : redisQueue) (job : Job) : M S unit :=
  q_Push q (marshal_job (set_EnqueuedAt (Thens now) job)).
Definition q_pop (q : redisQueue) : M S (option string) :=
  let* r := tryM (redis (RPop q.(qname))) in
  retM (match r with
        | inl (Some v) => if bool_decide (v = "") then None else Some v
        | _ => None
        end).
Definition q_Pop (q : redisQueue) : M S (option string) :=
  if q.(done_) then retM None else q_pop q.
Definition q_BPop (q : redisQueue) : M S (option string) :=
  let* r := redis (BRPop [q.(qname)]) in retM (snd <$> r).
Definition q_Delete (q : redisQueue) (vals : list string) : M S unit :=
  forM vals (λ v, redis (LRem q.(qname) 1 v) ;;; retM tt).

(** ** The store *)

Definition name_char (c : ascii) : bool :=
  let b := byte_val c in
  ((97 <=? b) && (b <=? 122)) || ((65 <=? b) && (b <=? 90)) || is_digit c
  || (b =? 46) || (b =? 95) || (b =? 45).
(** [\A[a-zA-Z0-9._-]+\z] *)
Definition ValidQueueName (s : string) : bool := negb (bool_decide (s = "")) && all_chars name_char s.

Definition GetQueue (name : string) : M S redisQueue :=
  if bool_decide (name = "") then failM (ErrMsg "queue name cannot be blank")
  else
    let* s := getM in
    match (get_store s).(queueSet) !! name with
    | Some q => retM q
    | None =>
        if negb (ValidQueueName name)
        then failM (ErrMsg "queue names must match \A[a-zA-Z0-9._-]+\z")
        else
          let q := NewQueue name in
          q_init q ;;;
          let* r := tryM (redis (SAdd "queues" name)) in
          match r with
          | inr e => failM (ErrMsg ("Unable to store queue name: " +:+ err_text e))
          | inl _ =>
              modifyM (λ s, set_store (set_queueSet (<[name := q]> (get_store s).(queueSet))
                                                    (get_store s)) s) ;;;
              retM q
          end
    end.

(** [NewRedisStore]: the known queues are read back from the "queues" set. *)
Fixpoint init_queues (vals : list string) (qs : gmap string redisQueue) : M S (gmap string redisQueue) :=
  match vals with
  | [] => retM qs
  | v :: vals' => q_init (NewQueue v) ;;; init_queues vals' (<[v := NewQueue v]> qs)
  end.
Definition NewRedisStore : M S unit :=
  let* vals := redis (SMembers "queues") in
  let* qs := init_queues vals ∅ in
  modifyM (λ s, set_store (set_queueSet qs (get_store s)) s).

(** Iteration over the Go map [queueSet]: the order is the map's own, so it is
    an argument. *)
Definition EachQueue (order : list redisQueue) (x : redisQueue → M S unit) : M S unit := forM order x.
Definition PausedQueues : M S (list string) := redis (SMembers "paused").
Definition Flush : M S unit := redis FlushDB.

(** ** Counters: history.go.  [tz] is the server's UTC offset in seconds. *)

Definition day_name (day : Z) : string :=
  let '(y, m, d) := civil_from_days day in pad_year y +:+ "-" +:+ pad_dec 2 m +:+ "-" +:+ pad_dec 2 d.
Definition day_of (tz t : Z) : Z := (unix_sec t + tz) `div` 86400.
Definition day_str (tz t : Z) : string := day_name (day_of tz t).
Definition incr (k : string) : M S unit := ignoreM (redis (IncrBy k 1)).
Definition Success (tz now : Z) : M S unit :=
  incr ("processed:" +:+ day_str tz now) ;;; incr "processed".
(** A counter, as an unsigned number, read by adding nothing to it. *)
Definition total (k : string) : M S Z := let* n := redis_val 0 (IncrBy k 0) in retM (n `mod` 2 ^ 64).
Definition TotalProcessed : M S Z := total "processed".
Definition TotalFailures : M S Z := total "failures".
Definition Failure_ (tz now : Z) : M S unit :=
  incr "processed" ;;; incr "failures" ;;;
  incr ("processed:" +:+ day_str tz now) ;;; incr ("failures:" +:+ day_str tz now).

(** The last [days] days, newest first.  The commands go out as one pipeline:
    all are executed, then the first error, if any, is returned. *)
Fixpoint History_pipe (days : nat) (tz ts : Z) : M S (list (string * (Z + goerr) * (Z + goerr))) :=
  match days with
  | O => retM []
  | Datatypes.S n =>
      let d := day_str tz ts in
      let* p := tryM (redis (IncrBy ("processed:" +:+ d) 0)) in
      let* f := tryM (redis (IncrBy ("failures:" +:+ d) 0)) in
      let* rest := History_pipe n tz (ts - 86400 * SEC) in
      retM ((d, p, f) :: rest)
  end.
Fixpoint all_replies (l : list (string * (Z + goerr) * (Z + goerr))) : outcome (list (string * Z * Z)) :=
  match l with
  | [] => Ok []
  | (d, inl p, inl f) :: l' => omap_outcome (cons (d, p, f)) (all_replies l')
  | (_, inr e, _) :: _ | (_, _, inr e) :: _ => Err e
  end.
Definition History (days tz now : Z) (fn : string → Z → Z → M S unit) : M S unit :=
  if days <? 0 then panicM "makeslice: len out of range" else
  let* replies := History_pipe (Z.to_nat days) tz now in
  let* rows := ofOutcome (all_replies replies) in
  forM rows (λ r, fn r.1.1 (r.1.2 `mod` 2 ^ 64) (r.2 `mod` 2 ^ 64)).

(** ** raw.go: the key-value scratch pad; [None] is a nil slice *)

Definition kv_Get (key : string) : M S (option string) := redis (KGet key).
Definition kv_Set (key : string) (value : option string) : M S unit :=
  match value with
  | None => failM (ErrMsg "Nil value not allowed")
  | Some v => redis (KSet key v)
  end.
End store.

(** ** Laws

    [alive]: the connection answers.  [upd s d qs s']: [s'] is [s] but for the
    dataset, now [d], and the queues the store knows, now [qs]. *)
Section store_laws.
Context `{Redis} {S : Type} `{!HasStore S}.

Definition db (s : S) : dataset := view (get_store s).(rclient).
Definition knows (s : S) : gmap string redisQueue := (get_store s).(queueSet).
Definition alive (s : S) : Prop := up (get_store s).(rclient).
Definition upd (s : S) (d : dataset) (qs : gmap string redisQueue) (s' : S) : Prop :=
  ∃ r, up r ∧ view r = d ∧ s' = set_store (mkStore r qs) s.

Lemma upd_refl s : alive s → upd s (db s) (knows s) s.
Proof.
  intros Ha. exists (get_store s).(rclient). split_and!; [done..|].
  rw -{1}(set_get_store s). rw /knows. by destruct (get_store s).
Qed.
Lemma upd_trans s d qs s1 d' qs' s2 : upd s d qs s1 → upd s1 d' qs' s2 → upd s d' qs' s2.
Proof. intros (r & _ & _ & ->) (r' & Hu & Hv & ->). exists r'. by rw set_set_store. Qed.
Lemma upd_db s d qs s' : upd s d qs s' → db s' = d.
Proof. intros (r & _ & <- & ->). by rw /db get_set_store. Qed.
Lemma upd_knows s d qs s' : upd s d qs s' → knows s' = qs.
Proof. intros (r & _ & _ & ->). by rw /knows get_set_store. Qed.
Lemma upd_alive s d qs s' : upd s d qs s' → alive s'.
Proof. intros (r & Hu & _ & ->). by rw /alive get_set_store. Qed.

(** A command sent to a live server has its documented effect. *)
Lemma wp_redis {A} (c : cmd A) s (Q : outcome A → S → Prop) :
  alive s →
  (∀ s', upd s (redis_doc c (db s)).2 (knows s) s' → Q (redis_doc c (db s)).1 s') →
  wp (redis c) s Q.
Proof.
  intros Ha HQ. destruct (exec_up c _ Ha) as (r & He & Hv & Hu).
  rw /wp /redis He. cbn [fst snd]. apply HQ. exists r. done.
Qed.

Lemma wp_redis_val {A} (z : A) (c : cmd A) s (Q : outcome A → S → Prop) :
  alive s →
  (∀ s', upd s (redis_doc c (db s)).2 (knows s) s' →
         match (redis_doc c (db s)).1 with
         | Ok a => Q (Ok a) s' | Err _ => Q (Ok z) s' | Panic p => Q (Panic p) s'
         end) →
  wp (redis_val z c) s Q.
Proof.
  intros Ha HQ. rw /redis_val. wp_steps. apply wp_redis; [done|]. intros s' Hs'.
  specialize (HQ s' Hs'). destruct (redis_doc c (db s)).1; wp_steps; done.
Qed.

(** Whatever the server does, a command answered normally had its effect. *)
Lemma redis_ok {A} (c : cmd A) s a s' :
  redis c s = (Ok a, s') → redis_doc c (db s) = (Ok a, db s') ∧ knows s' = knows s.
Proof.
  rw /redis. destruct (exec c _) as [r db'] eqn:He. intros [= -> <-].
  apply exec_ok in He. by rw /db /knows get_set_store.
Qed.

(** Reading a list, set or zset through the dataset operations. *)
Lemma with_val_eq {V A} (r : outcome V) v d (k : V → A * dataset) :
  r = Ok v → with_val r d k = (Ok (k v).1, (k v).2).
Proof. move=> ->. rw /with_val. by destruct (k v). Qed.

(** *** Queues *)

(** After [q_Push] the payload is at the head of the list. *)
Lemma wp_q_Push q payload s l (Q : outcome unit → S → Prop) :
  alive s → as_list (db s) q.(qname) = Ok l →
  (∀ s', upd s (put_list q.(qname) (payload :: l) (db s)) (knows s) s' → Q (Ok tt) s') →
  wp (q_Push q payload) s Q.
Proof.
  intros Ha Hl HQ. rw /q_Push. wp_steps. apply wp_redis; [done|].
  rw /redis_doc (with_val_eq _ _ _ _ Hl). exact HQ.
Qed.

Lemma wp_GetQueue_known name q s (Q : outcome redisQueue → S → Prop) :
  name ≠ "" → knows s !! name = Some q → Q (Ok q) s → wp (GetQueue name) s Q.
Proof.
  intros Hne Hk HQ. rw /GetQueue. case_bool_decide; [done|]. wp_steps.
  rw /knows in Hk. rw Hk. by apply wp_ret.
Qed.

Lemma wp_GetQueue_new name s ns (Q : outcome redisQueue → S → Prop) :
  alive s → ValidQueueName name = true → knows s !! name = None →
  as_set (db s) "queues" = Ok ns →
  (∀ s', upd s (put_set "queues" ({[name]} ∪ ns) (db s)) (<[name := NewQueue name]> (knows s)) s' →
         Q (Ok (NewQueue name)) s') →
  wp (GetQueue name) s Q.
Proof.
  intros Ha Hv Hk Hns HQ. rw /GetQueue. case_bool_decide as Hn; [by subst|]. wp_steps.
  rw /knows in Hk. rw Hk Hv. cbn [negb]. wp_steps. rw /q_init. wp_steps.
  apply wp_redis_val; [done|]. intros s1 H1.
  assert (Hd1 : (redis_doc (LLen name) (db s)).2 = db s).
  { cbn [redis_doc]. by destruct (as_list (db s) name). }
  cbn [NewQueue qname] in *. rw Hd1 in H1.
  assert (Hgo : wp (let* r := tryM (redis (SAdd "queues" name)) in
      match r with
      | inl _ => modifyM (λ s0, set_store (set_queueSet (<[name:=NewQueue name]> (queueSet (get_store s0)))
                   (get_store s0)) s0) ;;; retM (NewQueue name)
      | inr e => failM (ErrMsg ("Unable to store queue name: " +:+ err_text e))
      end) s1 Q).
  { wp_steps. apply wp_redis; [exact (upd_alive _ _ _ _ H1)|]. intros s2 H2.
    rw (upd_db _ _ _ _ H1) (upd_knows _ _ _ _ H1) in H2 |- *.
    cbn [redis_doc] in *. rw (with_val_eq _ _ _ _ Hns) in H2 |- *. cbn [fst snd] in *.
    apply wp_bind. wp_steps. apply HQ.
    destruct (upd_trans _ _ _ _ _ _ _ H1 H2) as (r & Hu & Hv' & ->).
    exists r. split_and!; [done..|]. rw get_set_store set_set_store. done. }
  destruct (redis_doc (LLen name) (db s)).1 eqn:E; [exact Hgo..|].
  exfalso. revert E. cbn [redis_doc NewQueue qname]. rw /as_list.
  destruct (db s !! name) as [[]|]; discriminate.
Qed.

(** What the store relies on: the cache maps names to their queues, and the
    "queues" key holds a set. *)
Definition store_ok (s : S) : Prop :=
  (∀ n q, knows s !! n = Some q → q.(qname) = n) ∧ ∃ ns, as_set (db s) "queues" = Ok ns.

Lemma store_ok_upd s d s' :
  store_ok s → upd s d (knows s) s' → (∃ ns, as_set d "queues" = Ok ns) → store_ok s'.
Proof.
  intros [H1 _] Hu Hq. split; [by rw (upd_knows _ _ _ _ Hu)|by rw (upd_db _ _ _ _ Hu)].
Qed.

(** Getting a valid queue touches nothing but the names of the queues. *)
Lemma wp_GetQueue name s (Q : outcome redisQueue → S → Prop) :
  alive s → store_ok s → ValidQueueName name = true →
  (∀ q d qs s', q.(qname) = name → upd s d qs s' → store_ok s' →
     (∀ k, k ≠ "queues" → d !! k = db s !! k) → Q (Ok q) s') →
  wp (GetQueue name) s Q.
Proof.
  intros Ha [Hk (ns & Hns)] Hv HQ. destruct (knows s !! name) as [q|] eqn:E.
  - apply (wp_GetQueue_known _ q); [intros ->; discriminate|done|].
    apply (HQ q (db s) (knows s)); [by apply Hk|by apply upd_refl|split; eauto|done].
  - apply (wp_GetQueue_new _ _ ns); [done..|]. intros s' Hs'. eapply HQ; [done|exact Hs'| |].
    + split; [|rw (upd_db _ _ _ _ Hs') as_put_set; eauto].
      rw (upd_knows _ _ _ _ Hs'). intros n q [[<- <-]|[? ?]]%lookup_insert_Some; [done|by apply Hk].
    + intros k Hne. apply put_set_ne. congruence.
Qed.

(** *** Counters *)

(** The keys the counters of a day use. *)
Definition counter_keys (tz now : Z) : list string :=
  ["processed"; "failures"; "processed:" +:+ day_str tz now; "failures:" +:+ day_str tz now].

Lemma wp_incr k s (Q : outcome unit → S → Prop) :
  alive s →
  (∀ d s', upd s d (knows s) s' → (∀ k', k' ≠ k → d !! k' = db s !! k') → Q (Ok tt) s') →
  wp (incr k) s Q.
Proof.
  intros Ha HQ. rw /incr. wp_steps. apply wp_redis; [done|]. intros s' Hs'.
  assert (Hd : ∀ k', k' ≠ k → (redis_doc (IncrBy k 1) (db s)).2 !! k' = db s !! k').
  { intros k' Hk. cbn [redis_doc]. destruct (as_int (db s) k) as [n| |]; [|done..].
    cbn [with_val snd]. apply lookup_insert_ne. congruence. }
  specialize (HQ _ _ Hs' Hd).
  destruct (redis_doc (IncrBy k 1) (db s)).1 as [n|e|p] eqn:E; [exact HQ..|].
  exfalso. revert E. cbn [redis_doc]. rw /as_int.
  destruct (db s !! k) as [[v| | |]|]; [destruct (atoi v)|..]; discriminate.
Qed.

(** Whatever is found in the counters, nothing else changes. *)
Lemma wp_incrs ks s (Q : outcome unit → S → Prop) :
  alive s →
  (∀ d s', upd s d (knows s) s' → (∀ k, k ∉ ks → d !! k = db s !! k) → Q (Ok tt) s') →
  wp (forM ks incr) s Q.
Proof.
  revert s Q; induction ks as [|k ks IH]; intros s Q Ha HQ; cbn [forM].
  { wp_steps. apply (HQ (db s)); [by apply upd_refl|done]. }
  wp_steps. apply wp_incr; [done|]. intros d1 s1 H1 Hd1. apply IH; [exact (upd_alive _ _ _ _ H1)|].
  intros d2 s2 H2 Hd2. rw (upd_db _ _ _ _ H1) (upd_knows _ _ _ _ H1) in H2, Hd2.
  apply (HQ d2); [exact (upd_trans _ _ _ _ _ _ _ H1 H2)|].
  intros k' [Hk Hks]%not_elem_of_cons. by rw Hd2 // Hd1.
Qed.
Lemma wp_Failure_ tz now s (Q : outcome unit → S → Prop) :
  alive s →
  (∀ d s', upd s d (knows s) s' → (∀ k, k ∉ counter_keys tz now → d !! k = db s !! k) → Q (Ok tt) s') →
  wp (Failure_ tz now) s Q.
Proof.
  intros Ha HQ. pose proof (wp_incrs (counter_keys tz now) s Q Ha HQ) as W.
  rw /wp /counter_keys in W. rw /wp /Failure_. revert W. cbn [forM]. run_step.
  by destruct (incr _ s) as [[] s1]; [destruct (incr _ s1) as [[] s2]; [destruct (incr _ s2) as [[] s3];
    [destruct (incr _ s3) as [[[]| |] s4]|..]|..]|..].
Qed.
Lemma wp_Success tz now s (Q : outcome unit → S → Prop) :
  alive s →
  (∀ d s', upd s d (knows s) s' → (∀ k, k ∉ counter_keys tz now → d !! k = db s !! k) → Q (Ok tt) s') →
  wp (Success tz now) s Q.
Proof.
  intros Ha HQ. rw /Success. wp_steps. apply wp_incr; [done|]. intros d1 s1 H1 Hd1.
  apply wp_incr; [exact (upd_alive _ _ _ _ H1)|].
  intros d2 s2 H2 Hd2. rw (upd_db _ _ _ _ H1) (upd_knows _ _ _ _ H1) in H2, Hd2.
  apply (HQ d2); [exact (upd_trans _ _ _ _ _ _ _ H1 H2)|].
  intros k' Hk. rw Hd2; [intros ->; apply Hk; by left|]. apply Hd1.
  intros ->. apply Hk. do 2 right. by left.
Qed.


Lemma not_counter tz now k :
  has_prefix "processed" k = false → has_prefix "failures" k = false → k ∉ counter_keys tz now.
Proof.
  intros Hp Hf Hk. rw /counter_keys in Hk.
  repeat (apply elem_of_cons in Hk as [->|Hk]; [discriminate|]).
  by apply elem_of_nil in Hk.
Qed.

End store_laws.
