(* ===== verification/SortedSet.v ===== *)
(** * Sorted sets of timestamped payloads (src/storage/sorted_redis.go)

    The scheduled, retries, dead and working sets are Redis sorted sets whose
    members are JSON payloads and whose scores are instants in seconds, as
    [float64].  Keys shown to users are "timestamp|jid". *)
From S2P Require Import Prelude GoStrings Float64 GoTime Scores Json Job Redis Store.

#[local] Open Scope list_scope.

Definition decompose (key : string) : outcome (Z * string) :=
  match split_char "|" key with
  | [timestamp; jid] => omap_outcome (λ t, (score_of t, jid)) (ParseTime timestamp)
  | _ => Err (ErrMsg ("Invalid key, expected " +:+ DQ +:+ "timestamp|jid" +:+ DQ +:+ ", not " +:+ key))
  end.

Record setEntry := NewEntry { e_score : Z; e_value : string }.
Definition entry_Job (e : setEntry) : outcome Job := unmarshal_job zero_job e.(e_value).
Definition entry_Key (e : setEntry) : outcome string :=
  omap_outcome (λ j, Thens (key_time e.(e_score)) +:+ "|" +:+ j.(Jid)) (entry_Job e).

Section sorted.
Context `{Redis} {S : Type} `{HasStore S}.

Definition ss_Size (name : string) : M S Z := redis_val 0 (ZCard name).
Definition ss_Clear (name : string) : M S unit := redis (Unlink name) ;;; retM tt.
Definition ss_RemoveEntry (name : string) (ent : setEntry) : M S unit :=
  redis (ZRem name ent.(e_value)) ;;; retM tt.
Definition ss_AddElement (name timestamp jid payload : string) : M S unit :=
  let* t := ofOutcome (ParseTime timestamp) in
  redis (ZAdd name (score_of t) payload) ;;; retM tt.
Definition ss_Add (name : string) (job : Job) : M S unit :=
  if bool_decide (job.(At) = "") then failM (ErrMsg "Job does not have an At timestamp")
  else ss_AddElement name job.(At) job.(Jid) (marshal_job job).

Definition getScore (name : string) (score : Z) : M S (list string) :=
  let strf := format_f score in redis (ZRangeByScore name strf strf 0).

(** Among several members with the score, the first that holds the jid. *)
Definition with_jid (jid : string) (elms : list string) : option string :=
  List.find (λ e, 0 <? index_of e jid) elms.
Definition pick (jid : string) (elms : list string) : option string :=
  match elms with [] => None | [e] => Some e | _ => with_jid jid elms end.

Definition ss_Get (name key : string) : M S (option setEntry) :=
  let* (time_f, jid) := ofOutcome (decompose key) in
  let* elms := getScore name time_f in
  retM (NewEntry time_f <$> pick jid elms).

(** Zero-based index and entry for each element of the page; the number of
    elements. *)
Definition ss_Page (name : string) (start count : Z) (fn : Z → setEntry → M S unit) : M S Z :=
  let* zs := redis (ZRangeWithScores name start (start + count - 1)) in
  each_from 0 zs (λ idx z, fn idx (NewEntry z.1 z.2)) ;;;
  retM (Z.of_nat (length zs)).

(** Pages of 50 until a short one; [fuel] bounds the number of pages. *)
Fixpoint ss_Each_from (fuel : nat) (name : string) (current : Z) (fn : Z → setEntry → M S unit) : M S unit :=
  match fuel with
  | O => panicM "out of fuel"
  | Datatypes.S f =>
      let* elms := ss_Page name current 50 fn in
      if elms <? 50 then retM tt else ss_Each_from f name (current + 50) fn
  end.
Definition ss_Each (fuel : nat) (name : string) (fn : Z → setEntry → M S unit) : M S unit :=
  ss_Each_from fuel name 0 fn.

Definition ss_rem (name : string) (time_f : Z) (jid : string) : M S bool :=
  let* elms := getScore name time_f in
  match pick jid elms with
  | None => retM false
  | Some e => let* count := redis (ZRem name e) in retM (count =? 1)
  end.
Definition ss_Remove (name key : string) : M S bool :=
  let* (time_f, jid) := ofOutcome (decompose key) in
  ss_rem name time_f jid.
Definition ss_RemoveElement (name timestamp jid : string) : M S bool :=
  let* t := ofOutcome (ParseTime timestamp) in
  ss_rem name (score_of t) jid.

(** The loop of [RemoveBefore]: each job is taken out, then handed to [fn]; a
    job [fn] fails on is not counted.  A Redis error ends the loop and is
    returned with the count so far. *)
Fixpoint remove_each (name : string) (fn : string → M S unit) (jobs : list string) (count : Z)
  : M S (Z * option goerr) :=
  match jobs with
  | [] => retM (count, None)
  | j :: jobs' =>
      let* r := tryM (redis (ZRem name j)) in
      match r with
      | inr e => retM (count, Some e)
      | inl cnt =>
          if cnt =? 1 then
            let* res := tryM (fn j) in
            match res with
            | inr _ => remove_each name fn jobs' count
            | inl _ => remove_each name fn jobs' (count + 1)
            end
          else remove_each name fn jobs' count
      end
  end.
Definition ss_RemoveBefore (name timestamp : string) (maxCount : Z) (fn : string → M S unit)
  : M S (Z * option goerr) :=
  match ParseTime timestamp with
  | Ok t =>
      let* r := tryM (redis (ZRangeByScore name "-inf" (format_f (score_of t)) maxCount)) in
      match r with
      | inr e => retM (0, Some e)
      | inl jobs => remove_each name fn jobs 0
      end
  | Err e => retM (0, Some e)
  | Panic p => panicM p
  end.

Definition ss_MoveTo (name sset : string) (entry : setEntry) (newtime : Z) : M S unit :=
  let* job := ofOutcome (entry_Job entry) in
  let* cnt := redis (ZRem name entry.(e_value)) in
  if cnt =? 0 then retM tt
  else ss_AddElement sset (Thens newtime) job.(Jid) entry.(e_value).

(** ** Requeueing entries: redis.go [EnqueueAll] and [EnqueueFrom] *)

Definition EnqueueAll (fuel : nat) (now : Z) (sset : string) : M S unit :=
  ss_Each fuel sset (λ _ entry,
    let* j := ofOutcome (entry_Job entry) in
    let* k := ofOutcome (entry_Key entry) in
    let* q := GetQueue j.(Queue) in
    let* ok := ss_Remove sset k in
    if ok then q_Add now q j else retM tt).

Definition EnqueueFrom (now : Z) (sset key : string) : M S unit :=
  let* entry := ss_Get sset key in
  match entry with
  | None => retM tt
  | Some e =>
      let* job := ofOutcome (entry_Job e) in
      let* q := GetQueue job.(Queue) in
      let* ok := ss_Remove sset key in
      if ok then q_Add now q job else retM tt
  end.
End sorted.

(** ** Laws *)

(** Members at a score, and up to a score, in the order Redis returns them. *)
Definition at_score (sc : Z) (z : gmap string Z) : list string :=
  snd <$> filter (λ e, in_bounds (Some sc) (Some sc) e.1 = true) (zelems z).
Definition upto (sc : Z) (z : gmap string Z) : list string :=
  snd <$> filter (λ e, in_bounds None (Some sc) e.1 = true) (zelems z).

Lemma in_bounds_true lo hi x :
  in_bounds lo (Some hi) x = true ↔ (match lo with Some a => a ≤ x | None => True end) ∧ x ≤ hi.
Proof. rw /in_bounds andb_true_iff Z.leb_le. destruct lo; [rw Z.leb_le|]; naive_solver. Qed.

Lemma elem_of_at_score sc z m : m ∈ at_score sc z ↔ z !! m = Some sc.
Proof.
  rw /at_score list_elem_of_fmap. split.
  - intros ([sc' m'] & -> & [Hb He]%list_elem_of_filter). apply elem_of_zelems in He.
    apply in_bounds_true in Hb. cbn in *. rw He. f_equal. lia.
  - intros Hm. exists (sc, m). split; [done|]. apply list_elem_of_filter.
    split; [apply in_bounds_true; cbn; lia|by apply elem_of_zelems].
Qed.
Lemma elem_of_upto sc z m : m ∈ upto sc z ↔ ∃ s, z !! m = Some s ∧ s ≤ sc.
Proof.
  rw /upto list_elem_of_fmap. split.
  - intros ([sc' m'] & -> & [Hb He]%list_elem_of_filter). apply elem_of_zelems in He.
    apply in_bounds_true in Hb. exists sc'. cbn in *. split; [done|lia].
  - intros (s & Hm & Hs). exists (s, m). split; [done|]. apply list_elem_of_filter.
    split; [apply in_bounds_true; cbn; lia|by apply elem_of_zelems].
Qed.
Lemma NoDup_filter_snd (P : Z * string → Prop) `{∀ e, Decision (P e)} l :
  NoDup l.*2 → NoDup (filter P l).*2.
Proof.
  induction l as [|e l IH]; [done|]. rw fmap_cons NoDup_cons filter_cons. intros [Hn Hd].
  destruct (decide (P e)); [|by apply IH]. rw fmap_cons NoDup_cons. split; [|by apply IH].
  intros (x & E & [_ Hx]%list_elem_of_filter)%list_elem_of_fmap. apply Hn. rw E. by apply list_elem_of_fmap_2.
Qed.
Lemma upto_NoDup sc z : NoDup (upto sc z).
Proof. apply NoDup_filter_snd, zelems_NoDup. Qed.
Lemma at_score_NoDup sc z : NoDup (at_score sc z).
Proof. apply NoDup_filter_snd, zelems_NoDup. Qed.

Lemma NoDup_only (l : list string) a : NoDup l → (∀ m, m ∈ l ↔ m = a) → l = [a].
Proof.
  intros Hnd Hiff. destruct l as [|x [|y l]].
  - pose proof (proj2 (Hiff a) eq_refl) as Hx. by apply elem_of_nil in Hx.
  - by rw (proj1 (Hiff x) ltac:(left)).
  - apply NoDup_cons in Hnd as [Hn _]. destruct Hn.
    rw (proj1 (Hiff x) ltac:(left)) (proj1 (Hiff y) ltac:(right; left)). left.
Qed.
Lemma upto_singleton sc s data : s ≤ sc → upto sc {[ data := s ]} = [data].
Proof.
  intros Hs. apply NoDup_only; [apply upto_NoDup|]. intros m. rw elem_of_upto. split.
  - intros (s' & Hm & _). by apply lookup_singleton_Some in Hm as [-> _].
  - intros ->. exists s. by rw lookup_singleton_eq.
Qed.

Lemma parse_bound_format x : is_f64 x → parse_bound (format_f x) = Some (Some x).
Proof.
  intros Hx. pose proof (parse_format_f x Hx) as E. rw /parse_bound.
  case_bool_decide as Hi; [|by rw E]. rw Hi in E. by vm_compute in E.
Qed.

(** [pick] chooses the member itself when it holds the jid and no other member
    at that score does. *)
Definition holds_jid (jid m : string) : Prop := 0 < index_of m jid.
Lemma pick_spec jid l m :
  m ∈ l → NoDup l → holds_jid jid m → (∀ m', m' ∈ l → holds_jid jid m' → m' = m) →
  pick jid l = Some m.
Proof.
  intros Hm Hnd Hj Hu.
  assert (Hf : with_jid jid l = Some m).
  { rw /with_jid. destruct (List.find _ l) as [m'|] eqn:E.
    - apply List.find_some in E as [H1 H2]. f_equal. apply Hu; [by apply list_elem_of_In|].
      rw /holds_jid. lia.
    - apply list_elem_of_In in Hm. pose proof (List.find_none _ _ E m Hm) as Hx.
      cbn in Hx. rw /holds_jid in Hj. lia. }
  destruct l as [|a [|b l]]; [by apply elem_of_nil in Hm|by apply list_elem_of_singleton in Hm as ->|done].
Qed.
Lemma pick_elem jid l m : pick jid l = Some m → m ∈ l.
Proof.
  destruct l as [|a [|b l]]; cbn [pick]; [done|intros [= ->]; by left|].
  rw /with_jid. intros [H _]%List.find_some. by apply list_elem_of_In.
Qed.

Section sorted_laws.
Context `{Redis} {S : Type} `{!HasStore S}.
Implicit Types (s : S) (z : gmap string Z).

Lemma wp_getScore name sc s z (Q : outcome (list string) → S → Prop) :
  alive s → is_f64 sc → as_zset (db s) name = Ok z →
  (∀ s', upd s (db s) (knows s) s' → Q (Ok (at_score sc z)) s') →
  wp (getScore name sc) s Q.
Proof.
  intros Ha Hf Hz HQ. rw /getScore. apply wp_redis; [done|]. cbn [redis_doc].
  rw !parse_bound_format //. by rw (with_val_eq _ _ _ _ Hz).
Qed.

Lemma wp_AddElement name ts jid payload t s z (Q : outcome unit → S → Prop) :
  alive s → ParseTime ts = Ok t → as_zset (db s) name = Ok z →
  (∀ s', upd s (put_zset name (<[payload := score_of t]> z) (db s)) (knows s) s' → Q (Ok tt) s') →
  wp (ss_AddElement name ts jid payload) s Q.
Proof.
  intros Ha Ht Hz HQ. rw /ss_AddElement Ht. wp_steps. apply wp_redis; [done|]. cbn [redis_doc].
  rw (with_val_eq _ _ _ _ Hz). cbn [fst snd]. intros s' Hs'. wp_steps. by apply HQ.
Qed.

(** [rem] deletes exactly the member [pick] chooses. *)
Lemma wp_rem name sc jid s z (Q : outcome bool → S → Prop) :
  alive s → is_f64 sc → as_zset (db s) name = Ok z →
  (∀ s', match pick jid (at_score sc z) with
         | Some m => upd s (put_zset name (delete m z) (db s)) (knows s) s' → Q (Ok true) s'
         | None => upd s (db s) (knows s) s' → Q (Ok false) s'
         end) →
  wp (ss_rem name sc jid) s Q.
Proof.
  intros Ha Hf Hz HQ. rw /ss_rem. wp_steps. apply (wp_getScore _ _ _ z); [done..|].
  intros s1 H1. destruct (pick jid _) as [m|] eqn:Hp; [|wp_steps; by apply HQ].
  wp_steps. apply wp_redis; [exact (upd_alive _ _ _ _ H1)|]. cbn [redis_doc].
  rw (upd_db _ _ _ _ H1) (upd_knows _ _ _ _ H1) (with_val_eq _ _ _ _ Hz). cbn [fst snd].
  apply pick_elem, elem_of_at_score in Hp as Hm. rw Hm. intros s2 H2. wp_steps.
  apply HQ. exact (upd_trans _ _ _ _ _ _ _ H1 H2).
Qed.

Lemma wp_RemoveElement name ts jid t s z (Q : outcome bool → S → Prop) :
  alive s → ParseTime ts = Ok t → time_in_range t → as_zset (db s) name = Ok z →
  (∀ s', match pick jid (at_score (score_of t) z) with
         | Some m => upd s (put_zset name (delete m z) (db s)) (knows s) s' → Q (Ok true) s'
         | None => upd s (db s) (knows s) s' → Q (Ok false) s'
         end) →
  wp (ss_RemoveElement name ts jid) s Q.
Proof.
  intros Ha Ht Hr Hz HQ. rw /ss_RemoveElement Ht. wp_steps.
  apply (wp_rem _ _ _ _ z); [done| |done|done]. by apply score_is_f64.
Qed.

(** Loop rule of [RemoveBefore]: [I rest cnt s] holds before each remaining
    member is taken out and handed to the callback. *)
Lemma wp_remove_each name fn (I : list string → Z → S → Prop) :
  (∀ j rest cnt s, I (j :: rest) cnt s →
     alive s ∧ ∃ z, as_zset (db s) name = Ok z ∧
     ∀ s1, upd s (put_zset name (delete j z) (db s)) (knows s) s1 →
       if decide (is_Some (z !! j))
       then wp (fn j) s1 (λ r s2, match r with
                                  | Ok _ => I rest (cnt + 1) s2
                                  | Err _ => I rest cnt s2
                                  | Panic _ => False
                                  end)
       else I rest cnt s1) →
  ∀ jobs cnt s, I jobs cnt s →
  wp (remove_each name fn jobs cnt) s (λ r s', ∃ n, r = Ok (n, None) ∧ I [] n s').
Proof.
  intros Hstep jobs. induction jobs as [|j rest IH]; intros cnt s HI; cbn [remove_each].
  { wp_steps. by exists cnt. }
  destruct (Hstep _ _ _ _ HI) as (Ha & z & Hz & Hn). wp_steps. apply wp_redis; [done|].
  cbn [redis_doc]. rw (with_val_eq _ _ _ _ Hz). cbn [fst snd]. intros s1 H1.
  specialize (Hn s1 H1). destruct (decide (is_Some (z !! j))).
  - cbn [Z.eqb Pos.eqb]. wp_steps. eapply wp_mono; [exact Hn|]. intros [] s2 H2; [| |done]; wp_steps; by apply IH.
  - cbn [Z.eqb]. by apply IH.
Qed.

Lemma wp_RemoveBefore name ts n fn t s z (Q : outcome (Z * option goerr) → S → Prop) :
  alive s → ParseTime ts = Ok t → time_in_range t → as_zset (db s) name = Ok z → 0 < n →
  (∀ s', upd s (db s) (knows s) s' →
         wp (remove_each name fn (take (Z.to_nat n) (upto (score_of t) z)) 0) s' Q) →
  wp (ss_RemoveBefore name ts n fn) s Q.
Proof.
  intros Ha Ht Hr Hz Hn HQ. rw /ss_RemoveBefore Ht. wp_steps. apply wp_redis; [done|].
  cbn [redis_doc]. change (parse_bound "-inf") with (Some (@None Z)).
  rw parse_bound_format; [by apply score_is_f64|].
  rw (with_val_eq _ _ _ _ Hz). cbn [fst snd]. destruct (Z.eqb_spec n 0); [lia|]. exact HQ.
Qed.

(** *** Paging *)

Lemma range_of_page {A} (l : list A) (start count : nat) :
  (0 < count)%nat →
  range_of l (Z.of_nat start) (Z.of_nat start + Z.of_nat count - 1) = take count (drop start l).
Proof.
  intros Hc. rw /range_of. destruct (Z.ltb_spec (Z.of_nat start) 0); [lia|].
  destruct (Z.ltb_spec (Z.of_nat start + Z.of_nat count - 1) 0); [lia|].
  f_equal; [lia|]. f_equal. lia.
Qed.

(** Loop rule of [Each] for a callback that leaves the set as it is: [I] holds of
    the elements visited so far, each visited once, in order. *)
Section each_rule.
Context (name : string) (fn : Z → setEntry → M S unit) (z : gmap string Z).
Context (I : list (Z * string) → S → Prop).
Hypothesis HI : ∀ pre s, I pre s → alive s ∧ as_zset (db s) name = Ok z ∧
  ∀ s', upd s (db s) (knows s) s' → I pre s'.
Hypothesis Hfn : ∀ pre e post idx s, zelems z = pre ++ e :: post → I pre s →
  wp (fn idx (NewEntry e.1 e.2)) s (λ r s', r = Ok tt ∧ I (pre ++ [e]) s').

Lemma wp_each_from pre l post idx s :
  zelems z = pre ++ l ++ post → I pre s →
  wp (each_from idx l (λ idx p, fn idx (NewEntry p.1 p.2))) s (λ r s', r = Ok tt ∧ I (pre ++ l) s').
Proof.
  revert pre idx s. induction l as [|e l IH]; intros pre idx s Hz Hs; cbn [each_from].
  { wp_steps. by rw app_nil_r. }
  wp_steps. eapply wp_mono; [by apply (Hfn pre e (l ++ post))|]. intros r s1 [-> H1].
  rw (cons_middle e pre l) app_assoc. apply IH; [|done]. by rw Hz -app_assoc.
Qed.

Lemma wp_ss_Page pre l post s :
  zelems z = pre ++ l ++ post → (post = [] ∨ length l = 50%nat) → (length l ≤ 50)%nat → I pre s →
  wp (ss_Page name (Z.of_nat (length pre)) 50 fn) s
    (λ r s', r = Ok (Z.of_nat (length l)) ∧ I (pre ++ l) s').
Proof.
  intros Hz Hp Hl Hs. destruct (HI pre s Hs) as (Ha & Hset & Hup). rw /ss_Page. wp_steps.
  apply wp_redis; [done|]. cbn [redis_doc]. rw (with_val_eq _ _ _ _ Hset). cbn [fst snd].
  rw (range_of_page _ _ 50%nat ltac:(lia)).
  assert (E : take 50 (drop (length pre) (zelems z)) = l).
  { rw Hz drop_app_length. destruct Hp as [->|Hp]; [rw app_nil_r take_ge //|by rw -Hp take_app_length]. }
  rw E. intros s1 H1. wp_steps. eapply wp_mono; [by apply (wp_each_from pre l post); [|apply Hup]|].
  intros r s2 [-> H2]. by wp_steps.
Qed.

Lemma wp_ss_Each_from fuel pre rest s :
  zelems z = pre ++ rest → (length rest < 50 * fuel)%nat → I pre s →
  wp (ss_Each_from fuel name (Z.of_nat (length pre)) fn) s (λ r s', r = Ok tt ∧ I (zelems z) s').
Proof.
  revert pre rest s. induction fuel as [|f IH]; intros pre rest s Hz Hf Hs; [lia|]. cbn [ss_Each_from].
  wp_steps. destruct (decide (length rest < 50)%nat) as [Hlt|Hge].
  - eapply wp_mono; [apply (wp_ss_Page pre rest []); [by rw app_nil_r|by left|lia|done]|].
    intros r s1 [-> H1]. destruct (Z.ltb_spec (Z.of_nat (length rest)) 50); [|lia]. wp_steps. by rw Hz.
  - eapply wp_mono; [apply (wp_ss_Page pre (take 50 rest) (drop 50 rest));
      [by rw take_drop|right; rw length_take; lia|rw length_take; lia|done]|].
    intros r s1 [-> H1]. assert (E : length (take 50 rest) = 50%nat) by (rw length_take; lia).
    rw E. cbn [Z.of_nat Z.ltb]. destruct (Z.ltb_spec (Z.of_nat 50) 50); [lia|].
    replace (Z.of_nat (length pre) + 50) with (Z.of_nat (length (pre ++ take 50 rest))) by (rw length_app E; lia).
    apply (IH _ (drop 50 rest)); [by rw -app_assoc take_drop|rw length_drop; lia|done].
Qed.

Lemma wp_ss_Each fuel s :
  (size z < 50 * fuel)%nat → I [] s →
  wp (ss_Each fuel name fn) s (λ r s', r = Ok tt ∧ I (zelems z) s').
Proof. intros Hf. apply (wp_ss_Each_from fuel [] (zelems z)); [done|]. by rw zelems_length. Qed.
End each_rule.

End sorted_laws.

(** *** Draining: what is left of a set once some members are out *)

Definition without (out : list string) (z : gmap string Z) : gmap string Z :=
  filter (λ kv, kv.1 ∉ out) z.

Lemma without_nil z : without [] z = z.
Proof. apply map_filter_id. intros m sc _. apply not_elem_of_nil. Qed.
Lemma lookup_without out z m : without out z !! m = if decide (m ∈ out) then None else z !! m.
Proof.
  rw /without. destruct (decide (m ∈ out)) as [H|H].
  - apply map_lookup_filter_None. right. intros sc _ Hn. by apply Hn.
  - destruct (z !! m) as [sc|] eqn:E; [by apply map_lookup_filter_Some|].
    apply map_lookup_filter_None. by left.
Qed.
Lemma without_snoc out m z : without (out ++ [m]) z = delete m (without out z).
Proof.
  apply map_eq. intros k. rw lookup_without. destruct (decide (k = m)) as [->|Hne].
  - rw lookup_delete_eq. destruct (decide _) as [|Hn]; [done|]. destruct Hn. apply elem_of_app. right. by left.
  - rw lookup_delete_ne; [congruence|]. rw lookup_without.
    destruct (decide (k ∈ out ++ [m])) as [Hin|Hin], (decide (k ∈ out)) as [Hin'|Hin']; try done.
    + apply elem_of_app in Hin as [?|Hx]; [done|]. by apply list_elem_of_singleton in Hx.
    + destruct Hin. apply elem_of_app. by left.
Qed.
Lemma upto_without sc out z : upto sc (without out z) = filter (λ m, m ∉ out) (upto sc z).
Proof.
  pose proof (zelems_filter (λ m, m ∉ out) z) as E. cbn beta in E. rw /upto /without E. clear E.
  generalize (zelems z) as l.
  induction l as [|e l IH]; [done|]. rw !filter_cons.
  destruct (decide (e.2 ∉ out)) as [H1|H1], (decide (in_bounds None (Some sc) e.1 = true)) as [H2|H2];
    rw ?filter_cons ?(decide_True _ _ H2) ?(decide_False _ _ H2) ?fmap_cons ?filter_cons
       ?(decide_True _ _ H1) ?(decide_False _ _ H1) ?IH //.
Qed.

Lemma filter_none {A} (P : A → Prop) `{∀ x, Decision (P x)} (l : list A) :
  (∀ x, x ∈ l → ¬ P x) → filter P l = [].
Proof.
  induction l as [|x l IH]; intros Hl; [done|]. rw filter_cons decide_False; [apply Hl; left|].
  apply IH. intros y Hy. apply Hl. by right.
Qed.
Lemma filter_all {A} (P : A → Prop) `{∀ x, Decision (P x)} (l : list A) :
  (∀ x, x ∈ l → P x) → filter P l = l.
Proof.
  induction l as [|x l IH]; intros Hl; [done|]. rw filter_cons decide_True; [apply Hl; left|].
  f_equal. apply IH. intros y Hy. apply Hl. by right.
Qed.
Lemma filter_notin_app (a b : list string) :
  NoDup (a ++ b) → filter (λ m, m ∉ a) (a ++ b) = b.
Proof.
  intros (_ & Hd & _)%NoDup_app. rw filter_app filter_none; [by intros x Hx Hn|].
  apply filter_all. intros x Hx Hn. by apply (Hd x).
Qed.
Lemma filter_notin_drop (n : nat) (l : list string) :
  NoDup l → filter (λ m, m ∉ take n l) l = drop n l.
Proof.
  intros Hnd. pose proof (filter_notin_app (take n l) (drop n l)) as E.
  rw take_drop in E. by apply E.
Qed.

(** With the first [k] due members out, the due members are the others. *)
Lemma upto_drained sc k z : upto sc (without (take k (upto sc z)) z) = drop k (upto sc z).
Proof. rw upto_without. apply filter_notin_drop, upto_NoDup. Qed.

Section drain_rule.
Context `{Redis} {S : Type} `{!HasStore S}.
Context (name : string) (fn : string → M S unit) (z : gmap string Z).
Context (P : list string → S → Prop) (D : string → Prop).
(** [D]: what is known of the members drained.  [P out s]: the members [out] were taken out and handed over. *)
Hypothesis HP : ∀ out s, P out s → alive s ∧ as_zset (db s) name = Ok (without out z) ∧
  ∀ s', upd s (db s) (knows s) s' → P out s'.
Hypothesis Hfn : ∀ out j s s1, P out s → j ∉ out → D j →
  upd s (put_zset name (without (out ++ [j]) z) (db s)) (knows s) s1 →
  wp (fn j) s1 (λ r s2, r = Ok tt ∧ P (out ++ [j]) s2).

Lemma wp_drain jobs out cnt s :
  NoDup (out ++ jobs) → Forall (λ j, is_Some (z !! j) ∧ D j) jobs → P out s →
  wp (remove_each name fn jobs cnt) s
    (λ r s', r = Ok (cnt + Z.of_nat (length jobs), None) ∧ P (out ++ jobs) s').
Proof.
  revert out cnt s. induction jobs as [|j jobs IH]; intros out cnt s Hnd Hz Hs; cbn [remove_each].
  { wp_steps. by rw app_nil_r Z.add_0_r. }
  destruct (HP out s Hs) as (Ha & Hset & _). apply Forall_cons in Hz as [[Hj HD] Hz].
  assert (Hout : j ∉ out).
  { apply NoDup_app in Hnd as (_ & Hd & _). intros Hin. apply (Hd j Hin). by left. }
  wp_steps. apply wp_redis; [done|]. cbn [redis_doc]. rw (with_val_eq _ _ _ _ Hset). cbn [fst snd].
  rw -without_snoc lookup_without (decide_False _ _ Hout) (decide_True _ _ Hj). intros s1 H1.
  cbn [Z.eqb Pos.eqb]. wp_steps. eapply wp_mono; [by apply (Hfn out j s s1)|].
  intros r s2 [-> H2]. wp_steps. rw (cons_middle j out jobs) app_assoc in Hnd |- *.
  eapply wp_mono; [by apply (IH (out ++ [j]))|]. intros r s3 [-> H3]. split; [|done].
  cbn [length]. do 2 f_equal. lia.
Qed.

(** One [RemoveBefore] takes the next [n] due members. *)
Lemma wp_drain_batch (k n : nat) t s :
  (0 < n)%nat → time_in_range t → (∀ j, j ∈ upto (score_of t) z → D j) →
  P (take k (upto (score_of t) z)) s →
  wp (ss_RemoveBefore name (Thens t) (Z.of_nat n) fn) s
    (λ r s', r = Ok (Z.of_nat (length (take n (drop k (upto (score_of t) z)))), None) ∧
             P (take (k + n) (upto (score_of t) z)) s').
Proof.
  intros Hn Ht HD Hs. set (U := upto (score_of t) z) in *.
  destruct (HP _ s Hs) as (Ha & Hset & Hup).
  eapply wp_RemoveBefore; [done|by apply parse_Thens|done|exact Hset|lia|]. intros s' Hu.
  rw Nat2Z.id upto_drained. fold U. rw -(take_take_drop U k n).
  eapply wp_mono; [apply (wp_drain (take n (drop k U)) (take k U) 0 s')|].
  - rw take_take_drop. eapply sublist_NoDup; [|apply sublist_take]. apply upto_NoDup.
  - apply Forall_forall. intros j (i & Hj & _)%elem_of_take. rw lookup_drop in Hj.
    apply list_elem_of_lookup_2 in Hj. split; [|by apply HD].
    apply elem_of_upto in Hj as (sc & Hj & _). exists sc. exact Hj.
  - by apply Hup.
  - intros r s2 [-> H2]. split; [by rw Z.add_0_l|done].
Qed.
End drain_rule.

(** ** What sorted sets promise *)

Section sorted_theorems.
Context `{Redis}.

(** [Each] visits every entry of the set once, in the order of the scores,
    when its callback leaves the set alone: the pages of 50 neither skip nor
    repeat. *)
Theorem Each_visits_all fuel name z (st : store) :
  alive st → as_zset (db st) name = Ok z → (size z < 50 * fuel)%nat →
  ∃ st', ss_Each fuel name (λ _ e, modifyM (λ s : store * list setEntry, (s.1, s.2 ++ [e]))) (st, [])
         = (Ok tt, (st', (λ p, NewEntry p.1 p.2) <$> zelems z)) ∧ db st' = db st.
Proof.
  intros Ha Hz Hf.
  set (I := λ (pre : list (Z * string)) (s : store * list setEntry),
    alive s ∧ db s = db st ∧ s.2 = (λ p, NewEntry p.1 p.2) <$> pre).
  destruct (wp_exec (ss_Each fuel name (λ _ e, modifyM (λ s : store * list setEntry, (s.1, s.2 ++ [e])))) (st, [])
    (λ r s', r = Ok tt ∧ I (zelems z) s')) as (r & [st' l] & E & -> & _ & Hd & Hl).
  - apply (wp_ss_Each name _ z I); [| |done|done].
    + intros pre s (Ha' & Hd & Hl). split_and!; [done|by rw Hd|]. intros s' Hu.
      split_and!; [exact (upd_alive _ _ _ _ Hu)|by rw (upd_db _ _ _ _ Hu)|].
      destruct Hu as (r & _ & _ & ->). exact Hl.
    + intros pre e post idx [s l] Hze (Ha' & Hd & Hl). wp_steps. split; [done|]. split_and!; [done|done|].
      cbn in *. by rw Hl fmap_app.
  - exists st'. cbn in Hl. by rw E Hl.
Qed.

(** The key shown for an entry leads back to it: "timestamp|jid" computed
    from the entry's score decomposes into that very score and the jid. *)
Theorem entry_Key_finds_score e j :
  entry_Job e = Ok j → usual_score e.(e_score) → no_char "|" j.(Jid) = true →
  ∃ key, entry_Key e = Ok key ∧ decompose key = Ok (e.(e_score), j.(Jid)).
Proof.
  intros Hj Hs Hb. rw /entry_Key Hj. eexists. split; [done|]. rw /decompose.
  change ("|" +:+ Jid j) with (String "|" (Jid j)).
  assert (Ht : no_char "|" (Thens (key_time (e_score e))) = true).
  { by apply (all_chars_no_char time_char), Thens_chars. }
  rw (split_char_app "|" _ _ Ht) (split_char_no _ _ Hb).
  rw parse_Thens; [by apply key_time_in_range|]. cbn [omap_outcome]. by rw key_time_score.
Qed.

End sorted_theorems.

(** ** Removing while paging *)

Section skipping.
Import MemRedis.

Definition numbered (n : nat) : list (string * Z) :=
  (λ i, (pad_dec 3 (Z.of_nat i), Z.of_nat i)) <$> seq 0 n.
Definition remove_all (n : nat) : outcome unit * @store mem_redis :=
  ss_Each 5 "dead" (λ _ e, ss_RemoveEntry "dead" e)
    (mkStore {| data := {[ "dead" := RZSet (list_to_map (numbered n)) ]}; faults := [] |} ∅).

(** [Each] pages by position, so a callback that removes what it visits
    makes it skip: removing every entry of a set of 60 this way removes the
    first 50 and reports success. *)
Theorem Each_skips_when_removing :
  (remove_all 60).1 = Ok tt ∧
  (ss_Size "dead" (remove_all 60).2).1 = Ok 10 ∧ (ss_Size "dead" (remove_all 50).2).1 = Ok 0.
Proof. split_and!; by_compute. Qed.
End skipping.
