(* ===== verification/Middleware.v ===== *)
(** * Middleware chains (src/manager/middleware.go)

    A middleware receives the rest of the chain as [next] and decides whether,
    when and how often to run it.  [S] is the state it works in, which holds the
    job the context points to; [C] is the rest of the context. *)
From S2P Require Import Prelude.

Section middleware.
Context {S C : Type}.

Definition MiddlewareFunc : Type := M S unit → C → M S unit.

Fixpoint callMiddleware (chain : list MiddlewareFunc) (ctx : C) (final : M S unit) : M S unit :=
  match chain with
  | [] => final
  | link :: rest => link (callMiddleware rest ctx final) ctx
  end.

Definition ExpectedError (code msg : string) : goerr := ErrCoded code msg.
Definition Halt (code msg : string) : goerr := ExpectedError code msg.
Definition Discard (msg : string) : goerr := ExpectedError "DISCARD" msg.

(** ** Laws *)

Lemma callMiddleware_app c1 c2 ctx final :
  callMiddleware (c1 ++ c2) ctx final = callMiddleware c1 ctx (callMiddleware c2 ctx final).
Proof. induction c1 as [|l c1 IH]; [done|]. cbn. by rw IH. Qed.

(** A link that does not call [next] keeps the rest of the chain from running. *)
Lemma callMiddleware_halt c1 link c2 ctx final e s :
  (∀ next, link next ctx s = (Err e, s)) →
  (∀ l, l ∈ c1 → ∀ next s, l next ctx s = next s) →
  callMiddleware (c1 ++ link :: c2) ctx final s = (Err e, s).
Proof.
  intros Hh Hc. rw callMiddleware_app. induction c1 as [|l c1 IH]; cbn.
  - apply Hh.
  - rw (Hc l ltac:(by left)). apply IH. intros l' Hl'. apply Hc. by right.
Qed.

End middleware.
Arguments MiddlewareFunc : clear implicits.
