(* ===== verification/Manager.v ===== *)
(** * The job manager: state, pushing, pausing (src/manager/manager.go)

    [mgr] is the manager's mutable state: the store it works on, the
    reservations held in memory and the paused queues.  What is set up before
    the server runs (the fetcher and the middleware chains) is the environment
    [Env].  A middleware works on the manager and on the job of its context, so
    chains run in the state [mgr * Job].  [now] is the clock, read once per
    operation. *)
From S2P Require Import Prelude GoStrings Float64 GoTime Scores Json Job Redis Store SortedSet Middleware.

(** ** Data *)

(** [simpleLease]: [None] is a nil slice, a nil pointer. *)
Record Lease := mkLease { payload : option string; ljob : option Job; released : bool }.

Definition Release (l : Lease) : Lease := mkLease l.(payload) l.(ljob) true.
(** [Job]: the job, decoded once and kept. *)
Definition lease_Job (l : Lease) : outcome (option Job * Lease) :=
  match l.(ljob), l.(payload) with
  | Some j, _ => Ok (Some j, l)
  | None, None => Ok (None, l)
  | None, Some p =>
      omap_outcome (λ j, (Some j, mkLease l.(payload) (Some j) l.(released))) (unmarshal_job zero_job p)
  end.

(** The zero [time.Time]: January 1 of year 1. *)
Definition zero_time : Z := -62135596800 * SEC.

Record Reservation := mkReservation {
  rJob : option Job;
  Since : string;
  Expiry : string;
  Wid : string;
  tsince : Z;
  texpiry : Z;
  extension : Z;
  rlease : option Lease
}.
Definition zero_reservation : Reservation :=
  mkReservation None "" "" "" zero_time zero_time zero_time None.
Definition set_rJob (v : option Job) (r : Reservation) : Reservation :=
  mkReservation v r.(Since) r.(Expiry) r.(Wid) r.(tsince) r.(texpiry) r.(extension) r.(rlease).
Definition set_Since (v : string) (r : Reservation) : Reservation :=
  mkReservation r.(rJob) v r.(Expiry) r.(Wid) r.(tsince) r.(texpiry) r.(extension) r.(rlease).
Definition set_Expiry (v : string) (r : Reservation) : Reservation :=
  mkReservation r.(rJob) r.(Since) v r.(Wid) r.(tsince) r.(texpiry) r.(extension) r.(rlease).
Definition set_Wid (v : string) (r : Reservation) : Reservation :=
  mkReservation r.(rJob) r.(Since) r.(Expiry) v r.(tsince) r.(texpiry) r.(extension) r.(rlease).
Definition set_texpiry (v : Z) (r : Reservation) : Reservation :=
  mkReservation r.(rJob) r.(Since) r.(Expiry) r.(Wid) r.(tsince) v r.(extension) r.(rlease).
Definition set_extension (v : Z) (r : Reservation) : Reservation :=
  mkReservation r.(rJob) r.(Since) r.(Expiry) r.(Wid) r.(tsince) r.(texpiry) v r.(rlease).
Definition set_rlease (v : option Lease) (r : Reservation) : Reservation :=
  mkReservation r.(rJob) r.(Since) r.(Expiry) r.(Wid) r.(tsince) r.(texpiry) r.(extension) v.

(** 64-bit [int] arithmetic. *)
Definition wrap64 (n : Z) : Z := (n + 2 ^ 63) `mod` 2 ^ 64 - 2 ^ 63.

Section manager.
Context `{Redis}.

Record mgr := mkMgr {
  mstore : store;
  workingMap : gmap string Reservation;
  paused_ : list string
}.
#[global] Program Instance mgr_store : HasStore mgr :=
  {| get_store := mstore; set_store := λ st m, mkMgr st m.(workingMap) m.(paused_) |}.
Solve All Obligations with (by intros; repeat match goal with m : mgr |- _ => destruct m end).

Definition set_workingMap (w : gmap string Reservation) (m : mgr) : mgr := mkMgr m.(mstore) w m.(paused_).
Definition set_paused (p : list string) (m : mgr) : mgr := mkMgr m.(mstore) m.(workingMap) p.

Definition Chain : Type := list (MiddlewareFunc (mgr * Job) (option Reservation)).
Record Env := mkEnv {
  fetcher : string → list string → M mgr (option Lease);
  pushChain : Chain;
  fetchChain : Chain;
  failChain : Chain;
  ackChain : Chain;
  tz : Z
}.

(** [AddMiddleware] panics on an unknown type. *)
Definition AddMiddleware (fntype : string) (fn : MiddlewareFunc (mgr * Job) (option Reservation)) (e : Env)
  : outcome Env :=
  if bool_decide (fntype = "push") then
    Ok (mkEnv e.(fetcher) (e.(pushChain) ++ [fn])%list e.(fetchChain) e.(failChain) e.(ackChain) e.(tz))
  else if bool_decide (fntype = "ack") then
    Ok (mkEnv e.(fetcher) e.(pushChain) e.(fetchChain) e.(failChain) (e.(ackChain) ++ [fn])%list e.(tz))
  else if bool_decide (fntype = "fail") then
    Ok (mkEnv e.(fetcher) e.(pushChain) e.(fetchChain) (e.(failChain) ++ [fn])%list e.(ackChain) e.(tz))
  else if bool_decide (fntype = "fetch") then
    Ok (mkEnv e.(fetcher) e.(pushChain) (e.(fetchChain) ++ [fn])%list e.(failChain) e.(ackChain) e.(tz))
  else Panic ("Unknown middleware type: " +:+ fntype).

(** Run a chain's program on a job; the job as it was left comes back. *)
Definition with_job {A} (job : Job) (m : M (mgr * Job) A) : M mgr (A * Job) :=
  λ s, match m (s, job) with
       | (Ok a, (s', j)) => (Ok (a, j), s')
       | (Err e, (s', _)) => (Err e, s')
       | (Panic p, (s', _)) => (Panic p, s')
       end.

(** ** Pushing *)

(** The job as it is left, with its enqueue time. *)
Definition enqueue {S} `{HasStore S} (now : Z) (job : Job) : M S Job :=
  let* q := GetQueue job.(Queue) in
  let job' := set_EnqueuedAt (Thens now) job in
  q_Push q (marshal_job job') ;;;
  retM job'.

Definition push_final (now t : Z) : M (mgr * Job) unit :=
  let* s := getM in
  let job := s.2 in
  if negb (bool_decide (job.(At) = "")) && (now <? t)
  then ss_AddElement "scheduled" job.(At) job.(Jid) (marshal_job job)
  else
    let* job' := enqueue now job in
    modifyM (λ s, (s.1, job')).

(** The creation time and queue of a job that has none. *)
Definition push_defaults (now : Z) (job : Job) : Job :=
  let job := if bool_decide (job.(CreatedAt) = "") then set_CreatedAt (Thens now) job else job in
  if bool_decide (job.(Queue) = "") then set_Queue "default" job else job.

Definition Push (env : Env) (now : Z) (job : Job) : M mgr Job :=
  if bool_decide (job.(Jid) = "") || (slen job.(Jid) <? 8)
  then failM (ErrMsg "All jobs must have a reasonable jid parameter")
  else if bool_decide (job.(Type_) = "")
  then failM (ErrMsg "All jobs must have a jobtype parameter")
  else if negb (bool_decide (is_Some job.(Args)))
  then failM (ErrMsg "All jobs must have an args parameter")
  else if 86400 <? job.(ReserveFor)
  then failM (ErrMsg "Jobs cannot be reserved for more than one day")
  else
    let job := push_defaults now job in
    let* t := if bool_decide (job.(At) = "") then retM zero_time
              else match ParseTime job.(At) with
                   | Ok t => retM t
                   | _ => failM (ErrMsg ("Invalid timestamp for 'at': '" +:+ job.(At) +:+ "'"))
                   end in
    let* r := with_job job (callMiddleware env.(pushChain) None (push_final now t)) in
    retM r.2.

(** ** Pausing: fetch.go *)

Definition contains (a : string) (slc : list string) : bool :=
  List.existsb (λ x, bool_decide (a = x)) slc.
(** The elements of [queues] that are not in [paused]. *)
Definition filter_queues (paused queues : list string) : list string :=
  if decide (paused = []) then queues
  else List.filter (λ q, negb (contains q paused)) queues.

Definition Pause (qName : string) : M mgr unit :=
  let* q := GetQueue qName in
  q_Pause q ;;;
  modifyM (λ m, set_paused (filter_queues [qName] m.(paused_) ++ [qName]) m).
Definition Resume (qName : string) : M mgr unit :=
  let* q := GetQueue qName in
  q_Resume q ;;;
  modifyM (λ m, set_paused (filter_queues [qName] m.(paused_)) m).

End manager.

(** ** Laws *)

Section enqueue_laws.
Context `{Redis} {S : Type} `{!HasStore S}.

(** [enqueue] puts the stamped job at the head of its queue's list and leaves
    every other list, set and key as it was. *)
Lemma wp_enqueue now job l (s : S) (Q : outcome Job → S → Prop) :
  alive s → store_ok s → ValidQueueName job.(Queue) = true → job.(Queue) ≠ "queues" →
  as_list (db s) job.(Queue) = Ok l →
  (∀ d qs s', upd s d qs s' → store_ok s' →
     as_list d job.(Queue) = Ok (marshal_job (set_EnqueuedAt (Thens now) job) :: l) →
     (∀ k, k ≠ "queues" → k ≠ job.(Queue) → d !! k = db s !! k) →
     Q (Ok (set_EnqueuedAt (Thens now) job)) s') →
  wp (enqueue now job) s Q.
Proof.
  intros Ha Hok Hv Hnq Hl HQ. rw /enqueue. wp_steps. apply wp_GetQueue; [done..|].
  intros q d qs s1 Hq H1 Hok1 Hd. wp_steps.
  pose proof (upd_db _ _ _ _ H1) as E. pose proof (upd_knows _ _ _ _ H1) as Ek.
  apply (wp_q_Push _ _ _ l); [exact (upd_alive _ _ _ _ H1)| |].
  { rw Hq E -Hl. apply as_list_ext. by apply Hd. }
  intros s2 H2. wp_steps. rw Hq E Ek in H2.
  assert (Hset : as_set (put_list job.(Queue) (marshal_job (set_EnqueuedAt (Thens now) job) :: l) d) "queues"
                 = as_set d "queues") by (apply as_set_ext, put_list_ne; congruence).
  eapply HQ; [exact (upd_trans _ _ _ _ _ _ _ H1 H2)| |by rw as_put_list|].
  - eapply (store_ok_upd s1); [done|rw Ek; exact H2|]. rw Hset -E. apply Hok1.
  - intros k Hk1 Hk2. rw put_list_ne; [congruence|]. by apply Hd.
Qed.

End enqueue_laws.

Section push_laws.
Context `{Redis}.

(** The jobs [Push] takes: what its four guards let through. *)
Definition acceptable (job : Job) : Prop :=
  8 ≤ slen job.(Jid) ∧ job.(Type_) ≠ "" ∧ is_Some job.(Args) ∧ job.(ReserveFor) ≤ 86400.
#[global] Instance acceptable_dec job : Decision (acceptable job).
Proof. repeat apply and_dec; apply _. Defined.

(** The memory of the manager that is not the store. *)
Definition same_memory (m m' : mgr) : Prop :=
  m'.(workingMap) = m.(workingMap) ∧ m'.(paused_) = m.(paused_).

Lemma upd_memory m d qs m' : upd m d qs m' → same_memory m m'.
Proof. by intros (r & _ & _ & ->). Qed.
(** A step on the pair is a step on the manager that keeps the job. *)
Lemma upd_pair {X} (m : mgr) (x : X) d qs s' : upd (m, x) d qs s' → upd m d qs s'.1 ∧ s'.2 = x.
Proof. intros (r & H1 & H2 & ->). split; [by exists r|done]. Qed.
Lemma alive_pair {X} (m : mgr) (x : X) : alive m → alive (m, x).
Proof. done. Qed.
Lemma store_ok_pair {X} (m : mgr) (x : X) : store_ok m → store_ok (m, x).
Proof. done. Qed.

Lemma wp_with_job {A} job (p : M (mgr * Job) A) m (Q : outcome (A * Job) → mgr → Prop) :
  wp p (m, job) (λ r s', Q (omap_outcome (λ a, (a, s'.2)) r) s'.1) → wp (with_job job p) m Q.
Proof. rw /wp /with_job. by destruct (p (m, job)) as [[] [m' j']]. Qed.

Lemma acceptable_guards job :
  acceptable job →
  (bool_decide (job.(Jid) = "") || (slen job.(Jid) <? 8)) = false ∧
  bool_decide (job.(Type_) = "") = false ∧ negb (bool_decide (is_Some job.(Args))) = false ∧
  (86400 <? job.(ReserveFor)) = false.
Proof.
  intros (H1 & H2 & H3 & H4). split_and!.
  - apply orb_false_intro; [|lia]. apply bool_decide_eq_false. intros E. by rw E in H1.
  - by apply bool_decide_eq_false.
  - apply negb_false_iff. by apply bool_decide_eq_true.
  - lia.
Qed.

Lemma push_defaults_At now job : (push_defaults now job).(At) = job.(At).
Proof. rw /push_defaults. by repeat case_bool_decide. Qed.
Lemma push_defaults_Jid now job : (push_defaults now job).(Jid) = job.(Jid).
Proof. rw /push_defaults. by repeat case_bool_decide. Qed.

(** [Push] on an accepted job, up to the chain. *)
Lemma wp_Push env now job t m (Q : outcome Job → mgr → Prop) :
  acceptable job →
  (if decide (job.(At) = "") then t = zero_time else ParseTime job.(At) = Ok t) →
  wp (callMiddleware env.(pushChain) None (push_final now t)) (m, push_defaults now job)
     (λ r s', Q (omap_outcome (λ _, s'.2) r) s'.1) →
  wp (Push env now job) m Q.
Proof.
  intros Hacc Ht HQ. destruct (acceptable_guards job Hacc) as (G1 & G2 & G3 & G4).
  rw /Push G1 G2 G3 G4 push_defaults_At. apply wp_bind.
  assert (Hgo : wp (let* r := with_job (push_defaults now job)
                      (callMiddleware (pushChain env) None (push_final now t)) in retM r.2) m Q).
  { apply wp_bind, wp_with_job. eapply wp_mono; [exact HQ|]. by intros [] s'. }
  destruct (decide (job.(At) = "")) as [E|E].
  - rw (bool_decide_eq_true_2 _ E). by subst t.
  - rw (bool_decide_eq_false_2 _ E) Ht. exact Hgo.
Qed.

End push_laws.

(** ** What [Push] promises *)

Section push_theorems.
Context `{Redis}.

(** A job that is not accepted, or whose "at" is not a timestamp, is refused
    with an error and nothing changes. *)
Lemma Push_refused env now job (m : mgr) :
  ¬ acceptable job ∨ (job.(At) ≠ "" ∧ ∀ t, ParseTime job.(At) ≠ Ok t) →
  ∃ e, Push env now job m = (Err e, m).
Proof.
  intros Hno. destruct (decide (acceptable job)) as [Hacc|Hn].
  - destruct Hno as [Hn|[Hat Ht]]; [done|].
    destruct (acceptable_guards job Hacc) as (G1 & G2 & G3 & G4).
    rw /Push G1 G2 G3 G4 push_defaults_At (bool_decide_eq_false_2 _ Hat).
    destruct (ParseTime job.(At)) as [t| |] eqn:E; [by destruct (Ht t)|by eexists..].
  - rw /Push. do 4 (case_match; [by eexists|]). destruct Hn. rw /acceptable.
    repeat match goal with H : _ || _ = false |- _ => apply orb_false_iff in H as [? ?] end.
    split_and!; [lia|by eapply bool_decide_eq_false| |lia].
    eapply bool_decide_eq_true. by apply negb_false_iff.
Qed.

(** Where a due job goes. *)
Lemma wp_Push_enqueue env now job l (m : mgr) :
  env.(pushChain) = [] → acceptable job → alive m → store_ok m →
  (job.(At) = "" ∨ ∃ t, ParseTime job.(At) = Ok t ∧ t ≤ now) →
  let j := push_defaults now job in let j' := set_EnqueuedAt (Thens now) j in
  ValidQueueName j.(Queue) = true → j.(Queue) ≠ "queues" → as_list (db m) j.(Queue) = Ok l →
  wp (Push env now job) m (λ r m',
    r = Ok j' ∧ alive m' ∧ store_ok m' ∧ same_memory m m' ∧
    as_list (db m') j.(Queue) = Ok (marshal_job j' :: l) ∧
    (∀ k, k ≠ "queues" → k ≠ j.(Queue) → db m' !! k = db m !! k)).
Proof.
  intros Hch Hacc Ha Hok Hat j j' Hv Hnq Hl.
  assert (Hg : ∃ t, (if decide (job.(At) = "") then t = zero_time else ParseTime job.(At) = Ok t) ∧
                    negb (bool_decide (j.(At) = "")) && (now <? t) = false).
  { rw /j push_defaults_At. destruct (decide (job.(At) = "")) as [E|E].
    - exists zero_time. by rw (bool_decide_eq_true_2 _ E).
    - destruct Hat as [?|(t & Ht & Hle)]; [done|]. exists t. split; [done|].
      rw (bool_decide_eq_false_2 _ E). cbn. lia. }
  destruct Hg as (t & Ht & Hg). apply (wp_Push _ _ _ t); [done..|].
  rw Hch. cbn [callMiddleware]. rw /push_final. wp_steps. cbn [snd]. fold j. rw Hg.
  wp_steps. apply (wp_enqueue _ _ l); [done..|]. intros d qs s' Hu Hok' Hd1 Hd2. wp_steps.
  pose proof (upd_db _ _ _ _ Hu) as E. pose proof (upd_alive _ _ _ _ Hu) as Ha'.
  apply upd_pair in Hu as [Hu _]. cbn [omap_outcome snd fst].
  pose proof (upd_db _ _ _ _ Hu) as E'. split_and!; [done|exact Ha'|exact Hok'|exact (upd_memory _ _ _ _ Hu)| |];
    rw E'; done.
Qed.

Lemma wp_Push_schedule env now job t z (m : mgr) :
  env.(pushChain) = [] → acceptable job → alive m →
  job.(At) ≠ "" → ParseTime job.(At) = Ok t → now < t →
  as_zset (db m) "scheduled" = Ok z →
  let j := push_defaults now job in
  wp (Push env now job) m (λ r m',
    r = Ok j ∧ upd m (put_zset "scheduled" (<[marshal_job j := score_of t]> z) (db m)) (knows m) m').
Proof.
  intros Hch Hacc Ha Hne Ht Hlt Hz j. apply (wp_Push _ _ _ t); [done| |].
  { by destruct (decide (job.(At) = "")). }
  rw Hch. cbn [callMiddleware]. rw /push_final. wp_steps. cbn [snd]. fold j.
  assert (Hj : j.(At) = job.(At)) by apply push_defaults_At.
  rw Hj (bool_decide_eq_false_2 _ Hne) (proj2 (Z.ltb_lt _ _) Hlt). cbn [negb andb].
  apply (wp_AddElement _ _ _ _ t _ z); [done..|]. intros s' Hu.
  apply upd_pair in Hu as [Hu E]. cbn [omap_outcome]. by rw E.
Qed.

(** C30. A due job that [Push] accepts is stored, stamped, at the head of its
    queue; no other key but the set of queue names changes, nor does the
    manager's memory. *)
Theorem Push_enqueues env now job l (m : mgr) :
  env.(pushChain) = [] → acceptable job → alive m → store_ok m →
  (job.(At) = "" ∨ ∃ t, ParseTime job.(At) = Ok t ∧ t ≤ now) →
  let j := push_defaults now job in let j' := set_EnqueuedAt (Thens now) j in
  ValidQueueName j.(Queue) = true → j.(Queue) ≠ "queues" → as_list (db m) j.(Queue) = Ok l →
  ∃ m', Push env now job m = (Ok j', m') ∧
    as_list (db m') j.(Queue) = Ok (marshal_job j' :: l) ∧
    (∀ k, k ≠ "queues" → k ≠ j.(Queue) → db m' !! k = db m !! k) ∧ same_memory m m'.
Proof.
  intros H1 H2 H3 H4 H5 j j' H6 H7 H8.
  pose proof (wp_Push_enqueue env now job l m H1 H2 H3 H4 H5 H6 H7 H8) as W.
  apply wp_exec in W as (r & m' & E & -> & _ & _ & Hm & Hq & Hd). rw E. eauto.
Qed.

(** C31. [Push] validates: a job with a short jid, no type, no args or more than
    a day's reservation, or with an unreadable "at", is refused with an error
    and neither the store nor the memory changes. *)
Theorem Push_validates env now job (m : mgr) :
  ¬ acceptable job ∨ (job.(At) ≠ "" ∧ ∀ t, ParseTime job.(At) ≠ Ok t) →
  ∃ e, Push env now job m = (Err e, m).
Proof. apply Push_refused. Qed.

(** A job with an "at" in the future is put in the scheduled set, scored
    with that instant, and is on no queue. *)
Theorem Push_schedules env now job t z (m : mgr) :
  env.(pushChain) = [] → acceptable job → alive m →
  job.(At) ≠ "" → ParseTime job.(At) = Ok t → now < t →
  as_zset (db m) "scheduled" = Ok z →
  let j := push_defaults now job in
  ∃ m', Push env now job m = (Ok j, m') ∧
    as_zset (db m') "scheduled" = Ok (<[marshal_job j := score_of t]> z) ∧
    (∀ k, k ≠ "scheduled" → db m' !! k = db m !! k) ∧ same_memory m m'.
Proof.
  intros H1 H2 H3 H4 H5 H6 H7 j. pose proof (wp_Push_schedule env now job t z m H1 H2 H3 H4 H5 H6 H7) as W.
  apply wp_exec in W as (r & m' & E & -> & Hu).
  exists m'. rw E (upd_db _ _ _ _ Hu). split_and!; [done|apply as_put_zset| |apply (upd_memory _ _ _ _ Hu)..].
  intros k Hk. apply put_zset_ne. congruence.
Qed.

End push_theorems.

(** ** The hypotheses can hold: runs on a fresh in-memory store *)

Module PushWitness.
Import MemRedis.
Definition m0 : @mgr mem_redis := mkMgr (mkStore fresh ∅) ∅ [].
Definition env0 : @Env mem_redis := mkEnv (λ _ _, retM None) [] [] [] [] 0.
Definition now0 : Z := 1600000000 * SEC.
Definition job0 : Job := mkJob "jid-0001" "" "Thing" (Some []) "" "" "" 0 25 0 None [].
Definition later : Job := set_At "2033-05-18T03:33:20Z" job0.
End PushWitness.

Lemma m0_alive : alive PushWitness.m0.
Proof. exact MemRedis.fresh_up. Defined.
Lemma m0_ok : store_ok PushWitness.m0.
Proof. split; [by intros n q; cbn; rewrite lookup_empty|]. by exists ∅. Defined.

Lemma Push_enqueues_witness :
  ∃ m', Push PushWitness.env0 PushWitness.now0 PushWitness.job0 PushWitness.m0
        = (Ok (set_EnqueuedAt (Thens PushWitness.now0) (push_defaults PushWitness.now0 PushWitness.job0)), m').
Proof.
  destruct (Push_enqueues PushWitness.env0 PushWitness.now0 PushWitness.job0 [] PushWitness.m0) as (m' & E & _);
    [done|by split_and!; try done; eexists|exact m0_alive|exact m0_ok|by left|done|done|done|].
  exists m'. exact E.
Defined.
Lemma Push_validates_witness :
  ∃ e, Push PushWitness.env0 PushWitness.now0 (set_Jid "short" PushWitness.job0) PushWitness.m0
       = (Err e, PushWitness.m0).
Proof. apply Push_validates. left. intros [Hj _]. by vm_compute in Hj. Defined.
Lemma Push_schedules_witness :
  ∃ m', Push PushWitness.env0 PushWitness.now0 PushWitness.later PushWitness.m0
        = (Ok (push_defaults PushWitness.now0 PushWitness.later), m').
Proof.
  destruct (Push_schedules PushWitness.env0 PushWitness.now0 PushWitness.later (2000000000 * SEC) ∅ PushWitness.m0)
    as (m' & E & _); [done|by split_and!; try done; eexists|exact m0_alive|done|by vm_compute|done|done|].
  exists m'. exact E.
Defined.
