(* ===== verification/Retry.v ===== *)
(** * Failures and retries (src/manager/retry.go)

    A failed job leaves the working set, has its failure record updated and
    goes through the "fail" chain; at its end it is dropped (no retries asked),
    put in the retries set with a back-off, or sent to the dead set. *)
From S2P Require Import Prelude GoStrings Float64 GoTime Scores Json Job Redis Store SortedSet Middleware Manager.

Record FailPayload := mkFail {
  fJid : string;
  fMessage : string;
  fErrtype : string;
  fBacktrace : list string
}.
Definition set_fJid (v : string) (f : FailPayload) : FailPayload :=
  mkFail v f.(fMessage) f.(fErrtype) f.(fBacktrace).
Definition set_fMessage (v : string) (f : FailPayload) : FailPayload :=
  mkFail f.(fJid) v f.(fErrtype) f.(fBacktrace).
Definition set_fErrtype (v : string) (f : FailPayload) : FailPayload :=
  mkFail f.(fJid) f.(fMessage) v f.(fBacktrace).
Definition set_fBacktrace (v : list string) (f : FailPayload) : FailPayload :=
  mkFail f.(fJid) f.(fMessage) f.(fErrtype) v.
Definition zero_fail : FailPayload := mkFail "" "" "" [].
Definition fail_field (k : string) (v : json) (f : FailPayload) : option FailPayload :=
  if bool_decide (k = "jid") then dec_str set_fJid v f
  else if bool_decide (k = "message") then dec_str set_fMessage v f
  else if bool_decide (k = "errtype") then dec_str set_fErrtype v f
  else if bool_decide (k = "backtrace") then
    match v with
    | JArr l => bt ← dec_strings l; Some (set_fBacktrace bt f)
    | JNull => Some (set_fBacktrace [] f)
    | _ => None
    end
  else Some f.

(** [working.go]: the failure of an expired reservation, told apart by its
    address; [processFailure] gets [None] for it. *)
Definition JobReservationExpired : FailPayload :=
  mkFail "" "Faktory job reservation expired" "ReservationExpired" [].

Definition cleanse (f : FailPayload) : FailPayload :=
  let ty := trim_space f.(fErrtype) in
  let msg := trim_space f.(fMessage) in
  let ty := if bool_decide (ty = "") then "unknown" else if 100 <? slen ty then take_str 100 ty else ty in
  let msg := if bool_decide (msg = "") then "unknown" else if 1000 <? slen msg then take_str 1000 msg else msg in
  let bt := if 50 <? Z.of_nat (length f.(fBacktrace)) then take 50 f.(fBacktrace) else f.(fBacktrace) in
  mkFail f.(fJid) msg ty bt.

(** 180 days. *)
Definition DeadTTL : Z := 180 * 24 * 3600 * SEC.

(** [count^4 + 15 + rand.Intn(30) * (count + 1)] seconds from now, in 64-bit
    arithmetic; [r] is the number drawn. *)
Definition nextRetry (r now count : Z) : Z :=
  let secs := wrap64 (wrap64 (wrap64 (wrap64 (wrap64 (count * count) * count) * count) + 15)
                      + wrap64 (r * wrap64 (count + 1))) in
  now + wrap64 (secs * SEC).

(** What the failure leaves on the job. *)
Definition fail_job (now : Z) (f : FailPayload) (job : Job) : Job :=
  set_JFailure (Some match job.(JFailure) with
    | Some old => set_FBacktrace f.(fBacktrace) (set_ErrorType f.(fErrtype)
                    (set_ErrorMessage f.(fMessage) (set_RetryCount (wrap64 (old.(RetryCount) + 1)) old)))
    | None => mkFailure 0 (Thens now) "" f.(fMessage) f.(fErrtype) f.(fBacktrace)
    end) job.

Section retry.
Context `{Redis}.

Definition clearReservation (jid : string) : M mgr (option Reservation) :=
  let* m := getM in
  match m.(workingMap) !! jid with
  | None => retM None
  | Some res => modifyM (λ m, set_workingMap (delete jid m.(workingMap)) m) ;;; retM (Some res)
  end.

Definition retryLater {S} `{HasStore S} (r now : Z) (job : Job) (f : Failure) : M S Job :=
  let when := Thens (nextRetry r now f.(RetryCount)) in
  let job' := set_JFailure (Some (set_NextAt when f)) job in
  ss_AddElement "retries" when job'.(Jid) (marshal_job job') ;;;
  retM job'.
Definition sendToMorgue {S} `{HasStore S} (now : Z) (job : Job) : M S unit :=
  ss_AddElement "dead" (Thens (now + DeadTTL)) job.(Jid) (marshal_job job).

(** The end of the "fail" chain, on the job the chain leaves. *)
Definition fail_final (r now : Z) : M (mgr * Job) unit :=
  let* s := getM in
  let job := s.2 in
  if job.(Retry) =? 0 then retM tt
  else match job.(JFailure) with
       | None => panicM "nil pointer dereference"
       | Some f =>
           if f.(RetryCount) <? job.(Retry)
           then let* job' := retryLater r now job f in modifyM (λ s, (s.1, job'))
           else sendToMorgue now job
       end.

(** What follows once the entry is out of the working set. *)
Definition settle (env : Env) (r now : Z) (failure : FailPayload) (res : Reservation) : M mgr unit :=
  Failure_ env.(tz) now ;;;
  match res.(rJob) with
  | None => panicM "nil pointer dereference"
  | Some job =>
      let job := fail_job now failure job in
      with_job job (callMiddleware env.(failChain) (Some (set_rJob (Some job) res)) (fail_final r now)) ;;;
      retM tt
  end.

(** [failure] is [None] when the reservation expired: its entry was already
    taken out of the working set. *)
Definition processFailure (env : Env) (r now : Z) (jid : string) (failure : option FailPayload) : M mgr unit :=
  let* res := clearReservation jid in
  match res with
  | None => failM (ErrMsg ("Job not found " +:+ jid))
  | Some res =>
      let res := set_rlease (Release <$> res.(rlease)) res in
      let* ok := match failure with
                 | Some _ => ss_RemoveElement "working" res.(Expiry) jid
                 | None => retM true
                 end in
      if negb ok then retM tt
      else settle env r now (default JobReservationExpired failure) res
  end.

(** [None] is a nil payload. *)
Definition Fail (env : Env) (r now : Z) (failure : option FailPayload) : M mgr unit :=
  match failure with
  | None => failM (ErrMsg "No failure")
  | Some f =>
      if bool_decide (f.(fJid) = "") then failM (ErrMsg "Missing JID")
      else processFailure env r now f.(fJid) (Some (cleanse f))
  end.

End retry.

(** ** Laws *)

(** Where a failed job goes: dropped, to the retries at an instant, or to the
    dead set until an instant. *)
Inductive fate :=
| Dropped
| Retried (job : Job) (at_ : Z)
| Buried (job : Job) (at_ : Z).
Definition fate_of (r now : Z) (job : Job) : fate :=
  if job.(Retry) =? 0 then Dropped
  else match job.(JFailure) with
       | None => Dropped
       | Some f =>
           let w := nextRetry r now f.(RetryCount) in
           if f.(RetryCount) <? job.(Retry)
           then Retried (set_JFailure (Some (set_NextAt (Thens w) f)) job) w
           else Buried job (now + DeadTTL)
       end.
Definition fate_in_range (f : fate) : Prop :=
  match f with Dropped => True | Retried _ w | Buried _ w => time_in_range w end.
(** The two sets after a failure. *)
Definition retries_after (f : fate) (z : gmap string Z) : gmap string Z :=
  match f with Retried j w => <[marshal_job j := score_of w]> z | _ => z end.
Definition dead_after (f : fate) (z : gmap string Z) : gmap string Z :=
  match f with Buried j w => <[marshal_job j := score_of w]> z | _ => z end.
Definition fate_db (f : fate) (zr zd : gmap string Z) (d : dataset) : dataset :=
  match f with
  | Dropped => d
  | Retried _ _ => put_zset "retries" (retries_after f zr) d
  | Buried _ _ => put_zset "dead" (dead_after f zd) d
  end.

Lemma fate_db_retries f zr zd d :
  as_zset d "retries" = Ok zr → as_zset (fate_db f zr zd d) "retries" = Ok (retries_after f zr).
Proof.
  intros Hr. destruct f; cbn [fate_db]; [done|apply as_put_zset|].
  rw -Hr. apply as_zset_ext, put_zset_ne. done.
Qed.
Lemma fate_db_dead f zr zd d :
  as_zset d "dead" = Ok zd → as_zset (fate_db f zr zd d) "dead" = Ok (dead_after f zd).
Proof.
  intros Hd. destruct f; cbn [fate_db]; [done| |apply as_put_zset].
  rw -Hd. apply as_zset_ext, put_zset_ne. done.
Qed.
Lemma fate_db_ne f zr zd d k : k ≠ "retries" → k ≠ "dead" → fate_db f zr zd d !! k = d !! k.
Proof. intros H1 H2. destruct f; cbn [fate_db]; [done|apply put_zset_ne; congruence..]. Qed.

Section retry_laws.
Context `{Redis}.

(** Job [job] is reserved under [jid]: in memory, and in the working set, where
    the entry that [RemoveElement] picks for it is [data]. *)
Record reserved (m : mgr) (jid : string) (res : Reservation) (job : Job)
    (z : gmap string Z) (data : string) : Prop := {
  rsv_map : m.(workingMap) !! jid = Some res;
  rsv_job : res.(rJob) = Some job;
  rsv_set : as_zset (db m) "working" = Ok z;
  rsv_pick : ∃ t, ParseTime res.(Expiry) = Ok t ∧ time_in_range t ∧
                  pick jid (at_score (score_of t) z) = Some data
}.

Lemma wp_clear jid (m : mgr) (Q : outcome (option Reservation) → mgr → Prop) :
  match m.(workingMap) !! jid with
  | None => Q (Ok None) m
  | Some res => Q (Ok (Some res)) (set_workingMap (delete jid m.(workingMap)) m)
  end →
  wp (clearReservation jid) m Q.
Proof. intros HQ. rw /clearReservation. wp_steps. by destruct (workingMap m !! jid). Qed.

Lemma wp_take_out m jid res job z data (Q : outcome bool → mgr → Prop) :
  alive m → reserved m jid res job z data →
  (∀ m', upd (set_workingMap (delete jid m.(workingMap)) m)
             (put_zset "working" (delete data z) (db m)) (knows m) m' → Q (Ok true) m') →
  wp (ss_RemoveElement "working" res.(Expiry) jid) (set_workingMap (delete jid m.(workingMap)) m) Q.
Proof.
  intros Ha [Hm Hj Hz (t & Ht & Hr & Hp)] HQ.
  apply (wp_RemoveElement _ _ _ t _ z); [done..|]. rw Hp. exact HQ.
Qed.

Lemma wp_fail_final r now m job zr zd f0 (Q : outcome unit → mgr * Job → Prop) :
  alive m → job.(JFailure) = Some f0 → fate_in_range (fate_of r now job) →
  as_zset (db m) "retries" = Ok zr → as_zset (db m) "dead" = Ok zd →
  (∀ m' j, upd m (fate_db (fate_of r now job) zr zd (db m)) (knows m) m' → Q (Ok tt) (m', j)) →
  wp (fail_final r now) (m, job) Q.
Proof.
  intros Ha Hf Hin Hzr Hzd HQ. rw /fail_final /fate_of Hf in Hin HQ |- *. wp_steps. cbn [snd].
  destruct (job.(Retry) =? 0); [wp_steps; by apply HQ, upd_refl|]. rw Hf.
  destruct (f0.(RetryCount) <? job.(Retry)).
  - wp_steps. rw /retryLater. wp_steps. eapply wp_AddElement; [done|by apply parse_Thens|exact Hzr|].
    intros s' Hu. wp_steps. apply upd_pair in Hu as [Hu _]. by apply HQ.
  - rw /sendToMorgue. eapply wp_AddElement; [done|by apply parse_Thens|exact Hzd|].
    intros [m' j] Hu. apply upd_pair in Hu as [Hu _]. by apply HQ.
Qed.

Lemma wp_settle env r now f m res job zr zd (Q : outcome unit → mgr → Prop) :
  env.(failChain) = [] → alive m → res.(rJob) = Some job →
  as_zset (db m) "retries" = Ok zr → as_zset (db m) "dead" = Ok zd →
  let ft := fate_of r now (fail_job now f job) in
  fate_in_range ft →
  (∀ d m', upd m d (knows m) m' →
     as_zset d "retries" = Ok (retries_after ft zr) →
     as_zset d "dead" = Ok (dead_after ft zd) →
     (∀ k, k ∉ counter_keys env.(tz) now → k ∉ ["retries"; "dead"] → d !! k = db m !! k) →
     Q (Ok tt) m') →
  wp (settle env r now f res) m Q.
Proof.
  intros Hch Ha Hjob Hzr Hzd ft Hin HQ. rw /settle. wp_steps. apply wp_Failure_; [done|].
  intros d2 m2 H2 Hd2. rw Hjob Hch. apply wp_bind, wp_with_job. cbn [callMiddleware].
  assert (E2 : db m2 = d2) by exact (upd_db _ _ _ _ H2).
  assert (Hk : ∀ k, has_prefix "processed" k = false → has_prefix "failures" k = false →
                    db m2 !! k = db m !! k) by (intros k ? ?; rw E2; by apply Hd2, not_counter).
  assert (Hr2 : as_zset (db m2) "retries" = Ok zr) by (rw -Hzr; by apply as_zset_ext, Hk).
  assert (Hd2' : as_zset (db m2) "dead" = Ok zd) by (rw -Hzd; by apply as_zset_ext, Hk).
  eapply (wp_fail_final _ _ _ _ zr zd); [exact (upd_alive _ _ _ _ H2)|done..|].
  intros m3 j H3. fold ft in H3. cbn [omap_outcome fst]. wp_steps. rw (upd_knows _ _ _ _ H2) in H3.
  apply (HQ (fate_db ft zr zd (db m2))); [exact (upd_trans _ _ _ _ _ _ _ H2 H3)| | |].
  - by apply fate_db_retries.
  - by apply fate_db_dead.
  - intros k Hc [Hn1 [Hn2 _]%not_elem_of_cons]%not_elem_of_cons.
    rw fate_db_ne // E2 Hd2 //.
Qed.

(** A failure processed to its end. [Some f] takes the entry out of the working
    set; [None] finds it gone. *)
Lemma wp_processFailure env r now jid failure m res job z data zr zd (Q : outcome unit → mgr → Prop) :
  env.(failChain) = [] → alive m → m.(workingMap) !! jid = Some res → res.(rJob) = Some job →
  match failure with
  | Some _ => reserved m jid res job z data
  | None => as_zset (db m) "working" = Ok z ∧ z !! data = None
  end →
  as_zset (db m) "retries" = Ok zr → as_zset (db m) "dead" = Ok zd →
  let ft := fate_of r now (fail_job now (default JobReservationExpired failure) job) in
  fate_in_range ft →
  (∀ d m', upd (set_workingMap (delete jid m.(workingMap)) m) d (knows m) m' →
     as_zset d "working" = Ok (delete data z) →
     as_zset d "retries" = Ok (retries_after ft zr) →
     as_zset d "dead" = Ok (dead_after ft zd) →
     (∀ k, k ∉ counter_keys env.(tz) now → k ∉ ["working"; "retries"; "dead"] → d !! k = db m !! k) →
     Q (Ok tt) m') →
  wp (processFailure env r now jid failure) m Q.
Proof.
  intros Hch Ha Hmap Hjob Hrsv Hzr Hzd ft Hin HQ. rw /processFailure. wp_steps. apply wp_clear.
  rw Hmap. wp_steps. set (m0 := set_workingMap _ m). set (res' := set_rlease _ res).
  (* whichever way the entry left the working set *)
  assert (Hgo : ∀ m1 d1, upd m0 d1 (knows m) m1 → as_zset d1 "working" = Ok (delete data z) →
     (∀ k, k ≠ "working" → d1 !! k = db m !! k) →
     wp (settle env r now (default JobReservationExpired failure) res') m1 Q).
  { intros m1 d1 H1 Hw1 Hd1. pose proof (upd_db _ _ _ _ H1) as E1.
    eapply (wp_settle _ _ _ _ _ _ _ zr zd); [done|exact (upd_alive _ _ _ _ H1)|exact Hjob| | |done|].
    { rw -Hzr E1. by apply as_zset_ext, Hd1. }
    { rw -Hzd E1. by apply as_zset_ext, Hd1. }
    intros d2 m2 H2 Hr2 Hdd2 Hf2. rw (upd_knows _ _ _ _ H1) E1 in H2, Hf2.
    apply (HQ d2); [exact (upd_trans _ _ _ _ _ _ _ H1 H2)| |done..|].
    - rw -Hw1. apply as_zset_ext, Hf2; [by apply not_counter|set_solver].
    - intros k Hc [Hn1 Hn2]%not_elem_of_cons. rw Hf2 //. by apply Hd1. }
  destruct failure as [f|].
  - wp_steps. change (Expiry res') with (Expiry res). apply (wp_take_out m _ res job z data); [done..|].
    intros m1 H1. cbn [negb]. apply (Hgo m1 _ H1); [apply as_put_zset|].
    intros k Hk. apply put_zset_ne. congruence.
  - destruct Hrsv as [Hz Hd]. wp_steps. cbn [negb]. apply (Hgo m0 (db m)); [exact (upd_refl m0 Ha)| |done].
    by rw delete_id.
Qed.

End retry_laws.

(** ** What [Fail] promises *)

Section fail_theorems.
Context `{Redis}.

(** C32. A failure report for a reserved job ends the reservation in memory and
    in the working set, and sends the job, with its failure recorded, where
    [fate_of] says: nowhere (no retries asked), to the retries set at the
    back-off instant while its count is below its retries, to the dead set
    otherwise.  Nothing but the statistics changes besides. *)
Theorem Fail_settles env r now f (m : mgr) res job z data zr zd :
  env.(failChain) = [] → alive m → f.(fJid) ≠ "" → reserved m f.(fJid) res job z data →
  as_zset (db m) "retries" = Ok zr → as_zset (db m) "dead" = Ok zd →
  let ft := fate_of r now (fail_job now (cleanse f) job) in
  fate_in_range ft →
  ∃ m', Fail env r now (Some f) m = (Ok tt, m') ∧
    m'.(workingMap) = delete f.(fJid) m.(workingMap) ∧ m'.(paused_) = m.(paused_) ∧
    as_zset (db m') "working" = Ok (delete data z) ∧
    as_zset (db m') "retries" = Ok (retries_after ft zr) ∧
    as_zset (db m') "dead" = Ok (dead_after ft zd) ∧
    (∀ k, k ∉ counter_keys env.(tz) now → k ∉ ["working"; "retries"; "dead"] → db m' !! k = db m !! k).
Proof.
  intros Hch Ha Hj Hrsv Hzr Hzd ft Hin.
  destruct (wp_exec (Fail env r now (Some f)) m (λ o m', o = Ok tt ∧
    ∃ d, upd (set_workingMap (delete f.(fJid) m.(workingMap)) m) d (knows m) m' ∧
    as_zset d "working" = Ok (delete data z) ∧ as_zset d "retries" = Ok (retries_after ft zr) ∧
    as_zset d "dead" = Ok (dead_after ft zd) ∧
    (∀ k, k ∉ counter_keys env.(tz) now → k ∉ ["working"; "retries"; "dead"] → d !! k = db m !! k)))
    as (o & m' & E & -> & d & Hu & H1 & H2 & H3 & H4).
  { rw /Fail. case_bool_decide; [done|].
    eapply (wp_processFailure _ _ _ _ _ _ res job z data zr zd); [done|done|apply Hrsv|apply Hrsv|done..|].
    intros d m' Hu ? ? ? ?. split; [done|]. by exists d. }
  exists m'. rw (upd_db _ _ _ _ Hu). destruct (upd_memory _ _ _ _ Hu) as [-> ->]. done.
Qed.

(** A report about a job that is not reserved is an error and changes
    nothing. *)
Theorem Fail_unknown env r now f (m : mgr) :
  m.(workingMap) !! f.(fJid) = None → ∃ e, Fail env r now (Some f) m = (Err e, m).
Proof.
  intros Hn. rw /Fail. case_bool_decide; [by eexists|]. rw /processFailure /clearReservation /cleanse.
  run_step. cbn [fJid]. rw Hn. by eexists.
Qed.

End fail_theorems.

(** ** The back-off *)

Lemma wrap64_small n : - 2 ^ 63 ≤ n < 2 ^ 63 → wrap64 n = n.
Proof. intros H. rw /wrap64 Z.mod_small; lia. Qed.

Lemma wrap64_range n : - 2 ^ 63 ≤ wrap64 n < 2 ^ 63.
Proof. rw /wrap64. pose proof (Z.mod_pos_bound (n + 2 ^ 63) (2 ^ 64) ltac:(done)). lia. Qed.

Lemma nextRetry_exact r now count :
  0 ≤ r < 30 → 0 ≤ count ≤ 309 →
  nextRetry r now count = now + (count ^ 4 + 15 + r * (count + 1)) * SEC.
Proof.
  intros Hr Hc. assert (H2 : 0 ≤ count * count ≤ 95481) by nia.
  assert (H3 : 0 ≤ count * count * count ≤ 29503629) by nia.
  assert (H4 : 0 ≤ count * count * count * count ≤ 9116621361) by nia.
  assert (H5 : 0 ≤ r * (count + 1) ≤ 8990) by nia.
  rw /nextRetry. replace (count ^ 4) with (count * count * count * count) by ring.
  rw !(wrap64_small (count * count)) ?(wrap64_small (count + 1)); [lia|lia|].
  rw !(wrap64_small (count * count * count)); [lia|].
  rw !(wrap64_small (count * count * count * count)); [lia|].
  rw (wrap64_small (r * _)); [lia|]. rw (wrap64_small (_ + 15)); [lia|].
  rw (wrap64_small (_ + _)); [lia|]. rw wrap64_small; [rw /SEC; lia|]. done.
Qed.

(** C34. Up to 309 failures the next retry is [count^4 + 15] seconds away plus at
    most 29 times [count + 1]; at 310 the seconds, as nanoseconds, no longer fit
    in 64 bits and the retry is set in the past. *)
Theorem nextRetry_bounds r now count :
  0 ≤ r < 30 →
  (0 ≤ count ≤ 309 →
     now + (count ^ 4 + 15) * SEC ≤ nextRetry r now count
       ≤ now + (count ^ 4 + 15 + 29 * (count + 1)) * SEC) ∧
  nextRetry r now 310 < now.
Proof.
  intros Hr. split.
  - intros Hc. rw nextRetry_exact //. rw /SEC. nia.
  - assert (r ∈ seqZ 0 30) as Hin by (apply elem_of_seqZ; lia).
    assert (Hall : Forall (λ r, nextRetry r 0 310 < 0) (seqZ 0 30)).
    { apply (bool_decide_unpack _). vm_compute. exact I. }
    rw Forall_forall in Hall. specialize (Hall r Hin). rw /nextRetry in Hall |- *. lia.
Qed.

(** ** The life of a job that keeps failing *)

(** The failures of a job, each with its clock, random number and report; a
    job that is not to be retried fails no more. *)
Fixpoint fail_run (evs : list (Z * Z * FailPayload)) (job : Job) : option fate :=
  match evs with
  | [] => None
  | (r, now, f) :: evs' =>
      let ft := fate_of r now (fail_job now f job) in
      match evs', ft with
      | [], _ => Some ft
      | _, Retried j _ => fail_run evs' j
      | _, _ => None
      end
  end.

Definition failure_count (job : Job) : Z :=
  match job.(JFailure) with Some f => f.(RetryCount) + 1 | None => 0 end.

Lemma fail_job_count now f job :
  0 ≤ failure_count job < 2 ^ 63 → failure_count (fail_job now f job) = failure_count job + 1.
Proof.
  rw /failure_count /fail_job. destruct (JFailure job) as [old|]; cbn; [|lia].
  intros H. rw wrap64_small; lia.
Qed.

Lemma fate_of_spec r now f job :
  0 ≤ failure_count job < 2 ^ 63 → job.(Retry) ≠ 0 →
  let ft := fate_of r now (fail_job now f job) in
  if failure_count job <? job.(Retry)
  then ∃ j w, ft = Retried j w ∧ failure_count j = failure_count job + 1 ∧ j.(Retry) = job.(Retry)
  else ∃ j w, ft = Buried j w ∧ failure_count j = failure_count job + 1.
Proof.
  intros Hc Hne ft. pose proof (fail_job_count now f job Hc) as Hf.
  assert (E : (fail_job now f job).(Retry) = job.(Retry)) by done.
  rw /ft /fate_of E. destruct (Z.eqb_spec (Retry job) 0); [done|].
  remember (fail_job now f job) as j eqn:Ej.
  destruct (JFailure j) as [fl|] eqn:EJ; [|by rw Ej in EJ].
  assert (Hfl : fl.(RetryCount) = failure_count job) by (rw /failure_count EJ in Hf; rw /failure_count; lia).
  rw Hfl. destruct (failure_count job <? Retry job).
  - eexists _, _. split; [done|]. split; [|by rw -E]. rw -Hf /failure_count EJ. done.
  - by eexists _, _.
Qed.

Lemma fail_run_spec R evs job' :
  0 < R < 2 ^ 63 → evs ≠ [] → job'.(Retry) = R → 0 ≤ failure_count job' →
  failure_count job' + Z.of_nat (length evs) ≤ R + 1 →
  if failure_count job' + Z.of_nat (length evs) <=? R
  then ∃ j w, fail_run evs job' = Some (Retried j w) ∧ failure_count j = failure_count job' + Z.of_nat (length evs)
  else ∃ j w, fail_run evs job' = Some (Buried j w) ∧ failure_count j = R + 1.
Proof.
  intros HR. revert job'. induction evs as [|[[r now] f] evs IH]; intros job' Hne ER H0 Hlen; [done|].
  cbn [length] in Hlen |- *. pose proof (fate_of_spec r now f job' ltac:(lia) ltac:(lia)) as Hft.
  rw ER in Hft. destruct evs as [|ev evs].
  - cbn [fail_run length] in *. destruct (Z.ltb_spec (failure_count job') (R)), (Z.leb_spec (failure_count job' + Z.of_nat 1) (R)); try lia.
    + destruct Hft as (j & w & -> & E & _). exists j, w. split; [done|lia].
    + destruct Hft as (j & w & -> & E). exists j, w. split; [done|lia].
  - cbn [length] in Hlen. destruct (Z.ltb_spec (failure_count job') (R)); [|lia]. cbn [length].
    destruct Hft as (j & w & Hft & E & E'). cbn [fail_run]. rw Hft.
    specialize (IH j ltac:(done) ltac:(lia) ltac:(lia) ltac:(cbn [length]; lia)). cbn [length] in IH.
    rw E in IH. replace (failure_count job' + Z.of_nat (Datatypes.S (Datatypes.S (length evs))))
      with (failure_count job' + 1 + Z.of_nat (Datatypes.S (length evs))) by lia. exact IH.
Qed.


(** ** Cleansing a report *)

Lemma slen_take n s : slen (take_str n s) = Z.min (Z.of_nat n) (slen s).
Proof.
  rw /slen. revert s; induction n as [|n IH]; intros [|c s]; cbn [take_str String.length]; [lia..|].
  specialize (IH s). lia.
Qed.
Lemma slen_nonempty s : s ≠ "" → 1 ≤ slen s.
Proof. destruct s; [done|]. rw /slen. cbn [String.length]. lia. Qed.

(** A cleansed report has a type of 1 to 100 bytes, a message of 1 to 1000,
    at most 50 lines of backtrace, the same jid; and what already fits is only
    trimmed. *)
Theorem cleanse_bounds f :
  let c := cleanse f in
  1 ≤ slen c.(fErrtype) ≤ 100 ∧ 1 ≤ slen c.(fMessage) ≤ 1000 ∧
  Z.of_nat (length c.(fBacktrace)) ≤ 50 ∧ c.(fJid) = f.(fJid) ∧
  (∃ n, c.(fBacktrace) = take n f.(fBacktrace)) ∧
  (trim_space f.(fErrtype) ≠ "" → slen (trim_space f.(fErrtype)) ≤ 100 → c.(fErrtype) = trim_space f.(fErrtype)) ∧
  (trim_space f.(fMessage) ≠ "" → slen (trim_space f.(fMessage)) ≤ 1000 → c.(fMessage) = trim_space f.(fMessage)).
Proof.
  cbn zeta. rw /cleanse. cbn [fJid fMessage fErrtype fBacktrace].
  set (ty := trim_space f.(fErrtype)). set (msg := trim_space f.(fMessage)).
  assert (Hcut : ∀ s n, (0 < n)%nat → 7 ≤ Z.of_nat n →
    1 ≤ slen (if bool_decide (s = "") then "unknown" else if Z.of_nat n <? slen s then take_str n s else s) ≤ Z.of_nat n).
  { intros s n Hn H7. case_bool_decide as Hs; [change (slen "unknown") with 7; lia|]. pose proof (slen_nonempty s Hs).
    destruct (Z.ltb_spec (Z.of_nat n) (slen s)); [rw slen_take|]; lia. }
  split_and!; try (apply (Hcut ty 100%nat); lia); try (apply (Hcut msg 1000%nat); lia).
  - destruct (Z.ltb_spec 50 (Z.of_nat (length (fBacktrace f)))); [rw length_take|]; lia.
  - done.
  - destruct (50 <? _); [by exists 50%nat|]. exists (length (fBacktrace f)). by rw firstn_all.
  - intros Hne Hle. rw bool_decide_eq_false_2 //. destruct (Z.ltb_spec 100 (slen ty)); [lia|done].
  - intros Hne Hle. rw bool_decide_eq_false_2 //. destruct (Z.ltb_spec 1000 (slen msg)); [lia|done].
Qed.
