(* ===== verification/Working.v ===== *)
(** * The working set (src/manager/working.go)

    A fetched job is reserved: an entry of the "working" sorted set, scored by
    the reservation's expiry, and the same reservation in memory under its
    jid.  Extensions are kept in memory until the entry comes due. *)
From S2P Require Import Prelude GoStrings Float64 GoTime Scores Json Job Redis Store SortedSet Middleware Manager Retry.

(** ** Reservations in JSON *)

Definition reservation_to_json (r : Reservation) : json :=
  JObj [("job", match r.(rJob) with Some j => job_to_json j | None => JNull end);
        ("reserved_at", JStr r.(Since)); ("expires_at", JStr r.(Expiry)); ("wid", JStr r.(Wid))].
Definition marshal_reservation (r : Reservation) : string := print (reservation_to_json r).
Definition reservation_field (k : string) (v : json) (r : Reservation) : option Reservation :=
  if bool_decide (k = "job") then
    match v with
    | JNull => Some (set_rJob None r)
    | JObj l => j ← decode_fields job_field l (default zero_job r.(rJob)); Some (set_rJob (Some j) r)
    | _ => None
    end
  else if bool_decide (k = "reserved_at") then dec_str set_Since v r
  else if bool_decide (k = "expires_at") then dec_str set_Expiry v r
  else if bool_decide (k = "wid") then dec_str set_Wid v r
  else Some r.
Definition unmarshal_reservation (data : string) : outcome Reservation :=
  unmarshal reservation_field data zero_reservation.

(** ** Reserving *)

Definition DefaultTimeout : Z := 30 * 60.
(** The seconds a job is reserved for. *)
Definition reserve_timeout (reserve_for : Z) : Z :=
  let timeout := if reserve_for =? 0 then DefaultTimeout else reserve_for in
  let timeout := if timeout <? 60 then 60 else timeout in
  if 86400 <? timeout then 86400 else timeout.

Section working.
Context `{Redis}.

(** The lease was decoded before: [job] is what its [Job()] returns, as the
    "fetch" chain left it. *)
Definition reserve (now : Z) (wid : string) (lease : Lease) : M (mgr * Job) unit :=
  let* s := getM in
  let job := s.2 in
  let exp := now + reserve_timeout job.(ReserveFor) * SEC in
  let res := mkReservation (Some job) (Thens now) (Thens exp) wid now exp zero_time
               (Some (mkLease lease.(payload) (Some job) lease.(released))) in
  ss_AddElement "working" res.(Expiry) job.(Jid) (marshal_reservation res) ;;;
  modifyM (λ s, (set_workingMap (<[job.(Jid) := res]> s.1.(workingMap)) s.1, s.2)).

Definition ExtendReservation (jid : string) (until : Z) : M mgr unit :=
  modifyM (λ m, match m.(workingMap) !! jid with
                | Some localres =>
                    if localres.(texpiry) <? until
                    then set_workingMap (<[jid := set_extension until localres]> m.(workingMap)) m
                    else m
                | None => m
                end).

Definition WorkingCount (m : mgr) : Z := Z.of_nat (size m.(workingMap)).
Definition BusyCount (wid : string) (m : mgr) : Z :=
  Z.of_nat (length (filter (λ kv, kv.2.(Wid) = wid) (map_to_list m.(workingMap)))).

Definition Acknowledge (env : Env) (now : Z) (jid : string) : M mgr (option Job) :=
  let* res := clearReservation jid in
  match res with
  | None => retM None
  | Some res =>
      ss_RemoveElement "working" res.(Expiry) jid ;;;
      let res := set_rlease (Release <$> res.(rlease)) res in
      match res.(rJob) with
      | None => retM None
      | Some job =>
          Success env.(tz) now ;;;
          let* r := with_job job (callMiddleware env.(ackChain) (Some res) (retM tt)) in
          retM (Some r.2)
      end
  end.

(** Restart: reservations are read back; entries that do not decode are
    skipped. *)
Definition load_entry (entry : setEntry) : M mgr unit :=
  match unmarshal_reservation entry.(e_value) with
  | Ok res =>
      match res.(rJob) with
      | None => panicM "nil pointer dereference"
      | Some j => modifyM (λ m, set_workingMap (<[j.(Jid) := res]> m.(workingMap)) m)
      end
  | Err _ => retM tt
  | Panic p => panicM p
  end.
Definition loadWorkingSet (fuel : nat) : M mgr unit := ss_Each fuel "working" (λ _ e, load_entry e).

(** [newManager] on a store: errors of both reads are dropped. *)
Definition newManager (fuel : nat) (st : store) : outcome unit * mgr :=
  (ignoreM (loadWorkingSet fuel) ;;;
   let* p := tryM PausedQueues in
   modifyM (set_paused (match p with inl l => l | inr _ => [] end)))
  (mkMgr st ∅ []).

End working.

(** ** Reservations survive the store *)

Definition wf_reservation (r : Reservation) : Prop :=
  (∀ j, r.(rJob) = Some j → wf_job j) ∧ utf8 r.(Since) ∧ utf8 r.(Expiry) ∧ utf8 r.(Wid).
(** What is read back: the fields that are not in the JSON are zero. *)
Definition restored (r : Reservation) : Reservation :=
  mkReservation r.(rJob) r.(Since) r.(Expiry) r.(Wid) zero_time zero_time zero_time None.

Lemma unmarshal_marshal_reservation (r : Reservation) :
  wf_reservation r → unmarshal_reservation (marshal_reservation r) = Ok (restored r).
Proof.
  intros (Hj & H1 & H2 & H3). rw /unmarshal_reservation /unmarshal /marshal_reservation parse_print.
  { rw /reservation_to_json. apply wf_obj. wf_fields; try done.
    destruct (rJob r) as [j|] eqn:E; [|done]. by apply wf_job_json, Hj. }
  cbn [mbind option_bind]. rw /reservation_to_json. cbn [decode_struct]. rw decode_fields_cons.
  change (reservation_field (lower "job")) with (reservation_field "job").
  assert (E : reservation_field "job" match rJob r with Some j => job_to_json j | None => JNull end
                zero_reservation = Some (set_rJob (rJob r) zero_reservation)).
  { destruct (rJob r) as [j|] eqn:E; [|done].
    pose proof (decode_job 0 j (Hj j eq_refl)) as D. rw /job_to_json in D |- *. cbn [decode_struct] in D.
    change (reservation_field "job" (JObj ?l) zero_reservation)
      with (j ← decode_fields job_field l zero_job; Some (set_rJob (Some j) zero_reservation)).
    by rw D. }
  rw E. cbn [mbind option_bind].
  rw (decode_str_field _ set_Since) // (decode_str_field _ set_Expiry) // (decode_str_field _ set_Wid) //.
Qed.

(** ** Laws *)

Section working_laws.
Context `{Redis}.

(** What a fetch at [now] by [wid] makes of a job. *)
Definition reservation_of (now : Z) (wid : string) (l : Lease) (job : Job) : Reservation :=
  let exp := now + reserve_timeout job.(ReserveFor) * SEC in
  mkReservation (Some job) (Thens now) (Thens exp) wid now exp zero_time
    (Some (mkLease l.(payload) (Some job) l.(released))).
Definition expires_at (now : Z) (job : Job) : Z := now + reserve_timeout job.(ReserveFor) * SEC.

Lemma wp_reserve now wid l job z (m : mgr) (Q : outcome unit → mgr * Job → Prop) :
  alive m → as_zset (db m) "working" = Ok z → time_in_range (expires_at now job) →
  let res := reservation_of now wid l job in
  (∀ m', upd m (put_zset "working" (<[marshal_reservation res := score_of (expires_at now job)]> z) (db m))
           (knows m) m' →
     Q (Ok tt) (set_workingMap (<[job.(Jid) := res]> m'.(workingMap)) m', job)) →
  wp (reserve now wid l) (m, job) Q.
Proof.
  intros Ha Hz Hr res HQ. rw /reserve. wp_steps. cbn [snd fst].
  eapply wp_AddElement; [done|by apply parse_Thens|exact Hz|].
  intros [m' j] Hu. apply upd_pair in Hu as [Hu E]. cbn [fst snd] in *. subst j.
  wp_steps. by apply HQ.
Qed.

(** A score no member has yet: the new entry is picked by its own jid. *)
Lemma fresh_score_pick jid data sc (z : gmap string Z) :
  (∀ m, z !! m ≠ Some sc) → pick jid (at_score sc (<[data := sc]> z)) = Some data.
Proof.
  intros Hfresh. assert (Hl : at_score sc (<[data := sc]> z) = [data]); [|by rw Hl].
  apply NoDup_only; [apply at_score_NoDup|]. intros m. rw elem_of_at_score lookup_insert_Some.
  split; [|by left]. intros [[-> _]|[_ Hm]]; [done|by destruct (Hfresh m)].
Qed.

Lemma wp_Acknowledge env now jid (m : mgr) res job z data (Q : outcome (option Job) → mgr → Prop) :
  env.(ackChain) = [] → alive m → reserved m jid res job z data →
  (∀ d m', upd (set_workingMap (delete jid m.(workingMap)) m) d (knows m) m' →
     as_zset d "working" = Ok (delete data z) →
     (∀ k, k ∉ counter_keys env.(tz) now → k ≠ "working" → d !! k = db m !! k) →
     Q (Ok (Some job)) m') →
  wp (Acknowledge env now jid) m Q.
Proof.
  intros Hch Ha Hrsv HQ. pose proof Hrsv as [Hm Hj Hz _]. rw /Acknowledge. wp_steps. apply wp_clear.
  rw Hm. wp_steps. apply (wp_take_out m jid res job z data); [done..|].
  intros m1 H1. cbn [rJob set_rlease]. rw Hj. wp_steps.
  apply wp_Success; [exact (upd_alive _ _ _ _ H1)|]. intros d2 m2 H2 Hd2.
  rw (upd_db _ _ _ _ H1) (upd_knows _ _ _ _ H1) in H2, Hd2.
  rw Hch. apply wp_bind, wp_with_job. cbn [callMiddleware]. wp_steps. cbn [omap_outcome snd].
  apply (HQ d2); [exact (upd_trans _ _ _ _ _ _ _ H1 H2)| |].
  - rw -(as_put_zset "working" (delete data z) (db m)). apply as_zset_ext, Hd2. by apply not_counter.
  - intros k Hc Hk. rw Hd2 //. apply put_zset_ne. congruence.
Qed.

End working_laws.

(** ** What reserving, acknowledging and extending promise *)

(** A job is reserved for what it asks, half an hour by default, but never
    for less than a minute or more than a day. *)
Theorem reserve_timeout_bounds n :
  60 ≤ reserve_timeout n ≤ 86400 ∧
  (60 ≤ n ≤ 86400 → reserve_timeout n = n) ∧ reserve_timeout 0 = 1800.
Proof. rw /reserve_timeout /DefaultTimeout. repeat case_match; lia. Qed.

Section working_theorems.
Context `{Redis}.

(** Acknowledging a reserved job returns it, ends the reservation in memory,
    deletes its entry and no other from the working set, and otherwise changes
    only the statistics. *)
Theorem Acknowledge_releases env now jid (m : mgr) res job z data :
  env.(ackChain) = [] → alive m → reserved m jid res job z data →
  ∃ m', Acknowledge env now jid m = (Ok (Some job), m') ∧
    m'.(workingMap) = delete jid m.(workingMap) ∧ m'.(paused_) = m.(paused_) ∧
    as_zset (db m') "working" = Ok (delete data z) ∧
    (∀ k, k ∉ counter_keys env.(tz) now → k ≠ "working" → db m' !! k = db m !! k).
Proof.
  intros Hch Ha Hrsv.
  destruct (wp_exec (Acknowledge env now jid) m (λ o m', o = Ok (Some job) ∧
    ∃ d, upd (set_workingMap (delete jid m.(workingMap)) m) d (knows m) m' ∧
    as_zset d "working" = Ok (delete data z) ∧
    (∀ k, k ∉ counter_keys env.(tz) now → k ≠ "working" → d !! k = db m !! k)))
    as (o & m' & E & -> & d & Hu & H1 & H2).
  { apply (wp_Acknowledge _ _ _ _ res job z data); [done..|]. intros d m' Hu ? ?. split; [done|]. by exists d. }
  exists m'. rw (upd_db _ _ _ _ Hu). destruct (upd_memory _ _ _ _ Hu) as [-> ->]. done.
Qed.

(** Acknowledging twice, or a job that is not reserved, does nothing: the
    reply is empty, no statistics are kept, no entry is removed. *)
Theorem Acknowledge_unknown env now jid (m : mgr) :
  m.(workingMap) !! jid = None → Acknowledge env now jid m = (Ok None, m).
Proof. intros Hn. rw /Acknowledge /clearReservation. run_step. by rw Hn. Qed.

(** An extension never shortens a reservation: the instant recorded is
    later than the expiry in force, and other reservations and the store are
    left alone. *)
Theorem ExtendReservation_extends jid until (m : mgr) :
  ∃ m', ExtendReservation jid until m = (Ok tt, m') ∧ m'.(mstore) = m.(mstore) ∧
    (∀ j, j ≠ jid → m'.(workingMap) !! j = m.(workingMap) !! j) ∧
    (∀ res, m.(workingMap) !! jid = Some res →
       m'.(workingMap) !! jid = Some (if res.(texpiry) <? until then set_extension until res else res)) ∧
    (m.(workingMap) !! jid = None → m' = m).
Proof.
  rw /ExtendReservation /modifyM. eexists. split; [done|].
  destruct (m.(workingMap) !! jid) as [res|] eqn:E; [|by split_and!].
  destruct (texpiry res <? until) eqn:El; cbn [mstore workingMap set_workingMap]; split_and!; try done.
  - intros j Hj. apply lookup_insert_ne. congruence.
  - intros res' [= <-]. rw El. apply lookup_insert_eq.
  - intros res' [= <-]. by rw El E.
Qed.

End working_theorems.

(** ** Restarting *)

Section restart.
Context `{Redis}.

(** Memory and working set agree: the entries are the reservations held in
    memory, marshalled. *)
Definition consistent (w : gmap string Reservation) (z : gmap string Z) : Prop :=
  (∀ jid res, w !! jid = Some res →
     wf_reservation res ∧ (∃ job, res.(rJob) = Some job ∧ job.(Jid) = jid) ∧
     is_Some (z !! marshal_reservation res)) ∧
  (∀ data, is_Some (z !! data) → ∃ jid res, w !! jid = Some res ∧ data = marshal_reservation res).

(** The reservations among the first entries. *)
Definition loaded (w : gmap string Reservation) (pre : list (Z * string)) (w' : gmap string Reservation) : Prop :=
  ∀ jid, w' !! jid = res ← w !! jid;
                     if decide (marshal_reservation res ∈ pre.*2) then Some (restored res) else None.

Lemma loaded_step w z pre sc data w' :
  consistent w z → is_Some (z !! data) → loaded w pre w' →
  ∃ res job, unmarshal_reservation data = Ok (restored res) ∧ res.(rJob) = Some job ∧
    loaded w (pre ++ [(sc, data)])%list (<[job.(Jid) := restored res]> w').
Proof.
  intros [H1 H2] Hz Hl. destruct (H2 data Hz) as (jid & res & Hw & ->).
  destruct (H1 jid res Hw) as (Hwf & (job & Hj & Hjid) & _). exists res, job.
  split; [by apply unmarshal_marshal_reservation|]. split; [done|].
  intros k. rw Hjid. destruct (decide (k = jid)) as [->|Hne].
  - rw lookup_insert_eq Hw. cbn [mbind option_bind]. rw fmap_app.
    destruct (decide _) as [_|Hn]; [done|]. destruct Hn. apply elem_of_app. right. by left.
  - rw lookup_insert_ne; [congruence|]. rw (Hl k). destruct (w !! k) as [r|] eqn:Ek; [|done].
    cbn [mbind option_bind]. destruct (H1 k r Ek) as (Hwf' & (job' & Hj' & Hjid') & _).
    assert (Hd : marshal_reservation r ≠ marshal_reservation res).
    { intros E. pose proof (unmarshal_marshal_reservation r Hwf') as Ur. rw E in Ur.
      rw (unmarshal_marshal_reservation res Hwf) in Ur. injection Ur as Ur _ _ _. congruence. }
    rw fmap_app. destruct (decide (_ ∈ pre.*2)) as [Hin|Hin], (decide (_ ∈ pre.*2 ++ _)%list) as [Hin'|Hin']; try done.
    + destruct Hin'. apply elem_of_app. by left.
    + apply elem_of_app in Hin' as [?|Hx]; [done|]. by apply list_elem_of_singleton in Hx.
Qed.

Lemma wp_loadWorkingSet fuel w z (m : mgr) :
  alive m → as_zset (db m) "working" = Ok z → consistent w z → (size z < 50 * fuel)%nat →
  m.(workingMap) = ∅ →
  wp (loadWorkingSet fuel) m (λ r m', r = Ok tt ∧ alive m' ∧ db m' = db m ∧ knows m' = knows m ∧
    m'.(workingMap) = restored <$> w ∧ m'.(paused_) = m.(paused_)).
Proof.
  intros Ha Hz Hc Hf Hw.
  set (I := λ (pre : list (Z * string)) (m' : mgr), alive m' ∧ db m' = db m ∧ knows m' = knows m ∧
    loaded w pre m'.(workingMap) ∧ m'.(paused_) = m.(paused_)).
  eapply wp_mono; [apply (wp_ss_Each "working" _ z I); [| |done|]|].
  - intros pre m1 (Ha1 & Hd1 & Hk1 & Hl1 & Hp1). split_and!; [done|by rw Hd1|].
    intros m2 Hu. destruct (upd_memory _ _ _ _ Hu) as [E1 E2].
    split_and!; [exact (upd_alive _ _ _ _ Hu)|by rw (upd_db _ _ _ _ Hu)|by rw (upd_knows _ _ _ _ Hu)|by rw E1|by rw E2].
  - intros pre [sc data] post idx m1 Hze (Ha1 & Hd1 & Hk1 & Hl1 & Hp1). rw /load_entry.
    assert (Hin : is_Some (z !! data)).
    { exists sc. apply elem_of_zelems. rw Hze. apply elem_of_app. right. by left. }
    destruct (loaded_step w z pre sc data _ Hc Hin Hl1) as (res & job & Hu & Hj & Hl).
    cbn [e_value snd]. rw Hu. cbn [rJob restored]. rw Hj. wp_steps. split; [done|]. done.
  - split_and!; [done..| |done]. intros jid. rw Hw lookup_empty. by destruct (w !! jid).
  - intros r m' [-> (Ha' & Hd' & Hk' & Hl' & Hp')]. split_and!; [done..| |done].
    apply map_eq. intros jid. rw (Hl' jid) lookup_fmap. destruct (w !! jid) as [res|] eqn:E; [|done].
    cbn [mbind option_bind fmap option_fmap option_map]. destruct (decide _) as [|Hn]; [done|]. destruct Hn.
    destruct Hc as [H1 _]. destruct (H1 jid res E) as (_ & _ & [sc Hsc]).
    apply list_elem_of_fmap. exists (sc, marshal_reservation res). split; [done|]. by apply elem_of_zelems.
Qed.

(** C35. A restart loses no reservation: a manager started on the store of one
    whose memory agreed with the working set holds the same reservations under
    the same jids (but for the leases and the parsed instants), and reads the
    paused queues back from the store. *)
Theorem restart_restores fuel z ps (m : mgr) :
  alive m → as_zset (db m) "working" = Ok z → consistent m.(workingMap) z →
  as_set (db m) "paused" = Ok ps → (size z < 50 * fuel)%nat →
  ∃ m', newManager fuel m.(mstore) = (Ok tt, m') ∧
    m'.(workingMap) = restored <$> m.(workingMap) ∧ m'.(paused_) = elements ps ∧ db m' = db m.
Proof.
  intros Ha Hz Hc Hp Hf. set (m0 := mkMgr m.(mstore) ∅ []).
  destruct (wp_exec (ignoreM (loadWorkingSet fuel) ;;;
     let* p := tryM PausedQueues in
     modifyM (set_paused (match p with inl l => l | inr _ => [] end))) m0 (λ r m',
       r = Ok tt ∧ m'.(workingMap) = restored <$> m.(workingMap) ∧ m'.(paused_) = elements ps ∧ db m' = db m))
    as (r & m' & E & -> & H1 & H2 & H3); [|by exists m'].
  wp_steps. eapply wp_mono; [by apply (wp_loadWorkingSet fuel m.(workingMap) z m0)|].
  intros r m1 (-> & Ha1 & Hd1 & Hk1 & Hw1 & Hp1). wp_steps. rw /PausedQueues. apply wp_redis; [done|].
  assert (Hp2 : as_set (db m1) "paused" = Ok ps) by (by rw Hd1).
  cbn [redis_doc]. rw (with_val_eq _ _ _ _ Hp2). cbn [fst snd]. intros m2 Hu. wp_steps.
  destruct (upd_memory _ _ _ _ Hu) as [E1 E2]. pose proof (upd_db _ _ _ _ Hu) as E3.
  split_and!; [done|by cbn; rw E1|done|]. change (db (set_paused ?p ?m)) with (db m). by rw E3.
Qed.

(** Corrupted data can stop a restart: an entry of the working set that is
    valid JSON but has no job makes [loadWorkingSet] panic. *)
Theorem restart_panics_on_missing_job :
  (∀ (m : mgr) sc data, unmarshal_reservation data = Ok zero_reservation →
     ∃ p, (load_entry (NewEntry sc data) m).1 = Panic p) ∧
  ∃ p, (@newManager MemRedis.mem_redis 1
     (@mkStore MemRedis.mem_redis {| MemRedis.data := {[ "working" := RZSet {[ "{}" := 0 ]} ]}; MemRedis.faults := [] |} ∅)).1 = Panic p.
Proof.
  split; [|eexists; by_compute].
  intros m sc data Hu. rw /load_entry. cbn [e_value]. rw Hu. by eexists.
Qed.

End restart.
