(* ===== verification/Fetch.v ===== *)
(** * Fetching (src/manager/fetch.go) *)
From S2P Require Import Prelude GoStrings Float64 GoTime Scores Json Job Redis Store SortedSet Middleware Manager Retry Working.

#[local] Open Scope list_scope.

Section fetch.
Context `{Redis}.

(** [BRPOP] with its two-second timeout: [None] when it passes. *)
Definition brpop {S} `{HasStore S} (queues : list string) : M S (option string) :=
  let* val := redis (BRPop queues) in retM (snd <$> val).

(** [BasicFetch.Fetch]; [None] is the sentinel [Nothing]. *)
Definition BasicFetch (wid : string) (queues : list string) : M mgr (option Lease) :=
  let* data := brpop queues in
  retM ((λ d, mkLease (Some d) None false) <$> data).

(** [fuel] bounds the restarts a discarding chain causes. *)
Fixpoint fetch_from (fuel : nat) (env : Env) (now : Z) (wid : string) (queues : list string)
  : M mgr (option Job) :=
  match fuel with
  | O => panicM "out of fuel"
  | Datatypes.S f =>
      let* m := getM in
      let activeQueues := filter_queues m.(paused_) queues in
      if decide (activeQueues = []) then retM None
      else
        let* lease := env.(fetcher) wid activeQueues in
        match lease with
        | None => retM None
        | Some l =>
            let* (job, l) := ofOutcome (lease_Job l) in
            match job with
            | None => panicM "nil pointer dereference"
            | Some job =>
                let* r := tryM (with_job job (callMiddleware env.(fetchChain) None (reserve now wid l))) in
                match r with
                | inl (_, job) => retM (Some job)
                | inr (ErrCoded code msg) =>
                    if bool_decide (code = "DISCARD") then fetch_from f env now wid queues
                    else failM (ErrCoded code msg)
                | inr e => failM e
                end
            end
        end
  end.
Definition Fetch (fuel : nat) (env : Env) (now : Z) (wid : string) (queues : list string)
  : M mgr (option Job) :=
  if decide (queues = []) then failM (ErrMsg "You must call fetch with at least one queue!")
  else fetch_from fuel env now wid queues.

(** The environment of [newManager]: the basic fetcher, no middleware. *)
Definition basic_env : Env := mkEnv BasicFetch [] [] [] [] 0.

End fetch.

(** ** Laws *)

Lemma elem_of_filter_queues p qs q : q ∈ filter_queues p qs ↔ q ∈ qs ∧ q ∉ p.
Proof.
  rw /filter_queues. destruct (decide (p = [])) as [->|Hp]; [set_solver|].
  rw list_elem_of_In List.filter_In -list_elem_of_In negb_true_iff. f_equiv.
  rw /contains -not_true_iff_false List.existsb_exists. split.
  - intros Hn Hq. apply Hn. exists q. split; [by apply list_elem_of_In|by apply bool_decide_eq_true].
  - intros Hq (x & Hx & Hb%bool_decide_eq_true). subst x. by apply Hq, list_elem_of_In.
Qed.

(** [BRPOP] serves the first queue that is not empty, from its tail. *)
Lemma brpop_first (d : dataset) (before : list string) (q : string) (after l : list string) (v : string) :
  Forall (λ k, as_list d k = Ok []) before → as_list d q = Ok (l ++ [v]) →
  brpop_doc (before ++ q :: after) d = (Ok (Some (q, v)), put_list q l d).
Proof.
  intros Hb Hq. induction Hb as [|k before Hk Hb IH]; cbn [app brpop_doc].
  - rw Hq last_snoc. by rw List.removelast_last.
  - by rw Hk.
Qed.
Lemma brpop_none (d : dataset) qs :
  Forall (λ k, as_list d k = Ok []) qs → brpop_doc qs d = (Ok None, d).
Proof. intros Hb. induction Hb as [|k qs Hk Hb IH]; cbn [brpop_doc]; [done|]. by rw Hk. Qed.
(** Only the queues asked for can change. *)
Lemma brpop_frame (d : dataset) qs k : k ∉ qs → (brpop_doc qs d).2 !! k = d !! k.
Proof.
  induction qs as [|q qs IH]; intros Hk; cbn [brpop_doc]; [done|].
  apply not_elem_of_cons in Hk as [Hq Hk]. destruct (as_list d q) as [l| |]; [|done..].
  destruct (last l); [|by apply IH]. apply put_list_ne. congruence.
Qed.

Section fetch_laws.
Context `{Redis}.

Lemma wp_BasicFetch wid qs (m : mgr) (Q : outcome (option Lease) → mgr → Prop) :
  alive m →
  (∀ m', upd m (brpop_doc qs (db m)).2 (knows m) m' →
     match (brpop_doc qs (db m)).1 with
     | Ok v => Q (Ok ((λ d, mkLease (Some d) None false) <$> (snd <$> v))) m'
     | Err e => Q (Err e) m'
     | Panic p => Q (Panic p) m'
     end) →
  wp (BasicFetch wid qs) m Q.
Proof.
  intros Ha HQ. rw /BasicFetch /brpop. wp_steps. apply wp_redis; [done|]. intros m' Hu.
  specialize (HQ m' Hu). cbn [redis_doc]. by destruct (brpop_doc qs (db m)).1.
Qed.

Lemma wp_Fetch f env now wid queues (before : list string) (q : string) (after l : list string) (v : string)
    job z (m : mgr)
    (Q : outcome (option Job) → mgr → Prop) :
  env.(fetcher) = BasicFetch → env.(fetchChain) = [] → alive m →
  filter_queues m.(paused_) queues = before ++ q :: after →
  Forall (λ k, as_list (db m) k = Ok []) before → as_list (db m) q = Ok (l ++ [v]) → q ≠ "working" →
  unmarshal_job zero_job v = Ok job → as_zset (db m) "working" = Ok z →
  time_in_range (expires_at now job) →
  let res := reservation_of now wid (mkLease (Some v) (Some job) false) job in
  (∀ d m', upd m d (knows m) m' → as_list d q = Ok l →
     as_zset d "working" = Ok (<[marshal_reservation res := score_of (expires_at now job)]> z) →
     (∀ k, k ≠ q → k ≠ "working" → d !! k = db m !! k) →
     Q (Ok (Some job)) (set_workingMap (<[job.(Jid) := res]> m'.(workingMap)) m')) →
  wp (Fetch (Datatypes.S f) env now wid queues) m Q.
Proof.
  intros Hf Hch Ha Hact Hb Hq Hqw Hun Hz Hr res HQ. rw /Fetch. destruct (decide (queues = [])) as [->|_].
  { rw /filter_queues in Hact. destruct (decide _); cbn in Hact; by destruct before. }
  cbn [fetch_from]. wp_steps. rw Hact. destruct (decide _) as [E|_]; [by destruct before|].
  rw Hf Hch. wp_steps. apply wp_BasicFetch; [done|].
  rw (brpop_first _ _ _ _ _ _ Hb Hq). intros m1 H1. cbn [fst snd fmap option_fmap option_map] in *.
  wp_steps. rw /lease_Job. cbn [ljob payload]. rw Hun. cbn [omap_outcome]. wp_steps.
  pose proof (upd_db _ _ _ _ H1) as E1. apply wp_with_job. cbn [callMiddleware].
  assert (Hz1 : as_zset (db m1) "working" = Ok z).
  { rw -Hz E1. apply as_zset_ext, put_list_ne. done. }
  apply (wp_reserve _ _ _ _ z); [exact (upd_alive _ _ _ _ H1)|done..|].
  intros m2 H2. cbn [omap_outcome fst snd]. wp_steps. rw E1 (upd_knows _ _ _ _ H1) in H2.
  eapply HQ; [exact (upd_trans _ _ _ _ _ _ _ H1 H2)| |apply as_put_zset|].
  - rw -(as_put_list q l (db m)). apply as_list_ext, put_zset_ne. congruence.
  - intros k Hk Hkw. rw put_zset_ne; [congruence|]. apply put_list_ne. congruence.
Qed.

(** Reserving writes the working set only, and fails with plain errors. *)
Lemma wp_add_frame name ts jid payload k (m : mgr) (job : Job) :
  alive m → k ≠ name →
  wp (ss_AddElement name ts jid payload) (m, job)
    (λ r s', (∀ c msg, r ≠ Err (ErrCoded c msg)) ∧ db s'.1 !! k = db m !! k).
Proof.
  intros Ha Hk. rw /ss_AddElement. wp_steps. rw /ParseTime.
  destruct (parse_rfc3339 ts) as [t|]; [|by split]. wp_steps. apply wp_redis; [done|]. intros [m2 j2] H2.
  apply upd_pair in H2 as [H2 _]. pose proof (upd_db _ _ _ _ H2) as E2.
  assert (Ez : ∀ c msg, as_zset (db m) name ≠ Err (ErrCoded c msg)).
  { intros c msg. rw /as_zset. by destruct (_ !! _) as [[]|]. }
  cbn [redis_doc] in *. change (db (m, job)) with (db m) in *.
  destruct (as_zset (db m) name) as [z|e|p]; cbn [with_val fst snd] in *; wp_steps; cbn [fst].
  - split; [done|]. rw E2. apply put_zset_ne. congruence.
  - split; [|by rw E2]. intros c msg [= ->]. by destruct (Ez c msg).
  - split; [done|by rw E2].
Qed.
Lemma wp_reserve_frame now wid l job (m : mgr) k :
  alive m → k ≠ "working" →
  wp (reserve now wid l) (m, job)
    (λ r s', (∀ c msg, r ≠ Err (ErrCoded c msg)) ∧ db s'.1 !! k = db m !! k).
Proof.
  intros Ha Hk. rw /reserve. wp_steps.
  eapply wp_mono; [by apply (wp_add_frame "working" _ _ _ k)|].
  intros [[]|e|p] s' [H1 H2]; wp_steps; done.
Qed.

(** Whatever the outcome of a fetch without middleware, a key that is neither an
    active queue nor the working set keeps its value. *)
Lemma wp_Fetch_frame f env now wid queues k (m : mgr) :
  env.(fetcher) = BasicFetch → env.(fetchChain) = [] → alive m → k ≠ "working" →
  k ∉ filter_queues m.(paused_) queues →
  wp (Fetch f env now wid queues) m (λ _ m', db m' !! k = db m !! k).
Proof.
  intros Hf Hch Ha Hkw Hk. rw /Fetch. destruct (decide (queues = [])); [by wp_steps|].
  destruct f as [|f]; [done|]. cbn [fetch_from]. wp_steps.
  destruct (decide (filter_queues (paused_ m) queues = [])); [by wp_steps|]. rw Hf Hch. wp_steps.
  apply wp_BasicFetch; [done|]. intros m1 H1. pose proof (upd_db _ _ _ _ H1) as E1.
  pose proof (brpop_frame (db m) _ _ Hk) as Hfr. rw -E1 in Hfr.
  destruct (brpop_doc _ (db m)).1 as [[[q v]|]|e|p]; [|by wp_steps|done..].
  cbn [fmap option_fmap option_map snd]. wp_steps. rw /lease_Job. cbn [ljob payload].
  destruct (unmarshal_job zero_job v) as [job|e|p]; [|done..]. cbn [omap_outcome]. wp_steps.
  apply wp_with_job. cbn [callMiddleware].
  eapply wp_mono; [apply (wp_reserve_frame now wid _ job m1 k); [exact (upd_alive _ _ _ _ H1)|done]|].
  intros r s' [Hno Hd].
  destruct r as [[]|e|p]; cbn [omap_outcome]; wp_steps; [by rw Hd| |by rw Hd].
  destruct e; [wp_steps; by rw Hd|by destruct (Hno code msg)|wp_steps; by rw Hd].
Qed.

End fetch_laws.

(** ** What fetching promises *)

Section fetch_theorems.
Context `{Redis}.

(** A fetch serves the oldest job of the first queue, in the order asked,
    that is active and not empty: the job leaves that queue and is reserved to
    the worker, in the working set at the reservation's expiry and in memory;
    no other key changes. *)
Theorem Fetch_serves f env now wid queues before q after (l : list string) v job z (m : mgr) :
  env.(fetcher) = BasicFetch → env.(fetchChain) = [] → alive m →
  filter_queues m.(paused_) queues = before ++ q :: after →
  Forall (λ k, as_list (db m) k = Ok []) before → as_list (db m) q = Ok (l ++ [v]) → q ≠ "working" →
  unmarshal_job zero_job v = Ok job → as_zset (db m) "working" = Ok z →
  time_in_range (expires_at now job) →
  let res := reservation_of now wid (mkLease (Some v) (Some job) false) job in
  ∃ m', Fetch (Datatypes.S f) env now wid queues m = (Ok (Some job), m') ∧
    as_list (db m') q = Ok l ∧
    as_zset (db m') "working" = Ok (<[marshal_reservation res := score_of (expires_at now job)]> z) ∧
    m'.(workingMap) = <[job.(Jid) := res]> m.(workingMap) ∧ m'.(paused_) = m.(paused_) ∧
    (∀ k, k ≠ q → k ≠ "working" → db m' !! k = db m !! k).
Proof.
  intros H1 H2 H3 H4 H5 H6 H7 H8 H9 H10 res.
  destruct (wp_exec (Fetch (Datatypes.S f) env now wid queues) m (λ o m', o = Ok (Some job) ∧
    ∃ d m1, m' = set_workingMap (<[job.(Jid) := res]> m1.(workingMap)) m1 ∧ upd m d (knows m) m1 ∧
      as_list d q = Ok l ∧
      as_zset d "working" = Ok (<[marshal_reservation res := score_of (expires_at now job)]> z) ∧
      (∀ k, k ≠ q → k ≠ "working" → d !! k = db m !! k)))
    as (o & m' & E & -> & d & m1 & -> & Hu & Hl & Hw & Hk).
  { apply (wp_Fetch _ _ _ _ _ before q after l v job z); [done..|].
    intros d m1 Hu ? ? ?. split; [done|]. by exists d, m1. }
  eexists. split; [exact E|]. change (db (set_workingMap ?w ?m)) with (db m). rw (upd_db _ _ _ _ Hu).
  destruct (upd_memory _ _ _ _ Hu) as [E1 E2]. cbn [workingMap paused_ set_workingMap]. by rw E1 E2.
Qed.

(** A fetch never takes a job from a paused queue, whatever else it finds. *)
Theorem Fetch_spares_paused f env now wid queues q (m : mgr) :
  env.(fetcher) = BasicFetch → env.(fetchChain) = [] → alive m → q ≠ "working" →
  q ∈ m.(paused_) → db (Fetch f env now wid queues m).2 !! q = db m !! q.
Proof.
  intros H1 H2 H3 H4 Hq.
  exact (wp_Fetch_frame f env now wid queues q m H1 H2 H3 H4
           (λ Hin, proj2 (proj1 (elem_of_filter_queues _ _ _) Hin) Hq)).
Qed.

End fetch_theorems.

(** ** First in, first out *)

Section fifo.
Context `{Redis}.
Variable env : Env.
Hypothesis Hfetcher : env.(fetcher) = BasicFetch.
Hypothesis Hpush : env.(pushChain) = [].
Hypothesis Hfetch : env.(fetchChain) = [].

(** Jobs pushed one after the other, each at its instant; fetches of one queue. *)
Fixpoint push_seq (js : list (Z * Job)) : M mgr unit :=
  match js with
  | [] => retM tt
  | (now, job) :: js' => Push env now job ;;; push_seq js'
  end.
Fixpoint fetch_seq (reqs : list (Z * string)) (q : string) : M mgr (list (option Job)) :=
  match reqs with
  | [] => retM []
  | (now, wid) :: reqs' =>
      let* j := Fetch 1 env now wid [q] in
      let* js := fetch_seq reqs' q in
      retM (j :: js)
  end.

(** The job as [Push] stores it. *)
Definition stamped (p : Z * Job) : Job := set_EnqueuedAt (Thens p.1) (push_defaults p.1 p.2).
Definition pushable (q : string) (p : Z * Job) : Prop :=
  acceptable p.2 ∧ p.2.(At) = "" ∧ (push_defaults p.1 p.2).(Queue) = q ∧ wf_job (stamped p).

(** What the two phases keep: a live, well-formed store, a typed working set, a
    queue that is not paused and holds [l]. *)
Definition queue_state (q : string) (l : list string) (m : mgr) : Prop :=
  alive m ∧ store_ok m ∧ q ∉ m.(paused_) ∧ as_list (db m) q = Ok l ∧
  ∃ z, as_zset (db m) "working" = Ok z.

Lemma wp_push_seq q js l (m : mgr) :
  ValidQueueName q = true → q ≠ "queues" → q ≠ "working" →
  Forall (pushable q) js → queue_state q l m →
  wp (push_seq js) m (λ r m', r = Ok tt ∧
    queue_state q (rev (marshal_job <$> (stamped <$> js)) ++ l) m').
Proof.
  intros Hv Hq Hw Hjs. revert l m. induction Hjs as [|[now job] js (Hacc & Hat & Hqn & Hwf) Hjs IH]; intros l m Hm.
  { by wp_steps. }
  destruct Hm as (Ha & Hok & Hp & Hl & z & Hz). cbn [push_seq]. wp_steps. cbn [fst snd] in *.
  eapply wp_mono; [apply (wp_Push_enqueue env now job l m); try done; first [by left|by rw Hqn]|].
  rw Hqn. intros r m' (-> & Ha' & Hok' & [Hm1 Hm2] & Hl' & Hk).
  eapply wp_mono; [apply (IH (marshal_job (stamped (now, job)) :: l))|].
  - split_and!; [done|done|by rw Hm2|done|]. exists z. rw -Hz. apply as_zset_ext, Hk; [done|congruence].
  - intros r m2 [-> Hst]. split; [done|]. cbn [fmap list_fmap rev]. by rw -List.app_assoc.
Qed.

Lemma wp_fetch_seq q js reqs (m : mgr) :
  ValidQueueName q = true → q ≠ "queues" → q ≠ "working" →
  Forall (pushable q) js → length reqs = length js →
  (∀ r p, r ∈ reqs → p ∈ js → time_in_range (expires_at r.1 (stamped p))) →
  queue_state q (rev (marshal_job <$> (stamped <$> js))) m →
  wp (fetch_seq reqs q) m (λ r m', r = Ok (Some <$> (stamped <$> js)) ∧ queue_state q [] m').
Proof.
  intros Hv Hq Hw Hjs. revert reqs m. induction Hjs as [|p js (Hacc & Hat & Hqn & Hwf) Hjs IH]; intros reqs m Hlen Hr Hm.
  { destruct reqs; [|done]. by wp_steps. }
  destruct reqs as [|[now wid] reqs]; [done|]. destruct Hm as (Ha & Hok & Hp & Hl & z & Hz).
  cbn [fetch_seq]. wp_steps. cbn [fmap list_fmap rev] in Hl.
  eapply (wp_Fetch 0 env now wid [q] [] q [] _ _ (stamped p) z); [done..| | |exact Hl|done| |done| |].
  - rw /filter_queues. destruct (decide _); [done|]. cbn.
    assert (Hc : contains q (paused_ m) = false); [|by rw Hc].
    apply not_true_is_false. intros (x & Hx & Hb%bool_decide_eq_true)%List.existsb_exists.
    subst x. by apply Hp, list_elem_of_In.
  - constructor.
  - by apply unmarshal_marshal_job.
  - apply (Hr (now, wid) p); by left.
  - intros d m1 Hu Hl1 Hw1 Hk1. apply wp_bind.
    pose proof (upd_db _ _ _ _ Hu) as E. destruct (upd_memory _ _ _ _ Hu) as [_ E2].
    eapply wp_mono; [apply IH; [by injection Hlen| |]|].
    + intros r p' Hin Hin'. apply Hr; by right.
    + split_and!; [exact (upd_alive _ _ _ _ Hu)| |by cbn; rw E2|by rw -Hl1 -E|eexists; rw -E in Hw1; exact Hw1].
      assert (Hok1 : store_ok m1); [|exact Hok1].
      apply (store_ok_upd m d); [done|done|]. destruct Hok as [_ (ns & Hns)]. exists ns.
      rw -Hns. apply as_set_ext, Hk1; [congruence|done].
    + intros r m2 [-> Hst]. by wp_steps.
Qed.

(** A queue is first in, first out: jobs pushed on an empty queue come back,
    complete, in the order of their pushes, each reserved to the worker that
    asked. *)
Theorem queue_is_fifo q js reqs (m : mgr) :
  ValidQueueName q = true → q ≠ "queues" → q ≠ "working" →
  Forall (pushable q) js → length reqs = length js →
  (∀ r p, r ∈ reqs → p ∈ js → time_in_range (expires_at r.1 (stamped p))) →
  queue_state q [] m →
  ∃ m', (push_seq js ;;; fetch_seq reqs q) m = (Ok (Some <$> (stamped <$> js)), m') ∧ queue_state q [] m'.
Proof.
  intros Hv Hq Hw Hjs Hlen Hr Hm.
  destruct (wp_exec (push_seq js ;;; fetch_seq reqs q) m
    (λ r m', r = Ok (Some <$> (stamped <$> js)) ∧ queue_state q [] m')) as (r & m' & E & -> & Hst); [|by exists m'].
  wp_steps. eapply wp_mono; [by apply (wp_push_seq q js [])|]. intros r m1 [-> Hst].
  apply wp_fetch_seq; try done. by rw List.app_nil_r in Hst.
Qed.

End fifo.
