(* ===== verification/Scheduler.v ===== *)
(** * The scheduler (src/manager/scheduler.go)

    Due members of the "scheduled" and "retries" sets are enqueued, a hundred at
    a time; the dead set is purged of old members. *)
From S2P Require Import Prelude GoStrings Float64 GoTime Scores Json Job Redis Store SortedSet Middleware Manager.

Section scheduler.
Context `{Redis} {S : Type} `{HasStore S}.

(** The count is 0 when an error is returned. *)
Definition Purge (when : Z) : M S Z :=
  let* r := ss_RemoveBefore "dead" (Thens when) 100 (λ _, retM tt) in
  match r with
  | (_, Some e) => failM e
  | (dead, None) => retM dead
  end.

Definition schedule_one (now : Z) (data : string) : M S unit :=
  let* job := ofOutcome (unmarshal_job zero_job data) in
  let* r := tryM (enqueue now job) in
  match r with
  | inr e => failM (ErrMsg ("Error pushing job to '" +:+ job.(Queue) +:+ "': " +:+ err_text e))
  | inl _ => retM tt
  end.
(** The jobs enqueued so far, with the error that ended the loop. *)
Fixpoint schedule_from (fuel : nat) (total now when : Z) (set : string) : M S (Z * option goerr) :=
  match fuel with
  | O => panicM "out of fuel"
  | Datatypes.S f =>
      let* r := ss_RemoveBefore set (Thens when) 100 (schedule_one now) in
      match r with
      | (count, Some e) => retM (total + count, Some e)
      | (count, None) =>
          if negb (count =? 100) then retM (total + count, None)
          else schedule_from f (total + count) now when set
      end
  end.
Definition schedule (fuel : nat) (now when : Z) (set : string) : M S (Z * option goerr) :=
  schedule_from fuel 0 now when set.
Definition EnqueueScheduledJobs (fuel : nat) (now when : Z) : M S (Z * option goerr) :=
  schedule fuel now when "scheduled".
Definition RetryJobs (fuel : nat) (now when : Z) : M S (Z * option goerr) :=
  schedule fuel now when "retries".

End scheduler.

(** ** What the scheduler promises *)

#[local] Open Scope list_scope.

(** The payloads due members add to queue [q], newest first. *)
Definition queued (now : Z) (q : string) (out : list string) : list string :=
  rev (omap (λ data, match unmarshal_job zero_job data with
                     | Ok job => if decide (job.(Queue) = q)
                                 then Some (marshal_job (set_EnqueuedAt (Thens now) job)) else None
                     | _ => None
                     end) out).

Lemma queued_snoc now q out data job :
  unmarshal_job zero_job data = Ok job →
  queued now q (out ++ [data]) =
    (if decide (job.(Queue) = q) then [marshal_job (set_EnqueuedAt (Thens now) job)] else []) ++ queued now q out.
Proof.
  intros Hu. rw /queued omap_app List.rev_app_distr. cbn [omap list_omap]. rw Hu.
  by destruct (decide (Queue job = q)).
Qed.

Section scheduler_laws.
Context `{Redis} {S : Type} `{!HasStore S}.
Context (set : string) (now when : Z) (z : gmap string Z) (s0 : S).

(** A member that is a job for a proper queue. *)
Definition schedulable (data : string) : Prop :=
  ∃ job, unmarshal_job zero_job data = Ok job ∧ ValidQueueName job.(Queue) = true ∧
    job.(Queue) ≠ set ∧ job.(Queue) ≠ "queues" ∧ ∃ l, as_list (db s0) job.(Queue) = Ok l.

Definition moved (out : list string) (s : S) : Prop :=
  alive s ∧ store_ok s ∧ as_zset (db s) set = Ok (without out z) ∧
  ∀ q l, q ≠ set → q ≠ "queues" → as_list (db s0) q = Ok l →
    as_list (db s) q = Ok (queued now q out ++ l).

Hypothesis Hset : set ≠ "queues".
Let U := upto (score_of when) z.
Hypothesis Hall : ∀ data, data ∈ U → schedulable data.

Lemma moved_read out s s' : moved out s → upd s (db s) (knows s) s' → moved out s'.
Proof.
  intros (Ha & Hok & Hz & Hq) Hu. split_and!; [exact (upd_alive _ _ _ _ Hu)| |by rw (upd_db _ _ _ _ Hu)..].
  apply (store_ok_upd s (db s)); [done..|apply Hok].
Qed.

Lemma wp_schedule_one out j s s1 :
  moved out s → schedulable j →
  upd s (put_zset set (without (out ++ [j]) z) (db s)) (knows s) s1 →
  wp (schedule_one now j) s1 (λ r s2, r = Ok tt ∧ moved (out ++ [j]) s2).
Proof.
  intros (Ha & Hok & Hz & Hq) (job & Hu & Hv & Hn1 & Hn2 & l & Hl) H1.
  pose proof (upd_db _ _ _ _ H1) as E1.
  assert (Hk1 : ∀ k, k ≠ set → db s1 !! k = db s !! k) by (intros k Hk; rw E1; apply put_zset_ne; congruence).
  rw /schedule_one Hu. wp_steps.
  apply (wp_enqueue now job (queued now job.(Queue) out ++ l)); [exact (upd_alive _ _ _ _ H1)| |done|done| |].
  { apply (store_ok_upd s (db s1)); [done|by rw E1|]. destruct Hok as [_ (ns & Hns)]. exists ns.
    rw -Hns. apply as_set_ext, Hk1. congruence. }
  { rw -(Hq _ l) //. by apply as_list_ext, Hk1. }
  intros d qs s2 H2 Hok2 Hl2 Hk2. wp_steps. split; [done|]. pose proof (upd_db _ _ _ _ H2) as E2.
  split_and!; [exact (upd_alive _ _ _ _ H2)|done| |].
  - rw E2 -(as_put_zset set (without (out ++ [j]) z) (db s)) -E1. apply as_zset_ext, Hk2; congruence.
  - intros q l' Hs Hqs Hl'. rw E2 (queued_snoc _ _ _ _ job) //. destruct (decide (Queue job = q)) as [<-|Hne].
    + rw Hl2. cbn [app]. rw Hl' in Hl. by injection Hl as ->.
    + cbn [app]. rw -(Hq q l') //. apply as_list_ext. rw Hk2; [done|congruence|]. by apply Hk1.
Qed.

Lemma wp_schedule_from fuel (k : nat) total s :
  time_in_range when → (length U - k < 100 * fuel)%nat → moved (take k U) s →
  wp (schedule_from fuel total now when set) s
    (λ r s', r = Ok (total + Z.of_nat (length (drop k U)), None) ∧ moved U s').
Proof.
  intros Hw. revert k total s. induction fuel as [|f IH]; intros k total s Hf Hs; [lia|].
  cbn [schedule_from]. wp_steps.
  eapply wp_mono; [apply (wp_drain_batch set (schedule_one now) z moved schedulable) with (k := k) (n := 100%nat); try done; try lia|].
  - intros out s1 Hm. split_and!; [apply Hm..|]. intros s2. by apply moved_read.
  - intros out j s1 s2 Hm Hj Hd Hu. by apply (wp_schedule_one out j s1).
  - intros r s1 [-> Hm]. fold U in Hm |- *. rw length_take length_drop.
    destruct (Z.eqb_spec (Z.of_nat (Nat.min 100 (length U - k))) 100) as [E|E]; cbn [negb].
    + eapply wp_mono; [apply (IH (k + 100)%nat); [lia|done]|]. intros r s2 [-> H2]. split; [|done].
      rw ?length_drop. do 2 f_equal. lia.
    + wp_steps. rw take_ge in Hm; [lia|]. split; [|done]. rw ?length_drop. do 2 f_equal. lia.
Qed.
End scheduler_laws.

(** C36. [EnqueueScheduledJobs] and [RetryJobs] move every due member of their
    set, however many batches it takes, to the head of its queue, earliest
    first; what is not due stays, and the count is that of the jobs moved. *)
Theorem schedule_moves_due `{Redis} {S : Type} `{!HasStore S} fuel set now when z (s : S) :
  alive s → store_ok s → set ≠ "queues" → time_in_range when →
  as_zset (db s) set = Ok z →
  let U := upto (score_of when) z in
  (∀ data, data ∈ U → schedulable set s data) → (length U < 100 * fuel)%nat →
  ∃ s', schedule fuel now when set s = (Ok (Z.of_nat (length U), None), s') ∧
    as_zset (db s') set = Ok (without U z) ∧
    ∀ q l, q ≠ set → q ≠ "queues" → as_list (db s) q = Ok l → as_list (db s') q = Ok (queued now q U ++ l).
Proof.
  intros Ha Hok Hset Hw Hz U Hall Hf.
  destruct (wp_exec (schedule fuel now when set) s (λ r s',
    r = Ok (Z.of_nat (length U), None) ∧ moved set now z s U s')) as (r & s' & E & -> & Hm).
  - eapply wp_mono; [apply (wp_schedule_from set now when z s Hset Hall fuel 0 0 s Hw); [rw Nat.sub_0_r; exact Hf|]|].
    + split_and!; [done|done|by rw without_nil|done].
    + intros r s' [-> Hm]. done.
  - exists s'. destruct Hm as (_ & _ & H1 & H2). done.
Qed.
