(* ===== verification/Reaper.v ===== *)
(** * Expiring reservations (src/manager/working.go, [ReapExpiredJobs])

    Entries of the working set that come due are taken out ten at a time.  An
    extended reservation goes back in under its new expiry; any other job is
    failed, which retries or buries it. *)
From S2P Require Import Prelude GoStrings Float64 GoTime Scores Json Job Redis Store SortedSet Middleware Manager Retry Working.

#[local] Open Scope list_scope.

Section reaper.
Context `{Redis}.

(** The state is the manager and the count of jobs expired; [r] gives the random
    number drawn for a jid. *)

Definition liftm {X A} (m : M mgr A) : M (mgr * X) A := zoomM fst (λ a s, (a, s.2)) m.

Definition reap_one (env : Env) (r : string → Z) (now when : Z) (data : string) : M (mgr * Z) unit :=
  match unmarshal_reservation data with
  | Err e => failM (ErrMsg ("Unable to read reservation: " +:+ err_text e))
  | Panic p => panicM p
  | Ok res =>
      match res.(rJob) with
      | None => panicM "nil pointer dereference"
      | Some job =>
          let jid := job.(Jid) in
          let* s := getM in
          let expire :=
            let* f := tryM (liftm (processFailure env (r jid) now jid None)) in
            match f with
            | inr e => failM (ErrMsg ("Unable to retry reservation: " +:+ err_text e))
            | inl _ => modifyM (λ s, (s.1, s.2 + 1))
            end in
          match s.1.(workingMap) !! jid with
          | Some localres =>
              if when <? localres.(extension) then
                let localres := set_Expiry (Thens localres.(extension))
                                  (set_texpiry localres.(extension) localres) in
                modifyM (λ s, (set_workingMap (<[jid := localres]> s.1.(workingMap)) s.1, s.2)) ;;;
                let* a := tryM (ss_AddElement "working" localres.(Expiry) jid data) in
                match a with
                | inr e => failM (ErrMsg ("Unable to extend reservation for " +:+ jid +:+ ": " +:+ err_text e))
                | inl _ => retM tt
                end
              else expire
          | None => expire
          end
      end
  end.
Fixpoint reap_loop (fuel : nat) (env : Env) (r : string → Z) (now when : Z) : M (mgr * Z) (option goerr) :=
  match fuel with
  | O => panicM "out of fuel"
  | Datatypes.S f =>
      let* res := ss_RemoveBefore "working" (Thens when) 10 (reap_one env r now when) in
      match res with
      | (_, Some e) => retM (Some e)
      | (count, None) => if count <? 10 then retM None else reap_loop f env r now when
      end
  end.
(** The number of jobs expired, with the error that ended the loop. *)
Definition ReapExpiredJobs (fuel : nat) (env : Env) (r : string → Z) (now when : Z) : M mgr (Z * option goerr) :=
  λ m, match reap_loop fuel env r now when (m, 0) with
       | (Ok e, (m', total)) => (Ok (total, e), m')
       | (Err e, (m', _)) => (Err e, m')
       | (Panic p, (m', _)) => (Panic p, m')
       end.

End reaper.

(** ** Laws *)

Section reaper_laws.
Context `{Redis}.
Context (env : Env) (r : string → Z) (now when : Z) (m0 : mgr).
Context (z zr zd : gmap string Z).

(** Where the job of a due entry goes. *)
Definition reap_fate (data : string) : fate :=
  match unmarshal_reservation data with
  | Ok res =>
      match res.(rJob) with
      | Some job =>
          match m0.(workingMap) !! job.(Jid) with
          | Some local =>
              match local.(rJob) with
              | Some lj => fate_of (r job.(Jid)) now (fail_job now JobReservationExpired lj)
              | None => Dropped
              end
          | None => Dropped
          end
      | None => Dropped
      end
  | _ => Dropped
  end.
Definition entry_jid (data : string) : option string :=
  match unmarshal_reservation data with
  | Ok res => Jid <$> res.(rJob)
  | _ => None
  end.

(** An entry whose job is in memory under its jid, and was not extended. *)
Definition expired (data : string) : Prop :=
  ∃ res job local lj, unmarshal_reservation data = Ok res ∧ res.(rJob) = Some job ∧
    m0.(workingMap) !! job.(Jid) = Some local ∧ local.(rJob) = Some lj ∧
    local.(extension) ≤ when ∧ fate_in_range (reap_fate data).

Definition reaped (out : list string) (s : mgr * Z) : Prop :=
  alive s.1 ∧ as_zset (db s.1) "working" = Ok (without out z) ∧
  as_zset (db s.1) "retries" = Ok (foldl (λ a d, retries_after (reap_fate d) a) zr out) ∧
  as_zset (db s.1) "dead" = Ok (foldl (λ a d, dead_after (reap_fate d) a) zd out) ∧
  (∀ jid, s.1.(workingMap) !! jid =
          if decide (Some jid ∈ entry_jid <$> out) then None else m0.(workingMap) !! jid) ∧
  s.2 = Z.of_nat (length out).

Let U := upto (score_of when) z.
Hypothesis Hch : env.(failChain) = [].
Hypothesis Hall : ∀ data, data ∈ U → expired data.
Hypothesis Hinj : ∀ d1 d2, d1 ∈ U → d2 ∈ U → entry_jid d1 = entry_jid d2 → d1 = d2.

Lemma wp_liftm {X A} (p : M mgr A) (m : mgr) (x : X) (Q : outcome A → mgr * X → Prop) :
  wp p m (λ o m', Q o (m', x)) → wp (liftm p) (m, x) Q.
Proof. rw /wp /liftm /zoomM. cbn [fst]. by destruct (p m). Qed.

Lemma reaped_read out s s' : reaped out s → upd s (db s) (knows s) s' → reaped out s'.
Proof.
  destruct s as [m t]. intros (Ha & Hz & Hr & Hd & Hw & Ht) Hu. pose proof Hu as Hu'.
  apply upd_pair in Hu as [Hu E]. destruct (upd_memory _ _ _ _ Hu) as [E1 _].
  pose proof (upd_db _ _ _ _ Hu) as Ed. change (db (m, t)) with (db m) in Ed. cbn [fst snd] in *.
  split_and!; [exact (upd_alive _ _ _ _ Hu)|by rw Ed..|by rw E1|by rw E].
Qed.

Lemma wp_reap_one out j s s1 :
  reaped out s → j ∉ out → (∀ d, d ∈ out → d ∈ U) → j ∈ U →
  upd s (put_zset "working" (without (out ++ [j]) z) (db s)) (knows s) s1 →
  wp (reap_one env r now when j) s1 (λ o s2, o = Ok tt ∧ reaped (out ++ [j]) s2).
Proof.
  destruct s as [m t]. intros (Ha & Hz & Hr & Hd & Hw & Ht) Hj Hsub HjU Hu. cbn [fst snd] in *.
  destruct (Hall j HjU) as (res & job & local & lj & Hun & Hjob & Hloc & Hlj & Hext & Hin).
  assert (Hjid : entry_jid j = Some job.(Jid)) by (by rw /entry_jid Hun Hjob).
  assert (Hfate : reap_fate j = fate_of (r job.(Jid)) now (fail_job now JobReservationExpired lj))
    by (by rw /reap_fate Hun Hjob Hloc Hlj).
  assert (Hnew : Some job.(Jid) ∉ entry_jid <$> out).
  { intros (d & Ed & Hdo)%list_elem_of_fmap. apply Hj.
    rw (Hinj j d HjU (Hsub d Hdo)); [by rw Hjid|done]. }
  destruct s1 as [m1 t1]. apply upd_pair in Hu as [Hu E]. cbn [fst snd] in *. subst t1.
  change (db (m, t)) with (db m) in Hu. change (knows (m, t)) with (knows m) in Hu.
  pose proof (upd_db _ _ _ _ Hu) as E1. destruct (upd_memory _ _ _ _ Hu) as [Ew _].
  assert (Hk : ∀ k, k ≠ "working" → db m1 !! k = db m !! k) by (intros k Hk; rw E1; apply put_zset_ne; congruence).
  assert (Hmap : workingMap m1 !! Jid job = Some local) by (rw Ew Hw decide_False //).
  rw /reap_one Hun Hjob. wp_steps. cbn [fst]. rw Hmap. destruct (Z.ltb_spec when (extension local)); [lia|].
  wp_steps. apply wp_liftm.
  eapply (wp_processFailure env (r (Jid job)) now (Jid job) None m1 local lj (without (out ++ [j]) z) j);
    [done|exact (upd_alive _ _ _ _ Hu)|done|done| | | |by cbn [default from_option]; rw -Hfate|].
  - split; [by rw E1 as_put_zset|]. rw lookup_without decide_True //. apply elem_of_app. right. by left.
  - etrans; [by apply as_zset_ext, Hk|exact Hr].
  - etrans; [by apply as_zset_ext, Hk|exact Hd].
  - cbn [default from_option]. rw -Hfate. intros d m2 Hu2 Hz2 Hr2 Hd2 _. wp_steps. split; [done|].
    pose proof (upd_db _ _ _ _ Hu2) as E2. destruct (upd_memory _ _ _ _ Hu2) as [Ew2 _].
    split_and!; cbn [fst snd]; [exact (upd_alive _ _ _ _ Hu2)| |by rw foldl_snoc E2..| |].
    + rw E2 Hz2 delete_id //. rw lookup_without decide_True //. apply elem_of_app. right. by left.
    + intros jid. rw Ew2. cbn [workingMap set_workingMap]. rw Ew fmap_app. cbn [fmap list_fmap]. rw Hjid.
      destruct (decide (jid = Jid job)) as [->|Hne].
      * rw lookup_delete_eq decide_True //. apply elem_of_app. right. by left.
      * rw lookup_delete_ne; [congruence|]. rw Hw. apply decide_ext.
        rw elem_of_app list_elem_of_singleton. naive_solver.
    + rw length_app Ht. cbn [length]. lia.
Qed.

Lemma wp_reap_loop fuel (k : nat) s :
  time_in_range when → (length U - k < 10 * fuel)%nat → reaped (take k U) s →
  wp (reap_loop fuel env r now when) s (λ o s', o = Ok None ∧ reaped U s').
Proof.
  intros Hw. revert k s. induction fuel as [|f IH]; intros k s Hf Hs; [lia|].
  cbn [reap_loop]. wp_steps.
  eapply wp_mono; [apply (wp_drain_batch "working" (reap_one env r now when) z
     (λ out s, reaped out s ∧ ∀ d, d ∈ out → d ∈ U) (λ j, j ∈ U)) with (k := k) (n := 10%nat); try done; try lia|].
  - intros out s1 [Hm Hsub]. split_and!; [apply Hm|apply Hm|]. intros s2 Hu. split; [exact (reaped_read out s1 s2 Hm Hu)|done].
  - intros out j s1 s2 [Hm Hsub] Hj HjU Hu. eapply wp_mono; [by apply (wp_reap_one out j s1)|].
    intros o s3 [-> H3]. split; [done|]. split; [done|]. intros d [Hd|Hd]%elem_of_app; [by apply Hsub|].
    by apply list_elem_of_singleton in Hd as ->.
  - split; [done|]. intros d (i & Hd & _)%elem_of_take. by apply list_elem_of_lookup_2 in Hd.
  - intros o s1 [-> [Hm _]]. fold U in Hm |- *. rw length_take length_drop.
    destruct (Z.ltb_spec (Z.of_nat (Nat.min 10 (length U - k))) 10) as [E|E].
    + wp_steps. rw take_ge in Hm; [lia|]. done.
    + apply (IH (k + 10)%nat); [lia|done].
Qed.

End reaper_laws.

(** ** What reaping promises *)

Section reaper_theorems.
Context `{Redis}.


(** A due entry whose reservation was extended past [when] goes back in the
    working set, scored with the extension, and the reservation in memory takes
    the new expiry; nothing is counted as expired. *)
Theorem Reap_extends env r now when data res job local z (m : mgr) t :
  alive m → unmarshal_reservation data = Ok res → res.(rJob) = Some job →
  m.(workingMap) !! job.(Jid) = Some local → when < local.(extension) →
  time_in_range local.(extension) → as_zset (db m) "working" = Ok z →
  ∃ m', reap_one env r now when data (m, t) = (Ok tt, (m', t)) ∧
    as_zset (db m') "working" = Ok (<[data := score_of local.(extension)]> z) ∧
    m'.(workingMap) = <[job.(Jid) := set_Expiry (Thens local.(extension)) (set_texpiry local.(extension) local)]>
                        m.(workingMap).
Proof.
  intros Ha Hun Hjob Hloc Hext Hin Hz.
  set (w' := <[job.(Jid) := _]> m.(workingMap)).
  destruct (wp_exec (reap_one env r now when data) (m, t) (λ o s', o = Ok tt ∧ s'.2 = t ∧
    as_zset (db s'.1) "working" = Ok (<[data := score_of local.(extension)]> z) ∧ s'.1.(workingMap) = w'))
    as (o & [m' t'] & E & -> & Et & H1 & H2); [|cbn in *; subst t'; by exists m'].
  rw /reap_one Hun Hjob. wp_steps. cbn [fst]. rw Hloc. destruct (Z.ltb_spec when (extension local)); [|lia].
  wp_steps. cbn [fst snd]. eapply wp_AddElement; [|by apply parse_Thens| |]; [exact Ha|exact Hz|].
  intros [m2 t2] Hu. wp_steps. split; [done|]. apply upd_pair in Hu as [Hu Et]. cbn [fst snd] in *.
  pose proof (upd_db _ _ _ _ Hu) as E2. destruct (upd_memory _ _ _ _ Hu) as [Ew _].
  split_and!; [done|by rw E2 as_put_zset|by rw Ew].
Qed.

(** A due entry whose jid is not in memory is lost: it is taken out of the
    working set, the failure "Job not found" is only logged, and no other key
    changes. *)
Theorem Reap_drops_unknown fuel env r now when data res job sc (m : mgr) :
  alive m → time_in_range when → unmarshal_reservation data = Ok res → res.(rJob) = Some job →
  m.(workingMap) !! job.(Jid) = None →
  as_zset (db m) "working" = Ok {[ data := sc ]} → sc ≤ score_of when →
  ∃ m', ReapExpiredJobs (Datatypes.S fuel) env r now when m = (Ok (0, None), m') ∧
    db m' !! "working" = None ∧ (∀ k, k ≠ "working" → db m' !! k = db m !! k) ∧
    m'.(workingMap) = m.(workingMap).
Proof.
  intros Ha Hw Hun Hjob Hloc Hz Hsc.
  destruct (wp_exec (reap_loop (Datatypes.S fuel) env r now when) (m, 0) (λ o s', o = Ok None ∧ s'.2 = 0 ∧
    upd m (put_zset "working" ∅ (db m)) (knows m) s'.1)) as (o & [m' t] & E & -> & Et & Hu).
  - cbn [reap_loop]. wp_steps. eapply wp_RemoveBefore; [exact Ha|by apply parse_Thens|done|exact Hz|done|].
    intros [m1 t1] H1. apply upd_pair in H1 as [H1 E1]. cbn [fst snd] in *. subst t1.
    rw upto_singleton //. change (take (Z.to_nat 10) [data]) with [data]. cbn [remove_each].
    change (db (m, 0)) with (db m) in H1. change (knows (m, 0)) with (knows m) in H1.
    pose proof (upd_db _ _ _ _ H1) as Ed. destruct (upd_memory _ _ _ _ H1) as [Ew _].
    assert (Hz1 : as_zset (db m1) "working" = Ok {[ data := sc ]}) by (rw Ed; exact Hz).
    wp_steps. apply wp_redis; [exact (upd_alive _ _ _ _ H1)|]. cbn [redis_doc].
    change (db (m1, 0)) with (db m1). rw (with_val_eq _ _ _ _ Hz1) lookup_singleton_eq delete_singleton_eq.
    cbn [fst snd]. intros [m2 t2] H2. apply upd_pair in H2 as [H2 E2].
    cbn [fst snd] in *. subst t2. destruct (upd_memory _ _ _ _ H2) as [Ew2 _].
    destruct (decide (is_Some (Some sc))) as [_|Hn]; [|by destruct Hn; eexists].
    cbn [Z.eqb Pos.eqb]. wp_steps.
    rw /reap_one Hun Hjob. wp_steps. cbn [fst]. rw Ew2 Ew Hloc. wp_steps. apply wp_liftm.
    rw /processFailure. wp_steps. apply wp_clear. rw Ew2 Ew Hloc. wp_steps.
    cbn [Z.ltb Z.compare]. wp_steps. cbn [fst snd]. split_and!; [done..|].
    pose proof (upd_trans _ _ _ _ _ _ _ H1 H2) as Hu. change (knows (m1, 0)) with (knows m1) in Hu.
    rw Ed (upd_knows _ _ _ _ H1) in Hu. exact Hu.
  - cbn [fst snd] in *. exists m'. rw /ReapExpiredJobs E Et. destruct (upd_memory _ _ _ _ Hu) as [Ew _].
    rw (upd_db _ _ _ _ Hu) Ew. split_and!; [done| | |done].
    + rw /put_zset. case_decide; [apply lookup_delete_eq|done].
    + intros k Hk. apply put_zset_ne. congruence.
Qed.

End reaper_theorems.
