(* ===== verification/Helpers.v ===== *)
(** * Web UI helpers (src/webui/helpers.go)

    Formatting of counts and sizes, the pages of queues and sets, and the
    actions of the set pages.  [ctx(req).Store()] is the store of the state. *)
From S2P Require Import Prelude GoStrings Float64 GoTime Scores Json Job Redis Store SortedSet.

#[local] Open Scope list_scope.

(** ** Numbers *)

Definition set_byte (j : Z) (c : ascii) (out : list ascii) : outcome (list ascii) :=
  if (0 <=? j) && (j <? Z.of_nat (length out)) then Ok (<[Z.to_nat j := c]> out)
  else Panic "index out of range".

(** The loop: digits from the right, a comma after each third one. *)
Fixpoint delimit (inp : list ascii) (i : nat) (j k : Z) (out : list ascii) : outcome (list ascii) :=
  match set_byte j (nth i inp "0"%char) out with
  | Ok out =>
      match i with
      | O => Ok out
      | S i' =>
          if k + 1 =? 3 then
            match set_byte (j - 1) "," out with
            | Ok out => delimit inp i' (j - 2) 0 out
            | r => r
            end
          else delimit inp i' (j - 1) (k + 1) out
      end
  | r => r
  end.
(** [FormatUint] has no sign: the branch that moves one is not taken. *)
Definition uintWithDelimiter (val : Z) : outcome string :=
  let inp := list_ascii_of_string (dec_nat val) in
  let n := Z.of_nat (length inp) in
  let len := n + (n - 2 + byte_val (nth 0 inp "0"%char) `div` 48) `div` 3 in
  let out := List.repeat (chr 0) (Z.to_nat len) in
  omap_outcome string_of_list_ascii (delimit inp (length inp - 1) (len - 1) 0 out).

(** [strconv.FormatFloat(x, 'f', 1, 64)] of a non-negative number. *)
Definition format_f1 (x : Z) : string :=
  let d := round_half_even (x * 10) UNIT in
  dec_nat (d `div` 10) +:+ "." +:+ dec_nat (d `mod` 10).
Definition displayRss (rssKb : Z) : string :=
  if rssKb <? 100000 then dec rssKb +:+ " KB"
  else if rssKb <? 10000000 then format_f1 (f_div (f_of_Z rssKb) (f_of_Z 1024)) +:+ " MB"
  else format_f1 (f_div (f_of_Z rssKb) (f_of_Z (1024 * 1024))) +:+ " GB".

Definition category_for_rtt (lat : Z) : string :=
  if lat =? 0 then "danger"
  else if lat <? f_of_Z 1000 then "success"
  else if lat <? f_of_Z 10000 then "warning"
  else "danger".

(** ** Query parameters: the values of "days" *)

Definition days (q : list string) : Z :=
  match q with
  | [] => 30
  | daystr :: _ => if bool_decide (daystr = "") then 30 else default 30 (atoi daystr)
  end.
Definition daysMatches (q : list string) (value : string) (defalt : bool) : string :=
  let daysValue := match q with d :: _ => d | [] => "" end in
  if bool_decide (daysValue = value) then "active"
  else if bool_decide (daysValue = "") && defalt then "active"
  else "".
Definition extraCss (url : string) : string :=
  if negb (bool_decide (url = "")) && has_prefix "http" url
  then "<link href='" +:+ url +:+ "' media='screen' rel='stylesheet' type='text/css'/>"
  else "".

(** ** Arguments *)

(** [fmt.Fprintf(w, format)] with no arguments: text is copied, [%%] is a percent
    sign, any other verb is reported as missing its argument. *)
Definition is_flag (c : ascii) : bool :=
  bool_decide (c ∈ ["#"%char; "0"%char; "+"%char; "-"%char; " "%char]).
Fixpoint skip_flags (s : string) : string :=
  match s with String c t => if is_flag c then skip_flags t else s | EmptyString => "" end.
(** "[n]": always out of range. *)
Definition arg_index (s : string) : bool * string :=
  match s with
  | String "[" t =>
      (true, if index_of t "]" <? 0 then t else drop_str (Z.to_nat (index_of t "]" + 1)) t)
  | _ => (false, s)
  end.
(** A width or precision: digits, or a star that finds no argument. *)
Definition number_or_star (note : string) (s : string) : string * bool * string :=
  match s with
  | String "*" t => (note, false, t)
  | _ => let '(ds, t) := span_digits s in ("", negb (bool_decide (ds = "")), t)
  end.
(** What is printed for the verb after a percent sign, and the rest. *)
Definition format_verb (s : string) : string * string :=
  let '(b1, s1) := arg_index (skip_flags s) in
  let '(n1, wid, s2) := number_or_star "%!(BADWIDTH)" s1 in
  let starred := negb (bool_decide (n1 = "")) in
  let bad := b1 && (wid || starred) in
  let after := b1 && negb starred in
  let '(n2, bad, after, s4) :=
    match s2 with
    | String "." t =>
        let '(b2, s3) := arg_index t in
        let '(n2, _, s4) := number_or_star "%!(BADPREC)" s3 in
        (n2, bad || after || b2, b2, s4)
    | _ => ("", bad, after, s2)
    end in
  let '(b3, s5) := if after : bool then (false, s4) else arg_index s4 in
  let notes := n1 +:+ n2 in
  match s5 with
  | EmptyString => (notes +:+ "%!(NOVERB)", "")
  | String "%" t => (notes +:+ "%", t)
  | _ =>
      let n := if bool_decide (byte_in 0 127 s5 0) then 1%nat else utf8_len s5 in
      let verb := if bool_decide (n = 0%nat) then utf8_encode 65533 else take_str n s5 in
      (notes +:+ "%!" +:+ verb +:+ (if b1 || bad || b3 then "(BADINDEX)" else "(MISSING)"),
       drop_str (Nat.max 1 n) s5)
  end.
Fixpoint fprintf_from (fuel : nat) (s : string) : string :=
  match fuel, s with
  | S f, String "%" t => let '(out, rest) := format_verb t in out +:+ fprintf_from f rest
  | S f, String c t => String c (fprintf_from f t)
  | _, _ => ""
  end.
Definition fprintf (format : string) : string := fprintf_from (String.length format) format.

Fixpoint displayLimitedArgs (limit : nat) (args : list gov) : string :=
  match args with
  | [] => ""
  | a :: rest =>
      let s := print (of_gov a) in
      (if Z.of_nat limit <? slen s then fprintf (take_str limit s) +:+ utf8_encode 8230 else s) +:+
      (match rest with [] => "" | _ => ", " end) +:+ displayLimitedArgs limit rest
  end.
Definition displayArgs : list gov → string := displayLimitedArgs (Z.to_nat 1024).
Definition displayFullArgs : list gov → string := displayLimitedArgs (Z.to_nat (1024 * 1024)).

Example fprintf_1 : fprintf "100%%" = "100%". Proof. by_compute. Qed.
Example fprintf_2 : fprintf "a%d b%5.2f" = "a%!d(MISSING) b%!f(MISSING)". Proof. by_compute. Qed.
Example fprintf_3 : fprintf "50%" = "50%!(NOVERB)". Proof. by_compute. Qed.

(** ** Pages *)

Section pages.
Context `{Redis} {S : Type} `{HasStore S}.

(** 64-bit unsigned arithmetic, then [int64]. *)
Definition page_start (count currentPage : Z) : Z :=
  let u := ((currentPage - 1) * count) `mod` 2 ^ 64 in
  if u <? 2 ^ 63 then u else u - 2 ^ 64.

(** The first error ends the page and is logged. *)
Definition queueJobs (q : redisQueue) (count currentPage : Z) (fn : Z → string → Job → M S unit) : M S unit :=
  ignoreM (q_Page q (page_start count currentPage) count (λ idx data,
    let* job := ofOutcome (unmarshal_job zero_job data) in fn idx data job)).
Definition setJobs (set : string) (count currentPage : Z) (fn : Z → string → Job → M S unit) : M S unit :=
  ignoreM (ss_Page set (page_start count currentPage) count (λ idx entry,
    let* job := ofOutcome (entry_Job entry) in
    let* key := ofOutcome (entry_Key entry) in
    fn idx key job)).

Fixpoint enqueuedSize (order : list redisQueue) : M S Z :=
  match order with
  | [] => retM 0
  | q :: qs =>
      let* n := q_Size q in
      let* total := enqueuedSize qs in
      retM ((n + total) `mod` 2 ^ 64)
  end.

(** ** Actions on a set *)

Definition kill_one (now : Z) (set key : string) : M S unit :=
  let* entry := ss_Get set key in
  match entry with
  | Some e => ss_MoveTo set "dead" e (now + 180 * 24 * 3600 * SEC)
  | None => retM tt
  end.
Definition is_all (keys : list string) : bool := bool_decide (keys = ["all"]).
Definition actOn (fuel : nat) (now : Z) (set action : string) (keys : list string) : M S unit :=
  if bool_decide (action = "delete") then
    if is_all keys then ss_Clear set
    else forM keys (λ k, ss_Remove set k ;;; retM tt)
  else if bool_decide (action = "add_to_queue") || bool_decide (action = "retry") then
    if is_all keys then EnqueueAll fuel now set
    else forM keys (λ k, EnqueueFrom now set k)
  else if bool_decide (action = "kill") then
    if is_all keys then EnqueueAll fuel now set
    else forM keys (λ k, kill_one now set k)
  else failM (ErrMsg ("invalid action: " +:+ action)).

End pages.

(** ** Grouping digits in threes *)

(** A comma after each digit that a positive multiple of three digits follow. *)
Fixpoint commas (s : string) : string :=
  match s with
  | EmptyString => ""
  | String c t =>
      if negb (bool_decide (t = "")) && (slen t `mod` 3 =? 0) then String c (String "," (commas t))
      else String c (commas t)
  end.
Example commas_1 : commas "1234567" = "1,234,567". Proof. done. Qed.

(** On lists, [k] digits of the last group being written already. *)
Fixpoint commas_from (k : Z) (l : list ascii) : list ascii :=
  match l with
  | [] => []
  | c :: t =>
      if negb (bool_decide (t = [])) && ((Z.of_nat (length t) + k) `mod` 3 =? 0)
      then c :: ","%char :: commas_from k t
      else c :: commas_from k t
  end.

Lemma commas_list s : list_ascii_of_string (commas s) = commas_from 0 (list_ascii_of_string s).
Proof.
  induction s as [|c s IH]; [done|]. cbn [commas list_ascii_of_string commas_from].
  assert (El : Z.of_nat (length (list_ascii_of_string s)) + 0 = slen s).
  { rw Z.add_0_r /slen. f_equal. clear. by induction s as [|c s IH]; [|cbn; rw IH]. }
  rw El. replace (bool_decide (list_ascii_of_string s = [])) with (bool_decide (s = ""))
    by (by destruct s). by destruct (_ && _); cbn [list_ascii_of_string]; rw IH.
Qed.

Lemma commas_from_snoc k l c :
  l ≠ [] →
  commas_from k (l ++ [c]) =
    commas_from (k + 1) l ++ (if (k + 1) `mod` 3 =? 0 then [","%char] else []) ++ [c].
Proof.
  intros Hne. induction l as [|a l IH]; [done|]. cbn [app commas_from].
  destruct (decide (l = [])) as [->|Hl].
  - cbn [app length commas_from]. rw (bool_decide_eq_false_2 ([c] = [])) // (bool_decide_eq_true_2 ([] = [])) //.
    cbn [negb andb]. replace (Z.of_nat 1 + k) with (k + 1) by lia. by destruct (_ =? 0).
  - rw (IH Hl) !bool_decide_eq_false_2 //; [by destruct l|]. cbn [negb andb].
    rw length_app. cbn [length]. replace (Z.of_nat (length l + 1) + k) with (Z.of_nat (length l) + (k + 1)) by lia.
    by destruct ((Z.of_nat (length l) + (k + 1)) `mod` 3 =? 0).
Qed.
Lemma commas_from_mod k l : commas_from (k + 3) l = commas_from k l.
Proof.
  induction l as [|c l IH]; [done|]. cbn [commas_from]. rw IH.
  replace (Z.of_nat (length l) + (k + 3)) with (Z.of_nat (length l) + k + 1 * 3) by lia.
  by rw Z.mod_add.
Qed.

Lemma set_byte_ok j c out :
  0 ≤ j < Z.of_nat (length out) → set_byte j c out = Ok (<[Z.to_nat j := c]> out).
Proof. intros H. rw /set_byte. destruct (Z.leb_spec 0 j), (Z.ltb_spec j (Z.of_nat (length out))); try lia. done. Qed.

Lemma drop_insert_at (j : nat) (c : ascii) (out : list ascii) :
  (j < length out)%nat → drop j (<[j := c]> out) = c :: drop (S j) out.
Proof.
  revert j. induction out as [|o out IH]; intros [|j] Hj; cbn in *; [lia|lia|done|].
  apply IH. lia.
Qed.

(** Positions left for the digits up to [i], with [k] in the current group. *)
Lemma delimit_spec inp i k out :
  (i < length inp)%nat → 0 ≤ k < 3 → let j := Z.of_nat i + (Z.of_nat i + k) `div` 3 in
  j < Z.of_nat (length out) →
  delimit inp i j k out = Ok (commas_from k (take (S i) inp) ++ drop (Z.to_nat (j + 1)) out).
Proof.
  revert k out. induction i as [|i IH]; intros k out Hi Hk j Hj; cbn [delimit].
  - assert (Ej : j = 0) by (unfold j; lia).
    rw set_byte_ok; [lia|]. rw Ej. by destruct inp as [|c inp], out as [|o out]; cbn in *; try lia.
  - rw set_byte_ok; [unfold j; lia|]. set (c := nth (S i) inp "0"%char). set (out1 := <[_ := c]> out).
    assert (Hlen1 : length out1 = length out) by apply length_insert.
    assert (Hc : inp !! S i = Some c) by (destruct (nth_lookup_or_length inp (S i) "0"%char); [done|lia]).
    assert (Hd1 : drop (Z.to_nat j) out1 = c :: drop (Z.to_nat (j + 1)) out).
    { rw drop_insert_at; [lia|]. do 2 f_equal. lia. }
    rw (take_S_r _ _ _ Hc) commas_from_snoc; [destruct inp; [cbn in Hi; lia|done]|].
    destruct (Z.eqb_spec (k + 1) 3) as [E3|E3].
    + rw set_byte_ok; [unfold j; lia|].
      replace (j - 2) with (Z.of_nat i + (Z.of_nat i + 0) `div` 3) by (unfold j; lia).
      rw IH; [lia|lia|rw length_insert Hlen1; unfold j in Hj; lia|].
      rw E3 (commas_from_mod 0 _ : commas_from 3 _ = _). cbn [Z.modulo Z.div_eucl Z.eqb].
      replace (Z.to_nat _) with (Z.to_nat (j - 1)) by (unfold j; lia).
      rw drop_insert_at; [lia|]. replace (S (Z.to_nat (j - 1))) with (Z.to_nat j) by (unfold j; lia).
      rw Hd1 -!app_assoc. done.
    + replace (j - 1) with (Z.of_nat i + (Z.of_nat i + (k + 1)) `div` 3) by (unfold j; lia).
      rw IH; [lia|lia|rw Hlen1; unfold j in Hj; lia|].
      replace (Z.to_nat _) with (Z.to_nat j) by (unfold j; lia). rw Hd1.
      destruct (Z.eqb_spec ((k + 1) `mod` 3) 0); [lia|]. by rw -!app_assoc.
Qed.

Lemma uintWithDelimiter_eq val :
  0 ≤ val → uintWithDelimiter val = Ok (commas (dec_nat val)).
Proof.
  intros Hv. rw /uintWithDelimiter. set (inp := list_ascii_of_string (dec_nat val)).
  pose proof (dec_nat_digits val Hv) as Hd. pose proof (dec_nat_nonempty val) as Hne.
  assert (Hinp : ∃ c l, inp = c :: l ∧ is_digit c = true).
  { unfold inp. destruct (dec_nat val) as [|c s]; [done|]. exists c, (list_ascii_of_string s).
    split; [done|]. cbn in Hd. by apply andb_prop in Hd as [? _]. }
  destruct Hinp as (c & l & Hinp & Hc). set (n := Z.of_nat (length inp)).
  assert (Hn : 1 ≤ n) by (unfold n; rw Hinp; cbn [length]; lia).
  assert (Hfirst : byte_val (nth 0 inp "0"%char) `div` 48 = 1).
  { rw Hinp. cbn [nth]. rw /is_digit in Hc. lia. }
  rw Hfirst. replace (n - 2 + 1) with (n - 1) by lia. set (len := n + (n - 1) `div` 3).
  replace (len - 1) with (Z.of_nat (length inp - 1) + (Z.of_nat (length inp - 1) + 0) `div` 3)
    by (unfold len, n in *; lia).
  rw delimit_spec; [unfold n in Hn; lia|lia|rw List.repeat_length; unfold len, n in *; lia|].
  rw drop_ge; [rw List.repeat_length; unfold len, n in *; lia|]. rw app_nil_r take_ge; [unfold n in Hn; lia|].
  cbn [omap_outcome]. unfold inp. by rw -commas_list string_of_list_ascii_of_string.
Qed.

(** Without commas the text is the decimal again. *)
Fixpoint uncomma (s : string) : string :=
  match s with
  | EmptyString => ""
  | String c t => if bool_decide (c = ","%char) then uncomma t else String c (uncomma t)
  end.
Lemma uncomma_commas s : all_digits s = true → uncomma (commas s) = s.
Proof.
  induction s as [|c s IH]; [done|]. cbn [all_digits commas]. intros [Hc Hs]%andb_prop.
  assert (Hnc : bool_decide (c = ","%char) = false) by (apply bool_decide_eq_false; by intros ->).
  destruct (_ && _); cbn [uncomma]; rw Hnc; [rw bool_decide_eq_true_2 //|]; by rw IH.
Qed.

(** ** What the helpers promise *)

(** [uintWithDelimiter] never indexes outside its buffer and fills it: the
    result is the decimal with a comma before each group of three digits, and
    without its commas it reads back as the count. *)
Theorem uintWithDelimiter_groups val :
  0 ≤ val →
  uintWithDelimiter val = Ok (commas (dec_nat val)) ∧
  parse_nat (uncomma (commas (dec_nat val))) = Some val.
Proof.
  intros Hv. split; [by apply uintWithDelimiter_eq|].
  rw uncomma_commas; [by apply dec_nat_digits|]. by apply parse_nat_dec.
Qed.

Lemma fprintf_plain s : no_char "%" s = true → fprintf s = s.
Proof.
  rw /fprintf. assert (Hg : ∀ fuel, (String.length s ≤ fuel)%nat → no_char "%" s = true → fprintf_from fuel s = s).
  { induction s as [|c s IH]; intros [|f] Hf Hs; cbn [String.length] in Hf; try done; try lia.
    cbn [no_char] in Hs. apply andb_prop in Hs as [Hc Hs]. apply negb_true_iff, bool_decide_eq_false in Hc.
    assert (E : fprintf_from (S f) (String c s) = String c (fprintf_from f s)).
    { destruct c as [[] [] [] [] [] [] [] []]; try done; by destruct Hc. }
    rw E IH //. lia. }
  by apply Hg.
Qed.

(** The JSON of the arguments, cut at the limit. *)
Fixpoint shown_args (limit : nat) (args : list gov) : string :=
  match args with
  | [] => ""
  | a :: rest =>
      let s := print (of_gov a) in
      (if Z.of_nat limit <? slen s then take_str limit s +:+ utf8_encode 8230 else s) +:+
      (match rest with [] => "" | _ => ", " end) +:+ shown_args limit rest
  end.

(** The arguments of a job are displayed as their JSON, each cut at the limit
    with an ellipsis - as long as no cut argument holds a percent sign: the cut
    text is used as a format, so that a percent sign and the letter after it
    come out as "%!d(MISSING)". *)
Theorem displayLimitedArgs_shows limit args :
  ((∀ a, a ∈ args → Z.of_nat limit < slen (print (of_gov a)) →
      no_char "%" (take_str limit (print (of_gov a))) = true) →
   displayLimitedArgs limit args = shown_args limit args) ∧
  (∃ a, displayLimitedArgs 4 [a] ≠ shown_args 4 [a]).
Proof.
  split.
  - induction args as [|a args IH]; intros Hno; [done|]. cbn [displayLimitedArgs shown_args].
    rw IH; [by intros b Hb; apply Hno; right|]. destruct (Z.ltb_spec (Z.of_nat limit) (slen (print (of_gov a)))); [|done].
    rw fprintf_plain //. apply Hno; [left|done].
  - exists (GStr "%d of the disk"). by vm_compute.
Qed.

(** "Kill" on all the entries of a set does not kill: it does what "retry"
    does, and enqueues them, whereas on named entries it moves each to the dead
    set. *)
Theorem kill_all_enqueues `{Redis} {S : Type} `{!HasStore S} fuel now set (s : S) :
  actOn fuel now set "kill" ["all"] s = actOn fuel now set "retry" ["all"] s ∧
  ∀ key, key ≠ "all" →
    actOn fuel now set "kill" [key] s = (kill_one now set key ;;; retM tt) s.
Proof.
  split; [done|]. intros key Hk. rw /actOn /is_all.
  rw (bool_decide_eq_false_2 ([key] = ["all"])); [congruence|]. done.
Qed.
