(* ===== verification/Instances.v ===== *)
(** * Instances

    The hypotheses of the job manager's theorems hold of concrete states: runs on an
    in-memory Redis with one job on its queue, or one job reserved.  The last part
    joins the round trips of the texts the store keeps. *)
From S2P Require Import Prelude GoStrings Float64 GoTime Scores Json Job Redis Store SortedSet Middleware Manager Retry Working Fetch Scheduler Reaper Helpers.
Import MemRedis PushWitness.

#[local] Open Scope list_scope.

(** The job of [PushWitness] as it is stored, and its reservation. *)
Definition job1 : Job := set_EnqueuedAt (Thens now0) (push_defaults now0 job0).
Definition queued1 : string := marshal_job job1.
Definition exp1 : Z := expires_at now0 job1.
Definition res1 : Reservation := reservation_of now0 "w1" (mkLease (Some queued1) (Some job1) false) job1.
Definition entry1 : string := marshal_reservation res1.
Definition working1 : gmap string Z := {[ entry1 := score_of exp1 ]}.
Definition st (d : dataset) : @store mem_redis := mkStore {| data := d; faults := [] |} ∅.
Definition env1 : @Env mem_redis := mkEnv BasicFetch [] [] [] [] 0.
(** On its queue; reserved; and in a working set that memory does not match. *)
Definition m_queued : @mgr mem_redis := mkMgr (st {[ "default" := RList [queued1] ]}) ∅ [].
Definition m_reserved : @mgr mem_redis := mkMgr (st {[ "working" := RZSet working1 ]}) {[ "jid-0001" := res1 ]} [].
Definition m_lost : @mgr mem_redis := mkMgr (st {[ "working" := RZSet working1 ]}) ∅ [].
Definition later1 : Z := exp1 + 60 * SEC.

Lemma exp1_in_range : time_in_range exp1.
Proof. vm_compute. split; [discriminate|reflexivity]. Defined.
Lemma later1_in_range : time_in_range later1.
Proof. vm_compute. split; [discriminate|reflexivity]. Defined.
Lemma m_queued_alive : alive m_queued.
Proof. apply Forall_nil_2. Defined.
Lemma m_reserved_alive : alive m_reserved.
Proof. apply Forall_nil_2. Defined.
Lemma m_lost_alive : alive m_lost.
Proof. apply Forall_nil_2. Defined.
Lemma m_reserved_reserved : reserved m_reserved "jid-0001" res1 job1 working1 entry1.
Proof.
  split; [done|done|done|]. exists exp1. split; [by vm_compute|]. split; [exact exp1_in_range|]. by vm_compute.
Defined.

Lemma Acknowledge_releases_witness :
  ∃ m', Acknowledge env1 now0 "jid-0001" m_reserved = (Ok (Some job1), m').
Proof.
  destruct (Acknowledge_releases env1 now0 "jid-0001" m_reserved res1 job1 working1 entry1 eq_refl
    m_reserved_alive m_reserved_reserved) as (m' & E & _). by exists m'.
Defined.
Lemma Acknowledge_unknown_witness : Acknowledge env1 now0 "jid-0001" m_lost = (Ok None, m_lost).
Proof. by apply (Acknowledge_unknown env1 now0 "jid-0001" m_lost). Defined.
Lemma Fail_unknown_witness :
  ∃ e, Fail env1 7 now0 (Some (mkFail "jid-0001" "boom" "Error" [])) m_lost = (Err e, m_lost).
Proof. by apply (Fail_unknown env1 7 now0 (mkFail "jid-0001" "boom" "Error" []) m_lost). Defined.
Lemma Fail_settles_witness :
  ∃ m', Fail env1 7 now0 (Some (mkFail "jid-0001" "boom" "Error" [])) m_reserved = (Ok tt, m').
Proof.
  destruct (Fail_settles env1 7 now0 (mkFail "jid-0001" "boom" "Error" []) m_reserved res1 job1 working1 entry1 ∅ ∅)
    as (m' & E & _); [done|exact m_reserved_alive|done|exact m_reserved_reserved|done|done| |by exists m'].
  vm_compute. split; [discriminate|reflexivity].
Defined.
Lemma nextRetry_bounds_witness : nextRetry 7 now0 310 < now0.
Proof. apply (nextRetry_bounds 7 now0 310). lia. Defined.

(** ** Retrying *)


(** ** Fetching *)

Lemma Fetch_serves_witness :
  ∃ m', Fetch 1 env1 now0 "w1" ["critical"; "default"] m_queued = (Ok (Some job1), m').
Proof.
  destruct (Fetch_serves 0 env1 now0 "w1" ["critical"; "default"] ["critical"] "default" [] [] queued1 job1 ∅ m_queued)
    as (m' & E & _); [done|done|exact m_queued_alive|done|by repeat constructor|done|done|by vm_compute|done| |by exists m'].
  exact exp1_in_range.
Defined.
Lemma Fetch_spares_paused_witness :
  db (Fetch 1 env1 now0 "w1" ["default"] (set_paused ["default"] m_queued)).2 !! "default" =
  Some (RList [queued1]).
Proof.
  rewrite (Fetch_spares_paused 1 env1 now0 "w1" ["default"] "default" (set_paused ["default"] m_queued) eq_refl eq_refl
    m_queued_alive); [discriminate|by left|done].
Defined.
Lemma job1_wf : wf_job job1.
Proof.
  split_and!.
  1-3,5-7: apply utf8_of_ascii; vm_compute; reflexivity.
  1: by intros l [= <-].
  1-3: reflexivity.
  1: by intros f.
  split; [constructor|exact I].
Defined.
Lemma queue_is_fifo_witness :
  ∃ m', (push_seq env1 [(now0, job0)] ;;; fetch_seq env1 [(now0, "w1")] "default") m0 = (Ok [Some job1], m').
Proof.
  destruct (queue_is_fifo env1 eq_refl eq_refl eq_refl "default" [(now0, job0)] [(now0, "w1")] m0)
    as (m' & E & _); [done|discriminate|discriminate| |done| | |by exists m'].
  - constructor; [|constructor]. split_and!; [by split_and!; try done; eexists|done|done|exact job1_wf].
  - intros r p ->%list_elem_of_singleton ->%list_elem_of_singleton. exact exp1_in_range.
  - split_and!; [exact m0_alive|exact m0_ok|by apply not_elem_of_nil|done|]. by exists ∅.
Defined.

(** ** Restarting *)

Lemma res1_wf : wf_reservation res1.
Proof. split; [by intros j [= <-]; exact job1_wf|]. split_and!; apply utf8_of_ascii; vm_compute; reflexivity. Defined.
Lemma m_reserved_consistent : consistent m_reserved.(workingMap) working1.
Proof.
  split.
  - intros jid res [<- <-]%(lookup_singleton_Some (M := gmap string) "jid-0001" jid res1 res). split; [|split].
    + exact res1_wf.
    + by exists job1.
    + exists (score_of exp1). apply lookup_singleton_eq.
  - intros data [sc [<- _]%(lookup_singleton_Some (M := gmap string) entry1 data (score_of exp1) sc)]. exists "jid-0001", res1. split; [|done]. apply lookup_singleton_eq.
Qed.
Lemma restart_restores_witness :
  ∃ m', newManager 1 m_reserved.(mstore) = (Ok tt, m') ∧ m'.(workingMap) = {[ "jid-0001" := restored res1 ]}.
Proof.
  destruct (restart_restores 1 working1 ∅ m_reserved m_reserved_alive eq_refl m_reserved_consistent eq_refl) as (m' & E & Hw & _).
  { rw /working1 map_size_singleton. lia. }
  exists m'. split; [exact E|]. rw Hw. apply map_fmap_singleton.
Defined.

(** ** Scheduling *)

Definition due_set : gmap string Z := {[ queued1 := score_of now0 ]}.
Definition m_due : @mgr mem_redis := mkMgr (st {[ "scheduled" := RZSet due_set ]}) ∅ [].
Lemma due_upto : upto (score_of now0) due_set = [queued1].
Proof. apply upto_singleton. lia. Qed.
Lemma schedule_moves_due_witness :
  ∃ m', schedule 1 now0 now0 "scheduled" m_due = (Ok (1, None), m').
Proof.
  destruct (schedule_moves_due 1 "scheduled" now0 now0 due_set m_due) as (m' & E & _).
  - apply Forall_nil_2.
  - split; [by intros n q; cbn; rewrite lookup_empty|]. by exists ∅.
  - discriminate.
  - vm_compute. split; [discriminate|reflexivity].
  - reflexivity.
  - intros data. rw due_upto. intros ->%list_elem_of_singleton. exists job1.
    split; [by vm_compute|]. split; [done|]. split; [discriminate|]. split; [discriminate|]. by exists [].
  - rw due_upto. cbn [length]. lia.
  - exists m'. rw E due_upto. reflexivity.
Defined.

(** ** Reaping *)

Lemma working_upto : upto (score_of later1) working1 = [entry1].
Proof. apply upto_singleton. by vm_compute. Qed.
Lemma res1_decodes : unmarshal_reservation entry1 = Ok (restored res1).
Proof. by vm_compute. Qed.
Definition m_extended : @mgr mem_redis :=
  mkMgr (st {[ "working" := RZSet working1 ]}) {[ "jid-0001" := set_extension (later1 + SEC) res1 ]} [].
Lemma Reap_extends_witness :
  ∃ m', reap_one env1 (λ _, 7) now0 later1 entry1 (m_extended, 0) = (Ok tt, (m', 0)).
Proof.
  destruct (Reap_extends env1 (λ _, 7) now0 later1 entry1 (restored res1) job1 (set_extension (later1 + SEC) res1)
              working1 m_extended 0) as (m' & E & _).
  - apply Forall_nil_2.
  - exact res1_decodes.
  - reflexivity.
  - reflexivity.
  - by vm_compute.
  - vm_compute. split; [discriminate|reflexivity].
  - reflexivity.
  - by exists m'.
Defined.
Lemma Reap_drops_unknown_witness :
  ∃ m', ReapExpiredJobs 1 env1 (λ _, 7) now0 later1 m_lost = (Ok (0, None), m').
Proof.
  destruct (Reap_drops_unknown 0 env1 (λ _, 7) now0 later1 entry1 (restored res1) job1 (score_of exp1) m_lost
    m_lost_alive later1_in_range res1_decodes eq_refl eq_refl eq_refl ltac:(by vm_compute)) as (m' & E & _).
  by exists m'.
Defined.

(** ** Sorted sets and texts *)

Lemma Each_visits_all_witness :
  ∃ st', ss_Each 1 "scheduled" (λ _ e, modifyM (λ s : store * list setEntry, (s.1, s.2 ++ [e]))) (m_due.(mstore), [])
         = (Ok tt, (st', (λ p, NewEntry p.1 p.2) <$> zelems due_set)).
Proof.
  destruct (Each_visits_all 1 "scheduled" due_set m_due.(mstore)) as (st' & E & _).
  - apply Forall_nil_2.
  - reflexivity.
  - rw /due_set map_size_singleton. lia.
  - by exists st'.
Defined.
Lemma now0_usual : usual_score (score_of now0).
Proof.
  split; [|split; vm_compute; [discriminate|reflexivity]].
  exists (1600000000), 1074. split; [done|]. split; [by vm_compute|]. by vm_compute.
Qed.
Lemma entry_Key_finds_score_witness :
  ∃ key, entry_Key (NewEntry (score_of now0) queued1) = Ok key ∧ decompose key = Ok (score_of now0, "jid-0001").
Proof.
  apply (entry_Key_finds_score (NewEntry (score_of now0) queued1) job1); [exact (unmarshal_marshal_job job1 job1_wf)|exact now0_usual|reflexivity].
Defined.
Lemma uintWithDelimiter_groups_witness : uintWithDelimiter 1234567 = Ok "1,234,567".
Proof. exact (proj1 (uintWithDelimiter_groups 1234567 ltac:(lia))). Defined.

(** ** What the store keeps *)

(** C38. What is stored is read back: a job survives its encoding whole, and a
    reservation but for the fields that are not written, its lease and its parsed
    instants. *)
Theorem stored_texts_read_back (j : Job) (r : Reservation) :
  wf_job j → wf_reservation r →
  unmarshal_job zero_job (marshal_job j) = Ok j ∧ unmarshal_reservation (marshal_reservation r) = Ok (restored r).
Proof. intros Hj Hr. split; [by apply unmarshal_marshal_job|by apply unmarshal_marshal_reservation]. Qed.
Lemma stored_texts_read_back_witness :
  unmarshal_job zero_job queued1 = Ok job1 ∧ unmarshal_reservation entry1 = Ok (restored res1).
Proof. exact (stored_texts_read_back job1 res1 job1_wf res1_wf). Defined.

(** The scores of a sorted set keep the order of the instants: an earlier instant
    never has the higher score, and until the year 2242 instants a microsecond or
    more apart have different scores. *)
Theorem scores_order_instants t1 t2 :
  time_in_range t1 → time_in_range t2 → t1 ≤ t2 →
  score_of t1 ≤ score_of t2 ∧
  (0 ≤ t1 → t2 < YEAR_2242 * SEC → t1 + 1000 ≤ t2 → score_of t1 < score_of t2).
Proof. intros H1 H2 H. split; [by apply score_mono|by apply score_separates]. Qed.
Lemma scores_order_instants_witness : score_of now0 < score_of exp1.
Proof.
  apply (scores_order_instants now0 exp1); [vm_compute; split; [discriminate|reflexivity]|exact exp1_in_range|..];
    vm_compute; (discriminate || reflexivity).
Defined.
