(* ===== verification/JsNum.v ===== *)
(** * JavaScript numbers and their text

    Numbers of the dashboard's scripts: binary64 with the two infinities and
    NaN ([Fin] carries the finite values of Float64.v; negative zero is not
    told apart).  Arithmetic, [Number::toString], [parseInt], [parseFloat] and
    [Math.round] are those of ECMAScript. *)
From S2P Require Import Prelude GoStrings Float64 Json.

Inductive jsnum := Fin (x : Z) | PInf | NInf | NaN.
#[global] Instance jsnum_eq_dec : EqDecision jsnum.
Proof. solve_decision. Defined.

(** A finite result, or the infinity of its sign. *)
Definition clamp (x : Z) : jsnum :=
  if overflows x then (if x <? 0 then NInf else PInf) else Fin x.
Definition js_neg (a : jsnum) : jsnum :=
  match a with Fin x => Fin (- x) | PInf => NInf | NInf => PInf | NaN => NaN end.
Definition js_add (a b : jsnum) : jsnum :=
  match a, b with
  | NaN, _ | _, NaN => NaN
  | PInf, NInf | NInf, PInf => NaN
  | PInf, _ | _, PInf => PInf
  | NInf, _ | _, NInf => NInf
  | Fin x, Fin y => clamp (f_add x y)
  end.
Definition js_sub (a b : jsnum) : jsnum := js_add a (js_neg b).
(** Division by a positive finite number. *)
Definition js_div_pos (a : jsnum) (y : Z) : jsnum :=
  match a with Fin x => clamp (f_div x y) | _ => a end.
Definition js_int (n : Z) : jsnum := clamp (f_of_Z n).
(** [a < b]; comparisons with NaN are false. *)
Definition js_lt (a b : jsnum) : bool :=
  match a, b with
  | NaN, _ | _, NaN => false
  | Fin x, Fin y => x <? y
  | NInf, NInf => false
  | NInf, _ => true
  | _, PInf => match a with PInf => false | _ => true end
  | _, _ => false
  end.
(** [a == b] *)
Definition js_eq (a b : jsnum) : bool :=
  match a, b with
  | Fin x, Fin y => x =? y
  | PInf, PInf | NInf, NInf => true
  | _, _ => false
  end.
(** 0 and NaN are falsy. *)
Definition falsy (a : jsnum) : bool := match a with Fin x => x =? 0 | NaN => true | _ => false end.

Definition js_floor (a : jsnum) : jsnum := match a with Fin x => js_int (f_floor x) | _ => a end.
(** [Math.round]: the nearest integer, ties upwards. *)
Definition js_round (a : jsnum) : jsnum :=
  match a with Fin x => js_int ((2 * x + UNIT) `div` (2 * UNIT)) | _ => a end.

(** ** [Number::toString] *)

(** Digits without trailing zeros. *)
Fixpoint strip_trailing (s : string) : string :=
  match s with
  | EmptyString => ""
  | String c s' =>
      let t := strip_trailing s' in
      if bool_decide (t = "") && bool_decide (c = "0"%char) then "" else String c t
  end.
(** [digits] are the significant digits, [n] the decimal exponent:
    0.digits times 10^n. *)
Definition js_layout (digits : string) (n : Z) : string :=
  let k := slen digits in
  if (k <=? n) && (n <=? 21) then digits +:+ zeros (Z.to_nat (n - k))
  else if (0 <? n) && (n <=? 21) then take_str (Z.to_nat n) digits +:+ "." +:+ drop_str (Z.to_nat n) digits
  else if (-6 <? n) && (n <=? 0) then "0." +:+ zeros (Z.to_nat (- n)) +:+ digits
  else
    let e := (if 0 <=? n - 1 then "+" else "-") +:+ dec (Z.abs (n - 1)) in
    if k =? 1 then digits +:+ "e" +:+ e
    else take_str 1 digits +:+ "." +:+ drop_str 1 digits +:+ "e" +:+ e.
Definition js_show_abs (x : Z) : string :=
  let '(d, e) := shortest x in
  let all := dec_nat d in
  js_layout (strip_trailing all) (slen all + e).
Definition js_show (a : jsnum) : string :=
  match a with
  | NaN => "NaN"
  | PInf => "Infinity"
  | NInf => "-Infinity"
  | Fin x => if x =? 0 then "0" else if x <? 0 then "-" +:+ js_show_abs (- x) else js_show_abs x
  end.

(** ** [parseInt] and [parseFloat] *)

Definition hex_val (c : ascii) : option Z :=
  let b := byte_val c in
  if is_digit c then Some (b - 48)
  else if (97 <=? b) && (b <=? 102) then Some (b - 87)
  else if (65 <=? b) && (b <=? 70) then Some (b - 55)
  else None.
(** The longest prefix of digits in the radix; [None] when there is none. *)
Fixpoint radix_prefix (radix : Z) (acc : option Z) (s : string) : option Z :=
  match s with
  | String c s' =>
      match hex_val c with
      | Some d => if d <? radix then radix_prefix radix (Some (default 0 acc * radix + d)) s' else acc
      | None => acc
      end
  | EmptyString => acc
  end.
(** JavaScript's white space, in UTF-8: that of Go but for U+0085, and U+FEFF. *)
Definition js_space_runes : list string :=
  filter (λ r, r ≠ of_bytes [194; 133]) space_runes ++ [of_bytes [239; 187; 191]].
Fixpoint js_trim_fuel (fuel : nat) (s : string) : string :=
  match fuel, List.find (λ r, has_prefix r s) js_space_runes with
  | S f, Some r => js_trim_fuel f (drop_str (String.length r) s)
  | _, _ => s
  end.
Definition js_trim_left (s : string) : string := js_trim_fuel (String.length s) s.

Definition strip_sign (s : string) : bool * string :=
  match s with
  | String "-" t => (true, t)
  | String "+" t => (false, t)
  | _ => (false, s)
  end.
Definition parseInt (s : string) : jsnum :=
  let '(neg, t) := strip_sign (js_trim_left s) in
  let '(radix, u) := match t with
                     | String "0" (String "x" u) | String "0" (String "X" u) => (16, u)
                     | _ => (10, t)
                     end in
  match radix_prefix radix None u with
  | Some n => js_int (if neg : bool then - n else n)
  | None => NaN
  end.

(** The exponent is part of the number only when it has digits. *)
Definition float_exp (s : string) : Z :=
  match s with
  | String c t =>
      if bool_decide (c = "e"%char) || bool_decide (c = "E"%char) then
        let '(neg, u) := strip_sign t in
        let '(ds, _) := span_digits u in
        if bool_decide (ds = "") then 0 else (if neg : bool then -1 else 1) * digits_val 0 ds
      else 0
  | EmptyString => 0
  end.
Definition parseFloat (s : string) : jsnum :=
  let '(neg, t) := strip_sign (js_trim_left s) in
  if has_prefix "Infinity" t then (if neg then NInf else PInf)
  else
    let '(ip, u) := span_digits t in
    let '(fp, v) := match u with String "." w => span_digits w | _ => ("", u) end in
    if bool_decide (ip = "") && bool_decide (fp = "") then NaN
    else
      let m := digits_val 0 (ip +:+ fp) in
      clamp (dec_value (if neg : bool then - m else m) (float_exp v - slen fp)).

Example show_1 : js_show (js_int 1234567) = "1234567". Proof. by_compute. Qed.
Example show_2 : js_show (clamp (dec_value 25 (-2))) = "0.25". Proof. by_compute. Qed.
Example show_3 : js_show (clamp (dec_value (-15) 22)) = "-1.5e+23". Proof. by_compute. Qed.
Example show_4 : js_show (clamp (dec_value 5 (-9))) = "5e-9". Proof. by_compute. Qed.
Example parse_1 : parseInt "5000" = js_int 5000. Proof. by_compute. Qed.
Example parse_2 : parseInt " -0x1fz" = js_int (-31). Proof. by_compute. Qed.
Example parse_3 : parseFloat "2500.5px" = clamp (dec_value 25005 (-1)). Proof. by_compute. Qed.
Example parse_4 : parseInt "abc" = NaN. Proof. by_compute. Qed.

(** ** Laws *)

Lemma overflows_small x k : Z.abs x < 2 ^ k → k ≤ 2098 → overflows x = false.
Proof.
  intros H Hk. rw /overflows. apply Z.leb_gt. apply (Z.lt_le_trans _ _ _ H).
  by apply Z.pow_le_mono_r.
Qed.

Lemma int_in_range n : Z.abs n ≤ 2 ^ 53 → overflows (n * UNIT) = false.
Proof.
  intros H. apply (overflows_small _ 1128); [|done]. rw Z.abs_mul (Z.abs_eq UNIT); [by apply Z.lt_le_incl, UNIT_pos|].
  replace (2 ^ 1128) with (2 ^ 54 * UNIT) by (by rw /UNIT -Z.pow_add_r). pose proof UNIT_pos.
  apply Z.mul_lt_mono_pos_r; [done|]. apply (Z.le_lt_trans _ _ _ H). done.
Qed.

(** Integers up to 2^53 are exact. *)
Lemma js_int_exact n : Z.abs n ≤ 2 ^ 53 → js_int n = Fin (n * UNIT).
Proof. intros H. by rw /js_int f_of_Z_exact // /clamp int_in_range. Qed.

Lemma js_sub_int a b :
  Z.abs a ≤ 2 ^ 53 → Z.abs b ≤ 2 ^ 53 → js_sub (js_int a) (js_int b) = js_int (a - b).
Proof.
  intros Ha Hb. rw (js_int_exact a) // (js_int_exact b) // /js_sub /js_add /js_neg /js_int /f_add /f_of_Z.
  by rw Z.mul_sub_distr_r Z.add_opp_r.
Qed.

(** Comparing by the sign of the difference is comparing. *)
Lemma js_lt_sub x y : js_lt (js_sub (Fin x) (Fin y)) (Fin 0) = (x <? y).
Proof.
  rw /js_sub /js_add /js_neg /f_add /clamp.
  assert (R1 : rnd (-1) 1 = -1) by done. assert (R0 : rnd 0 1 = 0) by done.
  destruct (Z.ltb_spec x y) as [H|H].
  - pose proof (rnd_mono (x + - y) (-1) 1 ltac:(lia) ltac:(lia)).
    destruct (overflows _).
    + destruct (Z.ltb_spec (rnd (x + - y) 1) 0); [done|lia].
    + cbn. lia.
  - pose proof (rnd_mono 0 (x + - y) 1 ltac:(lia) ltac:(lia)).
    destruct (overflows _).
    + destruct (Z.ltb_spec (rnd (x + - y) 1) 0); [lia|done].
    + cbn. lia.
Qed.

(** ** The text of an integer *)

(** Digit strings without a leading zero are told apart by their value. *)
Lemma digits_lower d t :
  1 ≤ d ≤ 9 → all_digits t = true → 10 ^ slen t ≤ digits_val 0 (String (digit d) t).
Proof.
  intros Hd Ht. cbn [digits_val]. rw digits_val_shift digit_val_digit; [lia|].
  pose proof (digits_val_bound t Ht). pose proof (Z.pow_pos_nonneg 10 (slen t) ltac:(lia) ltac:(rw /slen; lia)). nia.
Qed.
Lemma digits_unique s t :
  all_digits s = true → all_digits t = true → slen s = slen t →
  digits_val 0 s = digits_val 0 t → s = t.
Proof.
  revert t; induction s as [|c s IH]; intros [|c' t] Hs Ht Hl Hv; try done.
  cbn [all_digits] in Hs, Ht. apply andb_prop in Hs as [Hc Hs]. apply andb_prop in Ht as [Hc' Ht].
  assert (Hl' : slen s = slen t) by (rw /slen in Hl; rw /slen; cbn in Hl; lia).
  cbn [digits_val] in Hv. rw (digits_val_shift _ s) (digits_val_shift _ t) Hl' in Hv.
  pose proof (digits_val_bound s Hs) as Bs. pose proof (digits_val_bound t Ht) as Bt. rw Hl' in Bs.
  pose proof (digit_val_range c Hc). pose proof (digit_val_range c' Hc').
  assert (digit_val c = digit_val c') as E by nia.
  f_equal; [by rw -(digit_digit_val c Hc) -(digit_digit_val c' Hc') E|].
  apply IH; [done..|]. rw E in Hv. lia.
Qed.
Lemma dec_nat_unique d t :
  1 ≤ d ≤ 9 → all_digits t = true →
  dec_nat (digits_val 0 (String (digit d) t)) = String (digit d) t.
Proof.
  intros Hd Ht. set (s := String (digit d) t). pose proof (digits_lower d t Hd Ht) as Hlow. fold s in Hlow.
  assert (Hs : all_digits s = true) by (cbn; rw digit_is_digit; [lia|done]).
  pose proof (digits_val_bound s Hs) as [H0 Hup]. set (v := digits_val 0 s) in *.
  pose proof (Z.pow_pos_nonneg 10 (slen t) ltac:(lia) ltac:(rw /slen; lia)).
  destruct (dec_nat_head v ltac:(lia)) as (d' & t' & E & Hd').
  assert (Hdt : all_digits (dec_nat v) = true) by (apply dec_nat_digits; lia).
  assert (Ht' : all_digits t' = true) by (rw E in Hdt; cbn in Hdt; by apply andb_prop in Hdt as [_ ?]).
  pose proof (digits_lower d' t' Hd' Ht') as Hlow'. rw -E dec_nat_val in Hlow'; [lia|].
  pose proof (digits_val_bound _ Hdt) as [_ Hup']. rw dec_nat_val in Hup'; [lia|].
  assert (S1 : slen s = slen t + 1) by (rw /slen; cbn; lia).
  assert (S2 : slen (dec_nat v) = slen t' + 1) by (rw E /slen; cbn; lia).
  apply digits_unique; [done..| |rw dec_nat_val //].
  rw S1 S2. rw S1 in Hup. rw S2 in Hup'.
  destruct (Z.lt_trichotomy (slen t) (slen t')) as [L|[L|L]]; [|lia|].
  - pose proof (Z.pow_le_mono_r 10 (slen t + 1) (slen t') ltac:(lia) ltac:(lia)). lia.
  - pose proof (Z.pow_le_mono_r 10 (slen t' + 1) (slen t) ltac:(lia) ltac:(lia)). lia.
Qed.

Lemma dec_nat_zeros d e :
  0 < d → 0 ≤ e → dec_nat (d * 10 ^ e) = dec_nat d +:+ zeros (Z.to_nat e).
Proof.
  intros Hd He. destruct (dec_nat_head d Hd) as (h & t & E & Hh).
  pose proof (dec_nat_digits d ltac:(lia)) as Hdig. rw E in Hdig. cbn in Hdig. apply andb_prop in Hdig as [_ Ht].
  pose proof (dec_nat_unique h (t +:+ zeros (Z.to_nat e)) Hh) as U.
  rw all_digits_app Ht zeros_digits in U. specialize (U eq_refl).
  change (String (digit h) (t +:+ zeros (Z.to_nat e))) with (String (digit h) t +:+ zeros (Z.to_nat e)) in U.
  rw -E in U. rw -U digits_val_app digits_val_shift dec_nat_val; [lia|]. rw zeros_val slen_zeros //. f_equal. lia.
Qed.

Lemma strip_trailing_spec s : ∃ z, s = strip_trailing s +:+ zeros z.
Proof.
  induction s as [|c s [z IH]]; [by exists 0%nat|]. cbn [strip_trailing].
  case_bool_decide as H; cbn [andb].
  - case_bool_decide as Hc; subst; cbn.
    + exists (S z). cbn. f_equal. rw {1}IH H //.
    + exists z. f_equal. exact IH.
  - exists z. cbn. f_equal. exact IH.
Qed.

(** Digits and exponent of an integer lay out as the integer. *)
Lemma js_layout_int d e :
  0 < d → 0 ≤ e → slen (dec_nat d) + e ≤ 21 →
  js_layout (strip_trailing (dec_nat d)) (slen (dec_nat d) + e) = dec_nat (d * 10 ^ e).
Proof.
  intros Hd He Hl. destruct (strip_trailing_spec (dec_nat d)) as [z Hz]. set (s := strip_trailing _) in *.
  assert (Hs : slen (dec_nat d) = slen s + Z.of_nat z).
  { rw {1}Hz /slen length_app_str length_zeros. lia. }
  rw /js_layout. replace ((slen s <=? slen (dec_nat d) + e) && (slen (dec_nat d) + e <=? 21)) with true by lia.
  rw dec_nat_zeros // {2}Hz app_str_assoc. f_equal. rw Hs.
  replace (Z.to_nat (slen s + Z.of_nat z + e - slen s)) with (z + Z.to_nat e)%nat by lia.
  clear. induction z as [|z IH]; [done|]. cbn. by rw IH.
Qed.

(** The decimal exponent of an integer. *)
Lemma log10_bounds :
  forallb (λ l : nat, let g := (Z.of_nat l * 30103) `div` 100000 in
             (0 <=? g) && (g <=? 15) && (10 ^ g <=? 2 ^ Z.of_nat l) && (2 ^ (Z.of_nat l + 1) <? 10 ^ (g + 2))) (seq 0 53) = true.
Proof. vm_compute. reflexivity. Qed.
Lemma ge_pow10_int n k : 0 ≤ k → ge_pow10 (n * UNIT) k = (10 ^ k <=? n).
Proof.
  intros Hk. rw /ge_pow10. destruct (Z.leb_spec 0 k); [|lia]. pose proof UNIT_pos.
  destruct (Z.leb_spec (10 ^ k) n); [apply Z.leb_le|apply Z.leb_gt]; nia.
Qed.
Lemma log10_floor_int n :
  0 < n < 2 ^ 53 → 0 ≤ log10_floor (n * UNIT) ≤ 16 ∧ 10 ^ log10_floor (n * UNIT) ≤ n < 10 ^ (log10_floor (n * UNIT) + 1).
Proof.
  intros Hn. rw /log10_floor.
  replace (Z.log2 (n * UNIT) - 1074) with (Z.log2 n).
  2:{ rw /UNIT Z.log2_mul_pow2; lia. }
  pose proof (Z.log2_nonneg n). pose proof (Z.log2_spec n ltac:(lia)) as [L1 L2].
  assert (Z.log2 n < 53) by (apply Z.log2_lt_pow2; lia).
  pose proof log10_bounds as B. rw forallb_forall in B.
  specialize (B (Z.to_nat (Z.log2 n))). rw in_seq Z2Nat.id // in B. specialize (B ltac:(lia)). cbn zeta in B.
  set (g := (Z.log2 n * 30103) `div` 100000) in *.
  apply andb_prop in B as [[[B1 B2]%andb_prop B3]%andb_prop B4].
  rw !ge_pow10_int; [lia..|].
  replace (Z.log2 n + 1) with (Z.succ (Z.log2 n)) in B4 by lia.
  apply Z.leb_le in B1, B2, B3. apply Z.ltb_lt in B4. clearbody g.
  destruct (Z.leb_spec (10 ^ (g + 1)) n); [|destruct (Z.leb_spec (10 ^ g) n)]; [|lia|lia].
  replace (g + 1 + 1) with (g + 2) by lia. repeat split; lia.
Qed.

Lemma find_first {A} (f : A → bool) (l : list A) (k : nat) (y : A) :
  l !! k = Some y → f y = true →
  ∃ j x, (j ≤ k)%nat ∧ l !! j = Some x ∧ f x = true ∧ List.find f l = Some x.
Proof.
  revert k; induction l as [|a l IH]; intros k Hk Hy; [done|]. cbn [List.find].
  destruct (f a) eqn:Ea; [exists 0%nat, a; repeat split; [lia|done]|].
  destruct k as [|k]; [cbn in Hk; simplify_eq; congruence|].
  destruct (IH k Hk Hy) as (j & x & Hj & Hx & Hf & E). exists (S j), x. repeat split; [lia|done..].
Qed.

Lemma dec_value_int d e :
  0 ≤ e → Z.abs (d * 10 ^ e) ≤ 2 ^ 53 → dec_value d e = d * 10 ^ e * UNIT.
Proof.
  intros He H. rw /dec_value. destruct (Z.leb_spec 0 e); [|lia].
  apply rnd_exact_1. by exists (d * 10 ^ e), 1074.
Qed.
Lemma dec_value_eq d e n :
  0 ≤ e → 0 ≤ d → 0 ≤ n < 2 ^ 53 → dec_value d e = n * UNIT → d * 10 ^ e = n.
Proof.
  intros He Hd Hn. pose proof UNIT_pos. pose proof (Z.pow_pos_nonneg 10 e ltac:(lia) He).
  destruct (Z.le_gt_cases (d * 10 ^ e) (2 ^ 53)) as [L|L].
  - rw dec_value_int //; [lia|]. nia.
  - rw /dec_value. destruct (Z.leb_spec 0 e); [|lia].
    pose proof (rnd_mono (2 ^ 53 * UNIT) (d * 10 ^ e * UNIT) 1 ltac:(lia) ltac:(nia)) as M.
    rw (rnd_exact_1 (2 ^ 53 * UNIT)) in M; [by exists (2 ^ 53), 1074|]. nia.
Qed.

(** The shortest decimal of an integer is the integer. *)
Lemma shortest_int n :
  0 < n < 2 ^ 53 → ∃ d e, shortest (n * UNIT) = (d, e) ∧ 0 ≤ e ∧ 0 < d ∧ d * 10 ^ e = n.
Proof.
  intros Hn. pose proof (log10_floor_int n Hn) as [Hr Hb]. set (r := log10_floor (n * UNIT)) in *.
  pose proof UNIT_pos as HU.
  assert (Hlast : round_digits (n * UNIT) (Z.to_nat (r + 1)) = (n, 0)).
  { rw /round_digits -/r. replace (r - (Z.of_nat (Z.to_nat (r + 1)) - 1)) with 0 by lia.
    destruct (Z.leb_spec 0 0); [|lia].
    change (10 ^ 0) with 1. rw Z.mul_1_r round_half_even_exact //. }
  set (good := λ de : Z * Z, bool_decide (parse_float (show_pos de.1 de.2) = Some (n * UNIT))).
  assert (Hgood : good (n, 0) = true).
  { apply bool_decide_eq_true_2. change (parse_float (show_pos n 0) = Some (n * UNIT)).
    assert (E : dec_value n 0 = n * UNIT) by (rw dec_value_int; lia).
    rw parse_show_pos ?E //; [lia|]. apply int_in_range. lia. }
  assert (Hk : (round_digits (n * UNIT) <$> seq 1 17) !! Z.to_nat r = Some (n, 0)).
  { rw list_lookup_fmap lookup_seq_lt; [lia|]. cbn [fmap option_fmap option_map]. f_equal.
    rw -Hlast. f_equal. lia. }
  destruct (find_first good _ _ _ Hk Hgood) as (j & [d e] & Hj & Hx & Hf & E).
  exists d, e. split.
  { rw /shortest. change (List.find _ _) with (List.find good (round_digits (n * UNIT) <$> seq 1 17)). by rw E. }
  rw list_lookup_fmap lookup_seq_lt in Hx; [lia|]. cbn [fmap option_fmap option_map] in Hx.
  assert (He : e = r - Z.of_nat j) by (rw /round_digits -/r in Hx; simplify_eq; lia).
  assert (Hd : 0 ≤ d).
  { rw /round_digits -/r in Hx. case_match; simplify_eq; apply round_half_even_nonneg; nia. }
  apply bool_decide_eq_true in Hf. cbn [fst snd] in Hf.
  destruct (lex_show_pos d e Hd) as (m' & e' & Hlex & Hv).
  rw (parse_float_lex _ _ _ Hlex) Hv in Hf. destruct (overflows _); [done|]. injection Hf as Hf.
  assert (Hn' : d * 10 ^ e = n) by (apply dec_value_eq; [lia..|done]).
  repeat split; [lia| |done]. destruct (decide (d = 0)) as [->|]; lia.
Qed.

(** JavaScript writes an integer below 2^53 in decimal. *)
Lemma js_show_int n : 0 ≤ n < 2 ^ 53 → js_show (js_int n) = dec_nat n.
Proof.
  intros Hn. rw js_int_exact; [lia|]. pose proof UNIT_pos. cbn [js_show].
  destruct (decide (n = 0)) as [->|Hn0]; [done|].
  rw (proj2 (Z.eqb_neq (n * UNIT) 0)); [nia|]. rw (proj2 (Z.ltb_ge (n * UNIT) 0)); [nia|].
  destruct (shortest_int n ltac:(lia)) as (d & e & E & He & Hd & Hde). rw /js_show_abs E.
  rw js_layout_int //; [|by rw Hde].
  assert (Hlen : slen (dec_nat d) + e = slen (dec_nat n)).
  { rw -Hde dec_nat_zeros // /slen length_app_str length_zeros. lia. }
  rw Hlen. rw /slen /dec_nat. pose proof (dec_fuel_length (S (Z.to_nat (Z.log2 n))) n "" 16 ltac:(simpl; lia) ltac:(lia)).
  cbn in *. lia.
Qed.
