(* ===== verification/Dashboard.v ===== *)
(** * The dashboard's script (src/webui/static/dashboard.js)

    What the script computes: numbers with delimiters, the series of the history
    graph, the updates of the statistics, the legends and the parameters of the
    graphs.  What it asks of jQuery and the DOM is the list of its calls
    ([call]).  The page's events are in Page.v. *)
From S2P Require Import Prelude GoStrings Float64 GoTime Redis Store JsNum Helpers.

#[local] Open Scope list_scope.

(** ** Numbers with delimiters *)

(** [(\d\d\d)+(?!\d)] at the head of the string. *)
Definition digit_head (s : string) : bool :=
  match s with String c _ => is_digit c | EmptyString => false end.
Fixpoint triples (s : string) : bool :=
  match s with
  | String a (String b (String c t)) =>
      is_digit a && is_digit b && is_digit c && (triples t || negb (digit_head t))
  | _ => false
  end.
(** [replace(/(\d)(?=(\d\d\d)+(?!\d))/g, '$1' + delimiter)] *)
Fixpoint delimit_js (delimiter s : string) : string :=
  match s with
  | EmptyString => ""
  | String c t =>
      if is_digit c && triples t then String c (delimiter +:+ delimit_js delimiter t)
      else String c (delimit_js delimiter t)
  end.
(** [delimiter] is free of the replacement's own "$"; undefined and empty
    delimiters are falsy. *)
Definition numberWithDelimiter (delimiter : option string) (number : jsnum) : string :=
  let d := match delimiter with Some s => if bool_decide (s = "") then "," else s | None => "," end in
  match split_char "." (js_show number) with
  | s0 :: rest => join "." (delimit_js d s0 :: rest)
  | [] => ""
  end.

Example delim_1 : numberWithDelimiter None (js_int 1234567) = "1,234,567". Proof. by_compute. Qed.
Example delim_2 : numberWithDelimiter None (clamp (dec_value (-12345675) (-2))) = "-123,456.75". Proof. by_compute. Qed.

(** ** Sorting by a number: [l.sort((a, b) => a.k - b.k)]

    The sort of the language is stable; with keys that are numbers any stable sort
    gives this list.  A difference that is not a number counts as equal, and what an
    engine then does with the rest is its own. *)

Section sort.
Context {A : Type} (key : A → jsnum).
Fixpoint insert_by (x : A) (l : list A) : list A :=
  match l with
  | [] => [x]
  | y :: l' => if js_lt (js_sub (key x) (key y)) (Fin 0) then x :: l else y :: insert_by x l'
  end.
Definition sort_by (l : list A) : list A := fold_left (λ acc x, insert_by x acc) l [].
End sort.

(** ** Series *)

(** [Date.parse] of the form "YYYY-MM-DD", in milliseconds; other texts are up to
    the browser. *)
Definition iso_date (s : string) : option Z :=
  '(y, s1) ← get_year s; s2 ← skip "-" s1;
  '(m, s3) ← getnum true s2; s4 ← skip "-" s3;
  '(d, rest) ← getnum true s4;
  if bool_decide (rest = "") && (1 <=? m) && (m <=? 12) && (1 <=? d) && (d <=? days_in m y)
  then Some (days_from_civil y m d * 86400000) else None.

Record point := mkPoint { px : jsnum; py : jsnum }.

Section series.
(** [Date.parse] of the texts ECMAScript leaves to the browser. *)
Variable date_parse_other : string → jsnum.
Definition date_parse (s : string) : jsnum :=
  match iso_date s with Some ms => js_int ms | None => date_parse_other s end.

(** [obj]'s properties, in the order [for...in] visits them. *)
Definition createSeries (obj : list (string * jsnum)) : list point :=
  sort_by px
    (fold_left (λ series kv, mkPoint (js_div_pos (date_parse kv.1) (1000 * UNIT)) kv.2 :: series) obj []).
End series.

(** ** Calls on jQuery and the DOM *)

Inductive jsval := JUndef | JText (s : string) | JNumber (n : jsnum).
Record call := mkCall { selector : string; method : string; arg : jsval }.

(** The parts of the server's state ([data.faktory], with the sizes of its
    [tasks]), and its "server" part as the object it is. *)
Record tasks_data := mkTasks {
  Busy_size : jsnum; Scheduled_size : jsnum; Retries_size : jsnum; Dead_size : jsnum
}.
Record faktory_data := mkData {
  total_processed : jsnum; total_failures : jsnum; total_enqueued : jsnum; tasks : tasks_data
}.
Definition object : Type := list (string * jsval).
Definition property (o : object) (k : string) : jsval :=
  match List.find (λ kv, bool_decide (kv.1 = k)) o with Some kv => kv.2 | None => JUndef end.
Record reply := mkReply { faktory : faktory_data; server : object; server_utc_time : jsval }.

Definition html (sel : string) (v : jsval) : call := mkCall sel "html" v.
Definition count_call (name : string) (n : jsnum) : call :=
  html ("ul.summary li." +:+ name +:+ " span.count") (JText (numberWithDelimiter None n)).
Definition updateStatsSummary (data : faktory_data) : list call :=
  let amt := data.(tasks).(Busy_size) in
  (if js_eq amt (Fin 0) then
     [mkCall "i.status-sprite" "removeClass" (JText "status-active");
      mkCall "i.status-sprite" "addClass" (JText "status-idle")]
   else
     [mkCall "i.status-sprite" "removeClass" (JText "status-idle");
      mkCall "i.status-sprite" "addClass" (JText "status-active")]) ++
  [count_call "processed" data.(total_processed);
   count_call "failed" data.(total_failures);
   count_call "busy" data.(tasks).(Busy_size);
   count_call "scheduled" data.(tasks).(Scheduled_size);
   count_call "retries" data.(tasks).(Retries_size);
   count_call "enqueued" data.(total_enqueued);
   count_call "dead" data.(tasks).(Dead_size)].
Definition updateServerStats (data : object) : list call :=
  [html ".stat h3.connections" (property data "connections");
   html ".stat h3.used_memory_human" (property data "used_memory_mb");
   html ".stat h3.commands" (property data "commands")].
Definition updateFooterUTCTime (time : jsval) : list call := [html ".server-utc-time" time].
(** The queued function runs after the delay. *)
Definition pulseBeacon_later : list call :=
  [mkCall ".beacon" "removeClass" (JText "pulse"); mkCall ".beacon" "dequeue" JUndef].
Definition pulseBeacon : list call :=
  [mkCall ".beacon" "addClass" (JText "pulse"); mkCall ".beacon" "delay" (JNumber (js_int 1000));
   mkCall ".beacon" "queue" (JText "pulseBeacon_later")].
Definition setSliderLabel (val : string) : list call :=
  let label := js_show (js_round (js_div_pos (parseFloat val) (1000 * UNIT))) +:+ " sec" in
  [html "span.current-interval" (JText label)].
Definition resetGraphs : list call :=
  [mkCall "#realtime" "innerHTML" (JText ""); mkCall "#history" "innerHTML" (JText "")].

(** ** The hover legend of both graphs

    [graph_y] is the graph's y scale.  The legend is emptied and filled again; the
    dots are appended to the hover element. *)

Record detail := mkDetail {
  order : jsnum; d_name : string; formattedYValue : jsnum; color : string; y0 : jsnum; y : jsnum
}.
Inductive node := El (className innerHTML style : string) (children : list node).
Section hover.
Variable graph_y : jsnum → jsnum.
Definition legend_line (d : detail) : node :=
  let swatch := El "swatch" "" ("background-color:" +:+ d.(color)) [] in
  let label := El "tag" (d.(d_name) +:+ ": " +:+ numberWithDelimiter None (js_floor d.(formattedYValue))) "" [] in
  El "line" "" "" [swatch; label].
Definition hover_dot (d : detail) : node :=
  El "dot active" "" ("top:" +:+ js_show (graph_y (js_add d.(y0) d.(y))) +:+ "px;border-color:" +:+ d.(color)) [].
(** One round of the loop on the details, in their order. *)
Definition hover_each (d : detail) (drawn : list node * list node) : list node * list node :=
  (drawn.1 ++ [legend_line d], drawn.2 ++ [hover_dot d]).
Definition realtime_hover (formattedXValue : string) (details : list detail) : list node * list node :=
  let timestamp := El "timestamp" formattedXValue "" [] in
  fold_left (λ drawn d, hover_each d drawn) (sort_by order details) ([timestamp], []).
Definition history_hover (formattedXValue : string) (details : list detail) : list node * list node :=
  let timestamp := El "timestamp" formattedXValue "" [] in
  fold_left (λ drawn d, hover_each d drawn) (sort_by order details) ([timestamp], []).
End hover.

(** ** The parameters of the graphs *)

Definition responsiveWidth (clientWidth : jsnum) : jsnum := js_sub clientWidth (js_int 30).

(** A series of a graph; the label is an attribute the element may lack. *)
Record graph_series := mkGSeries {
  name : option string; s_color : string; stroke_color : string; s_data : list point
}.
(** The axes drawn with a graph: the y axis with its tick format and treatment, and
    the axis of time. *)
Inductive axis := AxisY (tickFormat ticksTreatment : string) | AxisTime.
(** [fixed]: the interval and the number of points of a fixed-duration series. *)
Record graph_args := mkGraph {
  element : string; width : jsnum; height : Z; renderer : string; stroke : bool;
  interpolation : string; series : list graph_series; fixed : option (jsnum * Z);
  axes : list axis
}.

(** [parseInt(localStorage.timeInterval || '5000')] *)
Definition time_interval (stored : option string) : jsnum :=
  parseInt (match stored with Some s => if bool_decide (s = "") then "5000" else s | None => "5000" end).

Definition realtime_args (w : jsnum) (failedLabel processedLabel : option string) (timeInterval : jsnum) : graph_args :=
  mkGraph "realtime" (responsiveWidth w) 200 "area" true "step"
    [mkGSeries failedLabel "rgba(255,89,0,0.5)" "#E65000" [];
     mkGSeries processedLabel "rgba(85,212,135,0.5)" "#55D487" []]
    (Some (timeInterval, 100))
    [AxisY "formatKMBT" "glow"].
Definition history_args (w : jsnum) (failedLabel processedLabel : option string) (failed processed : list point) : graph_args :=
  mkGraph "history" (responsiveWidth w) 200 "area" true "step"
    [mkGSeries failedLabel "rgba(255,89,0,0.5)" "#E65000" failed;
     mkGSeries processedLabel "rgba(85,212,135,0.5)" "#55D487" processed] None
    [AxisTime; AxisY "formatKMBT" "glow"].

(** The data point given to the graph: an object with a property per label (an
    attribute that is missing names the property "undefined"), so equal labels
    share one. *)
Definition set_prop (k : string) (v : jsnum) (o : list (string * jsnum)) : list (string * jsnum) :=
  if existsb (λ kv, bool_decide (kv.1 = k)) o
  then List.map (λ kv, if bool_decide (kv.1 = k) then (k, v) else kv) o else o ++ [(k, v)].
Definition prop_key (label : option string) : string := default "undefined" label.
Definition data_point (failedLabel processedLabel : option string) (failed processed : jsnum) : list (string * jsnum) :=
  set_prop (prop_key processedLabel) processed (set_prop (prop_key failedLabel) failed []).

(** ** Numbers with delimiters group the digits *)

Lemma triples_digits k t :
  (String.length t ≤ k)%nat → all_digits t = true →
  triples t = negb (bool_decide (t = "")) && (slen t `mod` 3 =? 0).
Proof.
  revert t; induction k as [|k IH]; intros [|a [|b [|c t]]] Hk H; try done; [cbn in Hk; lia|].
  cbn [all_digits] in H. apply andb_prop in H as [Ha [Hb [Hc Ht]%andb_prop]%andb_prop].
  cbn [triples]. rw Ha Hb Hc IH //; [cbn in Hk; lia|].
  replace (slen (String a (String b (String c t)))) with (slen t + 1 * 3) by (rw /slen; cbn [String.length]; lia).
  rw Z.mod_add //. destruct t as [|d t]; [done|].
  rw (bool_decide_eq_false_2 (String d t = "")) //. cbn [digit_head all_digits] in *.
  apply andb_prop in Ht as [-> _]. by rw orb_false_r.
Qed.
Lemma delimit_commas s : all_digits s = true → delimit_js "," s = commas s.
Proof.
  induction s as [|c s IH]; [done|]. cbn [all_digits]. intros [Hc Hs]%andb_prop.
  cbn [delimit_js commas]. rw Hc (triples_digits _ s (Nat.le_refl _) Hs) IH //.
Qed.
Lemma all_digits_no_char c s : is_digit c = false → all_digits s = true → no_char c s = true.
Proof. intros Hc Hs. rw all_chars_digits in Hs. by apply all_chars_no_char with is_digit. Qed.

Lemma js_show_abs_neg n : 0 < n < 2 ^ 53 → js_show (js_int (- n)) = "-" +:+ dec_nat n.
Proof.
  intros Hn. rw -js_show_int; [lia|]. rw !js_int_exact; [lia|lia|]. cbn [js_show]. pose proof UNIT_pos.
  rw (proj2 (Z.eqb_neq (n * UNIT) 0)); [nia|]. rw (proj2 (Z.ltb_ge (n * UNIT) 0)); [nia|].
  rw (proj2 (Z.eqb_neq (- n * UNIT) 0)); [nia|]. rw (proj2 (Z.ltb_lt (- n * UNIT) 0)); [nia|].
  do 2 f_equal. lia.
Qed.
Lemma js_show_signed n :
  Z.abs n < 2 ^ 53 → js_show (js_int n) = (if n <? 0 then "-" else "") +:+ dec_nat (Z.abs n).
Proof.
  intros H. destruct (Z.ltb_spec n 0).
  - rw -{1}(Z.opp_involutive n) js_show_abs_neg; [lia|]. by rw Z.abs_neq; [lia|].
  - rw js_show_int; [lia|]. by rw Z.abs_eq.
Qed.

(** A count below 2^53 in absolute value is shown in decimal with a comma
    between its groups of three digits, counted from the right, after its sign. *)
Theorem numberWithDelimiter_groups n :
  Z.abs n < 2 ^ 53 →
  numberWithDelimiter None (js_int n) = (if n <? 0 then "-" else "") +:+ commas (dec_nat (Z.abs n)).
Proof.
  intros H. rw /numberWithDelimiter js_show_signed //.
  pose proof (dec_nat_digits (Z.abs n) ltac:(lia)) as Hd.
  assert (Hdot : no_char "." ((if n <? 0 then "-" else "") +:+ dec_nat (Z.abs n)) = true).
  { pose proof (all_digits_no_char "." _ eq_refl Hd). by destruct (n <? 0). }
  rw split_char_no // /=. rw -(delimit_commas _ Hd). by destruct (n <? 0).
Qed.
Lemma numberWithDelimiter_groups_witness :
  numberWithDelimiter None (js_int (-1234567)) = "-1,234,567".
Proof. exact (numberWithDelimiter_groups (-1234567) ltac:(lia)). Defined.

Lemma numberWithDelimiter_int n :
  0 ≤ n < 2 ^ 53 → numberWithDelimiter None (js_int n) = commas (dec_nat n).
Proof.
  intros H. rw /numberWithDelimiter js_show_int //. pose proof (dec_nat_digits n ltac:(lia)) as Hd.
  rw split_char_no; [by apply all_digits_no_char|]. cbn. by rw delimit_commas.
Qed.

(** C3. The script and the server's pages write a count the same way: below 2^53,
    [numberWithDelimiter] gives the text of helpers.go's [uintWithDelimiter]. *)
Theorem numberWithDelimiter_as_server n :
  0 ≤ n < 2 ^ 53 → uintWithDelimiter n = Ok (numberWithDelimiter None (js_int n)).
Proof.
  intros H. rw uintWithDelimiter_eq; [lia|]. by rw numberWithDelimiter_int.
Qed.
Lemma numberWithDelimiter_as_server_witness :
  uintWithDelimiter 9007199254740991 = Ok (numberWithDelimiter None (js_int 9007199254740991)).
Proof. apply (numberWithDelimiter_as_server 9007199254740991). lia. Defined.

(** ** Sorting by a number *)

Section sort_laws.
Context {A : Type} (key : A → jsnum).

Lemma insert_by_perm x l : insert_by key x l ≡ₚ x :: l.
Proof.
  induction l as [|y l IH]; [done|]. cbn [insert_by]. case_match; [done|].
  rewrite IH. apply Permutation_swap.
Qed.
(** Nothing is lost or doubled, whatever the keys. *)
Lemma sort_by_perm l : sort_by key l ≡ₚ l.
Proof.
  rw /sort_by. assert (H : ∀ acc, fold_left (λ acc x, insert_by key x acc) l acc ≡ₚ acc ++ l).
  { induction l as [|x l IH]; intros acc; cbn [fold_left]; [by rw app_nil_r|].
    rewrite IH insert_by_perm. by rewrite -Permutation_middle. }
  apply H.
Qed.

Definition finite_key (x : A) : Prop := ∃ z, key x = Fin z.
Definition key_le (a b : A) : Prop := js_lt (key b) (key a) = false.
Lemma js_lt_key a b :
  finite_key a → finite_key b → js_lt (js_sub (key a) (key b)) (Fin 0) = js_lt (key a) (key b).
Proof. intros [x ->] [y' ->]. apply js_lt_sub. Qed.
Lemma key_le_trans a b c :
  finite_key a → finite_key b → finite_key c → key_le a b → key_le b c → key_le a c.
Proof. rw /key_le. intros [x ->] [y' ->] [z ->]. cbn. rw !Z.ltb_ge. lia. Qed.
Lemma key_lt_le a b : finite_key a → finite_key b → js_lt (key a) (key b) = true → key_le a b.
Proof. rw /key_le. intros [x ->] [y' ->]. cbn. lia. Qed.

Lemma insert_by_sorted x l :
  finite_key x → Forall finite_key l → StronglySorted key_le l → StronglySorted key_le (insert_by key x l).
Proof.
  intros Hx. induction l as [|y' l IH]; intros Hl Hs; cbn [insert_by]; [by repeat constructor|].
  inversion_clear Hl as [|?? Hy Hl']. apply StronglySorted_inv in Hs as [Hs Hall].
  rw js_lt_key //. destruct (js_lt (key x) (key y')) eqn:E.
  - pose proof (key_lt_le _ _ Hx Hy E). constructor; [by constructor|]. constructor; [done|].
    apply Forall_forall. intros z Hz. apply (key_le_trans x y' z); [done|done| |done|].
    + by apply (proj1 (Forall_forall _ _) Hl').
    + by apply (proj1 (Forall_forall _ _) Hall).
  - constructor; [by apply IH|]. rewrite insert_by_perm. by constructor.
Qed.
Lemma sort_by_sorted l : Forall finite_key l → StronglySorted key_le (sort_by key l).
Proof.
  intros Hl. rw /sort_by.
  assert (H : ∀ acc, Forall finite_key acc → StronglySorted key_le acc →
                     StronglySorted key_le (fold_left (λ acc x, insert_by key x acc) l acc)).
  { induction Hl as [|x l Hx Hl IH]; intros acc Ha Hs; cbn [fold_left]; [done|].
    apply IH; [|by apply insert_by_sorted]. rewrite insert_by_perm. by constructor. }
  apply H; constructor.
Qed.
Lemma sorted_strict l :
  Forall finite_key l → NoDup (List.map key l) → StronglySorted key_le l →
  StronglySorted (λ a b, js_lt (key a) (key b) = true) l.
Proof.
  induction l as [|x l IH]; intros Hf Hn Hs; [constructor|].
  inversion_clear Hf as [|?? [v Hx] Hl]. cbn [List.map] in Hn. apply NoDup_cons in Hn as [Hx' Hn].
  apply StronglySorted_inv in Hs as [Hs Hall]. constructor; [by apply IH|].
  apply Forall_forall. intros z Hz. pose proof (proj1 (Forall_forall _ _) Hall z Hz) as Hle.
  destruct (proj1 (Forall_forall _ _) Hl z Hz) as [w Hw].
  assert (key x ≠ key z) as Hne.
  { intros E. apply Hx'. rw E. apply list_elem_of_In, in_map. by apply list_elem_of_In. }
  rw /key_le Hx Hw in Hle. rw Hx Hw in Hne. rw Hx Hw. cbn in *. apply Z.ltb_ge in Hle. apply Z.ltb_lt.
  assert (v ≠ w) by congruence. lia.
Qed.
End sort_laws.

(** ** The series of the history graph *)

(** The second at which a day of the history begins, in UTC. *)
Definition midnight (date : string) : Z := default 0 (iso_date date) `div` 1000.

Lemma days_from_civil_small y m d :
  0 ≤ y ≤ 9999 → 1 ≤ m ≤ 12 → 1 ≤ d ≤ 31 → Z.abs (days_from_civil y m d) < 2 ^ 22.
Proof.
  intros Hy Hm Hd. rw /days_from_civil. case_match; lia.
Qed.
Lemma digits_val_year s t y : get_year s = Some (y, t) → 0 ≤ y ≤ 9999.
Proof.
  rw /get_year. case_match eqn:E; [|done]. intros H%(inj Some). apply (f_equal fst) in H. cbn [fst] in H. subst y.
  apply andb_prop in E as [E1 E2].
  apply bool_decide_eq_true in E1. pose proof (digits_val_bound _ E2) as B. rw /slen E1 in B.
  change (10 ^ Z.of_nat 4) with 10000 in B. lia.
Qed.
Lemma iso_date_days s ms :
  iso_date s = Some ms → ∃ n, ms = n * 86400000 ∧ Z.abs n < 2 ^ 22.
Proof.
  rw /iso_date. destruct (get_year s) as [[y s1]|] eqn:Ey; [|done]. cbn.
  destruct (skip _ _); [|done]; cbn. destruct (getnum _ _) as [[m s3]|]; [|done]; cbn.
  destruct (skip _ _); [|done]; cbn. destruct (getnum _ _) as [[d rest]|]; [|done]; cbn.
  case_match eqn:E; [|done]. intros [= <-]. pose proof (days_in_le m y). pose proof (digits_val_year _ _ _ Ey).
  apply andb_prop in E as [[[[_ ?]%andb_prop ?]%andb_prop ?]%andb_prop ?].
  exists (days_from_civil y m d). split; [done|]. apply days_from_civil_small; lia.
Qed.
Lemma js_seconds s : Z.abs s < 2 ^ 40 → js_div_pos (js_int (1000 * s)) (1000 * UNIT) = js_int s.
Proof.
  intros H. pose proof UNIT_pos. rw (js_int_exact (1000 * s)); [lia|]. rw js_int_exact; [lia|]. cbn [js_div_pos].
  rw /f_div. destruct (Z.ltb_spec (1000 * UNIT) 0); [nia|].
  replace (1000 * s * UNIT * UNIT) with (s * UNIT * (1000 * UNIT)) by lia.
  rw rnd_exact; [nia|exists s, 1074; split_and!; [lia..|done]|]. by rw /clamp int_in_range; [lia|].
Qed.
Lemma series_x other date :
  is_Some (iso_date date) →
  js_div_pos (date_parse other date) (1000 * UNIT) = Fin (midnight date * UNIT) ∧ Z.abs (midnight date) < 2 ^ 40.
Proof.
  intros [ms E]. rw /date_parse /midnight E. cbn [default].
  destruct (iso_date_days _ _ E) as (n & -> & Hn).
  replace (n * 86400000) with (1000 * (n * 86400)) by lia.
  rw js_seconds; [lia|]. rw (Z.mul_comm 1000) Z.div_mul //.
  rw js_int_exact; [lia|]. split; [done|lia].
Qed.

Lemma createSeries_unsorted other obj acc :
  fold_left (λ series kv, mkPoint (js_div_pos (date_parse other kv.1) (1000 * UNIT)) kv.2 :: series) obj acc ≡ₚ
  List.map (λ kv, mkPoint (js_div_pos (date_parse other kv.1) (1000 * UNIT)) kv.2) obj ++ acc.
Proof.
  revert acc; induction obj as [|kv obj IH]; intros acc; [done|]. cbn [fold_left List.map app].
  rewrite IH. by rewrite -Permutation_middle.
Qed.

(** One point per property of the object, in the order of their instants. *)
Lemma createSeries_sorts other obj :
  Forall (λ kv, is_Some (iso_date kv.1)) obj →
  createSeries other obj ≡ₚ List.map (λ kv, mkPoint (Fin (midnight kv.1 * UNIT)) kv.2) obj ∧
  Forall (finite_key px) (createSeries other obj) ∧ StronglySorted (key_le px) (createSeries other obj).
Proof.
  intros H. set (points := List.map _ obj).
  assert (HP : createSeries other obj ≡ₚ points).
  { rw /createSeries. rewrite sort_by_perm createSeries_unsorted app_nil_r. subst points.
    match goal with |- ?a ≡ₚ ?b => cut (a = b); [by intros ->|] end. apply map_ext_in. intros kv Hkv. f_equal.
    apply series_x. rewrite Forall_forall in H. by apply H, list_elem_of_In. }
  assert (HF : Forall (finite_key px) (createSeries other obj)).
  { rewrite HP. apply Forall_fmap, Forall_true. intros kv. by exists (midnight kv.1 * UNIT). }
  split_and!; [done|done|]. apply sort_by_sorted. rewrite /createSeries sort_by_perm in HF. exact HF.
Qed.

(** The series of the history graph has one point per day of the object, at the
    day's midnight (UTC, in seconds) with the day's count, and its points are in
    the order of time; the days being distinct, time strictly increases. *)
Theorem createSeries_in_time other obj :
  Forall (λ kv, is_Some (iso_date kv.1)) obj →
  createSeries other obj ≡ₚ List.map (λ kv, mkPoint (Fin (midnight kv.1 * UNIT)) kv.2) obj ∧
  StronglySorted (λ a b, js_lt b.(px) a.(px) = false) (createSeries other obj) ∧
  (NoDup (List.map (λ kv, midnight kv.1) obj) →
   StronglySorted (λ a b, js_lt a.(px) b.(px) = true) (createSeries other obj)).
Proof.
  intros H. destruct (createSeries_sorts other obj H) as (HP & HF & HS).
  split; [done|]. split; [done|]. intros Hnd.
  apply sorted_strict; [done| |done]. rewrite HP. rewrite List.map_map.
  assert (E : List.map (λ kv : string * jsnum, px (mkPoint (Fin (midnight kv.1 * UNIT)) kv.2)) obj =
              (λ z, Fin (z * UNIT)) <$> List.map (λ kv, midnight kv.1) obj) by by rw -list_fmap_compose.
  rewrite E. apply NoDup_fmap_2; [|done]. pose proof UNIT_pos. intros a b [= Hab]. nia.
Qed.
Lemma createSeries_in_time_witness :
  createSeries (λ _, NaN) [("2024-03-02", js_int 5); ("2024-02-29", js_int 7); ("2024-03-01", js_int 6)] ≡ₚ
    [mkPoint (Fin (1709337600 * UNIT)) (js_int 5); mkPoint (Fin (1709164800 * UNIT)) (js_int 7);
     mkPoint (Fin (1709251200 * UNIT)) (js_int 6)].
Proof.
  apply (createSeries_in_time (λ _, NaN) [("2024-03-02", js_int 5); ("2024-02-29", js_int 7); ("2024-03-01", js_int 6)]).
  repeat constructor; eexists; vm_compute; reflexivity.
Defined.

(** The name the server gives a day is the date of that day. *)
Lemma iso_date_day day : day_min ≤ day ≤ day_max → iso_date (day_name day) = Some (day * 86400000).
Proof.
  intros H. rw /day_name.
  pose proof (civil_from_days_spec day) as Hc. pose proof (civil_year_range day H) as Hy.
  destruct (civil_from_days day) as [[y m] d]. destruct Hc as (Hday & Hm & Hd). pose proof (days_in_le m y).
  rw /iso_date /pad_year. destruct (Z.ltb_spec y 0); [lia|].
  rw get_year_pad //. simpl. rw getnum_pad; [lia|]. simpl.
  rewrite -(app_str_nil_r (pad_dec 2 d)) getnum_pad; [lia|]. simpl.
  destruct (Z.leb_spec 1 m); [|lia]. destruct (Z.leb_spec m 12); [|lia].
  destruct (Z.leb_spec 1 d); [|lia]. destruct (Z.leb_spec d (days_in m y)); [|lia]. cbn. by rw Hday.
Qed.
(** The days that [History] names are read back by the script: a time whose
    day is in the years 0 to 9999 is written as a date that [Date.parse] takes to
    that day's midnight. *)
Theorem history_day_parses other tz t :
  day_min ≤ (unix_sec t + tz) `div` 86400 ≤ day_max →
  date_parse other (day_str tz t) = js_int ((unix_sec t + tz) `div` 86400 * 86400000).
Proof.
  intros H. rw /date_parse /day_str iso_date_day; [exact H|done].
Qed.
Lemma history_day_parses_witness :
  date_parse (λ _, NaN) (day_str (-18000) (1709251200 * SEC)) = js_int (19782 * 86400000).
Proof. apply (history_day_parses (λ _, NaN) (-18000) (1709251200 * SEC)). vm_compute. split; discriminate. Defined.

(** ** Numbers that come back from text *)

Lemma js_trim_digit c t : is_digit c = true → js_trim_left (String c t) = String c t.
Proof. intros Hc. destruct c as [[] [] [] [] [] [] [] []]; vm_compute in Hc; (discriminate || done). Qed.
Lemma strip_sign_digit c t : is_digit c = true → strip_sign (String c t) = (false, String c t).
Proof. intros Hc. destruct c as [[] [] [] [] [] [] [] []]; vm_compute in Hc; (discriminate || done). Qed.
Lemma not_infinity_digit c t : is_digit c = true → has_prefix "Infinity" (String c t) = false.
Proof. intros Hc. destruct c as [[] [] [] [] [] [] [] []]; vm_compute in Hc; (discriminate || done). Qed.

Lemma radix_prefix_digits acc s :
  all_digits s = true → s ≠ "" → radix_prefix 10 acc s = Some (digits_val (default 0 acc) s).
Proof.
  revert acc; induction s as [|c s IH]; intros acc Hs Hne; [done|]. cbn [all_digits] in Hs.
  apply andb_prop in Hs as [Hc Hs]. cbn [radix_prefix digits_val].
  assert (Eh : hex_val c = Some (digit_val c)) by by rw /hex_val Hc.
  rw Eh. pose proof (digit_val_range c Hc). destruct (Z.ltb_spec (digit_val c) 10); [|lia].
  destruct s as [|c' s]; [done|]. by rw IH.
Qed.
(** No digit string is in hexadecimal. *)
Lemma radix_digits {B} (s : string) (f : string → B) (g : string → B) :
  all_digits s = true →
  match s with String "0" (String "x" u) | String "0" (String "X" u) => f u | _ => g s end = g s.
Proof.
  intros Hs. destruct s as [|c [|c' u]]; [done|by destruct c as [[] [] [] [] [] [] [] []]|].
  cbn [all_digits] in Hs. apply andb_prop in Hs as [_ [Hc' _]%andb_prop].
  destruct c as [[] [] [] [] [] [] [] []]; try done.
  destruct c' as [[] [] [] [] [] [] [] []]; vm_compute in Hc'; (discriminate || done).
Qed.

Lemma parseInt_digits s : all_digits s = true → s ≠ "" → parseInt s = js_int (digits_val 0 s).
Proof.
  intros Hs Hne. destruct s as [|c t]; [done|]. pose proof (all_digits_head _ _ _ eq_refl Hs) as Hc.
  rw /parseInt js_trim_digit // strip_sign_digit //.
  rw (radix_digits (String c t) (λ u, (16, u)) (λ s, (10, s)) Hs) radix_prefix_digits //.
Qed.

Lemma parseInt_show n : 0 ≤ n < 2 ^ 53 → parseInt (js_show (js_int n)) = js_int n.
Proof.
  intros H. rw js_show_int // parseInt_digits; [by apply dec_nat_digits; lia|apply dec_nat_nonempty|].
  by rw dec_nat_val; [lia|].
Qed.

(** An interval in milliseconds, stored as the text [Number::toString] gives it, is
    the interval the realtime graph is built with. *)
Theorem stored_interval_reads_back n :
  0 ≤ n < 2 ^ 53 → time_interval (Some (js_show (js_int n))) = js_int n.
Proof.
  intros H. rw /time_interval bool_decide_eq_false_2; [|by apply parseInt_show].
  rw js_show_int //. apply dec_nat_nonempty.
Qed.
Lemma stored_interval_reads_back_witness : time_interval (Some (js_show (js_int 2000))) = js_int 2000.
Proof. apply (stored_interval_reads_back 2000). lia. Defined.

Lemma parseFloat_digits n : 0 ≤ n ≤ 2 ^ 53 → parseFloat (dec_nat n) = js_int n.
Proof.
  intros H. pose proof (dec_nat_digits n ltac:(lia)) as Hs. pose proof (dec_nat_nonempty n) as Hne.
  pose proof (dec_nat_val n ltac:(lia)) as Hv.
  destruct (dec_nat n) as [|c t]; [done|]. pose proof (all_digits_head _ _ _ eq_refl Hs) as Hc.
  rw /parseFloat js_trim_digit // strip_sign_digit // not_infinity_digit // span_digits_all //.
  rw (bool_decide_eq_false_2 (String c t = "")) //. cbn [andb]. rw app_str_nil_r Hv.
  change (float_exp "" - slen "") with 0. rw js_int_exact; [lia|].
  rw dec_value_int; [lia|lia|]. rw Z.mul_1_r /clamp int_in_range //; lia.
Qed.

(** Dividing by a thousand and rounding is rounding to the nearest thousand. *)
Lemma round_thousandths ms :
  0 ≤ ms < 2 ^ 40 →
  js_round (js_div_pos (js_int ms) (1000 * UNIT)) = js_int ((ms + 500) `div` 1000).
Proof.
  intros H. pose proof UNIT_pos as HU. rw js_int_exact; [lia|]. cbn [js_div_pos].
  rw /f_div. destruct (Z.ltb_spec (1000 * UNIT) 0); [nia|].
  set (x := rnd (ms * UNIT * UNIT) (1000 * UNIT)). set (q := (ms + 500) `div` 1000).
  assert (Hq : 1000 * q - 500 ≤ ms ≤ 1000 * q + 499) by (unfold q; lia).
  assert (Hx : 0 ≤ (2 * x + UNIT) - q * (2 * UNIT) < 2 * UNIT).
  { destruct (decide (ms = 1000 * q - 500)) as [E|E].
    - assert (x = (2 * q - 1) * 2 ^ 1073) as ->.
      { unfold x. replace (ms * UNIT * UNIT) with ((2 * q - 1) * 2 ^ 1073 * (1000 * UNIT)).
        - apply rnd_exact; [nia|]. exists (2 * q - 1), 1073. split_and!; [done|lia|done].
        - rw E. change UNIT with (2 * 2 ^ 1073). lia. }
      change UNIT with (2 * 2 ^ 1073). lia.
    - pose proof (rnd_near (ms * UNIT * UNIT) (1000 * UNIT) ltac:(nia) ltac:(nia)) as N. fold x in N.
      assert (B : ulp_exp ((ms * UNIT * UNIT) `div` (1000 * UNIT)) ≤ 1114 - 53).
      { apply ulp_exp_below; [done|]. apply Z.div_lt_upper_bound; [nia|].
        replace (2 ^ 1114) with (2 ^ 40 * UNIT) by (by rw /UNIT -Z.pow_add_r). nia. }
      pose proof (Z.pow_le_mono_r 2 _ _ ltac:(lia) B) as P.
      pose proof (ulp_pos ((ms * UNIT * UNIT) `div` (1000 * UNIT))).
      set (u := 2 ^ ulp_exp _) in *. change (1114 - 53) with 1061 in P.
      assert (HU' : UNIT = 8192 * 2 ^ 1061) by done.
      set (w := 2 ^ 1061) in *. clearbody u w x. rw HU' in N. rw HU'. clear HU'.
      assert (2 * Z.abs (x * 1000 - ms * (8192 * w)) ≤ 1000 * u) by nia.
      assert (1000 * (q * w) - 499 * w ≤ ms * w) by nia. assert (ms * w ≤ 1000 * (q * w) + 499 * w) by nia.
      lia. }
  rw /clamp (overflows_small x 1128) //.
  { replace (2 ^ 1128) with (2 ^ 54 * UNIT) by (by rw /UNIT -Z.pow_add_r). nia. }
  cbn [js_round]. f_equal. symmetry. apply Z.div_unique with (2 * x + UNIT - q * (2 * UNIT)); lia.
Qed.

(** The slider's label is its value in seconds, rounded to the nearest second,
    for every whole number of milliseconds up to thirty years. *)
Theorem setSliderLabel_seconds ms :
  0 ≤ ms < 2 ^ 40 →
  setSliderLabel (js_show (js_int ms)) =
    [html "span.current-interval" (JText (dec_nat ((ms + 500) `div` 1000) +:+ " sec"))].
Proof.
  intros H. rw /setSliderLabel js_show_int; [lia|]. rw parseFloat_digits; [lia|].
  rw round_thousandths //. by rw js_show_int; [lia|].
Qed.
Lemma setSliderLabel_seconds_witness :
  setSliderLabel (js_show (js_int 2499)) = [html "span.current-interval" (JText "2 sec")].
Proof. apply (setSliderLabel_seconds 2499). lia. Defined.

(** ** The legend *)

Lemma fold_hover graph_y l acc :
  fold_left (λ drawn d, hover_each graph_y d drawn) l acc =
  (acc.1 ++ List.map legend_line l, acc.2 ++ List.map (hover_dot graph_y) l).
Proof.
  revert acc; induction l as [|d l IH]; intros [a b]; cbn [fold_left List.map]; [by rw !app_nil_r|].
  rw IH /=. by rw -!app_assoc.
Qed.

(** Hovering shows, after the timestamp, one line per series of the graph and
    marks one dot per series, in the order of the series; nothing of an earlier
    legend is left.  Both graphs do the same. *)
Theorem hover_lists_series graph_y time details :
  Forall (finite_key order) details →
  ∃ sorted, sorted ≡ₚ details ∧ StronglySorted (key_le order) sorted ∧
    realtime_hover graph_y time details =
      (El "timestamp" time "" [] :: List.map legend_line sorted, List.map (hover_dot graph_y) sorted) ∧
    history_hover graph_y time details = realtime_hover graph_y time details.
Proof.
  intros H. exists (sort_by order details). split; [apply sort_by_perm|]. split; [by apply sort_by_sorted|].
  split; [|done]. by rw /realtime_hover fold_hover.
Qed.
Lemma hover_lists_series_witness :
  ∃ sorted, sorted ≡ₚ [mkDetail (js_int 2) "Processed" (js_int 7) "#55D487" (js_int 0) (js_int 7)] ∧
    realtime_hover id "now" [mkDetail (js_int 2) "Processed" (js_int 7) "#55D487" (js_int 0) (js_int 7)] =
      (El "timestamp" "now" "" [] :: List.map legend_line sorted, List.map (hover_dot id) sorted).
Proof.
  destruct (hover_lists_series id "now" [mkDetail (js_int 2) "Processed" (js_int 7) "#55D487" (js_int 0) (js_int 7)])
    as (l & H1 & _ & H2 & _); [repeat constructor; by exists (2 * UNIT)|]. by exists l.
Defined.

(** ** The server's figures *)

(** The "server" part of the state as server.go sends it. *)
Definition server_object (description faktory_version : string) (uptime connections command_count used_memory_mb : jsnum) : object :=
  [("description", JText description); ("faktory_version", JText faktory_version); ("uptime", JNumber uptime);
   ("connections", JNumber connections); ("command_count", JNumber command_count);
   ("used_memory_mb", JNumber used_memory_mb)].

(** Of the server's state the page shows the connections and the memory used,
    but never the commands: the script asks for a property "commands" that the
    server names "command_count", and passes undefined on. *)
Theorem updateServerStats_omits_commands description version uptime connections command_count memory :
  updateServerStats (server_object description version uptime connections command_count memory) =
    [html ".stat h3.connections" (JNumber connections);
     html ".stat h3.used_memory_human" (JNumber memory);
     html ".stat h3.commands" JUndef].
Proof. done. Qed.

(** With counts below 2^53 the summary shows each count grouped, and the
    factory's lights are idle exactly when no job is busy. *)
Theorem updateStatsSummary_shows processed failures enqueued busy scheduled retries dead :
  Forall (λ n, 0 ≤ n < 2 ^ 53) [processed; failures; enqueued; busy; scheduled; retries; dead] →
  let shown name n := html ("ul.summary li." +:+ name +:+ " span.count") (JText (commas (dec_nat n))) in
  let light := if bool_decide (busy = 0) then "idle" else "active" in
  let dark := if bool_decide (busy = 0) then "active" else "idle" in
  updateStatsSummary (mkData (js_int processed) (js_int failures) (js_int enqueued)
      (mkTasks (js_int busy) (js_int scheduled) (js_int retries) (js_int dead))) =
    [mkCall "i.status-sprite" "removeClass" (JText ("status-" +:+ dark));
     mkCall "i.status-sprite" "addClass" (JText ("status-" +:+ light));
     shown "processed" processed; shown "failed" failures; shown "busy" busy;
     shown "scheduled" scheduled; shown "retries" retries; shown "enqueued" enqueued; shown "dead" dead].
Proof.
  intros H. cbn zeta.
  rewrite !Forall_cons in H. destruct H as (Hp & Hf & He & Hb & Hs & Hr & Hdd & _).
  rw /updateStatsSummary /count_call /= !numberWithDelimiter_int //.
  assert (Eb : js_eq (js_int busy) (Fin 0) = bool_decide (busy = 0)).
  { pose proof UNIT_pos. rw js_int_exact; [lia|]. cbn. case_bool_decide; nia. }
  rw Eb. by case_bool_decide.
Qed.
Lemma updateStatsSummary_shows_witness :
  last (updateStatsSummary (mkData (js_int 1500) (js_int 2) (js_int 3) (mkTasks (js_int 0) (js_int 4) (js_int 5) (js_int 6)))) =
    Some (html "ul.summary li.dead span.count" (JText "6")).
Proof.
  rw (updateStatsSummary_shows 1500 2 3 0 4 5 6); [|done].
  repeat constructor; lia.
Defined.
