(* ===== verification/Page.v ===== *)
(** * The dashboard page (src/webui/static/dashboard.js)

    Scripts run to completion one event at a time, so the page is a state with a
    step per event: the ready event, a timer, an AJAX reply, a slider or a window
    event.  The elements of the graphs may be parsed after the script runs.
    Rickshaw is not modelled: a graph is the parameters it is given and the data
    points it is fed. *)
From S2P Require Import Prelude GoStrings Float64 JsNum Dashboard.

#[local] Open Scope list_scope.

(** ** The state *)

(** The window's timers: the live intervals, each with the realtime graph it
    feeds; the live timeouts; [poller]; [debounce]'s [timeoutID] ([None] is -1). *)
Record timers := mkTimers {
  next_timer : nat; intervals : gmap nat nat; timeouts : gset nat;
  poller : option nat; timeoutID : option nat
}.
Record page := mkPage {
  loaded : bool;                             (* the graphs' elements are there *)
  ready : bool;                              (* the ready handler has run *)
  client_width : jsnum;
  stored : option string;                    (* localStorage.timeInterval *)
  clock : timers;
  graphs : list (graph_args * Z);            (* the realtime graphs, each with its i *)
  pending : list nat;                        (* requests under way: the graph that waits *)
  F_processed : option jsnum;                (* Faktory.processed *)
  F_failed : option jsnum;                   (* Faktory.failed *)
  added : list (nat * list (string * jsnum));  (* addData: graph and data point *)
  histories : list graph_args;
  calls : list call;
  pulsing : bool;                            (* the beacon has the class "pulse" *)
  queued_pulses : nat                        (* functions on the beacon's queue *)
}.
Definition fresh_page (w : jsnum) (stored : option string) : page :=
  mkPage false false w stored (mkTimers 1 ∅ ∅ None None) [] [] None None [] [] [] false 0.

Definition set_clock (t : timers) (p : page) : page :=
  mkPage p.(loaded) p.(ready) p.(client_width) p.(stored) t p.(graphs) p.(pending)
    p.(F_processed) p.(F_failed) p.(added) p.(histories) p.(calls) p.(pulsing) p.(queued_pulses).
Definition set_graphs (gs : list (graph_args * Z)) (hs : list graph_args) (p : page) : page :=
  mkPage p.(loaded) p.(ready) p.(client_width) p.(stored) p.(clock) gs p.(pending)
    p.(F_processed) p.(F_failed) p.(added) hs p.(calls) p.(pulsing) p.(queued_pulses).
Definition set_pending (l : list nat) (p : page) : page :=
  mkPage p.(loaded) p.(ready) p.(client_width) p.(stored) p.(clock) p.(graphs) l
    p.(F_processed) p.(F_failed) p.(added) p.(histories) p.(calls) p.(pulsing) p.(queued_pulses).
Definition set_env (l r : bool) (w : jsnum) (s : option string) (p : page) : page :=
  mkPage l r w s p.(clock) p.(graphs) p.(pending)
    p.(F_processed) p.(F_failed) p.(added) p.(histories) p.(calls) p.(pulsing) p.(queued_pulses).
Definition add_calls (cs : list call) (p : page) : page :=
  mkPage p.(loaded) p.(ready) p.(client_width) p.(stored) p.(clock) p.(graphs) p.(pending)
    p.(F_processed) p.(F_failed) p.(added) p.(histories) (p.(calls) ++ cs) p.(pulsing) p.(queued_pulses).
Definition set_beacon (b : bool) (n : nat) (p : page) : page :=
  mkPage p.(loaded) p.(ready) p.(client_width) p.(stored) p.(clock) p.(graphs) p.(pending)
    p.(F_processed) p.(F_failed) p.(added) p.(histories) p.(calls) b n.
Definition feed (g : nat) (point : list (string * jsnum)) (processed failed : jsnum) (p : page) : page :=
  mkPage p.(loaded) p.(ready) p.(client_width) p.(stored) p.(clock) p.(graphs) p.(pending)
    (Some processed) (Some failed) (p.(added) ++ [(g, point)]) p.(histories) p.(calls) p.(pulsing) p.(queued_pulses).

(** [window.setInterval], [clearInterval], [setTimeout] and [clearTimeout]. *)
Definition setInterval (g : nat) (t : timers) : timers :=
  mkTimers (S t.(next_timer)) (<[t.(next_timer) := g]> t.(intervals)) t.(timeouts) (Some t.(next_timer)) t.(timeoutID).
Definition clearPoller (t : timers) : timers :=
  mkTimers t.(next_timer) (match t.(poller) with Some id => delete id t.(intervals) | None => t.(intervals) end)
    t.(timeouts) t.(poller) t.(timeoutID).
Definition fired (id : nat) (t : timers) : timers :=
  mkTimers t.(next_timer) t.(intervals) (t.(timeouts) ∖ {[id]}) t.(poller) t.(timeoutID).
(** The function [debounce] returns, called once; its timeout is 125 ms. *)
Definition debounce (t : timers) : timers :=
  let live := match t.(timeoutID) with Some id => t.(timeouts) ∖ {[id]} | None => t.(timeouts) end in
  mkTimers (S t.(next_timer)) t.(intervals) ({[t.(next_timer)]} ∪ live) t.(poller) (Some t.(next_timer)).

(** What the page and its server provide: the attributes of the two elements and
    the browser's reading of other dates. *)
Record document := mkDoc {
  rt_failedLabel : option string; rt_processedLabel : option string;
  h_failedLabel : option string; h_processedLabel : option string;
  processed_attr : list (string * jsnum); failed_attr : list (string * jsnum);
  update_url : string; other_dates : string → jsnum
}.

Section page.
Variable doc : document.

(** ** Graphs *)

Definition realtimeGraph (p : page) : page :=
  let timeInterval := time_interval p.(stored) in
  let graph := realtime_args p.(client_width) doc.(rt_failedLabel) doc.(rt_processedLabel) timeInterval in
  set_clock (setInterval (length p.(graphs)) p.(clock))
    (set_graphs (p.(graphs) ++ [(graph, 0)]) p.(histories) p).
Definition historyGraph (p : page) : page :=
  let processed := createSeries doc.(other_dates) doc.(processed_attr) in
  let failed := createSeries doc.(other_dates) doc.(failed_attr) in
  set_graphs p.(graphs)
    (p.(histories) ++ [history_args p.(client_width) doc.(h_failedLabel) doc.(h_processedLabel) failed processed]) p.
Definition renderGraphs (p : page) : page := historyGraph (realtimeGraph p).

(** ** Handlers *)

(** The ready handler; its event handlers are in force from then on. *)
Definition on_ready (p : page) : page :=
  let p := renderGraphs p in
  let shown := match p.(stored) with
               | Some v => mkCall "div.interval-slider input" "val" (JText v) :: setSliderLabel v
               | None => []
               end in
  set_env p.(loaded) true p.(client_width) p.(stored) (add_calls shown p).
Definition on_change (v : string) (p : page) : page :=
  let p := set_clock (clearPoller p.(clock)) p in
  let p := set_env p.(loaded) p.(ready) p.(client_width) (Some v) p in
  renderGraphs (add_calls resetGraphs (add_calls (setSliderLabel v) p)).
Definition on_mousemove (v : string) (p : page) : page := add_calls (setSliderLabel v) p.

(** The interval's function: the request goes out, then [i++]. *)
Definition on_tick (g : nat) (p : page) : page :=
  set_graphs (alter (λ gi, (gi.1, gi.2 + 1)) g p.(graphs)) p.(histories)
    (set_pending (p.(pending) ++ [g]) (add_calls [mkCall "$" "getJSON" (JText doc.(update_url))] p)).
(** An undefined operand makes the difference NaN. *)
Definition minus_prop (a : jsnum) (b : option jsnum) : jsnum :=
  match b with Some b => js_sub a b | None => NaN end.
(** The callback of the request of graph [g]. *)
Definition on_reply (g : nat) (data : reply) (p : page) : page :=
  let fd := data.(faktory) in
  let i := match p.(graphs) !! g with Some gi => gi.2 | None => 0 end in
  let '(processed, failed) :=
    if i =? 0 then (fd.(total_processed), fd.(total_failures))
    else (minus_prop fd.(total_processed) p.(F_processed), minus_prop fd.(total_failures) p.(F_failed)) in
  let point := data_point doc.(rt_failedLabel) doc.(rt_processedLabel) failed processed in
  add_calls (updateStatsSummary fd ++ updateServerStats data.(server) ++
             updateFooterUTCTime data.(server_utc_time) ++ pulseBeacon)
    (set_beacon true (S p.(queued_pulses)) (feed g point fd.(total_processed) fd.(total_failures) p)).
(** The delay before the next queued function is over: it takes the class off. *)
Definition on_pulsed (k : nat) (p : page) : page := add_calls pulseBeacon_later (set_beacon false k p).

(** The function [window.onresize] debounces; [resetGraphs] raises a TypeError when
    the elements are not there, and the graphs are not rendered then. *)
Definition on_resized (p : page) : page :=
  let p := set_clock (clearPoller p.(clock)) p in
  if p.(loaded) then renderGraphs (add_calls resetGraphs p) else p.

(** ** Events *)

Inductive event :=
| Parsed                         (* the elements of the graphs are in the document *)
| Ready
| Tick (id : nat)
| Reply (k : nat) (data : reply)
| Lost (k : nat)                 (* the request fails: no callback *)
| Change (v : string)
| Mousemove (v : string)
| Resize (w : jsnum)
| Timeout (id : nat)
| Pulsed.                        (* the delay on the beacon's queue ends *)

(** [None]: the event cannot happen. *)
Definition step (p : page) (e : event) : option page :=
  match e with
  | Parsed => Some (set_env true p.(ready) p.(client_width) p.(stored) p)
  | Ready => if p.(loaded) && negb p.(ready) then Some (on_ready p) else None
  | Tick id => g ← p.(clock).(intervals) !! id; Some (on_tick g p)
  | Reply k data => g ← p.(pending) !! k; Some (on_reply g data (set_pending (delete k p.(pending)) p))
  | Lost k => _ ← p.(pending) !! k; Some (set_pending (delete k p.(pending)) p)
  | Change v => if p.(ready) then Some (on_change v p) else None
  | Mousemove v => if p.(ready) then Some (on_mousemove v p) else None
  | Resize w => Some (set_clock (debounce p.(clock)) (set_env p.(loaded) p.(ready) w p.(stored) p))
  | Timeout id =>
      if decide (id ∈ p.(clock).(timeouts)) then Some (on_resized (set_clock (fired id p.(clock)) p)) else None
  | Pulsed => match p.(queued_pulses) with S k => Some (on_pulsed k p) | O => None end
  end.
Fixpoint run (p : page) (es : list event) : option page :=
  match es with
  | [] => Some p
  | e :: es' => p' ← step p e; run p' es'
  end.

(** ** Runs *)

Lemma run_app p es es' : run p (es ++ es') = (p' ← run p es; run p' es').
Proof.
  revert p; induction es as [|e es IH]; intros p; [done|]. cbn [app run].
  destruct (step p e); [apply IH|done].
Qed.

Lemma run_cons p e es p' : step p e = Some p' → run p (e :: es) = run p' es.
Proof. cbn [run]. by intros ->. Qed.

(** What every step keeps, every run keeps. *)
Lemma run_invariant (Q : page → Prop) :
  (∀ p e p', Q p → step p e = Some p' → Q p') →
  ∀ es p p', Q p → run p es = Some p' → Q p'.
Proof.
  intros Hs es. induction es as [|e es IH]; intros p p' HQ H; cbn [run] in H; [by simplify_eq|].
  destruct (step p e) as [q|] eqn:E; [|done]. by apply (IH q); [apply (Hs p e)|].
Qed.

End page.

(** One case per event that can happen; the page it leads to is substituted. *)
Ltac step_cases H :=
  match type of H with
  | step _ _ ?e = Some _ => destruct e; cbn [step] in H; repeat case_match; simplify_option_eq
  end.

(** The elements of [H], a membership in a literal list, one by one. *)
Ltac each_of H :=
  rewrite !elem_of_cons in H; destruct H as [[= -> ->]|[[= -> ->]|[[= -> ->]|[]%elem_of_nil]]].


Section laws.
Variable doc : document.
Implicit Types (p : page) (e : event) (es : list event).

(** ** The realtime graph is polled once

    Once the graphs are rendered the page holds a single interval, which is the one
    [poller] names and feeds the graph rendered last, built with the interval that
    is stored. *)
Definition graph_of (w : jsnum) (s : option string) : graph_args :=
  realtime_args w doc.(rt_failedLabel) doc.(rt_processedLabel) (time_interval s).
Definition one_poller p : Prop :=
  ∃ id gs w i, p.(clock).(poller) = Some id ∧ p.(clock).(intervals) = {[id := length gs]} ∧
    p.(graphs) = gs ++ [(graph_of w p.(stored), i)].
Definition polled p : Prop := p.(loaded) = true ∧ p.(ready) = true ∧ one_poller p.

Lemma renderGraphs_one_poller p : p.(clock).(intervals) = ∅ → one_poller (renderGraphs doc p).
Proof.
  intros Hi. exists p.(clock).(next_timer), p.(graphs), p.(client_width), 0. cbn. by rw Hi.
Qed.
Lemma clearPoller_empty p : one_poller p → (clearPoller p.(clock)).(intervals) = ∅.
Proof. intros (id & gs & w & i & Hp & Hi & _). cbn. rw Hp Hi. apply delete_singleton_eq. Qed.
Lemma one_poller_same p p' :
  one_poller p → p'.(clock).(poller) = p.(clock).(poller) →
  p'.(clock).(intervals) = p.(clock).(intervals) → p'.(stored) = p.(stored) →
  p'.(graphs) = p.(graphs) → one_poller p'.
Proof.
  intros (id & gs & w & i & Hp & Hi & Hg) Ep Ei Es Eg. exists id, gs, w, i. by rw Ep Ei Es Eg.
Qed.
Lemma on_ready_one_poller p : p.(clock).(intervals) = ∅ → one_poller (on_ready doc p).
Proof.
  intros H. apply (one_poller_same (renderGraphs doc p)); [by apply renderGraphs_one_poller|done..].
Qed.

Lemma polled_step p e p' : polled p → step doc p e = Some p' → polled p'.
Proof.
  intros (Hl & Hr & HP) H. step_cases H.
  all: try (split_and!; [done..|by apply (one_poller_same p)]).
  - by rw Hr andb_false_r in H0.
  - split_and!; [done..|]. destruct HP as (id' & gs & w & i & Hp & Hi & Hg).
    rw Hi in Heqo. apply lookup_singleton_Some in Heqo as [<- <-].
    exists id', gs, w, (i + 1). cbn. rw Hg. split_and!; [done..|].
    rw alter_app_r_alt //. by rw Nat.sub_diag.
  - split_and!; [rw /on_reply; by case_match..|].
    apply (one_poller_same p); [done|rw /on_reply; by repeat case_match..].
  - split_and!; [done..|]. apply renderGraphs_one_poller. cbn. by apply clearPoller_empty.
  - rw /on_resized Hl. split_and!; [done..|]. apply renderGraphs_one_poller. cbn. by apply (clearPoller_empty p).
Qed.


Lemma step_timeout p id :
  id ∈ p.(clock).(timeouts) → step doc p (Timeout id) = Some (on_resized doc (set_clock (fired id p.(clock)) p)).
Proof. intros H. cbn [step]. by destruct (decide _). Qed.

(** A window resized while the page is still loading makes two pollers of one:
    the graphs are rendered by the debounced handler and again by the ready
    handler, which forgets the first interval, and no later change clears it. *)
Theorem two_pollers w w' s v :
  match run doc (fresh_page w s) [Parsed; Resize w'; Timeout 1; Ready; Change v] with
  | Some p => p.(clock).(intervals) = {[2%nat := 0%nat; 4%nat := 2%nat]} ∧ p.(clock).(poller) = Some 4%nat
  | None => False
  end.
Proof. vm_compute. split; reflexivity. Qed.

(** ** Requests and the counter [i] *)

Definition requested p : Prop :=
  (∀ id g, p.(clock).(intervals) !! id = Some g → (g < length p.(graphs))%nat) ∧
  Forall (λ gi : graph_args * Z, 0 ≤ gi.2) p.(graphs) ∧
  Forall (λ g, ∃ gi, p.(graphs) !! g = Some gi ∧ 1 ≤ gi.2) p.(pending).

Lemma requested_render p : requested p → requested (renderGraphs doc p).
Proof.
  intros (Hi & Hz & Hp). split_and!; cbn.
  - intros id g. rw length_app /=. intros [[_ <-]|[_ H]]%lookup_insert_Some; [lia|].
    apply Hi in H. lia.
  - apply Forall_app. split; [done|]. by apply Forall_singleton.
  - eapply Forall_impl; [exact Hp|]. intros g (gi & Hg & H1). exists gi. split; [|done].
    apply lookup_app_l_Some, Hg.
Qed.
Lemma requested_fewer p p' :
  requested p → p'.(clock).(intervals) ⊆ p.(clock).(intervals) → p'.(graphs) = p.(graphs) →
  p'.(pending) ⊆ p.(pending) → requested p'.
Proof.
  intros (Hi & Hz & Hp) Si Eg Sp. split_and!; rw Eg; [|done|].
  - intros id g H. by apply (Hi id), (lookup_weaken _ _ _ _ H).
  - rewrite Forall_forall in Hp. apply Forall_forall. intros g Hg. by apply Hp, Sp.
Qed.
Lemma requested_tick id g p :
  p.(clock).(intervals) !! id = Some g → requested p → requested (on_tick doc g p).
Proof.
  intros Hid (Hi & Hz & Hp). destruct (lookup_lt_is_Some_2 p.(graphs) g) as [gi Hg]; [by apply (Hi id)|].
  assert (Hg0 : 0 ≤ gi.2) by exact (proj1 (Forall_lookup _ _) Hz g gi Hg).
  assert (Hlook : ∀ g' gi', p.(graphs) !! g' = Some gi' → 1 ≤ gi'.2 ∨ g' = g →
            ∃ gi'', alter (λ gi, (gi.1, gi.2 + 1)) g p.(graphs) !! g' = Some gi'' ∧ 1 ≤ gi''.2).
  { intros g' gi' Hg' H1. destruct (decide (g' = g)) as [->|Hne].
    - exists (gi.1, gi.2 + 1). rw list_lookup_alter_eq Hg. split; [done|]. cbn. lia.
    - exists gi'. rw list_lookup_alter_ne; [congruence|]. split; [done|]. by destruct H1. }
  split_and!; cbn; [intros id' g'; rw length_alter; apply Hi|by apply Forall_alter; [|intros; cbn; lia]|].
  apply Forall_app. split; [|apply Forall_singleton; eauto].
  eapply Forall_impl; [exact Hp|]. intros g' (gi' & Hg' & H1). eauto.
Qed.
Lemma clearPoller_subseteq t : (clearPoller t).(intervals) ⊆ t.(intervals).
Proof. cbn. case_match; [apply delete_subseteq|done]. Qed.
Lemma delete_subset {A} (k : nat) (l : list A) : delete k l ⊆ l.
Proof. intros x Hx. by apply (sublist_subseteq (delete k l)), Hx; apply sublist_delete. Qed.

Lemma requested_step p e p' : requested p → step doc p e = Some p' → requested p'.
Proof.
  intros HR H. step_cases H.
  all: try (by apply (requested_fewer p); [done|done|done|cbn; try apply delete_subset]).
  - apply (requested_fewer (renderGraphs doc p)); [by apply requested_render|done..].
  - by apply (requested_tick id).
  - apply (requested_fewer p); [done|rw /on_reply; by repeat case_match..|].
    rw /on_reply. repeat case_match; apply delete_subset.
  - apply requested_render, (requested_fewer p); [done|exact (clearPoller_subseteq p.(clock))|done..].
  - rw /on_resized. case_match; [apply requested_render|];
      (apply (requested_fewer p); [done|exact (clearPoller_subseteq p.(clock))|done..]).
Qed.

(** ** The points of the graph *)

(** The totals the replies bring, in the order they arrive. *)
Definition replies es : list faktory_data :=
  omap (λ e, match e with Reply _ data => Some data.(faktory) | _ => None end) es.
(** What happened between two totals. *)
Definition delta (prev : option faktory_data) (fd : faktory_data) : list (string * jsnum) :=
  data_point doc.(rt_failedLabel) doc.(rt_processedLabel)
    (minus_prop fd.(total_failures) (total_failures <$> prev))
    (minus_prop fd.(total_processed) (total_processed <$> prev)).
Fixpoint deltas (prev : option faktory_data) (l : list faktory_data) : list (list (string * jsnum)) :=
  match l with [] => [] | fd :: l' => delta prev fd :: deltas (Some fd) l' end.
Definition remembers p (prev : option faktory_data) : Prop :=
  p.(F_processed) = total_processed <$> prev ∧ p.(F_failed) = total_failures <$> prev.

Lemma step_added p e p' prev :
  requested p → remembers p prev → step doc p e = Some p' →
  match e with
  | Reply _ data => p'.(added).*2 = p.(added).*2 ++ [delta prev data.(faktory)] ∧ remembers p' (Some data.(faktory))
  | _ => p'.(added) = p.(added) ∧ remembers p' prev
  end.
Proof.
  intros HR HM H. step_cases H; try done.
  - destruct HM as [Mp Mf], HR as (_ & _ & HP).
    destruct (proj1 (Forall_lookup _ _) HP _ _ Heqo) as (gi & Hg & H1).
    rw /on_reply Hg. destruct (Z.eqb_spec gi.2 0); [lia|]. cbn. split; [|done].
    rw fmap_app. cbn. by rw /delta Mp Mf.
  - rw /on_resized. by case_match.
Qed.

Lemma run_added es p p' prev :
  requested p → remembers p prev → run doc p es = Some p' →
  p'.(added).*2 = p.(added).*2 ++ deltas prev (replies es).
Proof.
  revert p prev; induction es as [|e es IH]; intros p prev HR HM H; cbn [run] in H.
  { simplify_eq. by rw app_nil_r. }
  destruct (step doc p e) as [q|] eqn:E; [|done]. cbn in H.
  pose proof (requested_step _ _ _ HR E) as HQ. pose proof (step_added _ _ _ _ HR HM E) as HA.
  destruct e; try (destruct HA as [EA HM']; rw (IH q prev) // EA; done).
  destruct HA as [EA HM']. rw (IH q (Some (faktory data))) // EA -app_assoc. done.
Qed.
Lemma fresh_requested w s : requested (fresh_page w s) ∧ remembers (fresh_page w s) None.
Proof. split; [split_and!; cbn; [by intros ??|constructor..]|done]. Qed.

(** C1. The graph is fed one point per reply, in the order the replies arrive: each
    point is what the totals grew by since the reply before, whichever graph asked
    for it.  The branch for [i === 0], which would give the totals themselves, is
    never taken, because a reply comes after the [i++] of its request; so the first
    point is not a number. *)
Theorem points_are_differences w s es p (counts : list (Z * Z)) :
  run doc (fresh_page w s) es = Some p →
  List.map (λ fd, (fd.(total_processed), fd.(total_failures))) (replies es) =
    List.map (λ pf, (js_int pf.1, js_int pf.2)) counts →
  Forall (λ pf, 0 ≤ pf.1 ≤ 2 ^ 53 ∧ 0 ≤ pf.2 ≤ 2 ^ 53) counts →
  let point := data_point doc.(rt_failedLabel) doc.(rt_processedLabel) in
  p.(added).*2 =
    match counts with
    | [] => []
    | first :: later =>
        point NaN NaN ::
        zip_with (λ before after, point (js_int (after.2 - before.2)) (js_int (after.1 - before.1))) counts later
    end.
Proof.
  intros H HC HB point. destruct (fresh_requested w s) as [HR HM].
  rw (run_added _ _ _ _ HR HM H). change (_ ++ deltas None (replies es)) with (deltas None (replies es)). clear H.
  destruct (replies es) as [|fd l], counts as [|pf counts]; try done. cbn [deltas].
  change (delta None fd) with (point NaN NaN). f_equal.
  revert fd pf l HC HB. induction counts as [|pf' counts IH]; intros fd pf l HC HB; [by destruct l|].
  destruct l as [|fd' l]; [done|]. cbn [List.map] in HC. injection HC as E1 E2 E3 E4 HC.
  inversion_clear HB as [|?? [B1 B2] HB']. inversion HB' as [|?? [B3 B4] _]; subst.
  cbn [deltas zip_with]. f_equal.
  - rw /delta. cbn [fmap option_fmap option_map minus_prop]. rw E1 E2 E3 E4 !js_sub_int; [lia..|done].
  - apply IH; [|done]. cbn. by rw E3 E4 HC.
Qed.

(** ** Resizing *)

Definition debounced p : Prop := ∀ id, id ∈ p.(clock).(timeouts) → p.(clock).(timeoutID) = Some id.
Lemma debounce_one t :
  (∀ id, id ∈ t.(timeouts) → t.(timeoutID) = Some id) →
  (debounce t).(timeouts) = {[t.(next_timer)]} ∧ (debounce t).(timeoutID) = Some t.(next_timer).
Proof.
  intros H. split; [|done]. cbn. destruct (timeoutID t) as [id|] eqn:E.
  - assert (timeouts t ∖ {[id]} = ∅) as ->; [|set_solver]. apply leibniz_equiv. intros x. split; [|set_solver].
    intros [Hx Hn]%elem_of_difference. apply H in Hx. set_solver.
  - assert (timeouts t = ∅) as ->; [|set_solver]. apply leibniz_equiv. intros x. split; [|set_solver].
    intros Hx. by apply H in Hx.
Qed.
Lemma debounced_fewer p p' :
  debounced p → p'.(clock).(timeouts) ⊆ p.(clock).(timeouts) →
  p'.(clock).(timeoutID) = p.(clock).(timeoutID) → debounced p'.
Proof. intros H Hs E id Hid. rw E. by apply H, Hs. Qed.
Lemma debounced_step p e p' : debounced p → step doc p e = Some p' → debounced p'.
Proof.
  intros HD H. step_cases H; try (by apply (debounced_fewer p)).
  - apply (debounced_fewer p); [done|rw /on_reply; by repeat case_match..].
  - intros id. cbn -[debounce]. destruct (debounce_one p.(clock) HD) as [-> ->]. set_solver.
  - rw /on_resized. case_match; (apply (debounced_fewer p); [done|cbn; set_solver|done]).
Qed.
Lemma fresh_debounced w s : debounced (fresh_page w s).
Proof. intros id. cbn. set_solver. Qed.

Lemma resizes_run p ws :
  debounced p → ws ≠ [] →
  ∃ p' id w, last ws = Some w ∧ run doc p (List.map Resize ws) = Some p' ∧ p'.(clock).(timeouts) = {[id]} ∧
    p'.(client_width) = w ∧ p'.(graphs) = p.(graphs) ∧ p'.(loaded) = p.(loaded) ∧ p'.(stored) = p.(stored).
Proof.
  revert p; induction ws as [|w ws IH]; intros p HD Hne; [done|]. cbn [List.map].
  set (q := set_clock (debounce p.(clock)) (set_env p.(loaded) p.(ready) w p.(stored) p)).
  assert (HQ : step doc p (Resize w) = Some q) by done. rw (run_cons _ _ _ _ _ HQ).
  destruct ws as [|w' ws].
  - exists q, p.(clock).(next_timer), w. split_and!; try done. by apply debounce_one.
  - destruct (IH q (debounced_step _ _ _ HD HQ) ltac:(done)) as (p' & id & w2 & H).
    exists p', id, w2. exact H.
Qed.

(** C5. However often the window is resized, on any page, nothing is drawn until a
    single timeout fires; when it does the graphs are rendered once, at the last
    width and with the stored interval, and no timeout is left. *)
Theorem resizes_coalesce w s es p ws :
  run doc (fresh_page w s) es = Some p → p.(loaded) = true → ws ≠ [] →
  ∃ p' id w', last ws = Some w' ∧ run doc p (List.map Resize ws) = Some p' ∧
    p'.(graphs) = p.(graphs) ∧ p'.(clock).(timeouts) = {[id]} ∧
    ∃ q, step doc p' (Timeout id) = Some q ∧ q.(clock).(timeouts) = ∅ ∧
      q.(graphs) = p.(graphs) ++ [(graph_of w' p.(stored), 0)].
Proof.
  intros H Hl Hne.
  assert (HD : debounced p) by exact (run_invariant doc _ debounced_step es _ p (fresh_debounced w s) H).
  destruct (resizes_run p ws HD Hne) as (p' & id & w' & Hw & HR & Ht & Ew & Eg & El & Es).
  exists p', id, w'. split_and!; [done..|]. eexists. split; [apply step_timeout; rw Ht; set_solver|].
  rw /on_resized. replace (loaded _) with true by (cbn; by rw El Hl). cbn. split; [rw Ht; set_solver|].
  by rw Eg Ew Es.
Qed.

(** ** The page goes on updating *)

Lemma run_requested w s es p : run doc (fresh_page w s) es = Some p → requested p.
Proof. apply (run_invariant doc _ requested_step). apply fresh_requested. Qed.

(** C6. Polling never gets stuck: at any time after the ready event the interval can
    tick, and a reply to that tick adds one point, what the totals grew by, to the
    graph on the page and shows the server's figures. *)
Theorem page_keeps_updating w s es p data :
  run doc (fresh_page w s) (Parsed :: Ready :: es) = Some p →
  ∃ id q r gs graph, p.(graphs) = gs ++ [graph] ∧
    step doc p (Tick id) = Some q ∧ step doc q (Reply (length p.(pending)) data) = Some r ∧
    r.(pending) = p.(pending) ∧
    r.(added) = p.(added) ++
      [(length gs, data_point doc.(rt_failedLabel) doc.(rt_processedLabel)
                     (minus_prop data.(faktory).(total_failures) p.(F_failed))
                     (minus_prop data.(faktory).(total_processed) p.(F_processed)))] ∧
    r.(calls) = p.(calls) ++ mkCall "$" "getJSON" (JText doc.(update_url)) ::
      updateStatsSummary data.(faktory) ++ updateServerStats data.(server) ++
      updateFooterUTCTime data.(server_utc_time) ++ pulseBeacon.
Proof.
  intros H. pose proof (run_requested _ _ _ _ H) as HR.
  change (run doc (on_ready doc (set_env true false w s (fresh_page w s))) es = Some p) in H.
  assert (Hp : polled p).
  { apply (run_invariant doc polled polled_step es _ p) in H; [done|]. split_and!; [done..|by apply on_ready_one_poller]. }
  destruct Hp as (_ & _ & id & gs & w' & i & Hp & Hi & Hg).
  assert (Ht : p.(clock).(intervals) !! id = Some (length gs)) by (rw Hi; apply lookup_singleton_eq).
  exists id, (on_tick doc (length gs) p). eexists _, gs, _. split; [exact Hg|].
  split; [cbn [step]; by rw Ht|].
  pose proof (requested_tick id (length gs) p Ht HR) as (_ & _ & HP).
  set (q := on_tick doc (length gs) p) in *.
  assert (Hq : q.(pending) !! length p.(pending) = Some (length gs)).
  { by apply list_lookup_middle. }
  destruct (proj1 (Forall_lookup _ _) HP _ _ Hq) as (gi & Hgi & H1).
  split; [cbn [step]; by rw Hq|]. rw /on_reply.
  replace (graphs (set_pending _ q)) with q.(graphs) by done. rw Hgi.
  destruct (Z.eqb_spec gi.2 0); [lia|]. cbn. rw -app_assoc. split_and!; [|done..].
  by rw delete_middle app_nil_r.
Qed.

(** ** A page is well formed *)

Definition drawn_twice p : Prop := length p.(histories) = length p.(graphs).
Lemma drawn_twice_step p e p' : drawn_twice p → step doc p e = Some p' → drawn_twice p'.
Proof.
  rw /drawn_twice. intros HD H. step_cases H; rw /on_reply /on_resized; repeat case_match; try done.
  all: cbn; rw ?length_alter ?length_app /=; lia.
Qed.

(** C8. On every page that can be reached, before the ready event too: each interval
    feeds a graph that was made; each request under way was made by one, whose
    counter it advanced; no counter is negative; a timeout that is alive is the one
    [timeoutID] names, so there is one at most; and each realtime graph was drawn
    along with a history graph. *)
Theorem page_well_formed w s es p :
  run doc (fresh_page w s) es = Some p →
  (∀ id g, p.(clock).(intervals) !! id = Some g → (g < length p.(graphs))%nat) ∧
  Forall (λ gi : graph_args * Z, 0 ≤ gi.2) p.(graphs) ∧
  Forall (λ g, ∃ gi, p.(graphs) !! g = Some gi ∧ 1 ≤ gi.2) p.(pending) ∧
  (∀ id, id ∈ p.(clock).(timeouts) → p.(clock).(timeoutID) = Some id) ∧
  length p.(histories) = length p.(graphs).
Proof.
  intros H. destruct (run_requested _ _ _ _ H) as (H1 & H2 & H3). split_and!; [done..| |].
  - exact (run_invariant doc _ debounced_step es _ p (fresh_debounced w s) H).
  - exact (run_invariant doc drawn_twice drawn_twice_step es (fresh_page w s) p eq_refl H).
Qed.

(** ** The beacon *)

Definition beacon_ok p : Prop := p.(pulsing) = true → (0 < p.(queued_pulses))%nat.
Lemma beacon_ok_step p e p' : beacon_ok p → step doc p e = Some p' → beacon_ok p'.
Proof.
  intros HB H. step_cases H; try done.
  - rw /on_reply. case_match. intros _. cbn. lia.
  - rw /on_resized. by case_match.
Qed.
Lemma pulses_drain p n :
  p.(queued_pulses) = n → beacon_ok p →
  ∃ q, run doc p (replicate n Pulsed) = Some q ∧ q.(pulsing) = false ∧ q.(queued_pulses) = 0%nat ∧ q.(added) = p.(added).
Proof.
  revert p; induction n as [|n IH]; intros p Hn HB.
  - exists p. split; [done|]. rw Hn. split; [|done]. destruct (pulsing p) eqn:E; [|done].
    specialize (HB E). lia.
  - cbn [replicate run step]. rw Hn. cbn. apply (IH (on_pulsed n p)); [done|]. by intros ?.
Qed.

(** The beacon never pulses for ever: while it has the class "pulse" a function that
    takes it off is queued, and when the replies cease it is off once the delays
    are over. *)
Theorem beacon_rests w s es p :
  run doc (fresh_page w s) es = Some p →
  (p.(pulsing) = true → (0 < p.(queued_pulses))%nat) ∧
  ∃ q, run doc p (replicate p.(queued_pulses) Pulsed) = Some q ∧ q.(pulsing) = false ∧ q.(queued_pulses) = 0%nat.
Proof.
  intros H. assert (HB : beacon_ok p) by (apply (run_invariant doc beacon_ok beacon_ok_step es (fresh_page w s) p); [intros [=]|exact H]).
  split; [done|]. destruct (pulses_drain p _ eq_refl HB) as (q & H1 & H2 & H3 & _). by exists q.
Qed.

(** ** The figures the page shows *)

(** What the calls put in the elements of a selector, in order. *)
Definition shown (sel : string) (cs : list call) : list jsval :=
  omap (λ c, if bool_decide (c.(selector) = sel ∧ c.(method) = "html") then Some c.(arg) else None) cs.
Definition servers es : list object :=
  omap (λ e, match e with Reply _ data => Some data.(server) | _ => None end) es.
Lemma shown_app sel cs cs' : shown sel (cs ++ cs') = shown sel cs ++ shown sel cs'.
Proof. apply omap_app. Qed.

(** The three elements of the server's part, and the property each shows. *)
Definition figure (sel k : string) : Prop :=
  (sel, k) ∈ [(".stat h3.connections", "connections"); (".stat h3.used_memory_human", "used_memory_mb");
              (".stat h3.commands", "commands")].
Lemma shown_slider sel k v : figure sel k → shown sel (setSliderLabel v) = [].
Proof. intros H. (rw /figure in H; by each_of H). Qed.
Lemma shown_others sel k :
  figure sel k → shown sel resetGraphs = [] ∧ shown sel pulseBeacon_later = [].
Proof. rw /figure. intros H. split; by each_of H. Qed.
Lemma shown_reply sel k fd o t :
  figure sel k →
  shown sel (updateStatsSummary fd ++ updateServerStats o ++ updateFooterUTCTime t ++ pulseBeacon) = [property o k].
Proof.
  intros H. rw shown_app. assert (E : shown sel (updateStatsSummary fd) = []).
  { rw /updateStatsSummary shown_app. rw /figure in H; each_of H; by case_match. }
  rw E. (rw /figure in H; by each_of H).
Qed.

Lemma step_shown sel k p e p' :
  figure sel k → step doc p e = Some p' →
  shown sel p'.(calls) = shown sel p.(calls) ++ ((λ o, property o k) <$> servers [e]).
Proof.
  intros Hf H.
  assert (Hs : ∀ cs, shown sel cs = [] → shown sel (p.(calls) ++ cs) = shown sel p.(calls) ++ []).
  { intros cs E. by rw shown_app E. }
  step_cases H; try (by rw app_nil_r).
  - apply Hs. case_match; [|done].
    change (?c :: ?l) with ([c] ++ l). rw shown_app (shown_slider _ _ _ Hf). rw /figure in Hf; by each_of Hf.
  - apply Hs. rw /figure in Hf; by each_of Hf.
  - rw /on_reply. case_match. cbn [calls add_calls]. by rw shown_app (shown_reply _ _ _ _ _ Hf).
  - rw -app_assoc. apply Hs. rw shown_app (shown_slider _ _ _ Hf). apply (shown_others _ _ Hf).
  - apply Hs, (shown_slider _ k _ Hf).
  - rw /on_resized. case_match; [|by rw app_nil_r]. apply Hs, (shown_others _ _ Hf).
  - apply Hs, (shown_others _ _ Hf).
Qed.
Lemma run_shown sel k es p p' :
  figure sel k → run doc p es = Some p' →
  shown sel p'.(calls) = shown sel p.(calls) ++ ((λ o, property o k) <$> servers es).
Proof.
  intros Hf. revert p; induction es as [|e es IH]; intros p H; cbn [run] in H; [simplify_eq; by rw app_nil_r|].
  destruct (step doc p e) as [q|] eqn:E; [|done]. cbn in H.
  rw (IH q H) (step_shown _ _ _ _ _ Hf E) -app_assoc. f_equal. by destruct e.
Qed.

(** The page shows the server's connections and memory as every reply brings them,
    and nothing else; its commands it never shows, for the script asks for "commands"
    where the server sends "command_count", and what is put there is undefined. *)
Theorem server_figures w s es p :
  run doc (fresh_page w s) es = Some p →
  Forall (λ o, ∃ d v u c n m, o = server_object d v u c n m) (servers es) →
  shown ".stat h3.connections" p.(calls) = (λ o, property o "connections") <$> servers es ∧
  shown ".stat h3.used_memory_human" p.(calls) = (λ o, property o "used_memory_mb") <$> servers es ∧
  shown ".stat h3.commands" p.(calls) = replicate (length (servers es)) JUndef.
Proof.
  intros H HS.
  assert (Fc : figure ".stat h3.connections" "connections") by (rw /figure; set_solver).
  assert (Fm : figure ".stat h3.used_memory_human" "used_memory_mb") by (rw /figure; set_solver).
  assert (Fx : figure ".stat h3.commands" "commands") by (rw /figure; set_solver).
  rw (run_shown _ _ _ _ _ Fc H) (run_shown _ _ _ _ _ Fm H) (run_shown _ _ _ _ _ Fx H).
  split; [done|]. split; [done|]. change (calls (fresh_page w s)) with (@nil call). cbn [shown omap list_omap app].
  clear H. induction HS as [|o l (d & v & u & c & n & m & ->) HS IH]; [done|]. cbn. by rw IH.
Qed.
End laws.

(** ** Instances *)

Definition doc0 : document :=
  mkDoc (Some "Failed") (Some "Processed") (Some "Failed") (Some "Processed")
    [("2024-03-01", js_int 12)] [("2024-03-01", js_int 2)] "/stats" (λ _, NaN).
Definition reply0 (processed failures : Z) : reply :=
  mkReply (mkData (js_int processed) (js_int failures) (js_int 0)
             (mkTasks (js_int 0) (js_int 0) (js_int 0) (js_int 0)))
    [] (JText "12:00:00 UTC").

(** The run of the goal is evaluated: it yields a page. *)
Ltac ran p E :=
  match goal with
  | |- match ?r with Some _ => _ | None => _ end =>
      let H := fresh in
      assert (H : match r with Some _ => true | None => false end = true) by (vm_compute; reflexivity);
      destruct r as [p|] eqn:E; [clear H|discriminate H]
  end.


Lemma points_are_differences_witness :
  match run doc0 (fresh_page (js_int 800) None)
          [Parsed; Ready; Tick 1; Reply 0 (reply0 10 1); Tick 1; Tick 1; Reply 0 (reply0 15 1); Reply 0 (reply0 15 3)] with
  | Some p => p.(added).*2 = [[("Failed", NaN); ("Processed", NaN)]; [("Failed", js_int 0); ("Processed", js_int 5)];
                              [("Failed", js_int 2); ("Processed", js_int 0)]]
  | None => False
  end.
Proof.
  ran p E.
  refine (points_are_differences doc0 _ _ _ p [(10, 1); (15, 1); (15, 3)] E _ _); [done|].
  rewrite !Forall_cons; cbn. split_and!; (lia || constructor).
Defined.

Lemma resizes_coalesce_witness :
  match run doc0 (fresh_page (js_int 800) None) [Parsed; Ready] with
  | Some p => ∃ p' id w', last [js_int 700; js_int 600] = Some w' ∧
      run doc0 p (List.map Resize [js_int 700; js_int 600]) = Some p' ∧
      p'.(graphs) = p.(graphs) ∧ p'.(clock).(timeouts) = {[id]} ∧
      ∃ q, step doc0 p' (Timeout id) = Some q ∧ q.(clock).(timeouts) = ∅ ∧
        q.(graphs) = p.(graphs) ++ [(graph_of doc0 w' p.(stored), 0)]
  | None => False
  end.
Proof.
  ran p E.
  apply (resizes_coalesce doc0 (js_int 800) None [Parsed; Ready] p); [done| |done].
  apply (f_equal (option_map loaded)) in E. vm_compute in E. injection E as E. exact (eq_sym E).
Defined.

Lemma page_keeps_updating_witness :
  match run doc0 (fresh_page (js_int 800) None) [Parsed; Ready; Change "2000"] with
  | Some p => ∃ id q, step doc0 p (Tick id) = Some q
  | None => False
  end.
Proof.
  ran p E.
  destruct (page_keeps_updating doc0 (js_int 800) None [Change "2000"] p (reply0 3 0) E)
    as (id & q & r & gs & graph & _ & Hq & _). by exists id, q.
Defined.

Lemma page_well_formed_witness :
  match run doc0 (fresh_page (js_int 800) None) [Parsed; Resize (js_int 700); Timeout 1; Ready; Tick 2] with
  | Some p => Forall (λ g, ∃ gi, p.(graphs) !! g = Some gi ∧ 1 ≤ gi.2) p.(pending) ∧
              length p.(histories) = length p.(graphs)
  | None => False
  end.
Proof.
  ran p E. destruct (page_well_formed doc0 _ _ _ p E) as (_ & _ & H3 & _ & H5). by split.
Defined.

Lemma beacon_rests_witness :
  match run doc0 (fresh_page (js_int 800) None) [Parsed; Ready; Tick 1; Tick 1; Reply 0 (reply0 1 0); Reply 0 (reply0 2 0); Pulsed] with
  | Some p => ∃ q, run doc0 p (replicate p.(queued_pulses) Pulsed) = Some q ∧ q.(pulsing) = false
  | None => False
  end.
Proof. ran p E. destruct (beacon_rests doc0 _ _ _ p E) as (_ & q & H1 & H2 & _). by exists q. Defined.

Lemma server_figures_witness :
  match run doc0 (fresh_page (js_int 800) None)
          [Parsed; Ready; Tick 1;
           Reply 0 (mkReply (faktory (reply0 1 0)) (server_object "Faktory" "1.0" (js_int 9) (js_int 4) (js_int 77) (js_int 12)) JUndef)] with
  | Some p => shown ".stat h3.connections" p.(calls) = [JNumber (js_int 4)] ∧ shown ".stat h3.commands" p.(calls) = [JUndef]
  | None => False
  end.
Proof.
  ran p E. destruct (server_figures doc0 _ _ _ p E) as (H1 & _ & H3).
  - constructor; [|constructor]. by exists "Faktory", "1.0", (js_int 9), (js_int 4), (js_int 77), (js_int 12).
  - rw H1 H3. done.
Defined.
