(* ===== verification/Application.v ===== *)
(** * The script of every page (src/webui/static/application.js)

    First-party code only; the bundled jQuery, timeago and Bootstrap are
    third-party.  The page is a state with a step per event, as in Page.v; what is
    asked of timeago is the list of the locales it renders with. *)
From S2P Require Import Prelude GoStrings Float64 Json JsNum Helpers Dashboard.

#[local] Open Scope list_scope.

(** ** Locales *)

Definition upper (c : ascii) : ascii :=
  if (97 <=? byte_val c) && (byte_val c <=? 122) then chr (byte_val c - 32) else c.
(** [String.prototype.toUpperCase] of ASCII text, which locale names are. *)
Fixpoint toUpperCase (s : string) : string :=
  match s with EmptyString => "" | String c t => String (upper c) (toUpperCase t) end.
(** "pt-br" is timeago's "pt_BR". *)
Definition fuzzy_locale (locale : string) : string :=
  match split_char "-" locale with
  | part0 :: part1 :: parts => join "_" (part0 :: toUpperCase part1 :: parts)
  | _ => locale
  end.

(** ** The page *)

(** [parseInt(localStorage.timeInterval) || 5000] *)
Definition poll_interval (stored : option string) : jsnum :=
  let n := parseInt (default "undefined" stored) in if falsy n then js_int 5000 else n.

Record site := mkSite {
  data_locale : option string;                 (* the body's data-locale *)
  local_interval : option string;              (* localStorage.timeInterval *)
  polls : list (option string * jsnum);        (* setInterval: the URL polled and the interval *)
  requests : nat;                              (* polls under way *)
  shown_page : string;                         (* #page *)
  shown_status : string;                       (* .status *)
  rendered : list string;                      (* timeago.render: the locales, each followed by cancel *)
  checkboxes : list (list bool);               (* per table *)
  visible : gmap string bool;                  (* by selector *)
  cookies : list string;                       (* assignments to document.cookie *)
  reloads : nat
}.
Definition set_shown (p st : string) (s : site) : site :=
  mkSite s.(data_locale) s.(local_interval) s.(polls) s.(requests) p st s.(rendered)
    s.(checkboxes) s.(visible) s.(cookies) s.(reloads).
Definition set_polls (ps : list (option string * jsnum)) (n : nat) (s : site) : site :=
  mkSite s.(data_locale) s.(local_interval) ps n s.(shown_page) s.(shown_status) s.(rendered)
    s.(checkboxes) s.(visible) s.(cookies) s.(reloads).
Definition render (l : string) (s : site) : site :=
  mkSite s.(data_locale) s.(local_interval) s.(polls) s.(requests) s.(shown_page) s.(shown_status)
    (s.(rendered) ++ [l]) s.(checkboxes) s.(visible) s.(cookies) s.(reloads).
Definition set_boxes (b : list (list bool)) (v : gmap string bool) (s : site) : site :=
  mkSite s.(data_locale) s.(local_interval) s.(polls) s.(requests) s.(shown_page) s.(shown_status)
    s.(rendered) b v s.(cookies) s.(reloads).

Section site.
(** jQuery's selections in the HTML of a reply. *)
Variable jq_filter jq_find : string → string → string.
(** The user's answer to a question. *)
Variable confirm : string → bool.

(** An undefined locale has no [split]: the TypeError ends the handler. *)
Definition updateFuzzyTimes (locale : option string) (s : site) : site :=
  match locale with Some l => render (fuzzy_locale l) s | None => s end.
Definition updatePage (url : option string) (s : site) : site :=
  set_polls (s.(polls) ++ [(url, poll_interval s.(local_interval))]) s.(requests) s.
(** The interval's function, and the callback of its request. *)
Definition poll (s : site) : site := set_polls s.(polls) (S s.(requests)) s.
Definition poll_done (data : string) (s : site) : site :=
  updateFuzzyTimes s.(data_locale)
    (set_shown (jq_filter "#page" data) (jq_find ".status" data) (set_polls s.(polls) (pred s.(requests)) s)).

(** The ready handler: an attribute that is missing is not the empty text. *)
Definition app_ready (pollpath : option string) (s : site) : site :=
  let s := if bool_decide (pollpath = Some "") then s else updatePage pollpath s in
  updateFuzzyTimes s.(data_locale) s.

(** A click on ".check_all", itself a box of the table: the browser toggles it, then
    every box of the table takes its value. *)
Definition check_all (t b : nat) (s : site) : site :=
  match s.(checkboxes) !! t with
  | Some boxes =>
      match boxes !! b with
      | Some v => let checked := negb v in set_boxes (<[t := List.map (λ _, checked) boxes]> s.(checkboxes)) s.(visible) s
      | None => s
      end
  | None => s
  end.
(** Whether the click's default action goes on. *)
Definition confirm_click (data_confirm : string) : bool := confirm data_confirm.
Definition toggle_click (data_target : string) (s : site) : site :=
  set_boxes s.(checkboxes) (alter negb data_target s.(visible)) s.
Definition locale_change (selected : string) (s : site) : site :=
  mkSite s.(data_locale) s.(local_interval) s.(polls) s.(requests) s.(shown_page) s.(shown_status)
    s.(rendered) s.(checkboxes) s.(visible) (s.(cookies) ++ ["faktory_locale=" +:+ selected]) (S s.(reloads)).

Inductive happening :=
| Polled (k : nat)               (* interval k fires *)
| Answered (data : string)       (* one of the requests under way succeeds *)
| Unanswered                     (* or fails *)
| Checked (t b : nat)
| Toggled (data_target : string)
| Chosen (selected : string).
Definition happen (s : site) (h : happening) : option site :=
  match h with
  | Polled k => _ ← s.(polls) !! k; Some (poll s)
  | Answered data => if bool_decide (s.(requests) = 0%nat) then None else Some (poll_done data s)
  | Unanswered => if bool_decide (s.(requests) = 0%nat) then None else Some (set_polls s.(polls) (pred s.(requests)) s)
  | Checked t b => Some (check_all t b s)
  | Toggled target => Some (toggle_click target s)
  | Chosen selected => Some (locale_change selected s)
  end.
Fixpoint happens (s : site) (hs : list happening) : option site :=
  match hs with [] => Some s | h :: hs' => s' ← happen s h; happens s' hs' end.
End site.

(** ** The navigation bar: custom tabs give way to a drop-down when they do not
    fit *)

Definition staticContentWidth (widths : list jsnum) : jsnum := fold_left js_add widths (Fin 0).
Definition fit_navbar (navbar : jsnum) (widths : list jsnum) : list call :=
  if js_lt navbar (staticContentWidth widths)
  then [mkCall "[data-navbar=custom-tab]" "hide" JUndef; mkCall "[data-navbar=dropdown]" "show" JUndef]
  else [].

(** ** Locale names *)

Definition no_dash (s : string) : bool := no_char "-" s.
Lemma upper_dash c : upper c = "-"%char → c = "-"%char.
Proof. destruct c as [[] [] [] [] [] [] [] []]; vm_compute; congruence. Qed.
Lemma toUpperCase_no_dash s : no_dash s = true → no_dash (toUpperCase s) = true.
Proof.
  rw /no_dash. induction s as [|c s IH]; [done|]. cbn [no_char toUpperCase]. intros [Hc Hs]%andb_prop.
  rw (IH Hs) andb_true_r. rw bool_decide_eq_false_2 //. intros E%upper_dash. by subst.
Qed.
Lemma toUpperCase_length s : String.length (toUpperCase s) = String.length s.
Proof. induction s as [|c s IH]; [done|]. cbn. by rw IH. Qed.
Lemma split_no_dash s : Forall (λ p, no_dash p = true) (split_char "-" s).
Proof.
  rw /no_dash. induction s as [|a s IH]; [by repeat constructor|]. cbn [split_char].
  case_bool_decide as E; [by constructor|].
  assert (Ha : negb (bool_decide (a = "-"%char)) = true) by by rw bool_decide_eq_false_2.
  destruct (split_char "-" s) as [|p l]; [constructor; [cbn; by rw Ha|constructor]|].
  inversion_clear IH as [|?? Hp Hl]. constructor; [cbn [no_char]; by rw Ha Hp|done].
Qed.
Lemma join_no_dash l : Forall (λ p, no_dash p = true) l → no_dash (join "_" l) = true.
Proof.
  rw /no_dash. induction 1 as [|p l Hp Hl IH]; [done|]. cbn [join]. destruct l as [|q l]; [done|].
  by rw !no_char_app Hp IH.
Qed.
Lemma join_length c c' l :
  String.length (join (String c "") l) = String.length (join (String c' "") l).
Proof.
  induction l as [|p l IH]; [done|]. cbn [join]. destruct l; [done|]. by rw !length_app_str IH.
Qed.

(** timeago's name of a locale has the length of the server's and no dash; a name
    without a dash is left as it is, so the translation is idempotent; in the name
    of a language and a region the region is in capitals. *)
Theorem fuzzy_locale_names locale :
  no_dash (fuzzy_locale locale) = true ∧
  String.length (fuzzy_locale locale) = String.length locale ∧
  fuzzy_locale (fuzzy_locale locale) = fuzzy_locale locale ∧
  (∀ lang region : string, locale = lang +:+ "-" +:+ region → no_dash lang = true → no_dash region = true →
    fuzzy_locale locale = lang +:+ "_" +:+ toUpperCase region).
Proof.
  assert (H1 : no_dash (fuzzy_locale locale) = true).
  { rw /fuzzy_locale. pose proof (split_no_dash locale) as H.
    pose proof (join_split "-" locale) as J.
    destruct (split_char "-" locale) as [|p [|q l]]; [by cbn in J; subst|cbn in J; subst; by inversion_clear H|].
    rewrite !Forall_cons in H. destruct H as (Hp & Hq & Hl). apply join_no_dash.
    repeat constructor; [done|by apply toUpperCase_no_dash|done]. }
  assert (Hid : ∀ s, no_dash s = true → fuzzy_locale s = s).
  { intros s Hs. by rw /fuzzy_locale split_char_no. }
  split_and!; [done| |by apply Hid|].
  - pose proof (join_split "-" locale) as J. rw /fuzzy_locale.
    destruct (split_char "-" locale) as [|p [|q l]]; [done..|].
    rw -J (join_length "-" "_"). cbn [join]. rw !length_app_str.
    f_equal. f_equal. destruct l; [apply toUpperCase_length|]. rw !length_app_str. by rw toUpperCase_length.
  - intros lang region -> Hl Hr. change (lang +:+ "-" +:+ region) with (lang +:+ String "-" region).
    by rw /fuzzy_locale split_char_app // split_char_no.
Qed.
Lemma fuzzy_locale_names_witness : fuzzy_locale "pt-br" = "pt_BR".
Proof. by apply (fuzzy_locale_names "pt-br"). Defined.

(** ** Polling *)

Lemma falsy_time_interval_default : time_interval None = js_int 5000 ∧ falsy (js_int 5000) = false.
Proof. split; by vm_compute. Qed.

(** The pages poll at the interval the dashboard uses, except where that one is 0
    or not a number, as for a stored text that is not a number: then the pages wait
    five seconds, and the interval is never 0 nor NaN. *)
Theorem poll_interval_guards stored :
  poll_interval stored = (if falsy (time_interval stored) then js_int 5000 else time_interval stored) ∧
  falsy (poll_interval stored) = false.
Proof.
  destruct falsy_time_interval_default as [E5 F5].
  assert (E : poll_interval stored = if falsy (time_interval stored) then js_int 5000 else time_interval stored).
  { rw /poll_interval. destruct stored as [s|]; cbn [default].
    - destruct (decide (s = "")) as [->|Hs]; [by vm_compute|].
      rw /time_interval bool_decide_eq_false_2 //.
    - rw E5 F5. by vm_compute. }
  split; [done|]. rw E. by destruct (falsy (time_interval stored)) eqn:F.
Qed.

Section site_laws.
Variable jq_filter jq_find : string → string → string.
Implicit Types (s : site) (h : happening).

(** ** What a page shows *)

(** The replies, in the order they arrive. *)
Definition answers (hs : list happening) : list string :=
  omap (λ h, match h with Answered data => Some data | _ => None end) hs.

Lemma happen_keeps s h s' :
  happen jq_filter jq_find s h = Some s' →
  s'.(polls) = s.(polls) ∧ s'.(data_locale) = s.(data_locale).
Proof.
  intros H. destruct h; cbn in H; repeat case_match; simplify_option_eq;
    rw /poll_done /check_all /updateFuzzyTimes; by repeat case_match.
Qed.
Lemma happens_keeps s hs s' :
  happens jq_filter jq_find s hs = Some s' →
  s'.(polls) = s.(polls) ∧ s'.(data_locale) = s.(data_locale).
Proof.
  revert s; induction hs as [|h hs IH]; intros s H; cbn in H; [by simplify_eq|].
  destruct (happen _ _ s h) as [q|] eqn:E; [|done]. destruct (happen_keeps _ _ _ E) as [<- <-]. by apply IH.
Qed.

(** The ready handler starts one poll, at the page's URL, unless its poll path is
    empty; no later event starts or stops one, and the page keeps its locale. *)
Theorem one_poll pollpath s hs s' :
  s.(polls) = [] → happens jq_filter jq_find (app_ready pollpath s) hs = Some s' →
  s'.(polls) = (if bool_decide (pollpath = Some "") then [] else [(pollpath, poll_interval s.(local_interval))]) ∧
  s'.(data_locale) = s.(data_locale).
Proof.
  intros H0 H. destruct (happens_keeps _ _ _ H) as [-> ->].
  rw /app_ready /updateFuzzyTimes. case_bool_decide; cbn; case_match; cbn; by rw ?H0.
Qed.

Lemma happen_shown s h s' l :
  s.(data_locale) = Some l → happen jq_filter jq_find s h = Some s' →
  match h with
  | Answered data =>
      s'.(shown_page) = jq_filter "#page" data ∧ s'.(shown_status) = jq_find ".status" data ∧
      s'.(rendered) = s.(rendered) ++ [fuzzy_locale l]
  | _ => s'.(shown_page) = s.(shown_page) ∧ s'.(shown_status) = s.(shown_status) ∧ s'.(rendered) = s.(rendered)
  end.
Proof.
  intros Hl H. destruct h; cbn in H; repeat case_match; simplify_option_eq; try done.
  - rw /poll_done /updateFuzzyTimes. by rw Hl.
  - rw /check_all. by repeat case_match.
Qed.
Lemma happens_shown s hs s' l :
  s.(data_locale) = Some l → happens jq_filter jq_find s hs = Some s' →
  s'.(shown_page) = default s.(shown_page) (jq_filter "#page" <$> last (answers hs)) ∧
  s'.(shown_status) = default s.(shown_status) (jq_find ".status" <$> last (answers hs)) ∧
  s'.(rendered) = s.(rendered) ++ replicate (length (answers hs)) (fuzzy_locale l).
Proof.
  revert s; induction hs as [|h hs IH]; intros s Hl H; cbn in H; [simplify_eq; by rw app_nil_r|].
  destruct (happen _ _ s h) as [q|] eqn:E; [|done]. cbn in H.
  assert (Hq : q.(data_locale) = Some l) by (rw -Hl; apply (happen_keeps _ _ _ E)).
  destruct (IH q Hq H) as (-> & -> & ->). pose proof (happen_shown _ _ _ _ Hl E) as HA.
  destruct h as [|data| | | |]; try (by destruct HA as (-> & -> & ->)).
  destruct HA as (-> & -> & ->). change (answers (Answered data :: hs)) with (data :: answers hs).
  rw last_cons -app_assoc. by destruct (last (answers hs)).
Qed.


(** A click on the box of a table's header that checks all leaves every box of that
    table as the clicked one now is, and the boxes of the other tables as they were. *)
Theorem check_all_checks t b s boxes v :
  s.(checkboxes) !! t = Some boxes → boxes !! b = Some v →
  (check_all t b s).(checkboxes) !! t = Some (replicate (length boxes) (negb v)) ∧
  (∀ t', t' ≠ t → (check_all t b s).(checkboxes) !! t' = s.(checkboxes) !! t').
Proof.
  intros Ht Hb. rw /check_all Ht Hb. cbn. split.
  - rw list_lookup_insert_eq; [by apply lookup_lt_Some in Ht|]. f_equal.
    clear. induction boxes as [|x l IH]; [done|]. cbn. by rw IH.
  - intros t' Hne. rw list_lookup_insert_ne //. congruence.
Qed.
End site_laws.

(** ** The navigation bar *)

Lemma sum_grows widths (a : Z) : Forall (λ w, 0 ≤ w) widths → a ≤ fold_left Z.add widths a.
Proof. intros H. revert a. induction H as [|x l Hx Hl IH]; intros a; cbn; [lia|]. specialize (IH (a + x)). lia. Qed.
Lemma staticContentWidth_sum widths (acc : Z) :
  0 ≤ acc → Forall (λ w, 0 ≤ w) widths → fold_left Z.add widths acc ≤ 2 ^ 53 →
  fold_left js_add (List.map js_int widths) (js_int acc) = js_int (fold_left Z.add widths acc).
Proof.
  intros Ha Hw. revert acc Ha. induction Hw as [|w widths H Hw IH]; intros acc Ha Hs; [done|].
  cbn [fold_left List.map] in *.
  pose proof (sum_grows widths (acc + w) Hw). rw -IH; [lia|done|]. f_equal.
  rw !js_int_exact; [lia..|]. cbn. rw /f_add -Z.mul_add_distr_r rnd_exact_1; [exists (acc + w), 1074; split_and!; [lia..|done]|].
  by rw /clamp int_in_range; [lia|].
Qed.

(** The custom tabs give way to the drop-down exactly when the fixed parts of the
    bar are wider than the bar, for widths in whole pixels. *)
Theorem fit_navbar_when_narrow navbar widths :
  0 ≤ navbar ≤ 2 ^ 53 → Forall (λ w, 0 ≤ w) widths → fold_left Z.add widths 0 ≤ 2 ^ 53 →
  fit_navbar (js_int navbar) (List.map js_int widths) =
    if navbar <? fold_left Z.add widths 0
    then [mkCall "[data-navbar=custom-tab]" "hide" JUndef; mkCall "[data-navbar=dropdown]" "show" JUndef]
    else [].
Proof.
  intros Hn Hw Hs. rw /fit_navbar /staticContentWidth.
  change (Fin 0) with (js_int 0). rw staticContentWidth_sum //.
  pose proof (sum_grows widths 0 Hw).
  rw (js_int_exact navbar); [lia|]. rw js_int_exact; [lia|]. cbn [js_lt].
  pose proof UNIT_pos. replace (navbar * UNIT <? _) with (navbar <? fold_left Z.add widths 0); [done|].
  destruct (Z.ltb_spec navbar (fold_left Z.add widths 0)); symmetry; [apply Z.ltb_lt|apply Z.ltb_ge]; nia.
Qed.

(** ** Instances *)

Definition site0 : site :=
  mkSite (Some "pt-br") (Some "abc") [] 0 "first" "idle" [] [[false; true; false]; [true]] ∅ [] 0.
Lemma one_poll_witness :
  match happens (λ _ d, d) (λ _ d, d) (app_ready (Some "/busy") site0) [Polled 0; Answered "second"] with
  | Some s => s.(polls) = [(Some "/busy", js_int 5000)]
  | None => False
  end.
Proof.
  destruct (happens _ _ _ _) as [s|] eqn:E; [|done].
  rewrite (proj1 (one_poll _ _ (Some "/busy") site0 _ s eq_refl E)). by vm_compute.
Defined.
Lemma check_all_checks_witness : (check_all 0 2 site0).(checkboxes) !! 0%nat = Some [true; true; true].
Proof. exact (proj1 (check_all_checks 0 2 site0 [false; true; false] false eq_refl eq_refl)). Defined.
Lemma fit_navbar_when_narrow_witness :
  length (fit_navbar (js_int 600) (List.map js_int [300; 301])) = 2%nat.
Proof. rw (fit_navbar_when_narrow 600 [300; 301]); [lia|repeat constructor; lia|done|done]. Defined.
Lemma poll_interval_guards_witness : poll_interval (Some "abc") = js_int 5000.
Proof. rewrite (proj1 (poll_interval_guards (Some "abc"))). by vm_compute. Defined.
