(* ===== verification/Wire.v ===== *)
(** * The wire protocol (src/server/connection.go, src/client/client.go)

    The server's replies as bytes, and the client's reader of them.  A reader is a
    function from the bytes still to come to a result and the bytes left. *)
From S2P Require Import Prelude GoStrings.

(** ** What the server writes *)

(** A [KnownError] carries its own code. *)
Definition conn_Error (err : goerr) : string :=
  match err with
  | ErrCoded _ _ => "-" +:+ err_text err +:+ CRLF
  | _ => "-ERR " +:+ err_text err +:+ CRLF
  end.
Definition conn_Ok : string := "+OK" +:+ CRLF.
Definition conn_Number (val : Z) : string := ":" +:+ dec val +:+ CRLF.
(** [None] is a nil slice. *)
Definition conn_Result (msg : option string) : string :=
  match msg with
  | None => "$-1" +:+ CRLF
  | Some m => "$" +:+ dec (slen m) +:+ CRLF +:+ m +:+ CRLF
  end.

(** ** What the client reads *)

Definition EOF : goerr := ErrMsg "EOF".
(** [ReadBytes] up to and with a line feed; [None]: the stream ends before one. *)
Fixpoint read_line (s : string) : option (string * string) :=
  match s with
  | EmptyString => None
  | String c t =>
      if bool_decide (c = chr 10) then Some (String c "", t)
      else '(l, rest) ← read_line t; Some (String c l, rest)
  end.
(** [readResponse]; [Ok None] is a nil slice. *)
Definition readResponse (rdr : string) : outcome (option string) * string :=
  match rdr with
  | EmptyString => (Err EOF, "")
  | String c s =>
      match read_line s with
      | None => (Err EOF, "")
      | Some (line, rest) =>
          if slen line <? 2 then (Panic "slice bounds out of range", rest)
          else
            let line := take_str (String.length line - 2) line in
            if bool_decide (c = "$"%char) then
              match atoi line with
              | None => (Err (ErrMsg "strconv.Atoi: invalid syntax"), rest)
              | Some count =>
                  if count =? -1 then (Ok None, rest)
                  else if (0 <? count) && (slen rest <? count) then (Err (ErrMsg "unexpected EOF"), "")
                  else
                    let n := Z.to_nat count in
                    match read_line (drop_str n rest) with
                    | None => (Err EOF, "")
                    | Some (_, rest') => (Ok (if 0 <? count then Some (take_str n rest) else None), rest')
                    end
              end
            else if bool_decide (c = "-"%char) then (Err (ErrProtocol line), rest)
            else (Ok (Some line), rest)
      end
  end.

(** ** Replies in sequence *)

Inductive wire_reply := WOk | WNumber (n : Z) | WResult (m : option string) | WError (e : goerr).
Definition wire (r : wire_reply) : string :=
  match r with
  | WOk => conn_Ok
  | WNumber n => conn_Number n
  | WResult m => conn_Result m
  | WError e => conn_Error e
  end.
(** What the client is to make of a reply. *)
Definition received (r : wire_reply) : outcome (option string) :=
  match r with
  | WOk => Ok (Some "OK")
  | WNumber n => Ok (Some (dec n))
  | WResult m => Ok (if bool_decide (m = Some "") then None else m)
  | WError e => Err (ErrProtocol (match e with ErrCoded _ _ => err_text e | _ => "ERR " +:+ err_text e end))
  end.
Fixpoint read_all (n : nat) (rdr : string) : list (outcome (option string)) * string :=
  match n with
  | O => ([], rdr)
  | S k => let '(o, rest) := readResponse rdr in let '(os, last) := read_all k rest in (o :: os, last)
  end.
Fixpoint wires (rs : list wire_reply) : string :=
  match rs with [] => "" | r :: rs' => wire r +:+ wires rs' end.

(** An error's text is one line; a length fits an int. *)
Definition sendable (r : wire_reply) : Prop :=
  match r with
  | WError e => no_char (chr 10) (err_text e) = true
  | WResult (Some m) => in_int64 (slen m) = true
  | _ => True
  end.
#[global] Instance sendable_dec r : Decision (sendable r).
Proof. destruct r as [| |[m|]|]; apply _. Defined.

Lemma read_line_app l rest :
  no_char (chr 10) l = true → read_line (l +:+ CRLF +:+ rest) = Some (l +:+ CRLF, rest).
Proof.
  induction l as [|c l IH]; [done|]. cbn [no_char]. intros [Hc Hl]%andb_prop. cbn [String.append read_line].
  apply negb_true_iff, bool_decide_eq_false in Hc. rw bool_decide_eq_false_2 //. by rw (IH Hl).
Qed.
Lemma strip_crlf l : take_str (String.length (l +:+ CRLF) - 2) (l +:+ CRLF) = l.
Proof.
  rw length_app_str. change (String.length CRLF) with 2%nat. rw Nat.add_sub. apply take_str_app.
Qed.
Lemma crlf_long l : (slen (l +:+ CRLF) <? 2) = false.
Proof. apply Z.ltb_ge. rw /slen length_app_str. change (String.length CRLF) with 2%nat. lia. Qed.

(** A status line, after its first byte. *)
Lemma readResponse_line c l rest :
  c ≠ "$"%char → no_char (chr 10) l = true →
  readResponse (String c (l +:+ CRLF +:+ rest)) =
    (if bool_decide (c = "-"%char) then Err (ErrProtocol l) else Ok (Some l), rest).
Proof.
  intros Hc Hl. rw /readResponse read_line_app // crlf_long strip_crlf bool_decide_eq_false_2 //.
  by case_bool_decide.
Qed.

Lemma no_lf_digits s : all_digits s = true → no_char (chr 10) s = true.
Proof. rw all_chars_digits. by apply all_chars_no_char. Qed.
Lemma no_lf_dec n : no_char (chr 10) (dec n) = true.
Proof.
  rw /dec. destruct (Z.ltb_spec n 0).
  - cbn [no_char]. rw no_lf_digits; [apply dec_nat_digits; lia|done].
  - apply no_lf_digits, dec_nat_digits. lia.
Qed.

Lemma app_str_assoc3 a b c d : (a +:+ b +:+ c) +:+ d = a +:+ b +:+ c +:+ d.
Proof. by rw !app_str_assoc. Qed.

Lemma readResponse_wire r rest :
  sendable r → readResponse (wire r +:+ rest) = (received r, rest).
Proof.
  destruct r as [|n|[m|]|e]; cbn [wire sendable]; intros Hs.
  - exact (readResponse_line "+" "OK" rest ltac:(done) eq_refl).
  - rw /conn_Number app_str_assoc3. exact (readResponse_line ":" (dec n) rest ltac:(done) (no_lf_dec n)).
  - set (k := m +:+ CRLF +:+ rest).
    assert (E : conn_Result (Some m) +:+ rest = String "$" (dec (slen m) +:+ CRLF +:+ k)).
    { rw /conn_Result /k. cbn [String.append]. by rw !app_str_assoc. }
    rw E /readResponse read_line_app; [apply no_lf_dec|]. rw crlf_long strip_crlf.
    rw bool_decide_eq_true_2 // atoi_dec //.
    assert (Hk : slen k = slen m + (2 + slen rest)).
    { rw /k /slen !length_app_str. change (String.length CRLF) with 2%nat. lia. }
    assert (Hm : 0 ≤ slen m) by (rw /slen; lia). assert (0 ≤ slen rest) by (rw /slen; lia).
    destruct (Z.eqb_spec (slen m) (-1)); [lia|]. rw Hk.
    destruct (Z.ltb_spec (slen m + (2 + slen rest)) (slen m)); [lia|]. rw andb_false_r.
    rw {1 2}/slen Nat2Z.id drop_str_app take_str_app. change (read_line (CRLF +:+ rest)) with (Some (CRLF, rest)).
    cbn [received]. f_equal. f_equal. destruct m as [|c m]; [done|].
    by rw bool_decide_eq_false_2.
  - done.
  - assert (Hl : ∀ l, no_char (chr 10) l = true →
      readResponse (String "-" (l +:+ CRLF +:+ rest)) = (Err (ErrProtocol l), rest)).
    { intros l Hl. exact (readResponse_line "-" l rest ltac:(done) Hl). }
    destruct e; cbn [conn_Error received].
    + rw app_str_assoc3. by apply (Hl ("ERR " +:+ err_text (ErrMsg msg))).
    + rw app_str_assoc3. by apply Hl.
    + rw app_str_assoc3. by apply (Hl ("ERR " +:+ err_text (ErrProtocol msg))).
Qed.

Lemma read_all_wires rs rest :
  Forall sendable rs → read_all (length rs) (wires rs +:+ rest) = (List.map received rs, rest).
Proof.
  induction 1 as [|r rs Hr Hrs IH]; [done|]. cbn [length read_all wires List.map].
  by rw app_str_assoc readResponse_wire // IH.
Qed.

(** C12. The replies the server writes are what the client reads, one for one and in
    order, whatever bytes the results hold, and nothing is left over; only a result
    that is empty is read as no result. *)
Theorem replies_round_trip rs rest :
  Forall sendable rs → read_all (length rs) (wires rs +:+ rest) = (List.map received rs, rest).
Proof. apply read_all_wires. Qed.
Lemma replies_round_trip_witness :
  read_all 3 (wires [WOk; WResult (Some "two
lines"); WError (ErrCoded "MUST_FINISH" "later")] +:+ "") =
    ([Ok (Some "OK"); Ok (Some "two
lines"); Err (ErrProtocol "MUST_FINISH later")], "").
Proof.
  apply (replies_round_trip [WOk; WResult (Some "two
lines"); WError (ErrCoded "MUST_FINISH" "later")] "").
  by repeat constructor.
Defined.

(** An error whose text has a line break puts client and server out of step: the
    client leaves the rest of the text to be read as the reply to its next request. *)
Theorem multiline_error_desynchronises l t rest :
  no_char (chr 10) l = true →
  readResponse (conn_Error (ErrMsg (l +:+ CRLF +:+ t)) +:+ rest) =
    (Err (ErrProtocol ("ERR " +:+ l)), t +:+ CRLF +:+ rest).
Proof.
  intros Hl. rw /conn_Error. cbn [err_text String.append]. rw !app_str_assoc.
  exact (readResponse_line "-" ("ERR " +:+ l) (t +:+ CRLF +:+ rest) ltac:(done) Hl).
Qed.
