(* ===== verification/Workers.v ===== *)
(** * Worker processes (src/server/workers.go)

    Client data is shared by address: a connection keeps the data its HELLO brought,
    and [heartbeats] maps a worker's id to the data registered for it, which is that
    of the connection that registered it.  [clients] is that memory; connections are
    numbered. *)
From S2P Require Import Prelude GoStrings Manager.

#[local] Open Scope list_scope.

(** ** States of a worker *)

Inductive WorkerState := Running | Quiet | Terminate.
#[global] Instance WorkerState_eq_dec : EqDecision WorkerState.
Proof. solve_decision. Defined.

Definition stateString (state : WorkerState) : string :=
  match state with Quiet => "quiet" | Terminate => "terminate" | Running => "" end.
Definition stateFromString (state : string) : WorkerState :=
  if bool_decide (state = "quiet") then Quiet
  else if bool_decide (state = "terminate") then Terminate
  else Running.

Record ClientData := mkClient {
  Hostname : string; cWid : string; Pid : Z; RssKb : Z; Labels : list string;
  PasswordHash : string; Version : Z;
  StartedAt : Z; lastHeartbeat : Z; cstate : WorkerState; connections : gset nat
}.
Definition set_beat (rss now : Z) (c : ClientData) : ClientData :=
  mkClient c.(Hostname) c.(cWid) c.(Pid) rss c.(Labels) c.(PasswordHash) c.(Version)
    c.(StartedAt) now c.(cstate) c.(connections).
Definition set_cstate (st : WorkerState) (c : ClientData) : ClientData :=
  mkClient c.(Hostname) c.(cWid) c.(Pid) c.(RssKb) c.(Labels) c.(PasswordHash) c.(Version)
    c.(StartedAt) c.(lastHeartbeat) st c.(connections).
Definition set_connections (l : gset nat) (c : ClientData) : ClientData :=
  mkClient c.(Hostname) c.(cWid) c.(Pid) c.(RssKb) c.(Labels) c.(PasswordHash) c.(Version)
    c.(StartedAt) c.(lastHeartbeat) c.(cstate) l.
Definition set_started (now : Z) (c : ClientData) : ClientData :=
  mkClient c.(Hostname) c.(cWid) c.(Pid) c.(RssKb) c.(Labels) c.(PasswordHash) c.(Version)
    now now c.(cstate) ∅.

Definition IsQuiet (worker : ClientData) : bool := negb (bool_decide (worker.(cstate) = Running)).
Definition IsConsumer (worker : ClientData) : bool := negb (bool_decide (worker.(cWid) = "")).
(** "quiet" or "terminate": only forward. *)
Definition Signal (newstate : WorkerState) (worker : ClientData) : ClientData :=
  if bool_decide (worker.(cstate) = newstate) then worker
  else if bool_decide (worker.(cstate) = Running) then set_cstate newstate worker
  else if bool_decide (worker.(cstate) = Quiet) && bool_decide (newstate = Terminate) then set_cstate newstate worker
  else worker.

(** Its place in running -> quiet -> terminate. *)
Definition stage (state : WorkerState) : nat :=
  match state with Running => 0 | Quiet => 1 | Terminate => 2 end.

(** ** The registry *)

Record workers := mkWorkers { clients : gmap nat ClientData; heartbeats : gmap string nat }.
Definition newWorkers : workers := mkWorkers ∅ ∅.
Definition Count (w : workers) : Z := Z.of_nat (size w.(heartbeats)).
Definition registered (w : workers) (wid : string) : option (nat * ClientData) :=
  p ← w.(heartbeats) !! wid; cd ← w.(clients) !! p; Some (p, cd).

(** The data at [client] is that of connection [cls].  The map is read under one lock
    and written under another: [missed] says that a registration in between was not
    seen by the reading. *)
Definition setupHeartbeat (now : Z) (client cls : nat) (missed : bool) (w : workers) : (nat * bool) * workers :=
  match w.(clients) !! client with
  | None => ((client, false), w)
  | Some cd =>
      let store entry hb :=
        let mem := <[client := set_started now cd]> w.(clients) in
        ((entry, false),
         mkWorkers (alter (λ e, set_connections ({[cls]} ∪ e.(connections)) e) entry mem) hb) in
      match w.(heartbeats) !! cd.(cWid) with
      | Some entry => if missed then store entry w.(heartbeats) else ((entry, true), w)
      | None => store client (<[cd.(cWid) := client]> w.(heartbeats))
      end
  end.

Record ClientBeat := mkBeat { CurrentState : string; bWid : string; bRssKb : Z }.
(** A state that is not given is the one in force. *)
Definition heartbeat (now : Z) (client : ClientBeat) (w : workers) : option nat * workers :=
  match registered w client.(bWid) with
  | None => (None, w)
  | Some (p, entry) =>
      let newst := if bool_decide (client.(CurrentState) = "") then entry.(cstate) else stateFromString client.(CurrentState) in
      let entry := set_beat client.(bRssKb) now entry in
      let entry := if bool_decide (entry.(cstate) = newst) then entry else Signal newst entry in
      (Some p, mkWorkers (<[p := entry]> w.(clients)) w.(heartbeats))
  end.

Definition RemoveConnection (client c : nat) (w : workers) : workers :=
  match w.(clients) !! client with
  | None => w
  | Some own =>
      match registered w own.(cWid) with
      | None => w
      | Some (p, cd) =>
          let left_ := cd.(connections) ∖ {[c]} in
          mkWorkers (<[p := set_connections left_ cd]> w.(clients))
            (if bool_decide (left_ = ∅) then delete own.(cWid) w.(heartbeats) else w.(heartbeats))
      end
  end.

Definition beats_before (t : Z) (w : workers) (p : nat) : bool :=
  match w.(clients) !! p with Some cd => cd.(lastHeartbeat) <? t | None => false end.
Definition conns_of (w : workers) (p : nat) : gset nat :=
  match w.(clients) !! p with Some cd => cd.(connections) | None => ∅ end.
(** The count, the connections closed, and the workers left. *)
Definition reapHeartbeats (t : Z) (w : workers) : Z * gset nat * workers :=
  let toDelete := filter (λ wp, beats_before t w wp.2 = true) w.(heartbeats) in
  (Z.of_nat (size toDelete), map_fold (λ _ p acc, conns_of w p ∪ acc) ∅ toDelete,
   mkWorkers w.(clients) (filter (λ wp, ¬ beats_before t w wp.2 = true) w.(heartbeats))).

(** The signals of the web page of busy workers (src/webui/pages.go): [Heartbeats]
    ranges over what is registered. *)
Definition busy_signal (action : string) : option WorkerState :=
  if bool_decide (action = "quiet") then Some Quiet
  else if bool_decide (action = "terminate") then Some Terminate
  else None.
Definition busyHandler (wid action : string) (w : workers) : outcome unit * workers :=
  if bool_decide (wid = "") then (Ok tt, w)
  else
    match busy_signal action with
    | None => (Err (ErrMsg ("Invalid signal: " +:+ action)), w)
    | Some signal =>
        let chosen p cd :=
          bool_decide (p ∈ (map_to_list w.(heartbeats)).*2) &&
          (bool_decide (wid = "all") || bool_decide (wid = cd.(cWid))) in
        (Ok tt, mkWorkers (map_imap (λ p cd, Some (if chosen p cd then Signal signal cd else cd)) w.(clients)) w.(heartbeats))
    end.

(** ** Connections come and go *)

(** [data_of] has the address of every connection's data; [open] the connections being
    served, [lost] those whose HELLO was accepted and could not be answered. *)
Record net := mkNet {
  reg : workers; data_of : gmap nat nat; open : gset nat; lost : gset nat;
  next_conn : nat; next_client : nat
}.
Definition no_net : net := mkNet newWorkers ∅ ∅ ∅ 0 0.
Definition set_reg (w : workers) (n : net) : net :=
  mkNet w n.(data_of) n.(open) n.(lost) n.(next_conn) n.(next_client).
(** The HELLO's data: what its JSON cannot give is zero. *)
Definition hello_data (cd : ClientData) : ClientData :=
  mkClient cd.(Hostname) cd.(cWid) cd.(Pid) cd.(RssKb) cd.(Labels) cd.(PasswordHash) cd.(Version)
    cd.(StartedAt) zero_time Running ∅.

(** [startConnection] after its checks, up to its answer. *)
Definition startConnection (now : Z) (cd : ClientData) (missed answered : bool) (n : net) : net :=
  let p := n.(next_client) in let c := n.(next_conn) in
  let w := mkWorkers (<[p := hello_data cd]> n.(reg).(clients)) n.(reg).(heartbeats) in
  let w := if bool_decide (cd.(cWid) = "") then w else (setupHeartbeat now p c missed w).2 in
  mkNet w (<[c := p]> n.(data_of))
    (if answered then {[c]} ∪ n.(open) else n.(open)) (if answered then n.(lost) else {[c]} ∪ n.(lost)) (S c) (S p).
Definition cleanupConnection (c p : nat) (n : net) : net :=
  mkNet (RemoveConnection p c n.(reg)) n.(data_of) (n.(open) ∖ {[c]}) n.(lost) n.(next_conn) n.(next_client).

Inductive occurrence :=
| Hello (now : Z) (cd : ClientData) (missed answered : bool)
| Beat (now : Z) (b : ClientBeat)
| Closed (c : nat)
| Reap (t : Z)
| Busy (wid action : string).
Inductive occur (n : net) : occurrence → net → Prop :=
| occur_hello now cd missed answered : occur n (Hello now cd missed answered) (startConnection now cd missed answered n)
| occur_beat now b : occur n (Beat now b) (set_reg (heartbeat now b n.(reg)).2 n)
| occur_closed c p : c ∈ n.(open) → n.(data_of) !! c = Some p → occur n (Closed c) (cleanupConnection c p n)
| occur_reap t : occur n (Reap t) (set_reg (reapHeartbeats t n.(reg)).2 n)
| occur_busy wid action : occur n (Busy wid action) (set_reg (busyHandler wid action n.(reg)).2 n).
Inductive occurs (n : net) : list occurrence → net → Prop :=
| occurs_nil : occurs n [] n
| occurs_cons o n1 os n2 : occur n o n1 → occurs n1 os n2 → occurs n (o :: os) n2.

(** The guard of FETCH: quiet and terminated workers get no jobs. *)
Definition may_fetch (n : net) (c : nat) : bool :=
  match p ← n.(data_of) !! c; n.(reg).(clients) !! p with
  | Some cd => bool_decide (cd.(cstate) = Running)
  | None => false
  end.

(** ** Facts of the registry *)

Lemma registered_Some w wid p cd :
  registered w wid = Some (p, cd) ↔ w.(heartbeats) !! wid = Some p ∧ w.(clients) !! p = Some cd.
Proof.
  rw /registered. split.
  - intros (q & Hq & (cd' & Hc & [= <- <-])%bind_Some)%bind_Some. done.
  - intros [Hp Hc]. by rewrite Hp /= Hc.
Qed.
Lemma Signal_cWid st cd : cWid (Signal st cd) = cWid cd.
Proof. rw /Signal. by repeat case_bool_decide. Qed.
Lemma Signal_connections st cd : connections (Signal st cd) = connections cd.
Proof. rw /Signal. by repeat case_bool_decide. Qed.

(** What becomes of a client's data: the same process, no earlier in its life. *)
Definition later (cd cd' : ClientData) : Prop :=
  cd'.(cWid) = cd.(cWid) ∧ cd'.(Hostname) = cd.(Hostname) ∧ cd'.(Pid) = cd.(Pid) ∧
  (stage cd.(cstate) ≤ stage cd'.(cstate))%nat.
#[global] Instance later_preorder : PreOrder later.
Proof.
  split; [intros cd; by split_and!|]. intros a b c (E1 & E2 & E3 & E4) (F1 & F2 & F3 & F4).
  split_and!; [by rewrite F1|by rewrite F2|by rewrite F3|exact (Nat.le_trans _ _ _ E4 F4)].
Qed.
Lemma later_Signal st cd : later cd (Signal st cd).
Proof.
  destruct cd as [h w pid rss ls pw v sa lh [] cs], st; split_and!; first [done|vm_compute; lia].
Qed.
Lemma later_set_connections l cd : later cd (set_connections l cd).
Proof. by split_and!. Qed.
Lemma later_set_started now cd : later cd (set_started now cd).
Proof. by split_and!. Qed.
Lemma later_set_beat rss now cd : later cd (set_beat rss now cd).
Proof. by split_and!. Qed.

Definition keeps (m m' : gmap nat ClientData) : Prop :=
  ∀ p cd, m !! p = Some cd → ∃ cd', m' !! p = Some cd' ∧ later cd cd'.
#[global] Instance keeps_preorder : PreOrder keeps.
Proof.
  split; [intros m p cd H; by exists cd|].
  intros a b c Hab Hbc p cd (cd1 & (cd2 & H2 & L2)%Hbc & L1)%Hab. exists cd2. by split; [|transitivity cd1].
Qed.
Lemma keeps_insert m p cd cd' : m !! p = Some cd → later cd cd' → keeps m (<[p := cd']> m).
Proof.
  intros Hp L q e Hq. destruct (decide (p = q)) as [<-|].
  - exists cd'. rw lookup_insert_eq. split; [done|]. congruence.
  - exists e. by rw lookup_insert_ne.
Qed.
Lemma keeps_fresh m p cd : m !! p = None → keeps m (<[p := cd]> m).
Proof. intros Hp q e Hq. exists e. split; [|done]. rw lookup_insert_ne //. congruence. Qed.
Lemma keeps_alter m p f : (∀ cd, later cd (f cd)) → keeps m (alter f p m).
Proof.
  intros Hf q e Hq. destruct (decide (p = q)) as [<-|].
  - exists (f e). by rw lookup_alter_eq Hq.
  - exists e. by rw lookup_alter_ne.
Qed.

Definition beaten (now : Z) (b : ClientBeat) (entry : ClientData) : ClientData :=
  Signal (if bool_decide (b.(CurrentState) = "") then entry.(cstate) else stateFromString b.(CurrentState))
    (set_beat b.(bRssKb) now entry).
Lemma heartbeat_eq now b w :
  heartbeat now b w =
    match registered w b.(bWid) with
    | None => (None, w)
    | Some (p, entry) => (Some p, mkWorkers (<[p := beaten now b entry]> w.(clients)) w.(heartbeats))
    end.
Proof.
  rw /heartbeat /beaten. destruct (registered w (bWid b)) as [[p entry]|]; [|done].
  set (newst := if bool_decide (CurrentState b = _) then _ else _). cbn beta zeta.
  destruct (decide (cstate (set_beat (bRssKb b) now entry) = newst)) as [E|E].
  - by rw /Signal (bool_decide_eq_true_2 _ E).
  - by rw (bool_decide_eq_false_2 _ E).
Qed.
Lemma setupHeartbeat_known now p c w cd entry :
  w.(clients) !! p = Some cd → w.(heartbeats) !! cd.(cWid) = Some entry →
  setupHeartbeat now p c false w = ((entry, true), w).
Proof. intros Hp Hw. by rw /setupHeartbeat Hp Hw. Qed.

Lemma keeps_setupHeartbeat now p c missed w : keeps w.(clients) (setupHeartbeat now p c missed w).2.(clients).
Proof.
  rw /setupHeartbeat. destruct (clients w !! p) as [cd|] eqn:Hp; [|reflexivity].
  assert (K : ∀ e, keeps w.(clients)
    (alter (λ e, set_connections ({[c]} ∪ e.(connections)) e) e (<[p := set_started now cd]> w.(clients)))).
  { intros e. transitivity (<[p := set_started now cd]> (clients w)).
    - by apply (keeps_insert _ _ cd); [|apply later_set_started].
    - apply keeps_alter. intros ?. apply later_set_connections. }
  destruct (heartbeats w !! cWid cd); [destruct missed|]; [apply K|reflexivity|apply K].
Qed.
Lemma keeps_heartbeat now b w : keeps w.(clients) (heartbeat now b w).2.(clients).
Proof.
  rw heartbeat_eq. destruct (registered w (bWid b)) as [[p cd]|] eqn:E; [|reflexivity].
  apply registered_Some in E as [_ E]. apply (keeps_insert _ _ cd); [done|].
  rw /beaten. eapply transitivity; [apply later_set_beat|apply later_Signal].
Qed.
Lemma keeps_RemoveConnection p c w : keeps w.(clients) (RemoveConnection p c w).(clients).
Proof.
  rw /RemoveConnection. destruct (clients w !! p) as [own|]; [|reflexivity].
  destruct (registered w (cWid own)) as [[q cd]|] eqn:E; [|reflexivity].
  apply registered_Some in E as [_ E]. apply (keeps_insert _ _ cd); [done|apply later_set_connections].
Qed.
Lemma busyHandler_spec wid action w :
  ∃ f : nat → ClientData → ClientData,
    (busyHandler wid action w).2 = mkWorkers (map_imap (λ p cd, Some (f p cd)) w.(clients)) w.(heartbeats) ∧
    ∀ p cd, f p cd = cd ∨ (∃ st, f p cd = Signal st cd) ∧ p ∈ (map_to_list w.(heartbeats)).*2.
Proof.
  assert (Hid : map_imap (λ _ cd, Some cd) w.(clients) = w.(clients)).
  { apply map_eq. intros p. rw map_lookup_imap. by destruct (clients w !! p). }
  assert (Hid' : w = mkWorkers (map_imap (λ _ cd, Some cd) w.(clients)) w.(heartbeats)).
  { rewrite Hid. by destruct w. }
  rw /busyHandler. case_bool_decide; [exists (λ _ cd, cd); split; [done|by left]|].
  destruct (busy_signal action) as [st|]; [|exists (λ _ cd, cd); split; [done|by left]].
  eexists (λ p cd, if _ : bool then _ else cd). split; [reflexivity|]. intros p cd. cbn beta.
  destruct (bool_decide (p ∈ (map_to_list (heartbeats w)).*2)) eqn:E; [|by left].
  apply bool_decide_eq_true in E. destruct (_ || _); [|by left]. right. split; [by eexists|done].
Qed.
Lemma keeps_busyHandler wid action w : keeps w.(clients) (busyHandler wid action w).2.(clients).
Proof.
  destruct (busyHandler_spec wid action w) as (f & -> & Hf). intros p cd Hp.
  exists (f p cd). cbn. rw map_lookup_imap Hp. split; [done|].
  destruct (Hf p cd) as [->|[[st ->] _]]; [done|apply later_Signal].
Qed.

(** ** What is registered *)

Section sound.
Context (own : nat → string → Prop).

(** The data of [wid]: it lists connections, all of them [live] and the worker's own. *)
Definition sound_entry (live : gset nat) (wid : string) (cd : ClientData) : Prop :=
  cd.(cWid) = wid ∧ wid ≠ "" ∧ cd.(connections) ≠ ∅ ∧ ∀ c, c ∈ cd.(connections) → c ∈ live ∧ own c wid.
Definition sound (live : gset nat) (w : workers) : Prop :=
  ∀ wid p, w.(heartbeats) !! wid = Some p → ∃ cd, w.(clients) !! p = Some cd ∧ sound_entry live wid cd.

Lemma sound_inj live w a b p :
  sound live w → w.(heartbeats) !! a = Some p → w.(heartbeats) !! b = Some p → a = b.
Proof.
  intros HS (cd & Hc & <- & _)%HS (cd' & Hc' & <- & _)%HS. congruence.
Qed.
(** Data may change in what an entry does not speak of, and entries may go. *)
Lemma sound_change live w m hb :
  sound live w → (∀ wid p, hb !! wid = Some p → w.(heartbeats) !! wid = Some p) →
  (∀ wid p cd, w.(heartbeats) !! wid = Some p → w.(clients) !! p = Some cd →
     ∃ cd', m !! p = Some cd' ∧ cd'.(cWid) = cd.(cWid) ∧ cd'.(connections) = cd.(connections)) →
  sound live (mkWorkers m hb).
Proof.
  intros HS Hhb Hm wid p Hp%Hhb. destruct (HS _ _ Hp) as (cd & Hcd & E & N & K).
  destruct (Hm _ _ _ Hp Hcd) as (cd' & Hcd' & E' & EC). exists cd'. rw /sound_entry E' EC. done.
Qed.
Lemma sound_heartbeat live now b w : sound live w → sound live (heartbeat now b w).2.
Proof.
  intros HS. rw heartbeat_eq. destruct (registered w (bWid b)) as [[q e]|] eqn:E; [|done].
  apply registered_Some in E as [_ E]. apply (sound_change _ w); [done|done|]. intros wid p cd _ Hp.
  destruct (decide (q = p)) as [<-|].
  - eexists. rw lookup_insert_eq. split; [done|]. rw /beaten Signal_cWid Signal_connections.
    assert (e = cd) as -> by congruence. done.
  - exists cd. by rw lookup_insert_ne.
Qed.
Lemma sound_reapHeartbeats live t w : sound live w → sound live (reapHeartbeats t w).2.
Proof.
  intros HS. apply (sound_change _ w); [done| |by intros wid p cd _ H; exists cd].
  by intros wid p [? _]%map_lookup_filter_Some.
Qed.
Lemma sound_busyHandler live wid action w : sound live w → sound live (busyHandler wid action w).2.
Proof.
  intros HS. destruct (busyHandler_spec wid action w) as (f & -> & Hf).
  apply (sound_change _ w); [done|done|]. intros wid' p cd _ Hp. exists (f p cd). rw map_lookup_imap Hp.
  split; [done|]. destruct (Hf p cd) as [->|[[st ->] _]]; [done|]. by rw Signal_cWid Signal_connections.
Qed.
(** One entry's data is replaced. *)
Lemma sound_insert live live' w wid p cd' :
  sound live w → w.(heartbeats) !! wid = Some p → sound_entry live' wid cd' →
  (∀ wid' cd, wid' ≠ wid → sound_entry live wid' cd → sound_entry live' wid' cd) →
  sound live' (mkWorkers (<[p := cd']> w.(clients)) w.(heartbeats)).
Proof.
  intros HS Hp He Hother wid' p' Hp'. cbn in Hp'. destruct (decide (wid' = wid)) as [->|Hne].
  - assert (p' = p) as -> by congruence. exists cd'. by rw lookup_insert_eq.
  - destruct (HS _ _ Hp') as (cd & Hcd & Hs). exists cd. split; [|by apply Hother].
    cbn. rw lookup_insert_ne //. intros ->. apply Hne. by apply (sound_inj live w _ _ p').
Qed.
Lemma sound_mono live live' w : live ⊆ live' → sound live w → sound live' w.
Proof.
  intros Hl HS wid p Hp. destruct (HS _ _ Hp) as (cd & Hcd & E & N & Ne & K). exists cd. split; [done|].
  split_and!; [done..|]. intros c [H1 H2]%K. split; [by apply Hl|done].
Qed.
Lemma sound_setupHeartbeat live now p c missed w cd :
  sound live w → w.(clients) !! p = Some cd → cd.(cWid) ≠ "" → (∀ wid, w.(heartbeats) !! wid ≠ Some p) →
  c ∈ live → own c cd.(cWid) → sound live (setupHeartbeat now p c missed w).2.
Proof.
  intros HS Hp Hw Hfresh Hc Ho. rw /setupHeartbeat Hp.
  destruct (heartbeats w !! cWid cd) as [e|] eqn:E.
  - destruct missed; [|done]. destruct (HS _ _ E) as (ce & He & Hse). cbn.
    assert (Hne : p ≠ e) by (intros ->; by apply (Hfresh (cWid cd))).
    assert (Hs1 : sound live (mkWorkers (<[p := set_started now cd]> (clients w)) (heartbeats w))).
    { apply (sound_change _ w); [done|done|]. intros wid q cq Hq Hcq. exists cq.
      rw lookup_insert_ne //. intros ->. by apply (Hfresh wid). }
    rw (_ : alter _ e (<[p := set_started now cd]> (clients w)) =
      <[e := set_connections ({[c]} ∪ ce.(connections)) ce]> (<[p := set_started now cd]> (clients w))).
    { apply map_eq. intros k. destruct (decide (e = k)) as [<-|].
      - rw lookup_alter_eq lookup_insert_eq lookup_insert_ne //. by rw He.
      - by rw lookup_alter_ne // (lookup_insert_ne _ e). }
    apply (sound_insert live live _ _ _ _ Hs1 E); [|done].
    destruct Hse as (E1 & E2 & E3 & E4). split_and!; [done|done|set_solver|]. cbn.
    intros k [->%elem_of_singleton|Hk]%elem_of_union; [done|by apply E4].
  - cbn. intros wid q Hq. destruct (decide (wid = cWid cd)) as [->|Hne].
    + cbn in Hq. rewrite lookup_insert_eq in Hq. injection Hq as <-. eexists. cbn.
      rw lookup_alter_eq lookup_insert_eq. split; [reflexivity|]. split_and!; [done|done|set_solver|].
      cbn. intros k [->%elem_of_singleton|[]%elem_of_empty]%elem_of_union. done.
    + cbn in Hq. apply lookup_insert_Some in Hq as [[? _]|[_ Hq]]; [congruence|]. destruct (HS _ _ Hq) as (cq & Hcq & Hs).
      exists cq. split; [|done]. cbn. assert (p ≠ q) by (intros ->; by apply (Hfresh wid)).
      by rw lookup_alter_ne // lookup_insert_ne.
Qed.
Lemma sound_RemoveConnection (Hown : ∀ c a b, own c a → own c b → a = b) live p c w own_cd :
  sound live w → w.(clients) !! p = Some own_cd → own c own_cd.(cWid) →
  sound (live ∖ {[c]}) (RemoveConnection p c w).
Proof.
  intros HS Hp Ho. rw /RemoveConnection Hp.
  assert (Hother : ∀ wid cd, wid ≠ cWid own_cd → sound_entry live wid cd → sound_entry (live ∖ {[c]}) wid cd).
  { intros wid cd Hne (E1 & E2 & E3 & E4). split_and!; [done..|]. intros k Hk. destruct (E4 _ Hk) as [H1 H2].
    split; [|done]. assert (k ≠ c) by (intros ->; apply Hne; by apply (Hown c)). set_solver. }
  destruct (registered w (cWid own_cd)) as [[q cd]|] eqn:E.
  - apply registered_Some in E as [Hq Hcd]. destruct (HS _ _ Hq) as (cd0 & Hcd0 & E1 & E2 & E3 & E4).
    assert (cd0 = cd) as -> by congruence.
    case_bool_decide as He.
    + intros wid r Hr. cbn in Hr. apply lookup_delete_Some in Hr as [Hne%not_eq_sym Hr]. destruct (HS _ _ Hr) as (cr & Hcr & Hs).
      exists cr. split; [|by apply Hother]. cbn. rw lookup_insert_ne //. intros ->.
      apply Hne. by apply (sound_inj live w _ _ r).
    + apply (sound_insert live _ w (cWid own_cd)); [done|done| |by apply Hother].
      split_and!; [done..|]. cbn. intros k [Hk Hkc]%elem_of_difference. destruct (E4 _ Hk). by split; [set_solver|].
  - intros wid r Hr. destruct (HS _ _ Hr) as (cr & Hcr & Hs). exists cr. split; [done|]. apply Hother; [|done].
    intros ->. assert (registered w (cWid own_cd) = Some (r, cr)) by by apply registered_Some. congruence.
Qed.
End sound.

(** ** Every history *)

(** Connection [c] was opened by worker [wid]. *)
Definition opened_by (n : net) (c : nat) (wid : string) : Prop :=
  ∃ p cd, n.(data_of) !! c = Some p ∧ n.(reg).(clients) !! p = Some cd ∧ cd.(cWid) = wid.
Lemma opened_by_inj n c a b : opened_by n c a → opened_by n c b → a = b.
Proof. intros (p & cd & Hc & Hp & <-) (p' & cd' & Hc' & Hp' & <-). congruence. Qed.
Definition live (n : net) : gset nat := n.(open) ∪ n.(lost).

Record net_ok (n : net) : Prop := {
  ok_sound : sound (opened_by n) (live n) n.(reg);
  ok_clients p : is_Some (n.(reg).(clients) !! p) → (p < n.(next_client))%nat;
  ok_data c p : n.(data_of) !! c = Some p → (c < n.(next_conn))%nat ∧ is_Some (n.(reg).(clients) !! p)
}.
Lemma ok_registered n wid p : net_ok n → n.(reg).(heartbeats) !! wid = Some p → (p < n.(next_client))%nat.
Proof. intros HN (cd & Hcd & _)%(ok_sound _ HN). apply (ok_clients _ HN). by exists cd. Qed.
Lemma ok_listed n wid r c : net_ok n → registered n.(reg) wid = Some r → c ∈ r.2.(connections) → (c < n.(next_conn))%nat.
Proof.
  destruct r as [p cd]. intros HN [Hp Hcd]%registered_Some Hc. destruct (ok_sound _ HN _ _ Hp) as (cd' & Hcd' & _ & _ & _ & K).
  assert (cd' = cd) as -> by congruence. destruct (K _ Hc) as [_ (q & e & Hq & _)]. by apply (ok_data _ HN _ _ Hq).
Qed.

(** The handlers that leave connections alone. *)
Lemma net_ok_set_reg n w :
  net_ok n → keeps n.(reg).(clients) w.(clients) → (∀ p, is_Some (w.(clients) !! p) → is_Some (n.(reg).(clients) !! p)) →
  sound (opened_by n) (live n) w → net_ok (set_reg w n).
Proof.
  intros [HS HC HD] HK Hdom Hw. split.
  - cbn. intros wid p (cd & Hcd & E & N & Ne & K)%Hw. exists cd. split; [done|]. split_and!; [done..|].
    intros c [Hl (q & e & Hq & He & Ew)]%K. split; [done|]. destruct (HK _ _ He) as (e' & He' & L & _).
    exists q, e'. split_and!; [done..|congruence].
  - intros p Hp. apply HC, Hdom, Hp.
  - intros c p Hc. destruct (HD _ _ Hc) as [? [cd Hcd]]. split; [done|]. destruct (HK _ _ Hcd) as (e & He & _). by exists e.
Qed.
Definition same_dom (m m' : gmap nat ClientData) : Prop := ∀ p, is_Some (m' !! p) → is_Some (m !! p).
Lemma same_dom_insert m p cd cd' : m !! p = Some cd → same_dom m (<[p := cd']> m).
Proof. intros Hp q. rw lookup_insert_is_Some'. intros [<-|?]; [by exists cd|done]. Qed.
Lemma same_dom_heartbeat now b w : same_dom w.(clients) (heartbeat now b w).2.(clients).
Proof.
  rw heartbeat_eq. destruct (registered w (bWid b)) as [[p cd]|] eqn:E; [|by intros p].
  apply registered_Some in E as [_ E]. by apply (same_dom_insert _ _ cd).
Qed.
Lemma same_dom_busyHandler wid action w : same_dom w.(clients) (busyHandler wid action w).2.(clients).
Proof.
  destruct (busyHandler_spec wid action w) as (f & -> & _). intros p. cbn. rw map_lookup_imap.
  intros [cd H]. destruct (clients w !! p) as [e|] eqn:E; [by exists e|done].
Qed.
Lemma same_dom_RemoveConnection p c w : same_dom w.(clients) (RemoveConnection p c w).(clients).
Proof.
  rw /RemoveConnection. destruct (clients w !! p) as [own|]; [|by intros q].
  destruct (registered w (cWid own)) as [[q cd]|] eqn:E; [|by intros q'].
  apply registered_Some in E as [_ E]. by apply (same_dom_insert _ _ cd).
Qed.
Lemma same_dom_setupHeartbeat now p c missed w : same_dom w.(clients) (setupHeartbeat now p c missed w).2.(clients).
Proof.
  rw /setupHeartbeat. destruct (clients w !! p) as [cd|] eqn:Hp; [|by intros q].
  assert (K : ∀ e f, same_dom w.(clients) (alter f e (<[p := set_started now cd]> w.(clients)))).
  { intros e f q. rw lookup_alter_is_Some. by apply (same_dom_insert _ _ cd). }
  destruct (heartbeats w !! cWid cd); [destruct missed|]; [apply K|by intros q|apply K].
Qed.

(** What a HELLO leaves: the data it brought, and its connection. *)
Lemma keeps_startConnection now cd missed answered n :
  net_ok n → keeps (<[n.(next_client) := hello_data cd]> n.(reg).(clients))
               (startConnection now cd missed answered n).(reg).(clients).
Proof.
  intros HN. cbn. case_bool_decide; [reflexivity|].
  exact (keeps_setupHeartbeat now n.(next_client) n.(next_conn) missed
    (mkWorkers (<[n.(next_client) := hello_data cd]> n.(reg).(clients)) n.(reg).(heartbeats))).
Qed.
Lemma fresh_client n : net_ok n → n.(reg).(clients) !! n.(next_client) = None.
Proof. intros HN. apply eq_None_not_Some. intros H%(ok_clients _ HN). lia. Qed.

Lemma net_ok_startConnection now cd missed answered n :
  net_ok n → net_ok (startConnection now cd missed answered n).
Proof.
  intros HN. pose proof HN as [HS HC HD]. set (n' := startConnection _ _ _ _ _).
  pose proof (fresh_client n HN) as Hfresh.
  assert (HK : keeps n.(reg).(clients) n'.(reg).(clients)).
  { transitivity (<[n.(next_client) := hello_data cd]> n.(reg).(clients)); [by apply keeps_fresh|].
    by apply keeps_startConnection. }
  assert (Hnew : ∃ e, n'.(reg).(clients) !! n.(next_client) = Some e ∧ e.(cWid) = cd.(cWid)).
  { destruct (keeps_startConnection now cd missed answered n HN n.(next_client) (hello_data cd)) as (e & He & L & _).
    { by rw lookup_insert_eq. }
    by exists e. }
  assert (Hdom : same_dom (<[n.(next_client) := hello_data cd]> n.(reg).(clients)) n'.(reg).(clients)).
  { rw /n' /=. case_bool_decide; [by intros q|]. exact (same_dom_setupHeartbeat _ _ _ _ (mkWorkers _ n.(reg).(heartbeats))). }
  assert (Hold : ∀ c wid, opened_by n c wid → opened_by n' c wid).
  { intros c wid (p & e & Hc & Hp & E). destruct (HK _ _ Hp) as (e' & He' & L & _). exists p, e'.
    split_and!; [|done|congruence]. rw /n' /= lookup_insert_ne //. intros <-. apply HD in Hc as [? _]. lia. }
  assert (Hmine : opened_by n' n.(next_conn) cd.(cWid)).
  { destruct Hnew as (e & He & E). exists n.(next_client), e. split_and!; [apply lookup_insert_eq|done..]. }
  split.
  - assert (HS1 : sound (opened_by n') (live n')
      (mkWorkers (<[n.(next_client) := hello_data cd]> n.(reg).(clients)) n.(reg).(heartbeats))).
    { intros wid p Hp. destruct (HS _ _ Hp) as (e & He & E & N & Ne & K). exists e. cbn.
      rw lookup_insert_ne; [congruence|]. split; [done|]. split_and!; [done..|]. intros c [Hl Ho]%K.
      split; [|by apply Hold]. rw /live /n' /=. destruct answered; set_solver. }
    rw {3}/n' /=. case_bool_decide; [done|].
    apply (sound_setupHeartbeat _ _ _ _ _ _ _ (hello_data cd)); [done|by rw lookup_insert_eq|done| | |done].
    + cbn. intros wid Hwid. apply (ok_registered n wid _ HN) in Hwid. lia.
    + rw /live /n' /=. destruct answered; set_solver.
  - intros p Hp. apply Hdom, lookup_insert_is_Some' in Hp as [<-|Hp]; [cbn; lia|]. apply HC in Hp. cbn. lia.
  - intros c p Hc. cbn in Hc. apply lookup_insert_Some in Hc as [[<- <-]|[_ Hc]].
    + split; [cbn; lia|]. destruct Hnew as (e & He & _). by exists e.
    + destruct (HD _ _ Hc) as [? [e He]]. split; [cbn; lia|]. destruct (HK _ _ He) as (e' & He' & _). by exists e'.
Qed.
Lemma net_ok_cleanupConnection c p n :
  c ∈ n.(open) → n.(data_of) !! c = Some p → net_ok n → net_ok (cleanupConnection c p n).
Proof.
  intros Ho Hc HN. pose proof HN as [HS HC HD]. destruct (HD _ _ Hc) as [_ [own Hown]].
  assert (HW : net_ok (set_reg (RemoveConnection p c n.(reg)) n)).
  { apply net_ok_set_reg; [done|apply keeps_RemoveConnection|apply same_dom_RemoveConnection|].
    apply (sound_mono _ (live n ∖ {[c]})); [set_solver|].
    apply (sound_RemoveConnection _ (opened_by_inj n) _ _ _ _ own); [done|done|by exists p, own]. }
  destruct HW as [_ HC' HD']. split; [|exact HC'|exact HD'].
  assert (HS' : sound (opened_by (cleanupConnection c p n)) (live n ∖ {[c]}) (RemoveConnection p c n.(reg))).
  { intros wid q Hq.
    destruct (sound_RemoveConnection _ (opened_by_inj n) (live n) p c n.(reg) own HS Hown ltac:(by exists p, own) _ _ Hq)
      as (cd & Hcd & E & N & Ne & K).
    exists cd. split; [done|]. split_and!; [done..|]. intros k [Hl (r & e & Hr & He & Ew)]%K. split; [done|].
    destruct (keeps_RemoveConnection p c n.(reg) _ _ He) as (e' & He' & L & _). exists r, e'. by rw L. }
  apply (sound_mono _ (live n ∖ {[c]})); [rw /live /=; set_solver|exact HS'].
Qed.
Lemma net_ok_occur n o n' : net_ok n → occur n o n' → net_ok n'.
Proof.
  intros HN. destruct 1.
  - by apply net_ok_startConnection.
  - apply net_ok_set_reg; [done|apply keeps_heartbeat|apply same_dom_heartbeat|by apply sound_heartbeat, HN].
  - by apply net_ok_cleanupConnection.
  - apply net_ok_set_reg; [done|reflexivity|done|by apply sound_reapHeartbeats, HN].
  - apply net_ok_set_reg; [done|apply keeps_busyHandler|apply same_dom_busyHandler|by apply sound_busyHandler, HN].
Qed.
Lemma net_ok_occurs n os n' : net_ok n → occurs n os n' → net_ok n'.
Proof. intros HN H. revert HN. induction H; [done|]. intros HN. by apply IHoccurs, (net_ok_occur n o). Qed.
Lemma net_ok_no_net : net_ok no_net.
Proof. split; [by intros wid p|by intros p []|by intros c p]. Qed.

Lemma keeps_occurs n os n' : net_ok n → occurs n os n' → keeps n.(reg).(clients) n'.(reg).(clients).
Proof.
  intros HN H. revert HN. induction H as [|n o n1 os n2 Ho Hos IH]; [reflexivity|]. intros HN.
  transitivity n1.(reg).(clients); [|by apply IH, (net_ok_occur n o)]. destruct Ho.
  - transitivity (<[n.(next_client) := hello_data cd]> n.(reg).(clients)); [by apply keeps_fresh, fresh_client|].
    by apply keeps_startConnection.
  - apply keeps_heartbeat.
  - apply keeps_RemoveConnection.
  - reflexivity.
  - apply keeps_busyHandler.
Qed.

(** ** A connection nothing lists *)

(** [q] is data that is not registered, and no worker lists [c]. *)
Record apart (q c : nat) (x : ClientData) (w : workers) : Prop := {
  apart_data : w.(clients) !! q = Some x;
  apart_key wid : w.(heartbeats) !! wid ≠ Some q;
  apart_list wid p cd : w.(heartbeats) !! wid = Some p → w.(clients) !! p = Some cd → c ∉ cd.(connections)
}.
Lemma apart_change q c x w m hb :
  apart q c x w → (∀ wid p, hb !! wid = Some p → w.(heartbeats) !! wid = Some p) → m !! q = w.(clients) !! q →
  (∀ wid p cd', w.(heartbeats) !! wid = Some p → m !! p = Some cd' →
     ∃ cd, w.(clients) !! p = Some cd ∧ cd'.(connections) ⊆ cd.(connections)) →
  apart q c x (mkWorkers m hb).
Proof.
  intros [HQ HK HL] Hhb Hq Hm. split; cbn.
  - by rw Hq.
  - intros wid Hwid%Hhb. by apply (HK wid).
  - intros wid p cd' Hp%Hhb Hcd'. destruct (Hm _ _ _ Hp Hcd') as (cd & Hcd & Hsub).
    pose proof (HL _ _ _ Hp Hcd). set_solver.
Qed.
(** The data of one registered worker is replaced. *)
Lemma apart_insert q c x w hb wid p cd cd' :
  apart q c x w → registered w wid = Some (p, cd) → cd'.(connections) ⊆ cd.(connections) →
  (∀ wid p, hb !! wid = Some p → w.(heartbeats) !! wid = Some p) →
  apart q c x (mkWorkers (<[p := cd']> w.(clients)) hb).
Proof.
  intros HA [Hp Hcd]%registered_Some Hsub Hhb. pose proof (apart_key _ _ _ _ HA wid).
  apply (apart_change _ _ _ w); [done|done| |].
  - rw lookup_insert_ne //. congruence.
  - intros wid' r e Hr He. apply lookup_insert_Some in He as [[<- <-]|[_ He]]; [by exists cd|by exists e].
Qed.
Lemma apart_setupHeartbeat q c x now p c' missed w :
  p ≠ q → c ≠ c' → apart q c x w → apart q c x (setupHeartbeat now p c' missed w).2.
Proof.
  intros Hp Hc HA. pose proof HA as [HQ HK HL]. rw /setupHeartbeat.
  destruct (clients w !! p) as [own|] eqn:Hown; [|done].
  assert (Hlook : ∀ e k cd, e ≠ q →
    alter (λ e, set_connections ({[c']} ∪ e.(connections)) e) e (<[p := set_started now own]> w.(clients)) !! k = Some cd →
    (k = p ∧ c ∉ cd.(connections)) ∨ (k ≠ p ∧ ∃ cd0, w.(clients) !! k = Some cd0 ∧ cd.(connections) ⊆ {[c']} ∪ cd0.(connections))).
  { intros e k cd He. destruct (decide (p = k)) as [<-|Hpk]; [destruct (decide (e = p)) as [->|Hek]|destruct (decide (e = k)) as [->|Hek]].
    - rw lookup_alter_eq lookup_insert_eq. intros [= <-]. left. cbn. set_solver.
    - rw lookup_alter_ne // lookup_insert_eq. intros [= <-]. left. cbn. set_solver.
    - rw lookup_alter_eq lookup_insert_ne //. intros (cd0 & H & ->)%fmap_Some. right. split; [congruence|].
      exists cd0. split; [done|]. cbn. set_solver.
    - rw lookup_alter_ne // lookup_insert_ne //. intros H. right. split; [congruence|].
      exists cd. split; [done|set_solver]. }
  assert (Hstore : ∀ e hb, e ≠ q → (∀ wid r, hb !! wid = Some r → r = p ∨ w.(heartbeats) !! wid = Some r) →
    apart q c x (mkWorkers (alter (λ e, set_connections ({[c']} ∪ e.(connections)) e) e (<[p := set_started now own]> w.(clients))) hb)).
  { intros e hb He Hhb. split; cbn.
    - by rw lookup_alter_ne // lookup_insert_ne.
    - intros wid [Hwid|Hwid]%Hhb; [congruence|by apply (HK wid)].
    - intros wid r cd Hr Hcd. destruct (Hlook _ _ _ He Hcd) as [[_ ?]|(Hne & cd0 & H0 & Hsub)]; [done|].
      apply Hhb in Hr as [?|Hr]; [done|]. pose proof (HL _ _ _ Hr H0). set_solver. }
  destruct (heartbeats w !! cWid own) as [e|] eqn:E.
  - destruct missed; [|done]. apply Hstore; [congruence|by right].
  - apply Hstore; [done|]. intros wid r [[_ <-]|[_ Hr]]%lookup_insert_Some; [by left|by right].
Qed.
Lemma apart_occur q c x n o n' :
  net_ok n → (q < n.(next_client))%nat → (c < n.(next_conn))%nat → apart q c x n.(reg) → occur n o n' →
  apart q c x n'.(reg).
Proof.
  intros HN Hq Hc HA. pose proof HA as [HQ HK HL]. destruct 1 as [now cd missed answered|now b|c' p Ho Hp|t|wid action].
  - assert (HA' : apart q c x (mkWorkers (<[n.(next_client) := hello_data cd]> n.(reg).(clients)) n.(reg).(heartbeats))).
    { apply (apart_change _ _ _ n.(reg)); [done|done| |].
      - rw lookup_insert_ne //. lia.
      - intros wid p e Hp He. pose proof (ok_registered _ _ _ HN Hp). exists e. split; [|done].
        apply lookup_insert_Some in He as [[? _]|[_ He]]; [lia|done]. }
    cbn. case_bool_decide; [done|]. apply apart_setupHeartbeat; [lia|lia|done].
  - cbn. rw heartbeat_eq. destruct (registered _ (bWid b)) as [[p e]|] eqn:E; [|done].
    apply (apart_insert _ _ _ _ _ _ _ _ _ HA E); [|done]. rw /beaten Signal_connections. done.
  - cbn. rw /RemoveConnection. destruct (clients _ !! p) as [own|]; [|done].
    destruct (registered _ (cWid own)) as [[r e]|] eqn:E; [|done].
    apply (apart_insert _ _ _ _ _ _ _ _ _ HA E); [cbn; set_solver|].
    case_bool_decide; [|done]. by intros wid k [_ ?]%lookup_delete_Some.
  - apply (apart_change _ _ _ n.(reg)); [done| |done|by intros wid p cd _ H; exists cd].
    by intros wid p [? _]%map_lookup_filter_Some.
  - cbn. destruct (busyHandler_spec wid action n.(reg)) as (f & -> & Hf).
    apply (apart_change _ _ _ n.(reg)); [done|done| |].
    + rw map_lookup_imap HQ. cbn. f_equal. destruct (Hf q x) as [->|[_ Hin]]; [done|].
      apply list_elem_of_fmap in Hin as ([k q'] & -> & Hin%elem_of_map_to_list). by apply HK in Hin.
    + intros k p cd' _. rw map_lookup_imap. destruct (clients _ !! p) as [e|]; [|done]. intros [= <-]. exists e.
      split; [done|]. destruct (Hf p e) as [->|[[st ->] _]]; [done|]. by rw Signal_connections.
Qed.
(** Addresses and connections are never given out twice. *)
Lemma occur_grows n o n' :
  occur n o n' → net_ok n → (n.(next_client) ≤ n'.(next_client))%nat ∧ (n.(next_conn) ≤ n'.(next_conn))%nat ∧
  ∀ c p, n.(data_of) !! c = Some p → n'.(data_of) !! c = Some p.
Proof.
  destruct 1; intros HN; cbn; split_and!; try lia; try done.
  intros k p Hk. rw lookup_insert_ne //. intros <-. apply (ok_data _ HN) in Hk as [? _]. lia.
Qed.
Lemma apart_occurs q c x n os n' :
  net_ok n → (q < n.(next_client))%nat → (c < n.(next_conn))%nat → apart q c x n.(reg) → n.(data_of) !! c = Some q →
  occurs n os n' → apart q c x n'.(reg) ∧ n'.(data_of) !! c = Some q.
Proof.
  intros HN Hq Hc HA HD H. revert HN Hq Hc HA HD. induction H as [|n o n1 os n2 Ho Hos IH]; [done|].
  intros HN Hq Hc HA HD. destruct (occur_grows _ _ _ Ho HN) as (? & ? & K).
  apply IH; [by apply (net_ok_occur n o)|lia|lia|by apply (apart_occur q c x n o)|by apply K].
Qed.

(** ** Properties *)

(** C11. Whatever connections, beats, closings, reapings and signals come in whatever
    order: a worker that is registered is registered under its own id, lists at least
    one connection, and lists only connections which it opened itself and which are
    being served or were lost in the handshake. *)
Theorem worker_registry_sound os n wid p :
  occurs no_net os n → n.(reg).(heartbeats) !! wid = Some p →
  ∃ cd, n.(reg).(clients) !! p = Some cd ∧ cd.(cWid) = wid ∧ wid ≠ "" ∧ cd.(connections) ≠ ∅ ∧
    ∀ c, c ∈ cd.(connections) → (c ∈ n.(open) ∨ c ∈ n.(lost)) ∧ opened_by n c wid.
Proof.
  intros H Hp. destruct (ok_sound _ (net_ok_occurs _ _ _ net_ok_no_net H) _ _ Hp) as (cd & Hcd & E & N & Ne & K).
  exists cd. split_and!; [done..|]. by intros c [[?|?]%elem_of_union ?]%K; (split; [|done]); [left|right].
Qed.


(** A worker's later connections are never known: the HELLO of an id that is
    registered changes nothing of what is registered, and from then on no signal, beat
    or reaping ever reaches that connection's data, so it may FETCH for good, even
    after its worker has been told to be quiet or to terminate. *)
Theorem second_connection_unseen os os' n now cd p n' :
  occurs no_net os n → cd.(cWid) ≠ "" → n.(reg).(heartbeats) !! cd.(cWid) = Some p →
  occurs (startConnection now cd false true n) os' n' →
  (startConnection now cd false true n).(reg).(heartbeats) = n.(reg).(heartbeats) ∧
  n'.(reg).(clients) !! n.(next_client) = Some (hello_data cd) ∧
  may_fetch n' n.(next_conn) = true ∧
  ∀ wid r, registered n'.(reg) wid = Some r → n.(next_conn) ∉ r.2.(connections).
Proof.
  intros H Hw Hp H'. pose proof (net_ok_occurs _ _ _ net_ok_no_net H) as HN.
  set (m := <[n.(next_client) := hello_data cd]> n.(reg).(clients)).
  assert (E : (startConnection now cd false true n).(reg) = mkWorkers m n.(reg).(heartbeats)).
  { rw /startConnection /= bool_decide_eq_false_2 // (setupHeartbeat_known _ _ _ _ (hello_data cd) p) //. by rw lookup_insert_eq. }
  assert (HA : apart n.(next_client) n.(next_conn) (hello_data cd) (mkWorkers m n.(reg).(heartbeats))).
  { split; [by rw lookup_insert_eq|intros wid Hwid%(ok_registered _ _ _ HN); lia|]. intros wid q e Hq He Hin.
    pose proof (ok_registered _ _ _ HN Hq). cbn in He. apply lookup_insert_Some in He as [[? _]|[_ He]]; [lia|].
    pose proof (ok_listed n wid (q, e) _ HN ltac:(by apply registered_Some) Hin). lia. }
  destruct (apart_occurs n.(next_client) n.(next_conn) (hello_data cd) (startConnection now cd false true n) os' n')
    as [[HQ HK HL] HD]; [by apply net_ok_startConnection|cbn; lia|cbn; lia|by rw E|cbn; apply lookup_insert_eq|done|].
  split_and!; [by rw E|done|by rw /may_fetch HD /= HQ|]. intros wid [q e] [Hq He]%registered_Some. by apply (HL wid q).
Qed.

(** Reaping removes exactly the workers whose last beat is before the given time,
    counts them and closes the connections they list; a worker that beat in time
    stays, as do all data. *)
Theorem reap_removes_silent t w :
  let '(count, closed, w') := reapHeartbeats t w in
  w'.(clients) = w.(clients) ∧
  (∀ wid p, w'.(heartbeats) !! wid = Some p ↔ w.(heartbeats) !! wid = Some p ∧ beats_before t w p = false) ∧
  Count w = Count w' + count ∧
  (∀ c, c ∈ closed ↔ ∃ wid p, w.(heartbeats) !! wid = Some p ∧ beats_before t w p = true ∧ c ∈ conns_of w p).
Proof.
  cbn. split_and!; [done| | |].
  - intros wid p. rw map_lookup_filter_Some. cbn. by rw not_true_iff_false.
  - rw /Count /=. rewrite -Nat2Z.inj_add. f_equal. rewrite Nat.add_comm -map_size_disj_union;
      [apply map_disjoint_filter_complement|]. by rw map_filter_union_complement.
  - intros c. set (late := filter _ _).
    assert (K : c ∈ map_fold (λ _ p acc, conns_of w p ∪ acc) ∅ late ↔ ∃ wid p, late !! wid = Some p ∧ c ∈ conns_of w p).
    { apply (map_fold_weak_ind (λ acc m, c ∈ acc ↔ ∃ wid p, m !! wid = Some p ∧ c ∈ conns_of w p)).
      - split; [by intros ?%elem_of_empty|by intros (? & ? & ? & _)].
      - intros k p m acc Hk IH. rw elem_of_union IH. split.
        + intros [Hc|(k' & p' & Hp & Hc)]; [exists k, p; by rw lookup_insert_eq|].
          exists k', p'. rw lookup_insert_ne //. congruence.
        + intros (k' & p' & [[<- <-]|[_ Hp]]%lookup_insert_Some & Hc); [by left|right; by exists k', p']. }
    rw K. split.
    + intros (wid & p & [Hp Hb]%map_lookup_filter_Some & Hc). by exists wid, p.
    + intros (wid & p & Hp & Hb & Hc). exists wid, p. split; [by apply map_lookup_filter_Some|done].
Qed.

(** ** Concrete histories *)

Definition w1 : ClientData := mkClient "host" "w1" 7 0 [] "" 2 zero_time zero_time Running ∅.
(** Worker w1 connects twice and is told to be quiet; then its first connection closes. *)
Definition net1 : net := startConnection 5 w1 false true no_net.
Definition net2 : net := startConnection 6 w1 false true net1.
Definition net3 : net := set_reg (busyHandler "w1" "quiet" net2.(reg)).2 net2.
Definition net4 : net := cleanupConnection 0 0 net3.
Lemma occurs_net1 : occurs no_net [Hello 5 w1 false true] net1.
Proof. eapply occurs_cons; constructor. Defined.
Lemma occurs_net4 : occurs net2 [Busy "w1" "quiet"; Closed 0] net4.
Proof.
  apply (occurs_cons _ _ net3); [constructor|]. apply (occurs_cons _ _ net4); [|constructor].
  apply occur_closed; [by vm_compute|by vm_compute].
Defined.
Lemma worker_registry_sound_witness :
  ∃ cd, net1.(reg).(clients) !! 0%nat = Some cd ∧ cd.(connections) ≠ ∅.
Proof.
  destruct (worker_registry_sound _ net1 "w1" 0 occurs_net1) as (cd & H & _ & _ & Ne & _); [by vm_compute|].
  by exists cd.
Defined.
(** The quieted worker is gone from the registry, though its second connection is open
    and fetches on. *)
Lemma second_connection_unseen_witness :
  may_fetch net4 1 = true ∧ may_fetch net4 0 = false ∧ Count net4.(reg) = 0 ∧ 1%nat ∈ net4.(open).
Proof.
  split_and!; [|by vm_compute..].
  by destruct (second_connection_unseen _ _ net1 6 w1 0 net4 occurs_net1 ltac:(done) ltac:(by vm_compute) occurs_net4)
    as (_ & _ & H & _).
Defined.
