(* ===== verification/Mutate.v ===== *)
(** * Bulk operations on the sets (src/server/mutate.go, src/client/mutate.go)

    MUTATE clears a set, or kills, requeues or discards the entries a filter selects.
    A filter is a pattern for Redis and a test for the server; the entries come from
    [Find] (src/storage/sorted_redis.go), a ZSCAN in pages. *)
From S2P Require Import Prelude GoStrings Float64 GoTime Scores Json Job Redis Store SortedSet Middleware Manager Retry.

#[local] Open Scope list_scope.

(** ** Operations *)

Record JobFilter := mkFilter { Jids : list string; Regexp : string; Jobtype : string }.
Definition set_Jids (v : list string) (f : JobFilter) : JobFilter := mkFilter v f.(Regexp) f.(Jobtype).
Definition set_Regexp (v : string) (f : JobFilter) : JobFilter := mkFilter f.(Jids) v f.(Jobtype).
Definition set_Jobtype (v : string) (f : JobFilter) : JobFilter := mkFilter f.(Jids) f.(Regexp) v.
Definition no_filter : JobFilter := mkFilter [] "" "".
Definition jf_WithJids (jids : list string) (jf : JobFilter) : JobFilter := set_Jids jids jf.
Definition jf_Matching (pattern : string) (jf : JobFilter) : JobFilter := set_Regexp pattern jf.
Definition jf_OfType (jobtype : string) (jf : JobFilter) : JobFilter := set_Jobtype jobtype jf.
Definition Everything : JobFilter := mkFilter [] "*" "".
Definition WithJids (jids : list string) : JobFilter := mkFilter jids "" "".
Definition Matching (pattern : string) : JobFilter := mkFilter [] pattern "".
Definition OfType (jobtype : string) : JobFilter := mkFilter [] "" jobtype.

Record Operation := mkOp { Cmd : string; Target : string; Filter : option JobFilter }.
Definition set_Cmd (v : string) (o : Operation) : Operation := mkOp v o.(Target) o.(Filter).
Definition set_Target (v : string) (o : Operation) : Operation := mkOp o.(Cmd) v o.(Filter).
Definition set_Filter (v : option JobFilter) (o : Operation) : Operation := mkOp o.(Cmd) o.(Target) v.

(** Marshalling by the client. *)
Definition filter_to_json (f : JobFilter) : json :=
  JObj (match f.(Jids) with [] => [] | l => [("jids", JArr (List.map JStr l))] end
        ++ omit_str "regexp" f.(Regexp) ++ omit_str "jobtype" f.(Jobtype)).
Definition op_to_json (o : Operation) : json :=
  JObj ([("cmd", JStr o.(Cmd)); ("target", JStr o.(Target))]
        ++ match o.(Filter) with Some f => [("filter", filter_to_json f)] | None => [] end).
Definition Kill (name : string) (filter : JobFilter) : Operation := mkOp "kill" name (Some filter).
Definition Requeue (name : string) (filter : JobFilter) : Operation := mkOp "requeue" name (Some filter).
Definition Discard_ (name : string) (filter : JobFilter) : Operation := mkOp "discard" name (Some filter).
Definition Clear (name : string) : Operation := mkOp "clear" name None.

(** Unmarshalling by the server. *)
Definition filter_field (k : string) (v : json) (f : JobFilter) : option JobFilter :=
  if bool_decide (k = "jids") then
    match v with
    | JArr l => js ← dec_strings l; Some (set_Jids js f)
    | JNull => Some (set_Jids [] f)
    | _ => None
    end
  else if bool_decide (k = "regexp") then dec_str set_Regexp v f
  else if bool_decide (k = "jobtype") then dec_str set_Jobtype v f
  else Some f.
Definition op_field (k : string) (v : json) (o : Operation) : option Operation :=
  if bool_decide (k = "cmd") then dec_str set_Cmd v o
  else if bool_decide (k = "target") then dec_str set_Target v o
  else if bool_decide (k = "filter") then
    match v with
    | JNull => Some (set_Filter None o)
    | JObj l => f ← decode_fields filter_field l (default no_filter o.(Filter)); Some (set_Filter (Some f) o)
    | _ => None
    end
  else Some o.
Definition unmarshal_op (data : string) : outcome Operation := unmarshal op_field data (mkOp "" "" None).

(** ** Filters *)

(** The pattern, and the test of a value. *)
Definition matchForFilter (filter : option JobFilter) : string * (string → bool) :=
  match filter with
  | None => ("*", λ _, true)
  | Some filter =>
      let typematch := DQ +:+ "jobtype" +:+ DQ +:+ ":" +:+ DQ +:+ filter.(Jobtype) +:+ DQ in
      if negb (bool_decide (filter.(Regexp) = "")) then
        if bool_decide (filter.(Jobtype) = "") then (filter.(Regexp), λ _, true)
        else (filter.(Regexp), λ value, 0 <? index_of value typematch)
      else if negb (bool_decide (filter.(Jobtype) = "")) then ("*" +:+ typematch +:+ "*", λ _, true)
      else if 0 <? Z.of_nat (length filter.(Jids)) then
        ("*", λ value, List.existsb
                (λ jid, 0 <? index_of value (DQ +:+ "jid" +:+ DQ +:+ ":" +:+ DQ +:+ jid +:+ DQ)) filter.(Jids))
      else ("*", λ _, true)
  end.
Definition setForTarget (name : string) : option string :=
  if bool_decide (name = "retries") then Some "retries"
  else if bool_decide (name = "dead") then Some "dead"
  else if bool_decide (name = "scheduled") then Some "scheduled"
  else None.

Section mutate.
Context `{Redis} {S : Type} `{HasStore S}.

(** ** Scanning *)

Definition zscan (name : string) (cursor : Z) (match_ : string) (count : Z) : M S (Z * list string) :=
  λ s, match scan name cursor match_ count (get_store s).(rclient) with
       | (r, db) => (r, set_store (set_rclient db (get_store s)) s)
       end.
(** The iterator is a cursor and the rest of its page; [fuel] bounds empty pages. *)
Fixpoint it_next (fuel : nat) (name match_ : string) (it : Z * list string)
  : M S (option (string * (Z * list string))) :=
  match it.2 with
  | v :: page => retM (Some (v, (it.1, page)))
  | [] =>
      if it.1 =? 0 then retM None
      else
        match fuel with
        | O => panicM "out of fuel"
        | Datatypes.S f => let* it := zscan name it.1 match_ 100 in it_next f name match_ it
        end
  end.
(** The loop of [Find]: a member, its score, the callback. *)
Fixpoint find_from (fuel : nat) (name match_ : string) (idx : Z) (it : Z * list string)
    (fn : Z → setEntry → M S unit) : M S unit :=
  match fuel with
  | O => panicM "out of fuel"
  | Datatypes.S f =>
      let* job := it_next f name match_ it in
      match job with
      | None => retM tt
      | Some (job, it) =>
          let* score := it_next f name match_ it in
          match score with
          | None => retM tt
          | Some (score, it) =>
              match parse_float score with
              | None => failM (ErrMsg "strconv.ParseFloat: invalid syntax")
              | Some sf => fn idx (NewEntry sf job) ;;; find_from f name match_ (idx + 1) it fn
              end
          end
      end
  end.
Definition ss_Find (fuel : nat) (name match_ : string) (fn : Z → setEntry → M S unit) : M S unit :=
  let* it := zscan name 0 match_ 100 in find_from fuel name match_ 0 it fn.

(** ** Commands *)

Definition invalid_target : goerr := ErrMsg "Invalid target for mutation command".

Definition mutateKill (fuel : nat) (now : Z) (op : Operation) : M S unit :=
  match setForTarget op.(Target) with
  | None => failM invalid_target
  | Some ss =>
      let (match_, matchfn) := matchForFilter op.(Filter) in
      ss_Find fuel ss match_ (λ _ ent,
        if matchfn ent.(e_value) then ss_MoveTo ss "dead" ent (now + DeadTTL) else retM tt)
  end.
Definition mutateRequeue (fuel : nat) (op : Operation) : M S unit :=
  match setForTarget op.(Target) with
  | None => failM invalid_target
  | Some ss =>
      let (match_, matchfn) := matchForFilter op.(Filter) in
      ss_Find fuel ss match_ (λ _ ent,
        if matchfn ent.(e_value) then
          let* j := ofOutcome (entry_Job ent) in
          let* q := GetQueue j.(Queue) in
          q_Push q ent.(e_value) ;;;
          ss_RemoveEntry ss ent
        else retM tt)
  end.
Definition mutateDiscard (fuel : nat) (op : Operation) : M S unit :=
  match setForTarget op.(Target) with
  | None => failM invalid_target
  | Some ss =>
      match op.(Filter) with
      | None => ss_Clear ss
      | Some _ =>
          let (match_, matchfn) := matchForFilter op.(Filter) in
          ss_Find fuel ss match_ (λ _ ent, if matchfn ent.(e_value) then ss_RemoveEntry ss ent else retM tt)
      end
  end.
Definition mutateClear (target : string) : M S unit :=
  match setForTarget target with None => failM invalid_target | Some ss => ss_Clear ss end.

(** The command's work on its decoded operation. *)
Definition mutate_op (fuel : nat) (now : Z) (op : Operation) : M S unit :=
  if bool_decide (op.(Cmd) = "clear") then mutateClear op.(Target)
  else if bool_decide (op.(Cmd) = "kill") then mutateKill fuel now op
  else if bool_decide (op.(Cmd) = "discard") then mutateDiscard fuel op
  else if bool_decide (op.(Cmd) = "requeue") then mutateRequeue fuel op
  else failM (ErrMsg "Unknown mutate operation").

End mutate.

(** ** Laws *)

Section find_rule.
Context `{Redis} {S : Type} `{!HasStore S}.

Lemma wp_zscan name cursor pat n z (s : S) (Q : outcome (Z * list string) → S → Prop) :
  alive s → as_zset (db s) name = Ok z →
  (∀ next l s', upd s (db s) (knows s) s' →
     Forall (λ e : string * string, glob pat e.1 = true ∧
               ∃ sc, z !! e.1 = Some sc ∧ (is_f64 sc → parse_float e.2 = Some sc)) l →
     Q (Ok (next, flat l)) s') →
  wp (zscan name cursor pat n) s Q.
Proof.
  intros Ha Hz HQ. destruct (scan_up name cursor pat n _ z Ha Hz) as (next & l & r & E & Hv & Hu & Hl).
  rw /wp /zscan E. cbn [fst snd]. apply HQ; [|done]. by exists r.
Qed.

Context (name pat : string) (fn : Z → setEntry → M S unit) (I : S → Prop).
Hypothesis I_set : ∀ s, I s → alive s ∧ ∃ z, as_zset (db s) name = Ok z ∧ map_Forall (λ _ sc, is_f64 sc) z.
Hypothesis I_read : ∀ s s', I s → upd s (db s) (knows s) s' → I s'.
Hypothesis I_step : ∀ idx e s, I s → glob pat e.(e_value) = true → wp (fn idx e) s (λ _ s', I s').

(** What is left of a page. *)
Definition page_of (l : list string) : Prop :=
  ∃ es, l = flat es ∧ Forall (λ e : string * string, glob pat e.1 = true) es.
Lemma it_next_page fuel cursor v page :
  it_next fuel name pat (cursor, v :: page) = (retM (Some (v, (cursor, page))) : M S _).
Proof. by destruct fuel. Qed.
Lemma wp_it_next fuel it s :
  I s → page_of it.2 →
  wp (it_next fuel name pat it) s
    (λ r s', I s' ∧ match r with
                    | Ok (Some (m, (cursor, page))) => ∃ sc rest, page = sc :: rest ∧ glob pat m = true ∧ page_of rest
                    | _ => True
                    end).
Proof.
  revert it s. induction fuel as [|f IH]; intros [cursor page] s HI (es & E & Hes); cbn in E; subst page; destruct es as [|[m sc] es]; cbn.
  - case_match; by wp_steps.
  - apply wp_ret. split; [done|]. apply Forall_cons in Hes as [Hm Hes]. exists sc, (flat es). split_and!; [done|done|by exists es].
  - case_match; [by apply wp_ret|]. wp_steps. destruct (I_set s HI) as (Ha & z & Hz & _).
    apply (wp_zscan _ _ _ _ z); [done|done|]. intros next l s' Hu Hl. apply IH; [by apply (I_read s)|].
    exists l. split; [done|]. eapply Forall_impl; [exact Hl|]. by intros e [? _].
  - apply wp_ret. split; [done|]. apply Forall_cons in Hes as [Hm Hes]. exists sc, (flat es). split_and!; [done|done|by exists es].
Qed.
Lemma wp_find_from fuel idx it s :
  I s → page_of it.2 → wp (find_from fuel name pat idx it fn) s (λ _ s', I s').
Proof.
  revert idx it s. induction fuel as [|f IH]; intros idx it s HI Hp; cbn [find_from]; [done|].
  wp_steps. eapply wp_mono; [by apply wp_it_next|]. intros [[[m [cursor page]]|]|e|p] s1 [HI1 Hm]; [|done..].
  destruct Hm as (sc & rest & -> & Hg & Hrest).
  rw it_next_page. wp_steps. destruct (parse_float sc) as [sf|]; [|by wp_steps].
  wp_steps. eapply wp_mono; [by apply I_step|]. intros [] s2 HI2; [by apply IH|done..].
Qed.
(** Whatever pages Redis answers with, the invariant is kept. *)
Lemma wp_ss_Find fuel s : I s → wp (ss_Find fuel name pat fn) s (λ _ s', I s').
Proof.
  intros HI. rw /ss_Find. wp_steps. destruct (I_set s HI) as (Ha & z & Hz & _).
  apply (wp_zscan _ _ _ _ z); [done|done|]. intros next l s' Hu Hl. apply wp_find_from; [by apply (I_read s)|].
  exists l. split; [done|]. eapply Forall_impl; [exact Hl|]. by intros e [? _].
Qed.
End find_rule.

(** A scan that answers in one page runs the callback on its entries in order. *)
Definition page_entries (l : list (string * Z)) : list setEntry := (λ e : string * Z, NewEntry e.2 e.1) <$> l.
Definition printed (l : list (string * Z)) : list (string * string) := (λ e : string * Z, (e.1, format_f e.2)) <$> l.
Lemma find_from_page `{Redis} {S : Type} `{!HasStore S} name pat fn (l : list (string * Z)) : ∀ fuel idx (s : S),
  Forall (λ e : string * Z, is_f64 e.2) l → (length l < fuel)%nat →
  find_from fuel name pat idx (0, flat (printed l)) fn s = each_from idx (page_entries l) fn s.
Proof.
  induction l as [|[m sc] l IH]; intros [|f] idx s Hl Hf; cbn in Hf; try lia; cbn [find_from printed page_entries fmap list_fmap flat].
  - by destruct f.
  - apply Forall_cons in Hl as [Hsc Hl]. cbn [fst snd] in *. rw it_next_page. rw {1}/bindM /retM. rw it_next_page.
    rw {1}/bindM /retM parse_format_f //. cbn [each_from]. rw /bindM. cbn [fst snd].
    destruct (fn idx (NewEntry sc m) s) as [[] s']; [|done..]. apply IH; [done|lia].
Qed.

(** ** What a filter selects *)

Section selection.
Context `{Redis}.

Definition selected (filter : option JobFilter) (value : string) : bool :=
  let (match_, matchfn) := matchForFilter filter in glob match_ value && matchfn value.

(** [s'] is [s] with the members [D] of the set [name] gone. *)
Definition dropped_from {S} `{HasStore S} (name : string) (z : gmap string Z) (D : list string) (s s' : S) : Prop :=
  as_zset (db s') name = Ok (without D z) ∧ ∀ k, k ≠ name → db s' !! k = db s !! k.

Context {S : Type} `{!HasStore S}.

Lemma wp_RemoveEntry name e z (s : S) (Q : outcome unit → S → Prop) :
  alive s → as_zset (db s) name = Ok z →
  (∀ s', upd s (put_zset name (delete e.(e_value) z) (db s)) (knows s) s' → Q (Ok tt) s') →
  wp (ss_RemoveEntry name e) s Q.
Proof.
  intros Ha Hz HQ. rw /ss_RemoveEntry. wp_steps. apply wp_redis; [done|]. cbn [redis_doc].
  rw (with_val_eq _ _ _ _ Hz). cbn [fst snd]. intros s' Hs'. wp_steps. by apply HQ.
Qed.
Lemma dropped_step name z D m (s s1 s2 : S) :
  dropped_from name z D s s1 → upd s1 (put_zset name (delete m (without D z)) (db s1)) (knows s1) s2 →
  dropped_from name z (D ++ [m]) s s2.
Proof.
  intros [Hz Hk] Hu. rw /dropped_from (upd_db _ _ _ _ Hu) as_put_zset without_snoc. split; [done|].
  intros k Hne. rw put_zset_ne; [congruence|]. by apply Hk.
Qed.
Lemma discard_eq fuel op f name (s : S) :
  op.(Filter) = Some f → setForTarget op.(Target) = Some name →
  mutateDiscard fuel op s =
    ss_Find fuel name (matchForFilter (Some f)).1
      (λ _ ent, if (matchForFilter (Some f)).2 ent.(e_value) then ss_RemoveEntry name ent else retM tt) s.
Proof. intros Hf Ht. rw /mutateDiscard Ht Hf. by destruct (matchForFilter (Some f)). Qed.

Lemma wp_discard_eq fuel op f name (s : S) Q :
  op.(Filter) = Some f → setForTarget op.(Target) = Some name →
  wp (ss_Find fuel name (matchForFilter (Some f)).1
       (λ _ ent, if (matchForFilter (Some f)).2 ent.(e_value) then ss_RemoveEntry name ent else retM tt)) s Q →
  wp (mutateDiscard fuel op) s Q.
Proof. intros Hf Ht. by rw /wp (discard_eq _ _ _ _ _ Hf Ht). Qed.

(** The pages Redis answers with may hold anything that matches: the state a scan can
    leave is [z] less members that are selected. *)
Lemma wp_discard fuel op f name z (s : S) :
  op.(Filter) = Some f → setForTarget op.(Target) = Some name → alive s → as_zset (db s) name = Ok z →
  map_Forall (λ _ sc, is_f64 sc) z →
  wp (mutateDiscard fuel op) s
    (λ _ s', ∃ D, (∀ m, m ∈ D → selected (Some f) m = true) ∧ dropped_from name z D s s').
Proof.
  intros Hf Ht Ha Hz Hz64. apply (wp_discard_eq _ _ _ _ _ _ Hf Ht).
  eapply (wp_mono _ _ (λ _ s', alive s' ∧ ∃ D, (∀ m, m ∈ D → selected (Some f) m = true) ∧ dropped_from name z D s s')).
  { apply wp_ss_Find.
    - intros s1 (Ha1 & D & _ & Hz1 & _). split; [done|]. exists (without D z). split; [done|].
      intros m sc [Hm _]%map_lookup_filter_Some. exact (Hz64 m sc Hm).
    - intros s1 s2 (Ha1 & D & HD & Hz1 & Hk1) Hu. split; [exact (upd_alive _ _ _ _ Hu)|].
      exists D. rw /dropped_from (upd_db _ _ _ _ Hu). done.
    - intros idx e s1 (Ha1 & D & HD & Hd) Hg. destruct ((matchForFilter (Some f)).2 (e_value e)) eqn:Em.
      + apply (wp_RemoveEntry _ _ (without D z)); [done|apply Hd|]. intros s2 Hu.
        split; [exact (upd_alive _ _ _ _ Hu)|]. exists (D ++ [e.(e_value)]). split; [|by apply (dropped_step _ _ _ _ _ s1)].
        intros m [Hm| ->%list_elem_of_singleton]%elem_of_app; [by apply HD|].
        rw /selected. destruct (matchForFilter (Some f)). cbn in *. by rw Hg Em.
      + wp_steps. split; [done|]. by exists D.
    - split; [done|]. exists []. split; [by intros m ?%not_elem_of_nil|]. by rw /dropped_from without_nil. }
  by intros r s' [_ ?].
Qed.

(** A page with every match. *)
Definition one_page (name pat : string) (z : gmap string Z) (l : list (string * Z)) (s : S) : Prop :=
  (∃ r, scan name 0 pat 100 (get_store s).(rclient) = (Ok (0, flat (printed l)), r) ∧
        view r = db s ∧ up r) ∧
  ∀ m sc, (m, sc) ∈ l ↔ z !! m = Some sc ∧ glob pat m = true.
Lemma find_one_page name pat fn z l fuel (s : S) :
  one_page name pat z l s → map_Forall (λ _ sc, is_f64 sc) z → (length l < fuel)%nat →
  ∃ s1, upd s (db s) (knows s) s1 ∧ ss_Find fuel name pat fn s = each_from 0 (page_entries l) fn s1.
Proof.
  intros [(r & E & Hv & Hu) Hl] Hz Hf. exists (set_store (set_rclient r (get_store s)) s).
  split; [by exists r|]. rw /ss_Find /bindM /zscan E. apply find_from_page; [|done].
  apply Forall_forall. intros [m sc] [Hm _]%Hl. exact (Hz m sc Hm).
Qed.
Lemma wp_discard_page (test : string → bool) name z (s : S) : ∀ l idx s1 D,
  alive s1 → dropped_from name z D s s1 →
  wp (each_from idx (page_entries l) (λ _ ent, if test ent.(e_value) then ss_RemoveEntry name ent else retM tt)) s1
    (λ r s', r = Ok tt ∧ dropped_from name z (D ++ filter (λ m, test m = true) l.*1) s s').
Proof.
  induction l as [|[m sc] l IH]; intros idx s1 D Ha Hd.
  { cbn. wp_steps. by rw app_nil_r. }
  assert (EF : filter (λ m, test m = true) ((m, sc) :: l).*1 =
    (if test m then [m] else []) ++ filter (λ m, test m = true) l.*1).
  { rw fmap_cons filter_cons. cbn [fst]. by destruct (test m). }
  rw EF. clear EF. cbn [page_entries fmap list_fmap each_from]. wp_steps. cbn [e_value fst]. destruct (test m) eqn:Em.
  - apply (wp_RemoveEntry _ _ (without D z)); [done|apply Hd|]. intros s2 Hu.
    eapply wp_mono; [apply (IH _ s2 (D ++ [m])); [exact (upd_alive _ _ _ _ Hu)|by apply (dropped_step _ _ _ _ _ s1)]|].
    intros r s' [-> Hr]. by rw -app_assoc in Hr.
  - wp_steps. by apply IH.
Qed.
Lemma wp_discard_all fuel op f name z l (s : S) :
  op.(Filter) = Some f → setForTarget op.(Target) = Some name → alive s → as_zset (db s) name = Ok z →
  map_Forall (λ _ sc, is_f64 sc) z → one_page name (matchForFilter (Some f)).1 z l s → (length l < fuel)%nat →
  ∃ s', mutateDiscard fuel op s = (Ok tt, s') ∧
    as_zset (db s') name = Ok (filter (λ kv, selected (Some f) kv.1 ≠ true) z) ∧
    ∀ k, k ≠ name → db s' !! k = db s !! k.
Proof.
  intros Hf Ht Ha Hz Hz64 Hp Hl. rw (discard_eq _ _ _ _ _ Hf Ht).
  destruct (find_one_page _ _ (λ _ ent, if (matchForFilter (Some f)).2 ent.(e_value) then ss_RemoveEntry name ent else retM tt)
    _ _ _ _ Hp Hz64 Hl) as (s1 & Hu & ->).
  destruct (wp_exec _ _ _ (wp_discard_page (matchForFilter (Some f)).2 name z s l 0 s1 []
    (upd_alive _ _ _ _ Hu) ltac:(by rw /dropped_from without_nil (upd_db _ _ _ _ Hu)))) as (r & s' & E & -> & Hd & Hk).
  exists s'. split; [done|]. split; [|done]. rw Hd. f_equal. apply map_eq. intros m. rw lookup_without.
  destruct Hp as [_ Hp]. cbn [app]. set (D := filter _ _).
  assert (HD : ∀ sc, z !! m = Some sc → m ∈ D ↔ selected (Some f) m = true).
  { intros sc Hm. rw /D list_elem_of_filter /selected. destruct (matchForFilter (Some f)) as [pat test]. cbn in *.
    rw andb_true_iff list_elem_of_fmap. split.
    - intros [Ht' ([m' sc'] & -> & [_ Hg]%Hp)]. done.
    - intros [Hg Ht']. split; [done|]. exists (m, sc). split; [done|]. by apply Hp. }
  destruct (z !! m) as [sc|] eqn:Em.
  - case_decide as Hin.
    + symmetry. apply map_lookup_filter_None. right. intros sc' _ Hn. apply Hn. by apply (HD sc).
    + symmetry. apply map_lookup_filter_Some. split; [done|]. cbn. intros Hn. by apply Hin, (HD sc).
  - rw (_ : filter _ z !! m = None); [apply map_lookup_filter_None; by left|]. by case_decide.
Qed.
End selection.

(** ** Properties *)

Section mutate_theorems.
Context `{Redis} {S : Type} `{!HasStore S}.


(** A filter that names a job type or a pattern forgets the jids it names: such an
    operation does to every job of the type what it was asked to do to some. *)
Theorem filter_forgets_jids fuel now name jids f (s : S) op :
  (f.(Jobtype) ≠ "" ∨ f.(Regexp) ≠ "") → op = Kill ∨ op = Requeue ∨ op = Discard_ →
  mutate_op fuel now (op name (jf_WithJids jids f)) s = mutate_op fuel now (op name f) s.
Proof.
  intros Hf Hop.
  assert (E : matchForFilter (Some (jf_WithJids jids f)) = matchForFilter (Some f)).
  { rw /matchForFilter /jf_WithJids /set_Jids. cbn [Regexp Jobtype Jids].
    case_bool_decide; [|done]. case_bool_decide; [|done]. by destruct Hf. }
  destruct Hop as [->|[->| ->]]; rw /mutate_op /mutateKill /mutateRequeue /mutateDiscard /Kill /Requeue /Discard_;
    cbn [Cmd Target Filter]; by rw E.
Qed.

(** An entry a scan yields twice, as Redis may, is requeued twice: the job is put
    on its queue before it is known to be in the set. *)
Theorem requeue_duplicates fuel name f m sc j q l z r (s : S) :
  setForTarget name = Some name → alive s → as_zset (db s) name = Ok z → is_f64 sc →
  scan name 0 (matchForFilter (Some f)).1 100 (get_store s).(rclient) = (Ok (0, flat (printed [(m, sc); (m, sc)])), r) →
  view r = db s → up r → (matchForFilter (Some f)).2 m = true →
  unmarshal_job zero_job m = Ok j → j.(Queue) ≠ "" → j.(Queue) ≠ name →
  knows s !! j.(Queue) = Some q → q.(qname) = j.(Queue) → as_list (db s) j.(Queue) = Ok l →
  ∃ s', mutateRequeue (3 + fuel) (Requeue name f) s = (Ok tt, s') ∧ as_list (db s') j.(Queue) = Ok (m :: m :: l).
Proof.
  intros Ht Ha Hz H64 Hs Hv Hu Hm Hj Hq0 Hqn Hk Hqq Hl.
  set (fn := λ (_ : Z) ent, if (matchForFilter (Some f)).2 ent.(e_value) then
      let* j := ofOutcome (entry_Job ent) in let* q := GetQueue j.(Queue) in
      q_Push q ent.(e_value) ;;; ss_RemoveEntry name ent else (retM tt : M S unit)).
  assert (W : wp (each_from 0 (page_entries [(m, sc); (m, sc)]) fn) (set_store (set_rclient r (get_store s)) s)
    (λ o s', o = Ok tt ∧ as_list (db s') j.(Queue) = Ok (m :: m :: l))).
  { assert (Step : ∀ idx s1 z1 l1 (Q : outcome unit → S → Prop), alive s1 → knows s1 !! j.(Queue) = Some q →
      as_list (db s1) j.(Queue) = Ok l1 → as_zset (db s1) name = Ok z1 →
      (∀ s2, alive s2 → knows s2 !! j.(Queue) = Some q → as_list (db s2) j.(Queue) = Ok (m :: l1) →
         as_zset (db s2) name = Ok (delete m z1) → Q (Ok tt) s2) →
      wp (fn idx (NewEntry sc m)) s1 Q).
    { intros idx s1 z1 l1 Q Ha1 Hk1 Hl1 Hz1 HQ. rw /fn. cbn [e_value]. rw Hm /entry_Job. cbn [e_value]. rw Hj. wp_steps.
      apply (wp_GetQueue_known _ q); [done|done|]. wp_steps. apply (wp_q_Push _ _ _ l1); [done|by rw Hqq|].
      intros s2 Hu2. apply (wp_RemoveEntry _ _ z1); [exact (upd_alive _ _ _ _ Hu2)| |].
      - rw (upd_db _ _ _ _ Hu2). rewrite -Hz1. apply as_zset_ext, put_list_ne. congruence.
      - intros s3 Hu3. apply HQ.
        + exact (upd_alive _ _ _ _ Hu3).
        + by rw (upd_knows _ _ _ _ Hu3) (upd_knows _ _ _ _ Hu2).
        + rw (upd_db _ _ _ _ Hu3). rewrite (as_list_ext _ _ (db s2)); [apply put_zset_ne; congruence|].
          by rw (upd_db _ _ _ _ Hu2) -Hqq as_put_list.
        + by rw (upd_db _ _ _ _ Hu3) as_put_zset. }
    assert (Hu0 : upd s (db s) (knows s) (set_store (set_rclient r (get_store s)) s)) by by exists r.
    cbn [page_entries fmap list_fmap each_from fst snd]. wp_steps.
    apply (Step _ _ z l); [exact (upd_alive _ _ _ _ Hu0)|by rw (upd_knows _ _ _ _ Hu0)|by rw (upd_db _ _ _ _ Hu0)..|].
    intros s2 Ha2 Hk2 Hl2 Hz2. wp_steps. apply (Step _ _ (delete m z) (m :: l)); [done..|].
    intros s3 _ _ Hl3 _. by wp_steps. }
  destruct (wp_exec _ _ _ W) as (o & s' & E & -> & Hl'). exists s'. split; [|done].
  rewrite -E. rw /mutateRequeue /Requeue. cbn [Target Filter]. rw Ht.
  destruct (matchForFilter (Some f)) as [pat test] eqn:Ef. cbn [fst snd] in *.
  rw /ss_Find /bindM /zscan Hs. apply (find_from_page name pat fn [(m, sc); (m, sc)]); [by repeat (apply Forall_cons_2; [done|])|cbn; lia].
Qed.
End mutate_theorems.

(** ** Concrete stores *)

Module MutateWitness.
Import MemRedis.

(** The in-memory Redis answers every scan in one page. *)
Definition matches_of (pat : string) (z : gmap string Z) : list (string * Z) :=
  (λ e : Z * string, (e.2, e.1)) <$> filter (λ e, mem_glob pat e.2 = true) (zelems z).
Lemma mem_one_page name pat z (s : @store mem_redis) :
  alive s → as_zset (db s) name = Ok z → one_page name pat z (matches_of pat z) s.
Proof.
  intros Ha Hz. split.
  - destruct s as [[d fs] qs]. rw /db /alive in Ha Hz. cbn in *.
    exists {| data := d; faults := tail fs |}. rw /mem_scan /=. rw Hz.
    rw (_ : printed (matches_of pat z) = mem_page pat z).
    { rw /printed /matches_of /mem_page. by rw -list_fmap_compose. }
    destruct fs as [|[] fs]; [done|by apply Forall_cons in Ha as [? _]|by apply Forall_cons in Ha as [_ ?]].
  - intros m sc. rw /matches_of list_elem_of_fmap. split.
    + intros ([sc' m'] & [= -> ->] & [Hg Hm%elem_of_zelems]%list_elem_of_filter). done.
    + intros [Hm Hg]. exists (sc, m). split; [done|]. apply list_elem_of_filter. split; [done|]. by apply elem_of_zelems.
Qed.

Definition mjob (jid type : string) : string :=
  marshal_job (mkJob jid "default" type (Some []) "" "" "" 0 25 0 None []).
Definition set3 : gmap string Z :=
  {[ mjob "jid-0001" "Sync" := 0; mjob "jid-0002" "Sync" := 0; mjob "jid-0003" "Mail" := 0 ]}.
Definition store3 : @store mem_redis :=
  mkStore {| data := {[ "retries" := RZSet set3 ]}; faults := [] |} {[ "default" := NewQueue "default" ]}.
Lemma store3_alive : alive store3.
Proof. apply Forall_nil_2. Qed.
Lemma set3_f64 : map_Forall (λ _ sc, is_f64 sc) set3.
Proof. apply (bool_decide_unpack _). by vm_compute. Qed.
(** Asked to discard one job of a type, it discards them all. *)
Lemma filter_forgets_jids_witness :
  as_zset (db (mutate_op 4 0 (Discard_ "retries" (jf_WithJids ["jid-0001"] (OfType "Sync"))) store3).2) "retries" =
  Ok {[ mjob "jid-0003" "Mail" := 0 ]}.
Proof.
  rewrite (filter_forgets_jids 4 0 "retries" ["jid-0001"] (OfType "Sync") store3 Discard_);
    [by left|by do 2 right|apply (bool_decide_unpack _); vm_compute; exact I].
Defined.

Lemma flat_app a b : flat (a ++ b) = flat a ++ flat b.
Proof. induction a as [|[m sc] a IH]; [done|]. cbn. by rw IH. Qed.
(** A Redis whose scans yield every match twice. *)
#[refine] Instance dup_redis : Redis :=
  {| rdb := mem; exec := @run; view := data; up := healthy; glob := mem_glob;
     scan := λ k cursor pat n s,
       match mem_scan k cursor pat n s with
       | (Ok (next, page), s') => (Ok (next, page ++ page), s')
       | r => r
       end |}.
Proof.
  - intros A. exact (@exec_up mem_redis A).
  - intros A. exact (@exec_ok mem_redis A).
  - exact (@glob_star mem_redis).
  - intros k cursor pat n s z Hs Hz.
    destruct (@scan_up mem_redis k cursor pat n s z Hs Hz) as (next & l & s' & E & Hv & Hu & Hl).
    exists next, (l ++ l), s'. change (@scan mem_redis) with mem_scan in E. rw E.
    rw flat_app. split_and!; [done..|by apply Forall_app].
Defined.
Definition one_job : gmap string Z := {[ mjob "jid-0001" "Sync" := 0 ]}.
Definition store_dup : @store dup_redis :=
  @mkStore dup_redis {| data := {[ "retries" := RZSet one_job ]}; faults := [] |} {[ "default" := NewQueue "default" ]}.
Lemma requeue_duplicates_witness :
  ∃ s', mutateRequeue 3 (Requeue "retries" Everything) store_dup = (Ok tt, s') ∧
    as_list (db s') "default" = Ok [mjob "jid-0001" "Sync"; mjob "jid-0001" "Sync"].
Proof.
  apply (requeue_duplicates 0 "retries" Everything (mjob "jid-0001" "Sync") 0
    (mkJob "jid-0001" "default" "Sync" (Some []) "" "" "" 0 25 0 None []) (NewQueue "default") [] one_job
    (rclient store_dup) store_dup);
    first [done|by vm_compute|by apply Forall_nil_2|by apply (bool_decide_unpack _); vm_compute].
Defined.
End MutateWitness.
