(* ===== verification/Server.v ===== *)
(** * The command server (src/server/commands.go, server.go, task_runner.go, scanner.go, tasks.go)

    [server] is the state the connections share: the job manager with its store, the
    workers and their connections, the counters and the recurring tasks.  A command is
    a function of the connection and the line; it writes at most one reply, its value.
    [time.Now()] is the next reading of [clock]. *)
From S2P Require Import Prelude GoStrings Float64 GoTime Json Job Redis Store SortedSet Middleware Manager Retry Working Fetch Scheduler Reaper Wire Workers Mutate.

#[local] Open Scope list_scope.

(** ** Payloads *)

(** [map[string]string]: [null] is a nil map, and a [null] element is empty. *)
Fixpoint dec_string_map (l : list (string * json)) (m : gmap string string) : option (gmap string string) :=
  match l with
  | [] => Some m
  | (k, JStr s) :: l' => dec_string_map l' (<[k := s]> m)
  | (k, JNull) :: l' => dec_string_map l' (<[k := ""]> m)
  | _ => None
  end.
Definition unmarshal_map (data : string) : option (gmap string string) :=
  v ← parse data; match v with JObj l => dec_string_map l ∅ | JNull => Some ∅ | _ => None end.

Definition set_CurrentState (v : string) (b : ClientBeat) : ClientBeat := mkBeat v b.(bWid) b.(bRssKb).
Definition set_bWid (v : string) (b : ClientBeat) : ClientBeat := mkBeat b.(CurrentState) v b.(bRssKb).
Definition set_bRssKb (v : Z) (b : ClientBeat) : ClientBeat := mkBeat b.(CurrentState) b.(bWid) v.
Definition beat_field (k : string) (v : json) (b : ClientBeat) : option ClientBeat :=
  if bool_decide (k = "current_state") then dec_str set_CurrentState v b
  else if bool_decide (k = "wid") then dec_str set_bWid v b
  else if bool_decide (k = "rss_kb") then dec_int set_bRssKb v b
  else Some b.

(** ** State *)

(** The task of a scanner tells its set. *)
Inductive scannerTask := TaskScheduled | TaskRetries | TaskPurge.
Record scanner := mkScanner {
  sc_name : string; sc_task : scannerTask; sc_jobs : Z; sc_cycles : Z; sc_walltime : Z
}.
Inductive taskable :=
| Scanner (s : scanner)
| ReservationReaper (count : Z)
| BeatReaper (count : Z).
Record task := mkTask { runner : taskable; every : Z; runs : Z; walltimeNs : Z }.
Record taskRunner := mkRunner { tasks : list task; ts_walltimeNs : Z; cycles : Z; executions : Z }.

Section server.
Context `{Redis}.
(** The middleware, the fuel of loops, the random numbers drawn for retries, and the
    memory in use. *)
Context (env : Env) (fuel : nat) (drawn : nat → string → Z) (MemoryUsageMB : Z).

Record server := mkServer {
  smgr : mgr;
  snet : net;
  closed : bool;
  Connections : Z; Commands : Z; ServerStartedAt : Z;
  runner_ : taskRunner;
  clock : nat → Z; readings : nat
}.
Definition set_smgr (m : mgr) (s : server) : server :=
  mkServer m s.(snet) s.(closed) s.(Connections) s.(Commands) s.(ServerStartedAt) s.(runner_) s.(clock) s.(readings).
Definition set_snet (n : net) (s : server) : server :=
  mkServer s.(smgr) n s.(closed) s.(Connections) s.(Commands) s.(ServerStartedAt) s.(runner_) s.(clock) s.(readings).
Definition set_Commands (c : Z) (s : server) : server :=
  mkServer s.(smgr) s.(snet) s.(closed) s.(Connections) c s.(ServerStartedAt) s.(runner_) s.(clock) s.(readings).
Definition set_Connections (c : Z) (s : server) : server :=
  mkServer s.(smgr) s.(snet) s.(closed) c s.(Commands) s.(ServerStartedAt) s.(runner_) s.(clock) s.(readings).
Definition set_readings (r : nat) (s : server) : server :=
  mkServer s.(smgr) s.(snet) s.(closed) s.(Connections) s.(Commands) s.(ServerStartedAt) s.(runner_) s.(clock) r.
Definition set_runner (t : taskRunner) (s : server) : server :=
  mkServer s.(smgr) s.(snet) s.(closed) s.(Connections) s.(Commands) s.(ServerStartedAt) t s.(clock) s.(readings).
Definition set_closed (b : bool) (s : server) : server :=
  mkServer s.(smgr) s.(snet) b s.(Connections) s.(Commands) s.(ServerStartedAt) s.(runner_) s.(clock) s.(readings).
Definition on_mgr {A} (m : M mgr A) : M server A := zoomM smgr set_smgr m.
Definition Now : M server Z :=
  λ s, (Ok (s.(clock) s.(readings)), set_readings (S s.(readings)) s).
(** Unsigned 64-bit counters. *)
Definition wrapu64 (n : Z) : Z := n `mod` 2 ^ 64.

(** ** Commands

    The error branch of a command answers with the error. *)
Definition command : Type := nat → string → M server (option wire_reply).
Definition answer {A} (m : M server A) (f : A → wire_reply) : M server (option wire_reply) :=
  let* r := tryM m in
  retM (Some (match r with inl a => f a | inr e => WError e end)).
(** The client data of a connection. *)
Definition client_of (s : server) (c : nat) : option ClientData :=
  p ← s.(snet).(data_of) !! c; s.(snet).(reg).(clients) !! p.

Definition track : command := λ c cmd,
  retM (Some (WError (ErrMsg "The Tracking subsystem is only available in Faktory Enterprise"))).
Definition batch : command := λ c cmd,
  retM (Some (WError (ErrMsg "The Batch subsystem is only available in Faktory Enterprise"))).

(** Pausing or resuming one queue; its error is dropped. *)
Definition queue_one (verb name : string) : M server unit :=
  if bool_decide (verb = "PAUSE") then ignoreM (on_mgr (Pause name))
  else if bool_decide (verb = "RESUME") then ignoreM (on_mgr (Resume name))
  else retM tt.
Definition queue_names (verb star : string) (names : list string) : M server unit :=
  if bool_decide (star = "*") then
    let* s := getM in
    EachQueue (map_to_list s.(smgr).(mstore).(queueSet)).*2 (λ q, queue_one verb q.(qname))
  else forM (star :: names) (queue_one verb).
Definition queue : command := λ c cmd,
  match List.tl (split_char " " cmd) with
  | verb :: star :: names => queue_names verb star names ;;; retM (Some WOk)
  | _ => panicM "index out of range"
  end.
Definition flush : command := λ c cmd, answer (on_mgr Flush) (λ _, WOk).
Definition end_ : command := λ c cmd, retM None.

Definition push : command := λ c cmd,
  let* data := slice_from 5 cmd in
  match unmarshal_job (set_Retry 25 zero_job) data with
  | Err e => retM (Some (WError (ErrMsg ("Invalid JSON: " +:+ err_text e))))
  | Panic p => panicM p
  | Ok job => let* now := Now in answer (on_mgr (Push env now job)) (λ _, WOk)
  end.

Definition fetch : command := λ c cmd,
  let* s := getM in
  match client_of s c with
  | None => panicM "nil pointer dereference"
  | Some client =>
      if negb (bool_decide (client.(cstate) = Running)) then retM (Some (WResult None))
      else
        let qs := List.tl (split_char " " cmd) in
        let* now := Now in
        answer (on_mgr (Fetch fuel env now client.(cWid) qs))
          (λ job, WResult (marshal_job <$> job))
  end.

Definition ack : command := λ c cmd,
  let* data := slice_from 4 cmd in
  let invalid := retM (Some (WError (ErrMsg ("Invalid ACK " +:+ data)))) in
  match unmarshal_map data with
  | None => invalid
  | Some hash =>
      match hash !! "jid" with
      | None => invalid
      | Some jid => let* now := Now in answer (on_mgr (Acknowledge env now jid)) (λ _, WOk)
      end
  end.

Definition fail : command := λ c cmd,
  let* data := slice_from 5 cmd in
  match unmarshal fail_field data zero_fail with
  | Err _ => retM (Some (WError (ErrMsg ("Invalid FAIL " +:+ data))))
  | Panic p => panicM p
  | Ok failure =>
      let* s := getM in
      let* now := Now in
      answer (on_mgr (Fail env (drawn s.(readings) failure.(fJid)) now (Some failure))) (λ _, WOk)
  end.

Definition state_json (state : WorkerState) : string :=
  "{" +:+ DQ +:+ "state" +:+ DQ +:+ ":" +:+ DQ +:+ stateString state +:+ DQ +:+ "}".
Definition heartbeat_ : command := λ c cmd,
  let* data := slice_from 5 cmd in
  match unmarshal beat_field data (mkBeat "" "" 0) with
  | Err _ => retM (Some (WError (ErrMsg ("Invalid BEAT " +:+ data))))
  | Panic p => panicM p
  | Ok beat =>
      let* s := getM in
      let* now := match registered s.(snet).(reg) beat.(bWid) with Some _ => Now | None => retM 0 end in
      let (worker, w) := heartbeat now beat s.(snet).(reg) in
      modifyM (λ s, set_snet (set_reg w s.(snet)) s) ;;;
      match p ← worker; w.(clients) !! p with
      | None => retM (Some (WError (ErrMsg ("Unknown worker " +:+ beat.(bWid)))))
      | Some cd =>
          retM (Some (if bool_decide (cd.(cstate) = Running) then WOk
                      else WResult (Some (state_json cd.(cstate)))))
      end
  end.

Definition mutate : command := λ c cmd,
  match split_char " " cmd with
  | [_; data] =>
      match unmarshal_op data with
      | Err e => retM (Some (WError e))
      | Panic p => panicM p
      | Ok op => let* now := Now in answer (on_mgr (mutate_op fuel now op)) (λ _, WOk)
      end
  | _ => retM (Some (WError (ErrMsg "Invalid format")))
  end.

(** *** INFO *)

Definition task_name (t : taskable) : string :=
  match t with Scanner s => s.(sc_name) | ReservationReaper _ => "Busy" | BeatReaper _ => "Workers" end.
Definition task_set (t : scannerTask) : string :=
  match t with TaskScheduled => "scheduled" | TaskRetries => "retries" | TaskPurge => "dead" end.
Definition int_json (n : Z) : json := JNum (dec n).
Definition task_stats (t : taskable) : M server json :=
  let* s := getM in
  match t with
  | Scanner sc =>
      let* size := on_mgr (ss_Size (task_set sc.(sc_task))) in
      retM (JObj [("cycles", int_json sc.(sc_cycles)); ("enqueued", int_json sc.(sc_jobs)); ("size", int_json size);
                  ("wall_time_sec", JNum (json_num (f_div (f_of_Z sc.(sc_walltime)) (f_of_Z SEC))))])
  | ReservationReaper count =>
      retM (JObj [("reaped", int_json count); ("size", int_json (WorkingCount s.(smgr)))])
  | BeatReaper count =>
      retM (JObj [("reaped", int_json count); ("size", int_json (Count s.(snet).(reg)))])
  end.
(** A Go map is printed with its keys in order; a later entry replaces an earlier one. *)
Definition sorted_obj (l : list (string * json)) : json :=
  JObj (List.fold_right (λ kv acc, insert_absent kv.1 kv.2 acc) [] l).
Fixpoint mapM_ {A B} (l : list A) (f : A → M server B) : M server (list B) :=
  match l with
  | [] => retM []
  | x :: l' => let* y := f x in let* ys := mapM_ l' f in retM (y :: ys)
  end.
Definition utc_time (t : Z) : string :=
  let sod := unix_sec t `mod` 86400 in
  pad_dec 2 (sod `div` 3600) +:+ ":" +:+ pad_dec 2 (sod `div` 60 `mod` 60) +:+ ":" +:+ pad_dec 2 (sod `mod` 60) +:+ " UTC".
(** [int(time.Since(t).Seconds())]; [Seconds] adds the whole seconds and the rest as floats. *)
Definition uptimeInSeconds (now : Z) (s : server) : Z :=
  let d := now - s.(ServerStartedAt) in
  f_trunc (f_add (f_of_Z (Z.quot d SEC)) (f_div (f_of_Z (Z.rem d SEC)) (f_of_Z SEC))).
Definition CurrentState : M server json :=
  let* s := getM in
  let* sizes := mapM_ (map_to_list s.(smgr).(mstore).(queueSet)).*2
                  (λ q, let* n := on_mgr (redis (LLen q.(qname))) in retM (q.(qname), n)) in
  let* now := Now in
  let* utc := Now in
  let* failures := on_mgr TotalFailures in
  let* processed := on_mgr TotalProcessed in
  let* stats := mapM_ s.(runner_).(tasks)
                  (λ t, let* st := task_stats t.(runner) in retM (task_name t.(runner), st)) in
  let* since := Now in
  let* s := getM in
  retM (JObj
    [("faktory", JObj
        [("queues", sorted_obj (prod_map id int_json <$> sizes));
         ("tasks", sorted_obj stats);
         ("total_enqueued", int_json (foldl (λ a q, wrap64 (a + q.2)) 0 sizes));
         ("total_failures", int_json failures);
         ("total_processed", int_json processed);
         ("total_queues", int_json (Z.of_nat (length sizes)))]);
     ("now", JStr (Thens now));
     ("server", JObj
        [("command_count", int_json s.(Commands));
         ("connections", int_json s.(Connections));
         ("description", JStr "Faktory");
         ("faktory_version", JStr "1.5.1");
         ("uptime", int_json (uptimeInSeconds since s));
         ("used_memory_mb", int_json MemoryUsageMB)]);
     ("server_utc_time", JStr (utc_time utc))]).
Definition info : command := λ c cmd, answer CurrentState (λ data, WResult (Some (print data))).

(** ** Lines *)

Definition CommandSet (verb : string) : option command :=
  if bool_decide (verb = "END") then Some end_
  else if bool_decide (verb = "PUSH") then Some push
  else if bool_decide (verb = "FETCH") then Some fetch
  else if bool_decide (verb = "ACK") then Some ack
  else if bool_decide (verb = "FAIL") then Some fail
  else if bool_decide (verb = "BEAT") then Some heartbeat_
  else if bool_decide (verb = "INFO") then Some info
  else if bool_decide (verb = "FLUSH") then Some flush
  else if bool_decide (verb = "MUTATE") then Some mutate
  else if bool_decide (verb = "BATCH") then Some batch
  else if bool_decide (verb = "TRACK") then Some track
  else if bool_decide (verb = "QUEUE") then Some queue
  else None.

Definition trim_suffix (suffix s : string) : string :=
  let n := (String.length s - String.length suffix)%nat in
  if bool_decide (drop_str n s = suffix) then take_str n s else s.
Definition verb_of (cmd : string) : string :=
  let idx := index_of cmd " " in if 0 <=? idx then take_str (Z.to_nat idx) cmd else cmd.

(** One turn of the loop: the reply, and whether the loop goes on. *)
Definition process_line (c : nat) (line : string) : M server (option wire_reply * bool) :=
  let* s := getM in
  if s.(closed) then retM (Some (WError (ErrMsg "Shutdown in progress")), false)
  else
    let cmd := trim_suffix (String (chr 10) "") (trim_suffix CRLF line) in
    let verb := verb_of cmd in
    let* r := match CommandSet verb with
              | None => retM (Some (WError (ErrMsg ("Unknown command " +:+ verb))))
              | Some proc => modifyM (λ s, set_Commands (wrapu64 (s.(Commands) + 1)) s) ;;; proc c cmd
              end in
    retM (r, negb (bool_decide (verb = "END"))).
Definition opt_wire (r : option wire_reply) : string := match r with Some r => wire r | None => "" end.
(** When the loop ends the connection is taken off the books. *)
Definition hang_up (c : nat) : M server unit :=
  modifyM (λ s, set_Connections (wrapu64 (s.(Connections) - 1))
    (match s.(snet).(data_of) !! c with
     | Some p => set_snet (cleanupConnection c p s.(snet)) s
     | None => s
     end)).
(** The bytes written for the bytes received, and what is left unread; [None] when the
    connection is over. *)
Fixpoint process_lines (fuel : nat) (c : nat) (inbox : string) : M server (string * option string) :=
  match fuel with
  | O => panicM "out of fuel"
  | S f =>
      match read_line inbox with
      | None => retM ("", Some inbox)
      | Some (line, rest) =>
          let* (r, more) := process_line c line in
          if more : bool then
            let* (out, left_) := process_lines f c rest in retM (opt_wire r +:+ out, left_)
          else hang_up c ;;; retM (opt_wire r, None)
      end
  end.
Definition processLines (c : nat) (inbox : string) : M server (string * option string) :=
  process_lines (S (String.length inbox)) c inbox.

(** ** Recurring tasks *)

(** A count with an error is an error. *)
Definition counted (m : M mgr (Z * option goerr)) : M mgr Z :=
  let* (n, err) := m in match err with None => retM n | Some e => failM e end.
Definition Execute (t : taskable) : M server taskable :=
  match t with
  | Scanner sc =>
      let* start := Now in
      let* count := on_mgr match sc.(sc_task) with
                    | TaskPurge => Purge start
                    | TaskScheduled => counted (EnqueueScheduledJobs fuel start start)
                    | TaskRetries => counted (RetryJobs fuel start start)
                    end in
      let* end_ := Now in
      retM (Scanner (mkScanner sc.(sc_name) sc.(sc_task) (wrap64 (sc.(sc_jobs) + count)) (wrap64 (sc.(sc_cycles) + 1))
                       (wrap64 (sc.(sc_walltime) + (end_ - start)))))
  | ReservationReaper n =>
      let* s := getM in
      let* now := Now in
      let* count := on_mgr (counted (ReapExpiredJobs fuel env (drawn s.(readings)) now now)) in
      retM (ReservationReaper (wrap64 (n + count)))
  | BeatReaper n =>
      let* now := Now in
      let* s := getM in
      let '(count, _, w) := reapHeartbeats (now - 60 * SEC) s.(snet).(reg) in
      modifyM (λ s, set_snet (set_reg w s.(snet)) s) ;;;
      retM (BeatReaper (wrap64 (n + count)))
  end.
(** A task that fails is only logged; [%] panics on zero. *)
Definition run_task (sec : Z) (t : task) : M server (task * Z) :=
  if t.(every) =? 0 then panicM "integer divide by zero"
  else if negb (Z.rem sec t.(every) =? 0) then retM (t, 0)
  else
    let* tstart := Now in
    let* r := tryM (Execute t.(runner)) in
    let* tend := Now in
    retM (mkTask (match r with inl x => x | inr _ => t.(runner) end) t.(every)
            (wrap64 (t.(runs) + 1)) (wrap64 (t.(walltimeNs) + (tend - tstart))), 1).
Definition cycle : M server unit :=
  let* start := Now in
  let* s := getM in
  let* ts := mapM_ s.(runner_).(tasks) (run_task (unix_sec start)) in
  let* end_ := Now in
  modifyM (λ s, set_runner (mkRunner ts.*1 (wrap64 (s.(runner_).(ts_walltimeNs) + (end_ - start)))
                              (wrap64 (s.(runner_).(cycles) + 1))
                              (wrap64 (s.(runner_).(executions) + foldl Z.add 0 ts.*2))) s).
Definition AddTask (sec : Z) (thing : taskable) (ts : taskRunner) : taskRunner :=
  mkRunner (ts.(tasks) ++ [mkTask thing sec 0 0]) ts.(ts_walltimeNs) ts.(cycles) ts.(executions).
Definition newTaskRunner : taskRunner := mkRunner [] 0 0 0.
Definition startTasks : taskRunner :=
  AddTask 15 (BeatReaper 0) (AddTask 15 (ReservationReaper 0)
    (AddTask 60 (Scanner (mkScanner "Dead" TaskPurge 0 0 0))
      (AddTask 5 (Scanner (mkScanner "Retries" TaskRetries 0 0 0))
        (AddTask 5 (Scanner (mkScanner "Scheduled" TaskScheduled 0 0 0)) newTaskRunner)))).
End server.
