(* ===== verification/JsonLine.v ===== *)
(** * JSON texts are lines

    [print] writes no control bytes, so that a JSON text is part of one line of the
    wire protocol and of one argument of a log. *)
From S2P Require Import Prelude GoStrings Float64 Json.

#[local] Open Scope list_scope.

Definition printable (c : ascii) : bool := 32 <=? byte_val c.
Definition line_text (s : string) : Prop := all_chars printable s = true.

Lemma line_nil : line_text "".
Proof. done. Qed.
Lemma line_cons c s : line_text (String c s) ↔ printable c = true ∧ line_text s.
Proof. by rw /line_text -andb_true_iff. Qed.
Lemma line_app a b : line_text (a +:+ b) ↔ line_text a ∧ line_text b.
Proof. by rw /line_text all_chars_app andb_true_iff. Qed.
Lemma line_no_lf s : line_text s → no_char (chr 10) s = true.
Proof. by apply all_chars_no_char. Qed.
Lemma digit_printable c : is_digit c = true → printable c = true.
Proof. rw /is_digit /printable. intros [H _]%andb_prop. apply Z.leb_le. apply Z.leb_le in H. lia. Qed.
Lemma digits_line s : all_digits s = true → line_text s.
Proof. rw all_chars_digits. apply all_chars_impl, digit_printable. Qed.

(** ** Numbers *)

Lemma span_line s ds r : span_digits s = (ds, r) → line_text ds.
Proof.
  revert ds r. induction s as [|c s IH]; intros ds r; cbn; [by intros [= <- <-]|].
  destruct (is_digit c) eqn:E; [|by intros [= <- <-]].
  destruct (span_digits s) as [a b]. intros [= <- <-]. apply line_cons. split; [by apply digit_printable|by apply (IH a b)].
Qed.
Lemma json_int_line s a r : json_int s = Some (a, r) → line_text a.
Proof.
  destruct (head_is "0" s) as [[s' ->]|Hn]; [by intros [= <- <-]|]. rw json_int_nonzero //.
  destruct (span_digits s) as [ds t] eqn:E. case_bool_decide; [done|]. intros [= <- <-]. by apply (span_line s _ t).
Qed.
Lemma json_frac_line s a r : json_frac s = Some (a, r) → line_text a.
Proof.
  destruct (head_is "." s) as [[s' ->]|Hn]; cbn.
  - destruct (span_digits s') as [ds t] eqn:E. case_bool_decide; [done|]. intros [= <- <-].
    apply line_cons. split; [done|]. by apply (span_line s' _ t).
  - destruct s as [|[[] [] [] [] [] [] [] []] s]; first [by destruct (Hn s)|by intros [= <- <-]].
Qed.
Lemma json_exp_line s a r : json_exp s = Some (a, r) → line_text a.
Proof.
  destruct s as [|c s]; cbn; [by intros [= <- <-]|].
  destruct (bool_decide (c = "e"%char) || bool_decide (c = "E"%char)) eqn:Ec; [|by intros [= <- <-]].
  assert (Hc : printable c = true).
  { apply orb_true_iff in Ec as [Ec|Ec]; apply bool_decide_eq_true in Ec; by subst c. }
  destruct (match s with String "-" t => (String c "-", t) | String "+" t => (String c "+", t)
                       | _ => (String c "", s) end) as [sg s2] eqn:E.
  assert (Hsg : line_text sg).
  { destruct s as [|[[] [] [] [] [] [] [] []] s]; injection E as <- _; apply line_cons; by split. }
  destruct (span_digits s2) as [ds t] eqn:Es. clear Ec. case_bool_decide; [done|]. intros [= <- <-].
  apply line_app. split; [done|by apply (span_line s2 _ t)].
Qed.
Lemma json_unsigned_line s a r : json_unsigned s = Some (a, r) → line_text a.
Proof.
  rw /json_unsigned. destruct (json_int s) as [[x s1]|] eqn:E1; [|done]. cbn.
  destruct (json_frac s1) as [[y s2]|] eqn:E2; [|done]. cbn.
  destruct (json_exp s2) as [[z s3]|] eqn:E3; [|done]. cbn. intros [= <- <-].
  rw !line_app. split_and!; [by apply (json_int_line s _ s1)|by apply (json_frac_line s1 _ s2)|by apply (json_exp_line s2 _ s3)].
Qed.
Lemma num_line lit : num_ok lit → line_text lit.
Proof.
  rw /num_ok /json_number. intros H.
  assert (K : json_unsigned lit = Some (lit, "") ∨ ∃ l t, lit = String "-" l ∧ json_unsigned t = Some (l, "")).
  { destruct (head_is "-" lit) as [[s' ->]|Hn].
    - right. destruct (json_unsigned s') as [[l r]|] eqn:E; [|done]. injection H as -> ->. by exists s', s'.
    - left. destruct lit as [|[[] [] [] [] [] [] [] []] s]; try done. by destruct (Hn s). }
  destruct K as [K|(l & t & -> & K)]; [by apply (json_unsigned_line lit _ "")|].
  apply line_cons. split; [done|by apply (json_unsigned_line t _ "")].
Qed.

(** ** Strings *)

Lemma escape_ascii_line c : line_text (escape_ascii c).
Proof.
  rw /escape_ascii. pose proof (byte_val_range c) as Hr.
  destruct ((byte_val c =? 92) || (byte_val c =? 34)) eqn:E1.
  { apply line_app. split; [done|]. apply line_cons. split; [|done]. rw /printable. apply Z.leb_le.
    apply orb_true_iff in E1 as [?%Z.eqb_eq|?%Z.eqb_eq]; lia. }
  destruct (byte_val c =? 10); [done|]. destruct (byte_val c =? 13); [done|]. destruct (byte_val c =? 9); [done|].
  destruct ((byte_val c <? 32) || (byte_val c =? 60) || (byte_val c =? 62) || (byte_val c =? 38)) eqn:E2.
  - apply line_app. split; [done|]. apply line_app. split; [done|].
    assert (Hh : ∀ d, 0 ≤ d < 16 → printable (hex_digit d) = true).
    { intros d Hd. rw /printable /hex_digit. apply Z.leb_le. destruct (Z.ltb_spec d 10); rw byte_val_chr; lia. }
    apply line_cons. split; [apply Hh|apply line_cons; split; [apply Hh|done]].
    + split; [apply Z.div_pos; lia|apply Z.div_lt_upper_bound; lia].
    + apply Z.mod_pos_bound. lia.
  - apply line_cons. split; [|done]. rw /printable. apply Z.leb_le.
    apply orb_false_iff in E2 as [[[?%Z.ltb_ge _]%orb_false_iff _]%orb_false_iff _]. lia.
Qed.
(** The bytes of a multi-byte character are 128 and more. *)
Lemma multi_line s : line_text (take_str (utf8_len s) s).
Proof.
  assert (B : ∀ lo hi i, 32 ≤ lo → byte_in lo hi s i = true →
    ∃ c t, drop_str i s = String c t ∧ printable c = true).
  { intros lo hi i Hlo H. rw /byte_in in H. destruct (drop_str i s) as [|c t]; [done|].
    apply andb_prop in H as [H _]. exists c, t. split; [done|]. apply Z.leb_le in H. apply Z.leb_le. lia. }
  rw /utf8_len.
  repeat match goal with
  | |- line_text (take_str (if ?b then _ else _) _) => destruct b eqn:?
  end; [..|done];
  repeat match goal with
  | H : (_ && _ = true) |- _ => apply andb_prop in H as [? ?]
  | H : (_ || _ = true) |- _ => apply orb_true_iff in H as [?|?]
  end;
  repeat match goal with
  | H : byte_in _ _ _ _ = true |- _ => apply B in H; [destruct H as (? & ? & ? & ?)|lia]
  end;
  destruct s as [|a1 [|a2 [|a3 [|a4 s]]]]; cbn in *; simplify_eq; rw /line_text /=;
  repeat match goal with H : printable _ = true |- _ => rw H; clear H end; done.
Qed.
Lemma escape_fuel_line f s : line_text (escape_fuel f s).
Proof.
  revert s. induction f as [|f IH]; intros s; [done|]. destruct s as [|c s]; [done|]. cbn [escape_fuel].
  destruct (byte_val c <? 128); [apply line_app; split; [apply escape_ascii_line|apply IH]|].
  pose proof (multi_line (String c s)) as Hm. destruct (utf8_len (String c s)) as [|n].
  - apply line_app. split; [done|]. apply line_app. split; [done|apply IH].
  - apply line_app. split; [|apply IH]. case_bool_decide; [done|]. by case_bool_decide.
Qed.
Lemma quote_line s : line_text (quote s).
Proof. rw /quote !line_app. split_and!; [done|apply escape_fuel_line|done]. Qed.

(** ** Values *)

Lemma sep_line l : Forall line_text l → line_text (sep_concat l).
Proof.
  induction 1 as [|x l Hx Hl IH]; [done|]. cbn [sep_concat]. destruct l; [done|]. apply line_app. split; [done|].
  apply line_cons. by split.
Qed.
Lemma print_line v : wf_json v → line_text (print v).
Proof.
  revert v. fix IH 1. intros [|[]|lit|s|l|l] Hw; cbn [print]; try done.
  - by apply num_line.
  - apply quote_line.
  - apply line_cons. split; [done|]. apply line_app. split; [|done]. apply sep_line. clear -IH Hw.
    induction l as [|x l IHl]; [constructor|]. cbn in *. destruct Hw as [Hx Hl].
    constructor; [by apply IH|by apply IHl].
  - apply line_cons. split; [done|]. apply line_app. split; [|done]. apply sep_line. clear -IH Hw.
    induction l as [|[k x] l IHl]; [constructor|]. cbn in *. destruct Hw as [[_ Hx] Hl].
    constructor; [|by apply IHl]. change (line_text (quote k +:+ ":" +:+ print x)). apply line_app.
    split; [apply quote_line|]. apply line_cons. split; [done|by apply IH].
Qed.
