(* ===== verification/Client.v ===== *)
(** * The client library (src/client/client.go) and its conversation with the server

    A request of the client is a line for the server and a reading of its reply.  [link]
    joins the two ends: the server, the line it has begun to receive and the bytes the
    client has not read.  [perform] is what a request means, without a wire. *)
From S2P Require Import Prelude GoStrings Float64 GoTime Json JsonLine Job Redis Store SortedSet Middleware Manager Retry Working Fetch Scheduler Reaper Wire Workers Mutate Server.

#[local] Open Scope list_scope.

(** ** Requests *)

(** [RFail]'s backtrace is the output of [debug.Stack], [None] a nil slice; [RBeat] has
    the process's id, memory and state. *)
Inductive request :=
| RPush (job : Job)
| RFetch (q : list string)
| RAck (jid : string)
| RFail (jid err : string) (backtrace : option string)
| RBeat (wid : string) (rss : Z) (state : string)
| RFlush
| RPause (names : list string)
| RResume (names : list string)
| RMutate (op : Operation)
| RInfo.

(** Maps are printed with their keys in order. *)
Definition ack_text (jid : string) : string :=
  "{" +:+ DQ +:+ "jid" +:+ DQ +:+ ":" +:+ DQ +:+ jid +:+ DQ +:+ "}".
Definition fail_to_json (jid err : string) (bt : option (list string)) : json :=
  JObj (match bt with Some l => [("backtrace", JArr (List.map JStr l))] | None => [] end
        ++ [("errtype", JStr "unknown"); ("jid", JStr jid); ("message", JStr err)]).
Definition beat_to_json (wid : string) (rss : Z) (state : string) : json :=
  JObj (omit_str "current_state" state ++ [("rss_kb", JNum (dec rss)); ("wid", JStr wid)]).

(** The word and the payload of the line. *)
Definition request_line (r : request) : outcome (string * option string) :=
  match r with
  | RPush job => Ok ("PUSH", Some (marshal_job job))
  | RFetch [] => Err (ErrMsg "Fetch must be called with one or more queue names")
  | RFetch q => Ok ("FETCH", Some (join " " q))
  | RAck jid => Ok ("ACK", Some (ack_text jid))
  | RFail jid err None => Ok ("FAIL", Some (print (fail_to_json jid err None)))
  | RFail jid err (Some backtrace) =>
      let bt := split_char (chr 10) backtrace in
      if bool_decide (3 ≤ length bt)%nat then Ok ("FAIL", Some (print (fail_to_json jid err (Some (drop 3 bt)))))
      else Panic "slice bounds out of range"
  | RBeat wid rss state => Ok ("BEAT " +:+ print (beat_to_json wid rss state), None)
  | RFlush => Ok ("FLUSH", None)
  | RPause names => Ok ("QUEUE PAUSE", Some (join " " names))
  | RResume names => Ok ("QUEUE RESUME", Some (join " " names))
  | RMutate op => Ok ("MUTATE", Some (print (op_to_json op)))
  | RInfo => Ok ("INFO", None)
  end.
Definition writeLine (op : string) (payload : option string) : string :=
  op +:+ match payload with Some p => " " +:+ p | None => "" end +:+ CRLF.

(** ** Replies *)

Inductive result := Done | AJob (job : option Job) | AText (s : string) | AInfo (m : option (list (string * gov))).

(** [ok]; [string(nil)] is empty. *)
Definition client_ok (resp : outcome (option string)) : outcome result :=
  match resp with
  | Ok val => if bool_decide (default "" val = "OK") then Ok Done
              else Err (ErrMsg ("Invalid response: " +:+ default "" val))
  | Err e => Err e
  | Panic p => Panic p
  end.
Definition interpret (r : request) (resp : outcome (option string)) : outcome result :=
  match r with
  | RFetch _ =>
      match resp with
      | Ok (Some data) =>
          if bool_decide (data = "") then Ok (AJob None)
          else omap_outcome (λ j, AJob (Some j)) (unmarshal_job zero_job data)
      | Ok None => Ok (AJob None)
      | Err e => Err e
      | Panic p => Panic p
      end
  | RBeat _ _ _ => omap_outcome (λ v, AText (if bool_decide (default "" v = "OK") then "" else default "" v)) resp
  | RInfo =>
      match resp with
      | Ok (Some data) =>
          if bool_decide (data = "") then Ok (AInfo None)
          else match v ← parse data; to_gov v with
               | Some (GObj m) => Ok (AInfo (Some m))
               | Some GNil => Ok (AInfo None)
               | _ => Err json_error
               end
      | Ok None => Ok (AInfo None)
      | Err e => Err e
      | Panic p => Panic p
      end
  | _ => client_ok resp
  end.

Section client.
Context `{Redis}.
Context (env : Env) (fuel : nat) (drawn : nat → string → Z) (MemoryUsageMB : Z).

(** ** A call *)

(** [part] is [None] when the connection is over. *)
Record link := mkLink { srv : server; part : option string; unread : string }.
Definition idle (s : server) : link := mkLink s (Some "") "".

(** The server reads what it has been sent and answers. *)
Definition transmit (c : nat) (line : string) : M link unit :=
  λ l, match l.(part) with
       | None => (Err (ErrMsg "write: broken pipe"), l)
       | Some begun =>
           match processLines env fuel drawn MemoryUsageMB c (begun +:+ line) l.(srv) with
           | (Ok (out, left_), s) => (Ok tt, mkLink s left_ (l.(unread) +:+ out))
           | (Err e, s) => (Err e, mkLink s None l.(unread))
           | (Panic p, s) => (Panic p, mkLink s None l.(unread))
           end
       end.
Definition receive {A} (f : outcome (option string) → outcome A) : M link A :=
  λ l, let (o, rest) := readResponse l.(unread) in (f o, mkLink l.(srv) l.(part) rest).
Definition client_call (c : nat) (r : request) : M link result :=
  let* (op, payload) := ofOutcome (request_line r) in
  transmit c (writeLine op payload) ;;;
  receive (interpret r).
(** One call after another, whatever each comes to. *)
Fixpoint client_calls (c : nat) (rs : list request) (l : link) : list (outcome result) * link :=
  match rs with
  | [] => ([], l)
  | r :: rs' => let (o, l) := client_call c r l in let (os, l) := client_calls c rs' l in (o :: os, l)
  end.

(** ** What a request means *)

Definition reply_of {A} (m : M server A) (f : A → wire_reply) : M server wire_reply :=
  let* r := tryM m in retM (match r with inl a => f a | inr e => WError e end).
Definition perform (c : nat) (r : request) : M server wire_reply :=
  match r with
  | RPush job => let* now := Now in reply_of (on_mgr (Push env now job)) (λ _, WOk)
  | RFetch q =>
      let* s := getM in
      match client_of s c with
      | None => panicM "nil pointer dereference"
      | Some client =>
          if bool_decide (client.(cstate) = Running) then
            let* now := Now in
            reply_of (on_mgr (Fetch fuel env now client.(cWid) q)) (λ job, WResult (marshal_job <$> job))
          else retM (WResult None)
      end
  | RAck jid => let* now := Now in reply_of (on_mgr (Acknowledge env now jid)) (λ _, WOk)
  | RFail jid err backtrace =>
      let* s := getM in
      let* now := Now in
      let failure := mkFail jid err "unknown" (match backtrace with Some b => drop 3 (split_char (chr 10) b) | None => [] end) in
      reply_of (on_mgr (Fail env (drawn s.(readings) jid) now (Some failure))) (λ _, WOk)
  | RBeat wid rss state =>
      let* s := getM in
      let* now := match registered s.(snet).(reg) wid with Some _ => Now | None => retM 0 end in
      let (worker, w) := heartbeat now (mkBeat state wid rss) s.(snet).(reg) in
      modifyM (λ s, set_snet (set_reg w s.(snet)) s) ;;;
      retM match p ← worker; w.(clients) !! p with
           | None => WError (ErrMsg ("Unknown worker " +:+ wid))
           | Some cd => if bool_decide (cd.(cstate) = Running) then WOk else WResult (Some (state_json cd.(cstate)))
           end
  | RFlush => reply_of (on_mgr Flush) (λ _, WOk)
  | RPause names => queue_names "PAUSE" (default "" (head names)) (List.tl names) ;;; retM WOk
  | RResume names => queue_names "RESUME" (default "" (head names)) (List.tl names) ;;; retM WOk
  | RMutate op => let* now := Now in reply_of (on_mgr (mutate_op fuel now op)) (λ _, WOk)
  | RInfo => reply_of (CurrentState MemoryUsageMB) (λ data, WResult (Some (print data)))
  end.
(** Every request counts as a command. *)
Definition served (c : nat) (r : request) : M server wire_reply :=
  modifyM (λ s, set_Commands (wrapu64 (s.(Commands) + 1)) s) ;;; perform c r.
Fixpoint serve_all (c : nat) (rs : list request) : M server (list wire_reply) :=
  match rs with
  | [] => retM []
  | r :: rs' => let* a := served c r in let* l := serve_all c rs' in retM (a :: l)
  end.

(** ** Requests a line can carry *)

Definition word (w : string) : Prop := no_char " " w = true ∧ no_char (chr 10) w = true.
Definition wf_filter (f : JobFilter) : Prop := Forall utf8 f.(Jids) ∧ utf8 f.(Regexp) ∧ utf8 f.(Jobtype).
Definition wf_op (o : Operation) : Prop :=
  utf8 o.(Cmd) ∧ utf8 o.(Target) ∧ (∀ f, o.(Filter) = Some f → wf_filter f) ∧
  no_char " " (print (op_to_json o)) = true.
Definition wf_request (r : request) : Prop :=
  match r with
  | RPush job => wf_job job
  | RFetch q => q ≠ [] ∧ Forall word q
  | RAck jid => utf8 jid ∧ escape jid = jid
  | RFail jid err backtrace =>
      utf8 jid ∧ utf8 err ∧
      match backtrace with
      | Some b => (3 ≤ length (split_char (chr 10) b))%nat ∧ Forall utf8 (split_char (chr 10) b)
      | None => True
      end
  | RBeat wid rss state => utf8 wid ∧ utf8 state ∧ in_int64 rss = true
  | RPause names | RResume names => names ≠ [] ∧ Forall word names
  | RMutate op => wf_op op
  | RFlush | RInfo => True
  end.
End client.

(** ** Lines *)

Lemma no_char_cons c a s : no_char c (String a s) = negb (bool_decide (a = c)) && no_char c s.
Proof. done. Qed.
Lemma take_drop_str n s : take_str n s +:+ drop_str n s = s.
Proof. revert s. induction n as [|n IH]; intros [|c s]; [done..|]. cbn. by rw IH. Qed.
Lemma trim_line cmd :
  no_char (chr 10) cmd = true → trim_suffix (String (chr 10) "") (trim_suffix CRLF (cmd +:+ CRLF)) = cmd.
Proof.
  intros H. assert (E : trim_suffix CRLF (cmd +:+ CRLF) = cmd).
  { rw /trim_suffix length_app_str Nat.add_sub drop_str_app take_str_app. by rw bool_decide_eq_true_2. }
  rw E /trim_suffix. case_bool_decide as K; [|done]. exfalso.
  rewrite -(take_drop_str (String.length cmd - String.length (String (chr 10) "")) cmd) K in H.
  rewrite no_char_app in H. by apply andb_prop in H as [_ H].
Qed.
Lemma index_from_char i c op p :
  no_char c op = true → index_from i (String c "") (op +:+ String c p) = i + slen op.
Proof.
  revert i. induction op as [|a op IH]; intros i; cbn.
  - rw bool_decide_eq_true_2 //. rw /slen. cbn. lia.
  - intros [Ha Hop]%andb_prop. apply negb_true_iff, bool_decide_eq_false in Ha.
    rw bool_decide_eq_false_2; [congruence|]. cbn [andb]. rw IH //. rw /slen. cbn [String.length]. lia.
Qed.
Lemma index_from_none i c op : no_char c op = true → index_from i (String c "") op = -1.
Proof.
  revert i. induction op as [|a op IH]; intros i; cbn; [done|].
  intros [Ha Hop]%andb_prop. apply negb_true_iff, bool_decide_eq_false in Ha.
  rw bool_decide_eq_false_2; [congruence|]. by apply IH.
Qed.
Lemma verb_of_app op p : no_char " " op = true → verb_of (op +:+ " " +:+ p) = op.
Proof.
  intros H. rw /verb_of /index_of. change (op +:+ " " +:+ p) with (op +:+ String " " p).
  rw (index_from_char 0 " " op p H) Z.add_0_l. destruct (Z.leb_spec 0 (slen op)) as [_|Hn]; [|rw /slen in Hn; lia].
  rw /slen Nat2Z.id. apply take_str_app.
Qed.
Lemma verb_of_word op : no_char " " op = true → verb_of op = op.
Proof. intros H. by rw /verb_of /index_of index_from_none. Qed.

(** The line of a request. *)
Definition cmd_of (op : string) (payload : option string) : string :=
  op +:+ match payload with Some p => " " +:+ p | None => "" end.
Lemma writeLine_eq op payload : writeLine op payload = cmd_of op payload +:+ CRLF.
Proof. by rw /writeLine /cmd_of app_str_assoc. Qed.
Lemma join_words l c : l ≠ [] → Forall (λ w, no_char c w = true) l → c ≠ " "%char → no_char c (join " " l) = true.
Proof.
  intros _ Hl Hc. induction Hl as [|w l Hw Hl IH]; [done|]. destruct l; [done|].
  change (join " " (w :: s :: l)) with (w +:+ " " +:+ join " " (s :: l)).
  assert (Hs : no_char c " " = true) by (cbn; case_bool_decide; [congruence|done]).
  rw !no_char_app Hw Hs. exact IH.
Qed.

(** ** Payloads are read back *)

Lemma unmarshal_print {R} (field : string → json → R → option R) v r x :
  wf_json v → decode_struct field v r = Some x → unmarshal field (print v) r = Ok x.
Proof. intros Hv Hd. by rw /unmarshal parse_print //= Hd. Qed.
Lemma ack_text_eq jid : escape jid = jid → ack_text jid = print (JObj [("jid", JStr jid)]).
Proof. intros H. cbn [print List.map fst snd sep_concat]. rw /quote H /ack_text. by rw !app_str_assoc. Qed.
Lemma unmarshal_ack jid : utf8 jid → escape jid = jid → unmarshal_map (ack_text jid) = Some {[ "jid" := jid ]}.
Proof.
  intros Hu He. rw ack_text_eq // /unmarshal_map parse_print; [|done].
  apply wf_obj. wf_fields. done.
Qed.
Lemma unmarshal_fail jid err bt :
  utf8 jid → utf8 err → (∀ l, bt = Some l → Forall utf8 l) →
  unmarshal fail_field (print (fail_to_json jid err bt)) zero_fail = Ok (mkFail jid err "unknown" (default [] bt)).
Proof.
  intros Hj He Hb. apply unmarshal_print.
  - apply wf_obj. destruct bt as [l|]; cbn [app]; wf_fields; try done; [|ascii_lit..].
    apply wf_arr, Forall_map. exact (Forall_impl _ _ _ (Hb l eq_refl) (λ _ h, h)).
  - destruct bt as [l|]; cbn [fail_to_json decode_struct app]; [|done]. rw decode_fields_cons.
    change (fail_field (lower "backtrace") (JArr ?l) ?f) with (bt ← dec_strings l; Some (set_fBacktrace bt f)).
    by rw dec_strings_map.
Qed.
Lemma unmarshal_beat wid rss state :
  utf8 wid → utf8 state → in_int64 rss = true →
  unmarshal beat_field (print (beat_to_json wid rss state)) (mkBeat "" "" 0) = Ok (mkBeat state wid rss).
Proof.
  intros Hw Hs Hr. apply unmarshal_print.
  - apply wf_obj, Forall_app. split; [apply wf_omit_str; [ascii_lit|done]|]. wf_fields; [apply num_ok_int|done].
  - cbn [beat_to_json decode_struct]. rw (decode_omit_str _ set_CurrentState) //.
    rw decode_fields_cons. change (beat_field (lower "rss_kb")) with (dec_int set_bRssKb). by rw dec_int_ok.
Qed.
Lemma wf_filter_json f : wf_filter f → wf_json (filter_to_json f).
Proof.
  intros (Hj & Hr & Ht). apply wf_obj. rw !Forall_app.
  split_and!; [|apply wf_omit_str; [ascii_lit|done]|apply wf_omit_str; [ascii_lit|done]].
  destruct (Jids f) as [|j l]; [constructor|]. wf_fields. apply wf_arr, Forall_map. exact (Forall_impl _ _ _ Hj (λ _ h, h)).
Qed.
Lemma decode_filter f : decode_fields filter_field
    (match filter_to_json f with JObj l => l | _ => [] end) no_filter = Some f.
Proof.
  destruct f as [js re ty]. cbn [filter_to_json Jids Regexp Jobtype].
  destruct js as [|j js]; cbn [app].
  - rw (decode_omit_str _ set_Regexp) //. rewrite -(app_nil_r (omit_str "jobtype" ty)). by rw (decode_omit_str _ set_Jobtype).
  - rw decode_fields_cons.
    change (filter_field (lower "jids") (JArr ?l) ?f) with (js ← dec_strings l; Some (set_Jids js f)).
    rw dec_strings_map. cbn [mbind option_bind].
    rw (decode_omit_str _ set_Regexp) //. rewrite -(app_nil_r (omit_str "jobtype" ty)). by rw (decode_omit_str _ set_Jobtype).
Qed.
Lemma wf_op_json o : wf_op o → wf_json (op_to_json o).
Proof.
  intros (Hc & Ht & Hf & _). apply wf_obj, Forall_app. split; [wf_fields; done|].
  destruct (Filter o) as [f|]; [|constructor]. wf_fields. apply wf_filter_json. by apply Hf.
Qed.
Lemma unmarshal_op_print o : wf_op o → unmarshal_op (print (op_to_json o)) = Ok o.
Proof.
  intros Hw. apply unmarshal_print; [by apply wf_op_json|]. destruct o as [cmd target f].
  cbn [op_to_json decode_struct Cmd Target Filter app].
  rw (decode_str_field _ set_Cmd) // (decode_str_field _ set_Target) //.
  destruct f as [f|]; [|done]. cbn [decode_fields].
  pose proof (decode_filter f) as D. rw /filter_to_json in D |- *. cbn beta iota in D.
  change (op_field (lower "filter") (JObj ?l) ?o)
    with (f ← decode_fields filter_field l (default no_filter o.(Filter)); Some (set_Filter (Some f) o)).
  cbn [set_Target set_Cmd Filter default from_option]. by rw D.
Qed.

(** ** A request is served as it is meant *)

Section transparency.
Context `{Redis}.
Context (env : Env) (fuel : nat) (drawn : nat → string → Z) (MemoryUsageMB : Z).

Abbreviation perform := (perform env fuel drawn MemoryUsageMB).
Abbreviation served := (served env fuel drawn MemoryUsageMB).
Abbreviation serve_all := (serve_all env fuel drawn MemoryUsageMB).
Abbreviation verbs := (CommandSet env fuel drawn MemoryUsageMB).
Abbreviation client_call := (client_call env fuel drawn MemoryUsageMB).
Abbreviation client_calls := (client_calls env fuel drawn MemoryUsageMB).

Definition some_reply (m : M server wire_reply) : M server (option wire_reply) := let* a := m in retM (Some a).
Lemma answer_reply {A} (m : M server A) f s : answer m f s = some_reply (reply_of m f) s.
Proof. rw /answer /some_reply /reply_of /bindM. by destruct (tryM m s) as [[] ?]. Qed.
Lemma now_answer {A} (m : Z → M server A) f s :
  (let* now := Now in answer (m now) f) s = some_reply (let* now := Now in reply_of (m now) f) s.
Proof. rw {1}/bindM /Now answer_reply. done. Qed.

Lemma get_then {S A} (k : S → M S A) s : (let* s0 := getM in k s0) s = k s s.
Proof. done. Qed.
Lemma some_get k s : some_reply (let* s0 := getM in k s0) s = some_reply (k s) s.
Proof. done. Qed.

Lemma modify_then {S A} (f : S → S) (m : M S A) s : (modifyM f ;;; m) s = m (f s).
Proof. done. Qed.

(** The command a line calls, and what it does. *)
Definition serves (c : nat) (cmd : string) (r : request) : Prop :=
  no_char (chr 10) cmd = true ∧ verb_of cmd ≠ "END" ∧
  ∃ proc, verbs (verb_of cmd) = Some proc ∧ ∀ s, proc c cmd s = some_reply (perform c r) s.
Lemma serves_intro c op p r proc :
  no_char " " op = true → no_char (chr 10) op = true → no_char (chr 10) p = true → op ≠ "END" →
  verbs op = Some proc → (∀ s, proc c (op +:+ " " +:+ p) s = some_reply (perform c r) s) →
  serves c (cmd_of op (Some p)) r.
Proof.
  intros Hsp Hlf Hp Hend Hproc Hs. rw /serves /cmd_of verb_of_app //. split_and!; [|done|by exists proc].
  by rw !no_char_app Hlf Hp.
Qed.
Lemma serves_word c op r proc :
  no_char " " op = true → no_char (chr 10) op = true → op ≠ "END" →
  verbs op = Some proc → (∀ s, proc c op s = some_reply (perform c r) s) → serves c (cmd_of op None) r.
Proof.
  intros Hsp Hlf Hend Hproc Hs. rw /serves /cmd_of app_str_nil_r verb_of_word //. split_and!; [done|done|by exists proc].
Qed.
Lemma words_split names : names ≠ [] → Forall word names → split_char " " (join " " names) = names.
Proof. intros Hn Hw. apply split_join; [done|]. exact (Forall_impl _ _ _ Hw (λ _ h, proj1 h)). Qed.
Lemma words_no_lf names : names ≠ [] → Forall word names → no_char (chr 10) (join " " names) = true.
Proof. intros Hn Hw. apply join_words; [done| |done]. exact (Forall_impl _ _ _ Hw (λ _ h, proj2 h)). Qed.
Lemma slice_op {S} n (op p : string) (s : S) :
  String.length op = n → slice_from (n + 1) (op +:+ " " +:+ p) s = (Ok p, s).
Proof.
  intros <-. rw /slice_from bool_decide_eq_true_2; [rw !length_app_str; cbn; lia|].
  rw (_ : drop_str _ _ = p); [|done]. rewrite -app_str_assoc.
  rewrite (_ : String.length op + 1 = String.length (op +:+ " "))%nat; [by rw length_app_str|]. apply drop_str_app.
Qed.

Lemma queue_serves c verb names r :
  r = (if bool_decide (verb = "PAUSE") then RPause names else RResume names) → verb = "PAUSE" ∨ verb = "RESUME" →
  names ≠ [] → Forall word names →
  ∃ op payload, Ok ("QUEUE " +:+ verb, Some (join " " names)) = Ok (op, payload) ∧ serves c (cmd_of op payload) r.
Proof.
  intros Hr Hv Hn Hw. do 2 eexists. split; [done|].
  rewrite (_ : cmd_of ("QUEUE " +:+ verb) (Some (join " " names)) = cmd_of "QUEUE" (Some (join " " (verb :: names)))).
  { destruct names; [done|]. rw /cmd_of. by rw app_str_assoc. }
  assert (Hwv : Forall word (verb :: names)).
  { constructor; [|done]. by destruct Hv as [->| ->]. }
  apply (serves_intro _ _ _ _ queue); [done..|by apply words_no_lf|done|done|].
  intros s. rw /queue (split_char_app " " "QUEUE") // words_split //. cbn [List.tl].
  destruct names as [|star names]; [done|]. rw Hr /some_reply. destruct Hv as [->| ->]; symmetry; apply bindM_assoc.
Qed.

Lemma request_serves c r :
  wf_request r → ∃ op payload, request_line r = Ok (op, payload) ∧ serves c (cmd_of op payload) r.
Proof.
  destruct r as [job|q|jid|jid err bt|wid rss state| |names|names|op|]; cbn [wf_request request_line]; intros Hw.
  - do 2 eexists. split; [done|]. apply (serves_intro _ _ _ _ (push env)); [done..| |done|done|].
    { apply line_no_lf, print_line, wf_job_json, Hw. }
    intros s. rw /push {1}/bindM (slice_op 4 "PUSH") // unmarshal_marshal_job_from //. apply now_answer.
  - destruct Hw as [Hn Hw]. destruct q as [|w q]; [done|]. do 2 eexists. split; [done|].
    apply (serves_intro _ _ _ _ (fetch env fuel)); [done..|by apply words_no_lf|done|done|].
    intros s. rw /fetch /perform (split_char_app " " "FETCH") // words_split //. cbn [List.tl].
    rw get_then some_get. destruct (client_of s c) as [cd|]; [|done].
    destruct (bool_decide (cstate cd = Running)); [|done]. cbn [negb]. apply now_answer.
  - destruct Hw as [Hu He]. do 2 eexists. split; [done|]. apply (serves_intro _ _ _ _ (ack env)); [done..| |done|done|].
    { rw ack_text_eq //. apply line_no_lf, print_line, wf_obj. wf_fields. done. }
    intros s. rw /ack {1}/bindM (slice_op 3 "ACK") // unmarshal_ack // lookup_singleton_eq. apply now_answer.
  - destruct Hw as (Hj & He & Hb).
    assert (Hwf : ∀ l, (∀ b, l = Some b → Forall utf8 b) → wf_json (fail_to_json jid err l)).
    { intros l Hl. apply wf_obj. destruct l as [b|]; cbn [app]; wf_fields; try done; [|ascii_lit..].
      apply wf_arr, Forall_map. exact (Forall_impl _ _ _ (Hl b eq_refl) (λ _ h, h)). }
    assert (Hs : ∀ l, (∀ b, l = Some b → Forall utf8 b) →
      default [] l = match bt with Some b => drop 3 (split_char (chr 10) b) | None => [] end →
      serves c (cmd_of "FAIL" (Some (print (fail_to_json jid err l)))) (RFail jid err bt)).
    { intros l Hl Hd. apply (serves_intro _ _ _ _ (fail env drawn)); [done..| |done|done|].
      { apply line_no_lf, print_line, Hwf, Hl. }
      intros s. rw /fail {1}/bindM (slice_op 4 "FAIL") // unmarshal_fail // get_then some_get Hd. apply now_answer. }
    destruct bt as [b|].
    + destruct Hb as [Hlen Hb]. rw bool_decide_eq_true_2 //. do 2 eexists. split; [done|]. apply Hs; [|done].
      intros b' [= <-]. by apply Forall_drop.
    + do 2 eexists. split; [done|]. by apply Hs.
  - destruct Hw as (Hwid & Hst & Hr). do 2 eexists. split; [done|].
    rewrite (_ : cmd_of ("BEAT " +:+ print (beat_to_json wid rss state)) None =
      cmd_of "BEAT" (Some (print (beat_to_json wid rss state)))); [by rw /cmd_of app_str_nil_r|].
    apply (serves_intro _ _ _ _ heartbeat_); [done..| |done|done|].
    { apply line_no_lf, print_line, wf_obj, Forall_app. split; [apply wf_omit_str; [ascii_lit|done]|].
      wf_fields; [apply num_ok_int|done]. }
    intros s. rw /heartbeat_ {1}/bindM (slice_op 4 "BEAT") // unmarshal_beat //. cbn [bWid].
    rw get_then some_get. cbn [bWid].
    destruct (registered (reg (snet s)) wid) as [[p e]|]; rw /some_reply /bindM /Now /retM /modifyM; cbn [fst snd];
      destruct (heartbeat _ _ _) as [worker w]; cbn beta iota; by repeat case_match.
  - do 2 eexists. split; [done|]. apply (serves_word _ _ _ flush); [done..|]. intros s. apply answer_reply.
  - apply (queue_serves c "PAUSE" names); [done|by left|apply Hw..].
  - apply (queue_serves c "RESUME" names); [done|by right|apply Hw..].
  - do 2 eexists. split; [done|]. apply (serves_intro _ _ _ _ (mutate fuel)); [done..| |done|done|].
    { apply line_no_lf, print_line, wf_op_json, Hw. }
    intros s. rw /mutate (split_char_app " " "MUTATE") // split_char_no; [apply Hw|]. rw unmarshal_op_print //. apply now_answer.
  - do 2 eexists. split; [done|]. apply (serves_word _ _ _ (info MemoryUsageMB)); [done..|]. intros s. apply answer_reply.
Qed.

(** *** Through the loop *)

Lemma process_line_serves c cmd r (s : server) :
  serves c cmd r → s.(closed) = false →
  process_line env fuel drawn MemoryUsageMB c (cmd +:+ CRLF) s =
    (let* a := served c r in retM (Some a, true)) s.
Proof.
  intros (Hlf & Hend & proc & Hproc & Hs) Hcl.
  rw /process_line get_then Hcl trim_line // Hproc (bool_decide_eq_false_2 _ Hend).
  rw /served !bindM_assoc !modify_then /bindM Hs /some_reply /bindM.
  by destruct (perform c r _) as [[] ?].
Qed.
Lemma processLines_serves c cmd r (s : server) :
  serves c cmd r → s.(closed) = false →
  processLines env fuel drawn MemoryUsageMB c (cmd +:+ CRLF) s =
    (let* a := served c r in retM (wire a, Some "")) s.
Proof.
  intros Hsv Hcl. pose proof Hsv as (Hlf & _). rw /processLines.
  assert (E : ∃ n, String.length (cmd +:+ CRLF) = S n).
  { rw length_app_str. exists (String.length cmd + 1)%nat. cbn. lia. }
  destruct E as [n ->]. cbn [process_lines].
  rewrite -{1}(app_str_nil_r (cmd +:+ CRLF)) app_str_assoc read_line_app //.
  rw {1}/bindM (process_line_serves _ _ r) // /bindM /retM. destruct (served c r s) as [[a|e|p] s']; [|done..].
  cbn. by rw app_str_nil_r.
Qed.

(** One call.  The reply has to be one the wire can carry. *)
Lemma call_serves c r (s s' : server) reply :
  wf_request r → s.(closed) = false → served c r s = (Ok reply, s') → sendable reply →
  client_call c r (idle s) = (interpret r (received reply), idle s').
Proof.
  intros Hw Hcl Hserve Hsend. destruct (request_serves c r Hw) as (op & payload & Hreq & Hsv).
  rw /client_call Hreq {1}/bindM. cbn [ofOutcome]. rw {1}/bindM /transmit /idle. cbn [part srv unread String.append].
  rw writeLine_eq (processLines_serves _ _ r) // /bindM Hserve. cbn [retM fst snd].
  rw /receive. cbn [unread srv part]. rewrite -(app_str_nil_r (wire reply)) readResponse_wire //.
Qed.
End transparency.

(** ** No request closes the server *)

Section steady.
Context `{Redis}.

Definition steady {A} (m : M server A) : Prop := ∀ s, (m s).2.(closed) = s.(closed).
Lemma steady_ret {A} (a : A) : steady (retM a).
Proof. by intros s. Qed.
Lemma steady_panic {A} p : steady (panicM p : M server A).
Proof. by intros s. Qed.
Lemma steady_bind {A B} (m : M server A) (k : A → M server B) : steady m → (∀ a, steady (k a)) → steady (bindM m k).
Proof.
  intros Hm Hk s. specialize (Hm s). rw /bindM. destruct (m s) as [[a|e|p] s']; [|done..]. by rw Hk.
Qed.
Lemma steady_get {A} (k : server → M server A) : (∀ s, steady (k s)) → steady (let* s := getM in k s).
Proof. intros Hk s. apply Hk. Qed.
Lemma steady_on_mgr {A} (m : M mgr A) : steady (on_mgr m).
Proof. intros s. rw /on_mgr /zoomM. by destruct (m (smgr s)). Qed.
Lemma steady_now : steady Now.
Proof. by intros s. Qed.
Lemma steady_try {A} (m : M server A) : steady m → steady (tryM m).
Proof. intros Hm s. specialize (Hm s). rw /tryM. by destruct (m s) as [[] ?]. Qed.
Lemma steady_ignore {A} (m : M server A) : steady m → steady (ignoreM m).
Proof. intros Hm s. specialize (Hm s). rw /ignoreM. by destruct (m s) as [[] ?]. Qed.
Lemma steady_modify f : (∀ s, (f s).(closed) = s.(closed)) → steady (modifyM f).
Proof. intros Hf s. apply Hf. Qed.
Lemma steady_forM {A} (l : list A) body : (∀ x, steady (body x)) → steady (forM l body).
Proof. intros Hb. induction l; [apply steady_ret|]. by apply steady_bind. Qed.
Lemma steady_mapM {A B} (l : list A) (f : A → M server B) : (∀ x, steady (f x)) → steady (mapM_ l f).
Proof.
  intros Hf. induction l; [apply steady_ret|]. apply steady_bind; [done|]. intros y.
  apply steady_bind; [done|]. intros ys. apply steady_ret.
Qed.
End steady.

(** Go through a program. *)
Ltac steady_step :=
  lazymatch goal with
  | |- steady (retM _) => apply steady_ret
  | |- steady (panicM _) => apply steady_panic
  | |- steady (on_mgr _) => apply steady_on_mgr
  | |- steady Now => apply steady_now
  | |- steady (bindM getM _) => apply steady_get; intros ?
  | |- steady (bindM _ _) => apply steady_bind; [|intros ?]
  | |- steady (tryM _) => apply steady_try
  | |- steady (ignoreM _) => apply steady_ignore
  | |- steady (forM _ _) => apply steady_forM; intros ?
  | |- steady (mapM_ _ _) => apply steady_mapM; intros ?
  | |- steady (modifyM _) => apply steady_modify; done
  | |- steady (match ?x with _ => _ end) => destruct x
  end.
Ltac steady := repeat steady_step.

Section sessions.
Context `{Redis}.
Context (env : Env) (fuel : nat) (drawn : nat → string → Z) (MemoryUsageMB : Z).

Lemma steady_queue_names verb star names : steady (queue_names verb star names).
Proof. rw /queue_names /queue_one /EachQueue. steady. Qed.
Lemma steady_CurrentState : steady (CurrentState MemoryUsageMB).
Proof. rw /CurrentState /task_stats. steady. Qed.
Lemma steady_served c r : steady (served env fuel drawn MemoryUsageMB c r).
Proof.
  rw /served. apply steady_bind; [steady|intros _].
  destruct r; cbn [perform]; rw /reply_of; 
    repeat first [apply steady_queue_names | apply steady_CurrentState | progress steady].
Qed.

Abbreviation call := (client_call env fuel drawn MemoryUsageMB).
Abbreviation session := (client_calls env fuel drawn MemoryUsageMB).
Abbreviation meant := (served env fuel drawn MemoryUsageMB).
Abbreviation all_meant := (serve_all env fuel drawn MemoryUsageMB).

Lemma session_serves c rs (s s' : server) replies :
  Forall wf_request rs → s.(closed) = false → all_meant c rs s = (Ok replies, s') → Forall sendable replies →
  session c rs (idle s) = (zip_with (λ r a, interpret r (received a)) rs replies, idle s').
Proof.
  intros Hw. revert s replies. induction Hw as [|r rs Hr Hw IH]; intros s replies Hcl Hs Hsend.
  { by injection Hs as <- <-. }
  cbn in Hs. apply bindM_inv_ok in Hs as (a & s1 & Ha & Hs). apply bindM_inv_ok in Hs as (l & s2 & Hl & [= <- <-]).
  apply Forall_cons in Hsend as [Hsa Hsend]. cbn [client_calls].
  rewrite (call_serves env fuel drawn MemoryUsageMB c r s s1 a) //.
  rewrite (IH s1 l) //. rewrite -Hcl -(steady_served c r s) Ha //.
Qed.

(** C9. The wire is transparent: a client's session of pushes, fetches, acknowledgements,
    failures, beats, pauses and bulk operations leaves the server exactly as performing
    the requests on it in turn does, and gives the client the meaning of each reply; no
    byte is left over on either side. *)
Theorem session_refines c rs (s s' : server) replies :
  Forall wf_request rs → s.(closed) = false → all_meant c rs s = (Ok replies, s') → Forall sendable replies →
  session c rs (idle s) = (zip_with (λ r a, interpret r (received a)) rs replies, idle s').
Proof. exact (session_serves c rs s s' replies). Qed.

(** A reply whose text has a line break puts the two ends out of step: the client
    reads up to the break, and the rest is what its next request will be answered with. *)
Theorem broken_reply_left_behind c r (s s' : server) l t :
  wf_request r → s.(closed) = false → meant c r s = (Ok (WError (ErrMsg (l +:+ CRLF +:+ t))), s') →
  no_char (chr 10) l = true →
  call c r (idle s) = (interpret r (Err (ErrProtocol ("ERR " +:+ l))), mkLink s' (Some "") (t +:+ CRLF)).
Proof.
  intros Hw Hcl Hs Hl. destruct (request_serves env fuel drawn MemoryUsageMB c r Hw) as (op & payload & Hreq & Hsv).
  rw /client_call Hreq {1}/bindM. cbn [ofOutcome]. rw {1}/bindM /transmit /idle. cbn [part srv unread String.append].
  rw writeLine_eq (processLines_serves env fuel drawn MemoryUsageMB c _ r) // /bindM Hs. cbn [retM fst snd].
  rw /receive. cbn [unread srv part wire].
  pose proof (multiline_error_desynchronises l t "" Hl) as E. rewrite !app_str_nil_r in E. by rw E.
Qed.

(** Any client can bring the server down: a line with the word of a command that
    takes an argument, and no argument, is an index out of range, which nothing recovers. *)
Theorem bare_command_panics c (s : server) line :
  s.(closed) = false → line ∈ ["PUSH"; "ACK"; "FAIL"; "BEAT"; "QUEUE"; "QUEUE PAUSE"; "QUEUE RESUME"] →
  ∃ p s', processLines env fuel drawn MemoryUsageMB c (line +:+ CRLF) s = (Panic p, s').
Proof.
  intros Hcl Hin.
  assert (K : no_char (chr 10) line = true ∧
    ∃ p s', process_line env fuel drawn MemoryUsageMB c (line +:+ CRLF) s = (Panic p, s')).
  { rw /process_line get_then Hcl.
    repeat (apply elem_of_cons in Hin as [->|Hin]); [..|by apply not_elem_of_nil in Hin];
      (split; [done|by do 2 eexists]). }
  destruct K as (Hlf & p & s' & K). exists p, s'. rw /processLines. cbn [process_lines].
  rewrite -{2}(app_str_nil_r (line +:+ CRLF)) app_str_assoc read_line_app //. by rw /bindM K.
Qed.

(** An operation whose JSON has a space in it, as a pattern may, is refused: the
    command is split at every space. *)
Theorem mutate_refuses_spaces c op (s : server) :
  no_char " " (print (op_to_json op)) = false →
  mutate fuel c ("MUTATE " +:+ print (op_to_json op)) s = (Ok (Some (WError (ErrMsg "Invalid format"))), s).
Proof.
  generalize (print (op_to_json op)) as data. intros data Hsp.
  rw /mutate (split_char_app " " "MUTATE") //.
  assert (E : ∃ a b l, split_char " " data = a :: b :: l).
  { induction data as [|x data IH]; [done|]. rewrite no_char_cons in Hsp. cbn [split_char].
    pose proof (split_char_nonempty " " data) as Hne. destruct (decide (x = " "%char)) as [->|Hx].
    - destruct (split_char " " data) as [|b l]; [done|]. by exists "", b, l.
    - rewrite bool_decide_eq_false_2 // in Hsp. destruct (IH Hsp) as (a & b & l & ->).
      rw bool_decide_eq_false_2 //. by do 3 eexists. }
  by destruct E as (a & b & l & ->).
Qed.

(** FLUSH empties the database and leaves the memory as it was: reservations, the
    queues known and the queues paused; a queue paused before it gives no jobs after,
    though nothing in the database says that it is paused. *)
Theorem flush_leaves_memory c (s : server) :
  alive s.(smgr) →
  ∃ s', flush c "FLUSH" s = (Ok (Some WOk), s') ∧ db s'.(smgr) = ∅ ∧
    s'.(smgr).(workingMap) = s.(smgr).(workingMap) ∧ s'.(smgr).(paused_) = s.(smgr).(paused_) ∧
    knows s'.(smgr) = knows s.(smgr) ∧
    ∀ q wid now, q ∈ s.(smgr).(paused_) →
      Fetch (S fuel) env now wid [q] s'.(smgr) = (Ok None, s'.(smgr)) ∧ as_set (db s'.(smgr)) "paused" = Ok ∅.
Proof.
  intros Ha. destruct (wp_exec Flush s.(smgr) (λ r m', r = Ok tt ∧ upd s.(smgr) ∅ (knows s.(smgr)) m')) as (r & m' & E & -> & Hu).
  { by apply wp_redis. }
  destruct (upd_memory _ _ _ _ Hu) as [Hw Hp]. pose proof (upd_db _ _ _ _ Hu) as Hd.
  exists (set_smgr m' s). rw /flush answer_reply /reply_of /some_reply /bindM /tryM /on_mgr /zoomM E. cbn [smgr set_smgr].
  split_and!; [done..|exact (upd_knows _ _ _ _ Hu)|]. intros q wid now Hq. split; [|by rw Hd].
  rw /Fetch /=. rw {1}/bindM /getM. rw (_ : filter_queues (paused_ m') [q] = []); [|done].
  rw Hp /filter_queues. destruct (decide (paused_ (smgr s) = [])) as [E0|_]; [rw E0 in Hq; by apply not_elem_of_nil in Hq|].
  cbn. by rw (_ : contains q (paused_ (smgr s)) = true); [apply List.existsb_exists; exists q; split; [by apply list_elem_of_In|by apply bool_decide_eq_true]|].
Qed.
End sessions.

(** ** Concrete sessions *)

Module SessionWitness.
Import MemRedis PushWitness.

Lemma pair_of_fst {A B} (p : A * B) a : p.1 = a → p = (a, p.2).
Proof. destruct p. by intros <-. Qed.
Definition no_draw : nat → string → Z := λ _ _, 0.
Definition env_ : @Env mem_redis := basic_env.
(** A server with one connection, of worker w1. *)
Definition server0 : @server mem_redis :=
  mkServer m0 net1 false 1 0 now0 startTasks (λ n, now0 + Z.of_nat n * SEC) 0.
Definition session1 : list request :=
  [RPush job0; RFetch ["default"]; RBeat "w1" 5 "quiet"; RFetch ["default"]; RAck "jid-0001"; RAck "nothing"].
Definition job0_stored : Job := set_EnqueuedAt (Thens now0) (push_defaults now0 job0).
Definition replies1 : list wire_reply :=
  [WOk; WResult (Some (marshal_job job0_stored)); WResult (Some (state_json Quiet)); WResult None; WOk; WOk].

Lemma job0_wf : wf_job job0.
Proof.
  split_and!.
  1-3,5-7: apply utf8_of_ascii; vm_compute; reflexivity.
  1: by intros l [= <-].
  1-3: reflexivity.
  1: by intros f.
  split; [constructor|exact I].
Qed.
Lemma session1_wf : Forall wf_request session1.
Proof.
  assert (W : ∀ w, no_char " " w && no_char (chr 10) w = true → word w) by by intros w [? ?]%andb_prop.
  assert (Hd : ["default"] ≠ [] ∧ Forall word ["default"]) by (split; [done|constructor; [by apply W|done]]).
  assert (Hj : ∀ j, all_chars (λ c, byte_val c <? 128) j && bool_decide (escape j = j) = true → wf_request (RAck j)).
  { intros j [Hu He%bool_decide_eq_true]%andb_prop. split; [by apply utf8_of_ascii|done]. }
  assert (Hb : wf_request (RBeat "w1" 5 "quiet")) by (split_and!; [by apply utf8_of_ascii|by apply utf8_of_ascii|done]).
  do 6 (apply Forall_cons; split; [first [exact job0_wf|exact Hd|exact Hb|by apply Hj]|]). done.
Qed.
Lemma session1_sendable : Forall sendable replies1.
Proof. apply (bool_decide_unpack _). vm_compute. exact I. Qed.
Lemma session_refines_witness :
  (client_calls env_ 1 no_draw 12 0 session1 (idle server0)).1 =
    [Ok Done; Ok (AJob (Some job0_stored)); Ok (AText (state_json Quiet)); Ok (AJob None); Ok Done; Ok Done].
Proof.
  assert (E : serve_all env_ 1 no_draw 12 0 session1 server0 =
    (Ok replies1, (serve_all env_ 1 no_draw 12 0 session1 server0).2)).
  { apply pair_of_fst. vm_compute. reflexivity. }
  rewrite (session_refines env_ 1 no_draw 12 0 session1 server0 _ replies1 session1_wf eq_refl E session1_sendable).
  vm_compute. reflexivity.
Defined.
(** A job whose date is two lines, the second of them a reply: it answers whatever the
    client asks next. *)
Definition bad_at : Job := set_At (CRLF +:+ "+OK" +:+ CRLF) job0.
Lemma bad_at_wf : wf_job bad_at.
Proof.
  destruct job0_wf as (H1 & H2 & H3 & H4 & H5 & H6 & _ & H8). do 6 (split; [done|]). split; [|exact H8].
  apply utf8_of_ascii. reflexivity.
Qed.
Lemma broken_reply_left_behind_witness :
  unread (client_call env_ 1 no_draw 12 0 (RPush bad_at) (idle server0)).2 = "+OK" +:+ CRLF +:+ "'" +:+ CRLF.
Proof.
  rewrite (broken_reply_left_behind env_ 1 no_draw 12 0 (RPush bad_at) server0
    (served env_ 1 no_draw 12 0 (RPush bad_at) server0).2 "Invalid timestamp for 'at': '" ("+OK" +:+ CRLF +:+ "'") bad_at_wf eq_refl).
  - apply pair_of_fst. vm_compute. reflexivity.
  - reflexivity.
  - reflexivity.
Defined.
Lemma bare_command_panics_witness :
  ∃ p s', processLines env_ 1 no_draw 12 0 ("PUSH" +:+ CRLF) server0 = (Panic p, s').
Proof. apply (bare_command_panics env_ 1 no_draw 12 0 server0 "PUSH"); [reflexivity|by left]. Defined.
Lemma mutate_refuses_spaces_witness :
  mutate 5 0%nat ("MUTATE " +:+ print (op_to_json (Kill "retries" (Matching "*two words*")))) server0 =
    (Ok (Some (WError (ErrMsg "Invalid format"))), server0).
Proof. apply (mutate_refuses_spaces 5 0 (Kill "retries" (Matching "*two words*")) server0). vm_compute. reflexivity. Defined.
Lemma flush_leaves_memory_witness :
  ∃ m', Fetch 2 env_ now0 "w1" ["default"] m' = (Ok None, m') ∧ as_set (db m') "paused" = Ok ∅.
Proof.
  destruct (flush_leaves_memory env_ 1 0 (set_smgr (set_paused ["default"] m0) server0) m0_alive)
    as (s' & _ & _ & _ & Hp & _ & K).
  exists s'.(smgr). apply (K "default" "w1" now0). by left.
Defined.
End SessionWitness.
