(* ===== verification/Handshake.v ===== *)
(** * The handshake (src/server/server.go [startConnection], src/client/client.go [dial])

    The server greets with its protocol version and, when it has a password, a number
    of iterations and a salt; the client answers with its data and the password hashed;
    the server checks the hash.  [Sum256] stands for crypto/sha256. *)
From S2P Require Import Prelude GoStrings Float64 GoTime Json JsonLine Job Manager JsNum Wire Workers.

#[local] Open Scope list_scope.

Section handshake.
Context (Sum256 : string → string).

(** ** Hashing, once in each program *)

Definition hex_byte (c : ascii) : string :=
  String (hex_digit (byte_val c `div` 16)) (String (hex_digit (byte_val c `mod` 16)) "").
(** [%x] *)
Fixpoint hex (s : string) : string :=
  match s with String c s' => hex_byte c +:+ hex s' | EmptyString => "" end.
Definition server_hash (pwd salt : string) (iterations : Z) : string :=
  hex (Nat.iter (Z.to_nat (iterations - 1)) Sum256 (Sum256 (pwd +:+ salt))).
Definition client_hash (pwd salt : string) (iterations : Z) : string :=
  hex (Nat.iter (Z.to_nat (iterations - 1)) Sum256 (Sum256 (pwd +:+ salt))).

(** ** The greeting *)

Definition greeting (password : string) (iter : Z) (salt : string) : string :=
  "+HI {" +:+ DQ +:+ "v" +:+ DQ +:+ ":2" +:+
  (if bool_decide (password = "") then "}"
   else "," +:+ DQ +:+ "i" +:+ DQ +:+ ":" +:+ dec iter +:+
        "," +:+ DQ +:+ "s" +:+ DQ +:+ ":" +:+ DQ +:+ salt +:+ DQ +:+ "}") +:+ CRLF.

(** ** The client's answer *)

(** The client's own record: [ClientData] of client.go. *)
Record HelloData := mkHello {
  hHostname : string; hWid : string; hPid : Z; hLabels : option (list string); hVersion : Z
}.
Definition hello_to_json (cl : HelloData) (pwdhash : string) : json :=
  JObj [("hostname", JStr cl.(hHostname)); ("wid", JStr cl.(hWid)); ("pid", JNum (dec cl.(hPid)));
        ("labels", match cl.(hLabels) with Some l => JArr (List.map JStr l) | None => JNull end);
        ("pwdhash", JStr pwdhash); ("v", JNum (dec cl.(hVersion)))].
Definition lookup_gov (k : string) (m : list (string * gov)) : option gov :=
  snd <$> List.find (λ kv, bool_decide (kv.1 = k)) m.
(** What the greeting's JSON makes of the password: empty when there is no salt. *)
Definition password_hash (password : string) (hi : list (string * gov)) : outcome string :=
  match lookup_gov "s" hi with
  | Some (GStr salt) =>
      match lookup_gov "i" hi with
      | None => Ok (client_hash password salt 1)
      | Some (GNum x) => Ok (client_hash password salt (f_trunc x))
      | Some _ => Panic "interface conversion"
      end
  | _ => Ok ""
  end.
(** The line [dial] sends for the line it reads. *)
Definition dial (cl : HelloData) (password line : string) : outcome string :=
  if has_prefix "HI " line then
    let str := trim_space line in
    if slen str <? 3 then Panic "slice bounds out of range"
    else match v ← parse (drop_str 3 str); to_gov v with
         | Some (GObj hi) =>
             omap_outcome (λ h, "HELLO " +:+ print (hello_to_json cl h) +:+ CRLF) (password_hash password hi)
         | Some GNil => Ok ("HELLO " +:+ print (hello_to_json cl "") +:+ CRLF)
         | _ => Err json_error
         end
  else Err (ErrMsg ("Expecting HI but got: " +:+ line)).

(** ** The server's check *)

Definition set_Hostname v (c : ClientData) : ClientData :=
  mkClient v c.(cWid) c.(Pid) c.(RssKb) c.(Labels) c.(PasswordHash) c.(Version) c.(StartedAt) c.(lastHeartbeat) c.(cstate) c.(connections).
Definition set_cWid v (c : ClientData) : ClientData :=
  mkClient c.(Hostname) v c.(Pid) c.(RssKb) c.(Labels) c.(PasswordHash) c.(Version) c.(StartedAt) c.(lastHeartbeat) c.(cstate) c.(connections).
Definition set_Pid v (c : ClientData) : ClientData :=
  mkClient c.(Hostname) c.(cWid) v c.(RssKb) c.(Labels) c.(PasswordHash) c.(Version) c.(StartedAt) c.(lastHeartbeat) c.(cstate) c.(connections).
Definition set_RssKb v (c : ClientData) : ClientData :=
  mkClient c.(Hostname) c.(cWid) c.(Pid) v c.(Labels) c.(PasswordHash) c.(Version) c.(StartedAt) c.(lastHeartbeat) c.(cstate) c.(connections).
Definition set_Labels v (c : ClientData) : ClientData :=
  mkClient c.(Hostname) c.(cWid) c.(Pid) c.(RssKb) v c.(PasswordHash) c.(Version) c.(StartedAt) c.(lastHeartbeat) c.(cstate) c.(connections).
Definition set_PasswordHash v (c : ClientData) : ClientData :=
  mkClient c.(Hostname) c.(cWid) c.(Pid) c.(RssKb) c.(Labels) v c.(Version) c.(StartedAt) c.(lastHeartbeat) c.(cstate) c.(connections).
Definition set_Version v (c : ClientData) : ClientData :=
  mkClient c.(Hostname) c.(cWid) c.(Pid) c.(RssKb) c.(Labels) c.(PasswordHash) v c.(StartedAt) c.(lastHeartbeat) c.(cstate) c.(connections).
Definition set_StartedAt v (c : ClientData) : ClientData :=
  mkClient c.(Hostname) c.(cWid) c.(Pid) c.(RssKb) c.(Labels) c.(PasswordHash) c.(Version) v c.(lastHeartbeat) c.(cstate) c.(connections).
Definition zero_client : ClientData := mkClient "" "" 0 0 [] "" 0 zero_time zero_time Running ∅.
(** [v] is a [uint8]; [StartedAt] has no tag, and is read as well. *)
Definition client_field (k : string) (v : json) (c : ClientData) : option ClientData :=
  if bool_decide (k = "hostname") then dec_str set_Hostname v c
  else if bool_decide (k = "wid") then dec_str set_cWid v c
  else if bool_decide (k = "pid") then dec_int set_Pid v c
  else if bool_decide (k = "rss_kb") then dec_int set_RssKb v c
  else if bool_decide (k = "labels") then
    match v with
    | JArr l => ls ← dec_strings l; Some (set_Labels ls c)
    | JNull => Some (set_Labels [] c)
    | _ => None
    end
  else if bool_decide (k = "pwdhash") then dec_str set_PasswordHash v c
  else if bool_decide (k = "v") then
    match v with
    | JNum lit => n ← atoi lit; if (0 <=? n) && (n <? 256) then Some (set_Version n c) else None
    | JNull => Some c
    | _ => None
    end
  else if bool_decide (k = "startedat") then
    match v with
    | JStr s => t ← parse_rfc3339 s; Some (set_StartedAt t c)
    | JNull => Some c
    | _ => None
    end
  else Some c.
Definition clientDataFromHello (data : string) : outcome ClientData := unmarshal client_field data zero_client.

(** Refused with what is written before closing, or taken on. *)
Inductive verdict := Refused (reply : string) | Accepted (cl : ClientData).
Definition check_hello (password : string) (iter : Z) (salt line : string) : verdict :=
  if has_prefix "HELLO {" line then
    match clientDataFromHello (drop_str 5 line) with
    | Ok cl =>
        if bool_decide (password = "") then Accepted cl
        else
          let iter := if cl.(Version) <? 2 then 1 else iter in
          if bool_decide (cl.(PasswordHash) = server_hash password salt iter) then Accepted cl
          else Refused ("-ERR Invalid password" +:+ CRLF)
    | _ => Refused ""
    end
  else Refused "".


(** ** Texts of printable ASCII *)

Definition ascii_printable (c : ascii) : bool := (32 <=? byte_val c) && (byte_val c <? 128).
(** What [rand.Int63] prints as in base 16: no quote and nothing to escape. *)
Definition plain_char (c : ascii) : bool := is_digit c || ((97 <=? byte_val c) && (byte_val c <? 123)).
Definition plain (s : string) : Prop := all_chars plain_char s = true.

Lemma plain_char_spec c :
  plain_char c = true →
  48 <= byte_val c < 123 ∧ byte_val c ≠ 60 ∧ byte_val c ≠ 62 ∧ byte_val c ≠ 92.
Proof.
  rw /plain_char /is_digit. intros [[?%Z.leb_le ?%Z.leb_le]%andb_prop|[?%Z.leb_le ?%Z.ltb_lt]%andb_prop]%orb_true_iff; lia.
Qed.
Lemma escape_plain_char c : plain_char c = true → escape_ascii c = String c "".
Proof.
  intros H%plain_char_spec. rw /escape_ascii.
  repeat match goal with |- context [?a =? ?b] => destruct (Z.eqb_spec a b); [lia|] end.
  by destruct (Z.ltb_spec (byte_val c) 32); [lia|].
Qed.
Lemma escape_plain f s : plain s → (String.length s ≤ f)%nat → escape_fuel f s = s.
Proof.
  rw /plain. revert s. induction f as [|f IH]; intros [|c s]; cbn; try done; [lia|].
  intros [Hc Hs]%andb_prop Hf. destruct (plain_char_spec c Hc) as [Hr _].
  destruct (Z.ltb_spec (byte_val c) 128); [|lia]. rw escape_plain_char // IH //. lia.
Qed.
Lemma quote_plain s : plain s → quote s = DQ +:+ s +:+ DQ.
Proof. intros Hs. rw /quote /escape escape_plain //. Qed.
Lemma plain_utf8 s : plain s → utf8 s.
Proof.
  intros Hs. apply utf8_of_ascii. revert Hs. apply all_chars_impl. intros c H%plain_char_spec. apply Z.ltb_lt. lia.
Qed.

(** ** Trimming a printed text takes nothing away *)

Lemma space_len_ascii c t : byte_val c < 128 → space_len (String c t) = 0%nat ∨ space_len (String c t) = 1%nat.
Proof.
  intros H. destruct c as [[] [] [] [] [] [] [] []];
    first [exfalso; vm_compute in H; discriminate | by left | by right].
Qed.
Lemma trim_left_ends f s c :
  all_chars (λ a, byte_val a <? 128) s = true → (∀ t, space_len (String c t) = 0%nat) →
  ∃ a t, trim_left_fuel f (s +:+ String c "") = String a t.
Proof.
  intros Hs Hc. revert s Hs. induction f as [|f IH]; intros [|b s] Hs; [by eexists _, _|by eexists _, _|..].
  - cbn [String.append trim_left_fuel]. rw Hc. by eexists _, _.
  - cbn [all_chars] in Hs. apply andb_prop in Hs as [Hb%Z.ltb_lt Hs].
    cbn [String.append trim_left_fuel]. destruct (space_len_ascii b (s +:+ String c "") Hb) as [E|E]; rw E.
    + by eexists _, _.
    + apply IH, Hs.
Qed.
Lemma trim_right_ends s c :
  all_chars (λ a, byte_val a <? 128) s = true → (∀ t, space_len (String c t) = 0%nat) →
  trim_right (s +:+ String c "") = s +:+ String c "".
Proof.
  intros Hs Hc. induction s as [|b s IH].
  - cbn [String.append trim_right]. destruct (trim_left_ends 1 "" c eq_refl Hc) as (a & t & E).
    cbn [String.append] in E. rw /trim_left E. rw bool_decide_eq_false_2 //.
  - cbn [String.append trim_right]. destruct (trim_left_ends (String.length (String b s +:+ String c "")) _ c Hs Hc) as (a & t & E).
    cbn [String.append] in E. rw /trim_left E bool_decide_eq_false_2 //.
    cbn [all_chars] in Hs. apply andb_prop in Hs as [_ Hs]. by rw IH.
Qed.
Lemma trim_space_HI s :
  all_chars (λ a, byte_val a <? 128) s = true →
  trim_space ("HI {" +:+ s +:+ "}") = "HI {" +:+ s +:+ "}".
Proof.
  intros Hs. rw /trim_space.
  change (trim_left ("HI {" +:+ s +:+ "}")) with ("HI {" +:+ s +:+ "}").
  change ("HI {" +:+ s +:+ "}") with (("HI {" +:+ s) +:+ "}"). by apply trim_right_ends.
Qed.

(** ** Reading back a number and a text between space and line end *)

Lemma parse_float_dec n : 0 ≤ n ≤ 2 ^ 53 → parse_float (dec n) = Some (n * UNIT).
Proof.
  intros Hn. rw /dec. destruct (Z.ltb_spec n 0); [lia|].
  assert (E : dec_value n 0 = n * UNIT) by (rw dec_value_int; lia).
  rw -(app_str_nil_r (dec_nat n)). change (dec_nat n +:+ "") with (show_pos n 0).
  rw -E. apply parse_show_pos; [lia|]. rw E. apply int_in_range. lia.
Qed.
Lemma f_trunc_int n : f_trunc (n * UNIT) = n.
Proof. pose proof UNIT_pos. rw /f_trunc Z.quot_mul // ; lia. Qed.
Lemma parse_line v : wf_json v → parse (" " +:+ print v +:+ CRLF) = Some v.
Proof.
  intros Hw. rw /parse.
  assert (E : ∀ f s, parse_value (S f) (" " +:+ s) = parse_value (S f) s) by done.
  rw E parse_value_print //; [by right; right; right|].
  rw !length_app_str. cbn. lia.
Qed.

(** ** The greeting as JSON *)

Definition hi_members (password : string) (iter : Z) (salt : string) : list (string * json) :=
  ("v", JNum "2") :: (if bool_decide (password = "") then []
                      else [("i", JNum (dec iter)); ("s", JStr salt)]).
Definition hi_json (password : string) (iter : Z) (salt : string) : json := JObj (hi_members password iter salt).

Lemma greeting_json password iter salt :
  plain salt → greeting password iter salt = "+HI " +:+ print (hi_json password iter salt) +:+ CRLF.
Proof.
  intros Hs. rw /greeting /hi_json /hi_members. case_bool_decide; [done|].
  cbn [print List.map sep_concat fst snd]. rw (quote_plain salt) //.
  change (quote "v") with (DQ +:+ "v" +:+ DQ). change (quote "i") with (DQ +:+ "i" +:+ DQ).
  change (quote "s") with (DQ +:+ "s" +:+ DQ). rw !app_str_assoc. done.
Qed.
Lemma wf_hi password iter salt : plain salt → wf_json (hi_json password iter salt).
Proof.
  intros Hs. apply wf_obj. rw /hi_members.
  assert (H : ∀ c, byte_val c < 128 → utf8 (String c "")) by (intros; apply utf8_ascii; [done|constructor]).
  assert (Hv : utf8 "v" ∧ wf_json (JNum "2")) by (split; [by apply H|done]).
  case_bool_decide; [by repeat constructor|].
  apply Forall_cons. split; [done|]. apply Forall_cons. split; [split; [by apply H|apply num_ok_int]|].
  apply Forall_cons. split; [split; [by apply H|by apply plain_utf8]|constructor].
Qed.
Lemma dec_ascii n : 0 ≤ n → all_chars (λ a, byte_val a <? 128) (dec n) = true.
Proof.
  intros Hn. rw /dec. destruct (Z.ltb_spec n 0); [lia|].
  pose proof (dec_nat_digits n Hn) as Hd. rw all_chars_digits in Hd. revert Hd. apply all_chars_impl.
  rw /is_digit. intros c [_ Hc%Z.leb_le]%andb_prop. apply Z.ltb_lt. lia.
Qed.
Lemma plain_ascii s : plain s → all_chars (λ a, byte_val a <? 128) s = true.
Proof. apply all_chars_impl. intros c H%plain_char_spec. apply Z.ltb_lt. lia. Qed.
Lemma hi_trimmed password iter salt :
  plain salt → 0 ≤ iter →
  trim_space ("HI " +:+ print (hi_json password iter salt)) = "HI " +:+ print (hi_json password iter salt).
Proof.
  intros Hs Hi. rw /hi_json. cbn [print].
  change ("HI " +:+ "{" +:+ ?s +:+ "}") with ("HI {" +:+ s +:+ "}"). apply trim_space_HI.
  rw /hi_members. case_bool_decide; [done|]. cbn [List.map sep_concat fst snd print].
  rw (quote_plain salt) // !all_chars_app. by rw dec_ascii // (plain_ascii salt).
Qed.
Lemma hi_read password iter salt rest :
  plain salt →
  readResponse (greeting password iter salt +:+ rest) = (Ok (Some ("HI " +:+ print (hi_json password iter salt))), rest).
Proof.
  intros Hs. rw greeting_json //.
  assert (Hl : no_char (chr 10) ("HI " +:+ print (hi_json password iter salt)) = true).
  { apply line_no_lf, line_app. split; [done|]. by apply print_line, wf_hi. }
  revert Hl. generalize (print (hi_json password iter salt)). intros s Hl.
  rw !app_str_assoc. change ("+HI " +:+ s +:+ CRLF +:+ rest) with (String "+" (("HI " +:+ s) +:+ CRLF +:+ rest)).
  by rw readResponse_line.
Qed.

(** The hash the client sends in answer to a greeting. *)
Definition answer_hash (mine theirs : string) (iter : Z) (salt : string) : string :=
  if bool_decide (theirs = "") then "" else client_hash mine salt iter.
Lemma hi_gov lit x y salt :
  parse_float lit = Some x → parse_float "2" = Some y →
  to_gov (JObj [("v", JNum "2"); ("i", JNum lit); ("s", JStr salt)])
    = Some (GObj [("i", GNum x); ("s", GStr salt); ("v", GNum y)]).
Proof. intros Hx Hy. cbn [to_gov]. by rw Hx Hy. Qed.
Lemma password_hash_hi pwd x y salt :
  password_hash pwd [("i", GNum x); ("s", GStr salt); ("v", GNum y)] = Ok (client_hash pwd salt (f_trunc x)).
Proof. done. Qed.
Lemma dial_hi cl mine theirs iter salt :
  plain salt → 0 ≤ iter ≤ 2 ^ 53 →
  dial cl mine ("HI " +:+ print (hi_json theirs iter salt))
    = Ok ("HELLO " +:+ print (hello_to_json cl (answer_hash mine theirs iter salt)) +:+ CRLF).
Proof.
  intros Hs Hi. rw /dial has_prefix_app hi_trimmed //; [lia|].
  assert (Hl : (slen ("HI " +:+ print (hi_json theirs iter salt)) <? 3) = false).
  { apply Z.ltb_ge. rw /slen length_app_str. cbn. lia. }
  rw Hl. rw (drop_str_app "HI ") parse_print; [by apply wf_hi|]. rw /hi_json /hi_members /answer_hash.
  cbn [mbind option_bind]. case_bool_decide.
  - done.
  - rw (hi_gov (dec iter) (iter * UNIT) (2 * UNIT)); [by apply parse_float_dec|by apply (parse_float_dec 2)|].
    rw password_hash_hi f_trunc_int //.
Qed.

(** ** The server's reading of the answer *)

(** Strings are UTF-8, the numbers in range, and the client speaks version 2. *)
Definition wf_hello (cl : HelloData) : Prop :=
  utf8 cl.(hHostname) ∧ utf8 cl.(hWid) ∧ Forall utf8 (default [] cl.(hLabels)) ∧
  in_int64 cl.(hPid) = true ∧ 2 ≤ cl.(hVersion) < 256.
(** What the server is to make of the client's data. *)
Definition client_data (cl : HelloData) (h : string) : ClientData :=
  mkClient cl.(hHostname) cl.(hWid) cl.(hPid) 0 (default [] cl.(hLabels)) h cl.(hVersion)
    zero_time zero_time Running ∅.

Lemma hash_utf8 s : utf8 (hex s).
Proof.
  assert (Hd : ∀ d, 0 ≤ d < 16 → byte_val (hex_digit d) < 128).
  { intros d H. rw /hex_digit. destruct (Z.ltb_spec d 10); rw byte_val_chr; lia. }
  induction s as [|c s IH]; [constructor|]. cbn [hex hex_byte String.append].
  pose proof (byte_val_range c). apply utf8_ascii; [apply Hd|apply utf8_ascii; [apply Hd|done]].
  - split; [apply Z.div_pos|apply Z.div_lt_upper_bound]; lia.
  - by apply Z.mod_pos_bound.
Qed.
Lemma wf_hello_json cl h : wf_hello cl → utf8 h → wf_json (hello_to_json cl h).
Proof.
  intros (Hh & Hw & Hl & _) Hu. apply wf_obj.
  assert (Hk : ∀ s, all_chars (λ c, byte_val c <? 128) s = true → utf8 s) by apply utf8_of_ascii.
  repeat (apply Forall_cons; split; [split; [by apply Hk|cbn; try apply num_ok_int; try done]|]); [|constructor].
  destruct (hLabels cl) as [l|]; [|done]. apply wf_arr, Forall_map. exact Hl.
Qed.
Lemma hello_decodes cl h :
  wf_hello cl → decode_struct client_field (hello_to_json cl h) zero_client = Some (client_data cl h).
Proof.
  intros (Hh & Hw & Hl & Hp & Hv). cbn [decode_struct hello_to_json].
  rw decode_fields_cons. change (client_field (lower "hostname") (JStr ?s) ?c) with (Some (set_Hostname s c)).
  cbn [mbind option_bind]. rw decode_fields_cons.
  change (client_field (lower "wid") (JStr ?s) ?c) with (Some (set_cWid s c)). cbn [mbind option_bind].
  rw decode_fields_cons. change (client_field (lower "pid") ?v ?c) with (dec_int set_Pid v c).
  rw dec_int_ok //. cbn [mbind option_bind]. rw decode_fields_cons.
  assert (El : ∀ c, client_field (lower "labels")
    match cl.(hLabels) with Some l => JArr (List.map JStr l) | None => JNull end c
    = Some (set_Labels (default [] cl.(hLabels)) c)).
  { intros c. destruct (hLabels cl) as [l|]; [|done].
    change (client_field (lower "labels") (JArr ?l) ?c) with (ls ← dec_strings l; Some (set_Labels ls c)).
    by rw dec_strings_map. }
  rw El. cbn [mbind option_bind]. rw decode_fields_cons.
  change (client_field (lower "pwdhash") (JStr ?s) ?c) with (Some (set_PasswordHash s c)). cbn [mbind option_bind].
  rw decode_fields_cons.
  change (client_field (lower "v") (JNum ?lit) ?c)
    with (n ← atoi lit; if (0 <=? n) && (n <? 256) then Some (set_Version n c) else None).
  rw atoi_dec; [rw /in_int64; apply andb_true_iff; split; [apply Z.leb_le|apply Z.ltb_lt]; lia|].
  cbn [mbind option_bind]. rw (proj2 (Z.leb_le 0 _)); [lia|]. rw (proj2 (Z.ltb_lt _ 256)); [lia|]. done.
Qed.

Lemma check_hello_answer theirs iter salt cl h :
  wf_hello cl → utf8 h →
  check_hello theirs iter salt ("HELLO " +:+ print (hello_to_json cl h) +:+ CRLF) =
    (if bool_decide (theirs = "") then Accepted (client_data cl h)
     else if bool_decide (h = server_hash theirs salt iter) then Accepted (client_data cl h)
     else Refused ("-ERR Invalid password" +:+ CRLF)).
Proof.
  intros Hw Hu. rw /check_hello.
  assert (Hp : has_prefix "HELLO {" ("HELLO " +:+ print (hello_to_json cl h) +:+ CRLF) = true) by done.
  rw Hp. change (drop_str 5 ("HELLO " +:+ ?s)) with (" " +:+ s).
  rw /clientDataFromHello /unmarshal parse_line; [by apply wf_hello_json|]. cbn [mbind option_bind].
  rw hello_decodes //. case_bool_decide; [done|]. cbn [Version client_data PasswordHash].
  destruct (Z.ltb_spec cl.(hVersion) 2); [|done]. destruct Hw as (_ & _ & _ & _ & ?). lia.
Qed.
Lemma hello_one_line cl h :
  wf_hello cl → utf8 h →
  read_line ("HELLO " +:+ print (hello_to_json cl h) +:+ CRLF)
    = Some ("HELLO " +:+ print (hello_to_json cl h) +:+ CRLF, "").
Proof.
  intros Hw Hu.
  assert (Hl : no_char (chr 10) ("HELLO " +:+ print (hello_to_json cl h)) = true).
  { apply line_no_lf, line_app. split; [done|]. by apply print_line, wf_hello_json. }
  revert Hl. generalize (print (hello_to_json cl h)). intros s Hl.
  pose proof (read_line_app ("HELLO " +:+ s) "" Hl) as R. by rw app_str_nil_r app_str_assoc in R.
Qed.

(** C13. The handshake: the client reads the greeting whole and answers with one line,
    and the server takes the client on, with the data it sent, exactly when the server
    has no password or the two passwords hash alike under the salt and the iterations
    greeted with; the same password on both sides is always taken. *)
Theorem handshake_agrees cl mine theirs iter salt :
  wf_hello cl → plain salt → 1 ≤ iter ≤ 2 ^ 53 →
  ∃ hi hello h,
    readResponse (greeting theirs iter salt) = (Ok (Some hi), "") ∧
    dial cl mine hi = Ok hello ∧ read_line hello = Some (hello, "") ∧
    h = answer_hash mine theirs iter salt ∧
    check_hello theirs iter salt hello =
      (if bool_decide (theirs = "" ∨ client_hash mine salt iter = server_hash theirs salt iter)
       then Accepted (client_data cl h) else Refused ("-ERR Invalid password" +:+ CRLF)) ∧
    (mine = theirs → check_hello theirs iter salt hello = Accepted (client_data cl h)).
Proof.
  intros Hw Hs Hi. set h := answer_hash mine theirs iter salt.
  assert (Hu : utf8 h) by (rw /h /answer_hash; case_bool_decide; [constructor|apply hash_utf8]).
  eexists _, _, h. split; [rw -(app_str_nil_r (greeting theirs iter salt)); by apply hi_read|].
  split; [apply dial_hi; [done|lia]|]. split; [by apply hello_one_line|]. split; [done|].
  rw check_hello_answer // /h /answer_hash.
  repeat case_bool_decide; naive_solver.
Qed.

End handshake.

(** ** A handshake played through *)

Module HandshakeWitness.

Definition half_sum (s : string) : string := take_str 4 (s +:+ s).
Definition hello0 : HelloData := mkHello "web-1" "4qpc2443vpvai" 2676 (Some ["golang"]) 2.

Lemma handshake_agrees_witness :
  wf_hello hello0 ∧
  ∃ hi hello h,
    readResponse (greeting "s3cret" 4123 "1d2f") = (Ok (Some hi), "") ∧
    dial half_sum hello0 "s3cret" hi = Ok hello ∧
    check_hello half_sum "s3cret" 4123 "1d2f" hello = Accepted (client_data hello0 h).
Proof.
  assert (Hw : wf_hello hello0).
  { split_and!; [by apply utf8_of_ascii|by apply utf8_of_ascii| |done|done|done].
    apply Forall_cons. split; [by apply utf8_of_ascii|constructor]. }
  split; [exact Hw|].
  destruct (handshake_agrees half_sum hello0 "s3cret" "s3cret" 4123 "1d2f" Hw eq_refl) as
    (hi & hello & h & H1 & H2 & _ & _ & _ & H6); [split; discriminate|].
  exists hi, hello, h. split; [exact H1|split; [exact H2|by apply H6]].
Defined.

End HandshakeWitness.
