(* ===== verification/Stream.v ===== *)
(** * A connection's bytes in pieces (src/server/server.go [processLines])

    TCP delivers what a client writes in pieces of any size.  [in_pieces] is the loop fed
    piece by piece, the begun line kept between them; it is shown to do what the loop does
    on all the bytes at once. *)
From S2P Require Import Prelude GoStrings Redis Manager Wire Server.

#[local] Open Scope list_scope.

(** ** Reading a line *)

Lemma read_line_more a b line rest :
  read_line a = Some (line, rest) → read_line (a +:+ b) = Some (line, rest +:+ b).
Proof.
  revert line rest. induction a as [|x a IH]; intros line rest; cbn; [done|].
  case_bool_decide; [by intros [= <- <-]|].
  destruct (read_line a) as [[l r]|]; [|done]. cbn. intros [= <- <-]. by rw (IH l r).
Qed.
Lemma read_line_shorter a line rest :
  read_line a = Some (line, rest) → (String.length rest < String.length a)%nat.
Proof.
  revert line rest. induction a as [|x a IH]; intros line rest; cbn; [done|].
  case_bool_decide; [intros [= <- <-]; lia|].
  destruct (read_line a) as [[l r]|]; [|done]. cbn. intros [= <- <-]. specialize (IH l r eq_refl). lia.
Qed.

Section stream.
Context `{Redis}.
Context (env : Env) (fuel : nat) (drawn : nat → string → Z) (MemoryUsageMB : Z).
Abbreviation loop := (process_lines env fuel drawn MemoryUsageMB).
Abbreviation serve := (processLines env fuel drawn MemoryUsageMB).
Abbreviation turn := (process_line env fuel drawn MemoryUsageMB).

(** What follows when the loop has stopped for want of a line. *)
Definition resume (c : nat) (out : string) (left_ : option string) (more : string)
    (k : string → M server (string * option string)) : M server (string * option string) :=
  match left_ with
  | None => retM (out, None)
  | Some begun => let* (out', left') := k (begun +:+ more) in retM (out +:+ out', left')
  end.
(** The loop on a stream that arrives in pieces, after the bytes [begun]. *)
Fixpoint in_pieces (c : nat) (begun : string) (pieces : list string) : M server (string * option string) :=
  match pieces with
  | [] => retM ("", Some begun)
  | p :: ps => let* (out, left_) := serve c (begun +:+ p) in resume c out left_ "" (λ b, in_pieces c b ps)
  end.

(** The loop's fuel is enough: each turn uses up a line. *)
Lemma loop_fuel c n m a s :
  (String.length a < n)%nat → (String.length a < m)%nat → loop n c a s = loop m c a s.
Proof.
  revert m a s. induction n as [|n IH]; intros [|m] a s Hn Hm; try lia. cbn [process_lines].
  destruct (read_line a) as [[line rest]|] eqn:E; [|done]. pose proof (read_line_shorter _ _ _ E).
  rw /bindM. destruct (turn c line s) as [[[r []]| |] s1]; try done.
  rw (IH m) //; lia.
Qed.
Lemma serve_loop c n a s : (String.length a < n)%nat → serve c a s = loop n c a s.
Proof. intros. apply loop_fuel; lia. Qed.

Lemma serve_begun c a s : read_line a = None → serve c a s = (Ok ("", Some a), s).
Proof. intros E. rw /processLines. cbn [process_lines]. by rw E. Qed.
Lemma serve_line c a line rest s :
  read_line a = Some (line, rest) →
  serve c a s = (let* (r, more) := turn c line in
                 if more : bool then let* (out, left_) := serve c rest in retM (opt_wire r +:+ out, left_)
                 else hang_up c ;;; retM (opt_wire r, None)) s.
Proof.
  intros E. pose proof (read_line_shorter _ _ _ E). rw {1}/processLines. cbn [process_lines]. rw E /bindM.
  destruct (turn c line s) as [[[r []]| |] s1]; try done. by rw (serve_loop c (String.length a)).
Qed.

(** Two pieces, and what the first leaves begun. *)
Lemma serve_two c a b s :
  serve c (a +:+ b) s = (let* (out, left_) := serve c a in resume c out left_ b (serve c)) s ∧
  ∀ out begun s', serve c a s = (Ok (out, Some begun), s') → read_line begun = None.
Proof.
  remember (String.length a) as n eqn:Hn. revert a s Hn.
  induction n as [n IH] using lt_wf_ind. intros a s ->.
  destruct (read_line a) as [[line rest]|] eqn:E.
  - pose proof (read_line_shorter _ _ _ E) as Hlt.
    rw (serve_line c (a +:+ b) line (rest +:+ b)); [by apply read_line_more|].
    rw (serve_line c a line rest) // /bindM (serve_line c a line rest) // {1 3}/bindM.
    destruct (turn c line s) as [[[r []]| |] s1]; [|by rw /bindM; destruct (hang_up c s1) as [[]]|done..].
    destruct (IH _ Hlt rest s1 eq_refl) as [E1 E2]. rw E1 /bindM.
    destruct (serve c rest s1) as [[[out [begun|]]| |] s2]; try done.
    split; [|intros ? ? ? [= _ <- _]; by apply (E2 out begun s2)].
    rw /resume /bindM /retM. destruct (serve c (begun +:+ b) s2) as [[[]| |] s3]; try done. by rw app_str_assoc.
  - rw /bindM (serve_begun c a) //. split; [|by intros ? ? ? [= _ <- _]]. rw /resume /bindM /retM.
    by destruct (serve c (a +:+ b) s) as [[[]| |] s1].
Qed.

End stream.
