(* ===== verification/Tasks.v ===== *)
(** * The recurring tasks at work (src/server/task_runner.go, scanner.go)

    The scanners of the scheduled and the retried jobs run in every second that their
    period divides, and then do what the scheduler promises. *)
From S2P Require Import Prelude GoStrings Float64 GoTime Scores Json Job Redis Store SortedSet Middleware Manager Retry Working Fetch Scheduler Reaper Instances Wire Workers Mutate Server.

#[local] Open Scope list_scope.

(** One of any [n] seconds in a row is divided by [n]. *)
Lemma due_second n sec0 :
  0 < n → ∃ k, 0 ≤ k < n ∧ ∀ i, 0 ≤ i < n → (Z.rem (sec0 + i) n =? 0) = bool_decide (i = k).
Proof.
  intros Hn. exists ((- sec0) `mod` n). split; [by apply Z.mod_pos_bound|]. intros i Hi.
  assert (E : Z.rem (sec0 + i) n = 0 ↔ (sec0 + i) `mod` n = 0).
  { rewrite Z.rem_divide; [lia|]. rewrite Z.mod_divide; [lia|done]. }
  case_bool_decide as K.
  - apply Z.eqb_eq, E. subst i. rewrite Zplus_mod_idemp_r. by rewrite Z.add_opp_diag_r Z.mod_0_l; [lia|].
  - apply Z.eqb_neq. intros Hr%E. apply K. apply Z.mod_divide in Hr as [q Hq]; [|lia].
    apply (Z.mod_unique_pos _ _ (- q)); lia.
Qed.

Section tasks.
Context `{Redis}.
Context (env : Env) (fuel : nat) (drawn : nat → string → Z).
Abbreviation run := (run_task env fuel drawn).

(** A task that is not due is left alone, with the whole server. *)
Lemma run_not_due sec t s :
  t.(every) ≠ 0 → (Z.rem sec t.(every) =? 0) = false → run sec t s = (Ok (t, 0), s).
Proof. intros He Hd. rw /run_task. apply Z.eqb_neq in He. by rw He Hd. Qed.

(** The scanner's work is the scheduler's, as of the reading of the clock it takes. *)
Lemma run_scanner sec t sc n s m' :
  t.(runner) = Scanner sc → sc.(sc_task) = TaskScheduled ∨ sc.(sc_task) = TaskRetries →
  t.(every) ≠ 0 → (Z.rem sec t.(every) =? 0) = true →
  let when := s.(clock) (S s.(readings)) in
  schedule fuel when when (task_set sc.(sc_task)) s.(smgr) = (Ok (n, None), m') →
  ∃ t' sc' s', run sec t s = (Ok (t', 1), s') ∧ s'.(smgr) = m' ∧ s'.(snet) = s.(snet) ∧
    t'.(runner) = Scanner sc' ∧ t'.(every) = t.(every) ∧ t'.(runs) = wrap64 (t.(runs) + 1) ∧
    sc'.(sc_task) = sc.(sc_task) ∧ sc'.(sc_jobs) = wrap64 (sc.(sc_jobs) + n).
Proof.
  intros Hr Hk He Hd when E. rw /run_task. apply Z.eqb_neq in He. rw He Hd. cbn [negb]. rw Hr /Execute.
  rw /bindM /tryM /Now /bindM /getM /modifyM /retM /on_mgr /zoomM. cbn [smgr set_readings readings clock].
  destruct Hk as [Hk|Hk]; rw Hk in E |- *; rw /counted /bindM /EnqueueScheduledJobs /RetryJobs E; cbn;
    by do 3 eexists; split_and!.
Qed.

End tasks.

Module TasksWitness.
Import MemRedis PushWitness.

Definition server_due : @server mem_redis := mkServer m_due no_net false 0 0 now0 startTasks (λ _, now0) 0.
Definition scan0 : scanner := mkScanner "Scheduled" TaskScheduled 0 0 0.
Definition task0 : task := mkTask (Scanner scan0) 5 0 0.

End TasksWitness.
