(* ===== verification/Session.v ===== *)
(** * A client's session from end to end

    Client library, wire, command loop, job manager and storage together: the jobs a
    client pushes are the jobs a worker fetches. *)
From S2P Require Import Prelude GoStrings Float64 GoTime Json JsonLine Job Redis Store SortedSet Middleware Manager Retry Working Fetch Scheduler Reaper Instances Wire Workers Mutate Server Client.

#[local] Open Scope list_scope.

Section served.
Context `{Redis}.
Context (env : Env) (fuel : nat) (drawn : nat → string → Z) (MemoryUsageMB : Z).
Abbreviation all_meant := (serve_all env fuel drawn MemoryUsageMB).
Abbreviation meant := (served env fuel drawn MemoryUsageMB).

Lemma serve_all_app c a b s la s1 lb s2 :
  all_meant c a s = (Ok la, s1) → all_meant c b s1 = (Ok lb, s2) → all_meant c (a ++ b) s = (Ok (la ++ lb), s2).
Proof.
  revert s la. induction a as [|r a IH]; intros s la; [by intros [= <- <-]|]. cbn [app serve_all]. intros Ha Hb.
  apply bindM_inv_ok in Ha as (x & s' & Hx & Ha). apply bindM_inv_ok in Ha as (l & s3 & Hl & [= <- <-]).
  rw /bindM Hx (IH s' l) //.
Qed.

(** What stays as it is while jobs are pushed and fetched. *)
Definition same_desk (n : nat) (m : mgr) (s s' : server) : Prop :=
  s'.(smgr) = m ∧ s'.(snet) = s.(snet) ∧ s'.(clock) = s.(clock) ∧
  s'.(readings) = (n + s.(readings))%nat ∧ s'.(closed) = s.(closed).

Lemma served_push c job s j m' :
  Push env (s.(clock) s.(readings)) job s.(smgr) = (Ok j, m') →
  ∃ s', meant c (RPush job) s = (Ok WOk, s') ∧ same_desk 1 m' s s'.
Proof.
  intros E. rw /served /perform /reply_of /bindM /modifyM /Now /tryM /on_mgr /zoomM. cbn [clock readings smgr set_Commands set_readings].
  rw E. by eexists.
Qed.
Lemma served_fetch c q cd s j m' :
  client_of s c = Some cd → cd.(cstate) = Running →
  Fetch fuel env (s.(clock) s.(readings)) cd.(cWid) q s.(smgr) = (Ok j, m') →
  ∃ s', meant c (RFetch q) s = (Ok (WResult (marshal_job <$> j)), s') ∧ same_desk 1 m' s s'.
Proof.
  intros Hc Hr E. rw /served /perform /reply_of /bindM /modifyM /getM.
  change (client_of (set_Commands ?n s) c) with (client_of s c). rw Hc bool_decide_eq_true_2 //.
  rw /Now /tryM /on_mgr /zoomM. cbn [clock readings smgr set_Commands set_readings]. rw E. by eexists.
Qed.

Lemma served_pushes c js s m' :
  push_seq env (zip (s.(clock) <$> seq s.(readings) (length js)) js) s.(smgr) = (Ok tt, m') →
  ∃ s', all_meant c (RPush <$> js) s = (Ok ((λ _, WOk) <$> js), s') ∧ same_desk (length js) m' s s'.
Proof.
  revert s. induction js as [|job js IH]; intros s; [by intros [= <-]; exists s|].
  cbn [length seq fmap list_fmap zip zip_with push_seq]. intros E. apply bindM_inv_ok in E as (j & m1 & E1 & E).
  destruct (served_push c job s j m1 E1) as (s1 & R1 & D1 & D2 & D3 & D4 & D5).
  rewrite -D1 -D3 in E. change (S s.(readings)) with (1 + s.(readings))%nat in E. rewrite -D4 in E.
  destruct (IH s1 E) as (s' & R & F1 & F2 & F3 & F4 & F5). exists s'. split.
  - cbn [serve_all]. by rw /bindM R1 R.
  - split_and!; [done|congruence|congruence|rw F4 D4; lia|congruence].
Qed.
Lemma served_fetches c q cd n s js m' :
  fuel = 1%nat → client_of s c = Some cd → cd.(cstate) = Running →
  fetch_seq env ((λ i, (s.(clock) i, cd.(cWid))) <$> seq s.(readings) n) q s.(smgr) = (Ok js, m') →
  ∃ s', all_meant c (replicate n (RFetch [q])) s = (Ok ((λ j, WResult (marshal_job <$> j)) <$> js), s') ∧ same_desk n m' s s'.
Proof.
  intros Hf. revert s js. induction n as [|n IH]; intros s js Hc Hr; [by intros [= <- <-]; exists s|].
  cbn [seq fmap list_fmap fetch_seq replicate]. intros E. apply bindM_inv_ok in E as (j & m1 & E1 & E).
  apply bindM_inv_ok in E as (l & m2 & E & [= <- <-]). rewrite -Hf in E1.
  destruct (served_fetch c [q] cd s j m1 Hc Hr E1) as (s1 & R1 & D1 & D2 & D3 & D4 & D5).
  rewrite -D1 -D3 in E. change (S s.(readings)) with (1 + s.(readings))%nat in E. rewrite -D4 in E.
  assert (Hc1 : client_of s1 c = Some cd) by by rw /client_of D2.
  destruct (IH s1 l Hc1 Hr E) as (s' & R & F1 & F2 & F3 & F4 & F5). exists s'. split.
  - cbn [serve_all fmap list_fmap]. by rw /bindM R1 R.
  - split_and!; [done|congruence|congruence|rw F4 D4; lia|congruence].
Qed.
End served.

Lemma queue_name_word q : ValidQueueName q = true → word q.
Proof.
  rw /ValidQueueName. intros [_ Hq]%andb_prop. split; revert Hq; by apply all_chars_no_char.
Qed.
Lemma marshal_job_nonempty j : marshal_job j ≠ "".
Proof. done. Qed.
Lemma interpret_job q j :
  wf_job j → interpret (RFetch q) (received (WResult (Some (marshal_job j)))) = Ok (AJob (Some j)).
Proof.
  intros Hw. cbn [received interpret].
  rw (bool_decide_eq_false_2 (Some (marshal_job j) = Some "")); [by intros [= E]|].
  rw (bool_decide_eq_false_2 (marshal_job j = "")); [apply marshal_job_nonempty|]. by rw unmarshal_marshal_job.
Qed.

Lemma interpret_pushes js :
  zip_with (λ r a, interpret r (received a)) (RPush <$> js) ((λ _, WOk) <$> js) = (λ _, Ok Done) <$> js.
Proof. induction js as [|job js IH]; [done|]. cbn [fmap list_fmap zip_with]. by rw IH. Qed.
Lemma interpret_fetches q (ps : list (Z * Job)) :
  Forall (λ p, wf_job (stamped p)) ps →
  zip_with (λ r a, interpret r (received a)) (replicate (length ps) (RFetch q))
    ((λ j, WResult (marshal_job <$> j)) <$> (Some <$> (stamped <$> ps)))
  = (λ p, Ok (AJob (Some (stamped p)))) <$> ps.
Proof.
  induction 1 as [|p ps Hp Hps IH]; [done|]. cbn [length replicate fmap list_fmap zip_with].
  change (marshal_job <$> Some (stamped p)) with (Some (marshal_job (stamped p))). rw interpret_job //. f_equal. exact IH.
Qed.
Lemma wf_session q js :
  word q → Forall wf_job js → Forall wf_request ((RPush <$> js) ++ replicate (length js) (RFetch [q])).
Proof.
  intros Hq Hjs. apply Forall_app. split; [by apply Forall_fmap|]. apply Forall_replicate.
  split; [done|]. by constructor.
Qed.
Lemma sendable_session (js : list Job) (ps : list (Z * Job)) :
  Forall (λ p, in_int64 (slen (marshal_job (stamped p))) = true) ps →
  Forall sendable (((λ _, WOk) <$> js) ++ ((λ j, WResult (marshal_job <$> j)) <$> (Some <$> (stamped <$> ps)))).
Proof.
  intros Hps. apply Forall_app. split; [apply Forall_fmap, Forall_true; done|].
  rw !Forall_fmap. by apply (Forall_impl _ _ _ Hps).
Qed.

Section end_to_end.
Context `{Redis}.
Context (env : Env) (drawn : nat → string → Z) (MemoryUsageMB : Z).
Hypothesis Hfetcher : env.(fetcher) = BasicFetch.
Hypothesis Hpush : env.(pushChain) = [].
Hypothesis Hfetch : env.(fetchChain) = [].

(** The pushes with the instants the server reads, and the instants of the fetches. *)
Definition stamps (s : server) (js : list Job) : list (Z * Job) := zip (s.(clock) <$> seq s.(readings) (length js)) js.
Definition fetch_times (s : server) (n : nat) : list Z := s.(clock) <$> seq (n + s.(readings)) n.

(** C10. Over the wire a queue is first in, first out: a worker that pushes jobs to an
    empty queue and then fetches from it as often is given each job it pushed, in their
    order and complete, stamped with the instants of its push; the queue is empty then,
    and no byte is left on the wire. *)
Theorem pushed_jobs_come_back c cd q js (s : server) :
  ValidQueueName q = true → q ≠ "queues" → q ≠ "working" →
  Forall wf_job js → Forall (pushable q) (stamps s js) →
  Forall (λ p, in_int64 (slen (marshal_job (stamped p))) = true) (stamps s js) →
  (∀ t p, t ∈ fetch_times s (length js) → p ∈ stamps s js → time_in_range (expires_at t (stamped p))) →
  queue_state q [] s.(smgr) → s.(closed) = false → client_of s c = Some cd → cd.(cstate) = Running →
  ∃ s', client_calls env 1 drawn MemoryUsageMB c ((RPush <$> js) ++ replicate (length js) (RFetch [q])) (idle s)
      = (((λ _, Ok Done) <$> js) ++ ((λ p, Ok (AJob (Some (stamped p)))) <$> stamps s js), idle s') ∧
    queue_state q [] s'.(smgr).
Proof.
  intros Hv Hq Hw Hwf Hps Hlen Ht Hst Hcl Hc Hr. pose proof (queue_name_word q Hv) as Hword.
  set (ps := stamps s js) in *. set (reqs := (λ i, (s.(clock) i, cd.(cWid))) <$> seq (length js + s.(readings)) (length js)).
  assert (Hn : length ps = length js) by (rw /ps /stamps length_zip_with length_fmap length_seq; lia).
  destruct (wp_exec _ _ _ (wp_push_seq env Hpush q ps [] s.(smgr) Hv Hq Hw Hps Hst)) as (r & m1 & E1 & -> & Hst1).
  rewrite List.app_nil_r in Hst1.
  assert (Hreq : ∀ r p, r ∈ reqs → p ∈ ps → time_in_range (expires_at r.1 (stamped p))).
  { intros r p (i & -> & Hi)%list_elem_of_fmap Hp. apply Ht; [|done]. apply list_elem_of_fmap. by exists i. }
  destruct (wp_exec _ _ _ (wp_fetch_seq env Hfetcher Hfetch q ps reqs m1 Hv Hq Hw Hps
    ltac:(by rw /reqs length_fmap length_seq Hn) Hreq Hst1)) as (r & m2 & E2 & -> & Hst2).
  destruct (served_pushes env 1 drawn MemoryUsageMB c js s m1 E1) as (s1 & R1 & D1 & D2 & D3 & D4 & D5).
  assert (Hc1 : client_of s1 c = Some cd) by by rw /client_of D2.
  rewrite /reqs -D1 -D3 -D4 in E2.
  destruct (served_fetches env 1 drawn MemoryUsageMB c q cd _ s1 _ m2 eq_refl Hc1 Hr E2) as (s' & R2 & F1 & _).
  exists s'. split; [|by rw F1].
  rewrite (session_serves env 1 drawn MemoryUsageMB c _ s s' _
    (wf_session q js Hword Hwf) Hcl (serve_all_app env 1 drawn MemoryUsageMB c _ _ s _ s1 _ s' R1 R2)
    (sendable_session js ps Hlen)).
  f_equal. rewrite zip_with_app; [by rw !length_fmap|]. f_equal; [apply interpret_pushes|].
  rewrite -Hn. apply (interpret_fetches [q]). apply (Forall_impl _ _ _ Hps). by intros p (_ & _ & _ & ?).
Qed.
End end_to_end.

Module SessionsWitness.
Import MemRedis PushWitness SessionWitness.

Lemma pushed_jobs_come_back_witness :
  ∃ s', client_calls env1 1 no_draw 12 0 [RPush job0; RFetch ["default"]] (idle server0) =
    ([Ok Done; Ok (AJob (Some job1))], idle s').
Proof.
  destruct (pushed_jobs_come_back env1 no_draw 12 eq_refl eq_refl eq_refl 0 (set_connections {[0%nat]} (set_started 5 w1)) "default" [job0] server0)
    as (s' & E & _).
  - reflexivity.
  - discriminate.
  - discriminate.
  - constructor; [exact job0_wf|constructor].
  - constructor; [|constructor]. split_and!; [by split_and!; try done; eexists|done|done|exact job1_wf].
  - constructor; [vm_compute; reflexivity|constructor].
  - intros t p ->%list_elem_of_singleton ->%list_elem_of_singleton. vm_compute. split; [discriminate|reflexivity].
  - split_and!; [exact m0_alive|exact m0_ok|by apply not_elem_of_nil|done|]. by exists ∅.
  - reflexivity.
  - vm_compute. reflexivity.
  - reflexivity.
  - exists s'. exact E.
Defined.
End SessionsWitness.
