(* ===== verification/Pool.v ===== *)
(** * The connection pool (src/internal/pool/pool.go, src/client/pool.go)

    A pool keeps idle clients in a buffered channel; users take clients out, give them
    back, and may mark them unusable.  [Get] and [Close] are not atomic: their steps
    interleave with each other and with the other users', and [pstep] has one case per
    step, cut where the code takes and leaves the lock or touches the channel. *)
From S2P Require Import Prelude.

#[local] Open Scope list_scope.

(** ** The pool *)

(** [conns] and [factory] are set or nil; the channel outlives the field.  Clients are
    numbered in the order of their making. *)
Record channelPool := mkPool {
  conns_set : bool; factory_set : bool; buf : list nat; shut : bool; maxCap : nat
}.
(** What becomes of a client that is given back. *)
Inductive put_result := Pooled | Closed_.
Definition put (conn : nat) (c : channelPool) : outcome put_result * channelPool :=
  if negb c.(conns_set) then (Ok Closed_, c)
  else if c.(shut) then (Panic "send on closed channel", c)
  else if (length c.(buf) <? c.(maxCap))%nat
  then (Ok Pooled, mkPool true c.(factory_set) (c.(buf) ++ [conn]) c.(shut) c.(maxCap))
  else (Ok Closed_, c).
(** [PoolConn]: the client it wraps, and whether it is marked. *)
Record PoolConn := mkConn { closeable : nat; unusable : bool }.
Definition PoolConn_Close (p : PoolConn) (c : channelPool) : outcome put_result * channelPool :=
  if p.(unusable) then (Ok Closed_, c) else put p.(closeable) c.
(** [Close], under the lock. *)
Definition detach (c : channelPool) : channelPool := mkPool false false c.(buf) c.(shut) c.(maxCap).
Definition close_chan (c : channelPool) : channelPool :=
  mkPool c.(conns_set) c.(factory_set) c.(buf) true c.(maxCap).
Definition set_buf (l : list nat) (c : channelPool) : channelPool :=
  mkPool c.(conns_set) c.(factory_set) l c.(shut) c.(maxCap).
Definition Len (c : channelPool) : nat := if c.(conns_set) then length c.(buf) else 0%nat.

(** What [Get]'s [select] finds. *)
Inductive selection := Took (conn : nat) (rest : list nat) | Nil | Default.
Definition select_ (c : channelPool) : selection :=
  match c.(buf) with
  | conn :: rest => Took conn rest
  | [] => if c.(shut) then Nil else Default
  end.

(** ** A process that uses it *)

(** [wrappers] are the [PoolConn]s by address and [poolConn] the field of that name of
    each client; [done] are the clients closed, [held] those a user has; threads are in
    [Get] before the [select] or while dialling, or in [Close] before the channel is
    closed or while it is drained. *)
Record world := mkWorld {
  pl : channelPool;
  wrappers : gmap nat PoolConn; next_wrapper : nat; poolConn : gmap nat nat;
  made : nat; done_ : gset nat; held : gset nat;
  selecting : gset nat; dialling : gset nat; closing : gset nat; draining : gset nat;
  panicked : bool
}.
Definition set_pl (p : channelPool) (w : world) : world :=
  mkWorld p w.(wrappers) w.(next_wrapper) w.(poolConn) w.(made) w.(done_) w.(held)
    w.(selecting) w.(dialling) w.(closing) w.(draining) w.(panicked).
Definition set_threads (sel dial clo drain : gset nat) (w : world) : world :=
  mkWorld w.(pl) w.(wrappers) w.(next_wrapper) w.(poolConn) w.(made) w.(done_) w.(held)
    sel dial clo drain w.(panicked).
Definition set_clients (made_ : nat) (d h : gset nat) (w : world) : world :=
  mkWorld w.(pl) w.(wrappers) w.(next_wrapper) w.(poolConn) made_ d h
    w.(selecting) w.(dialling) w.(closing) w.(draining) w.(panicked).
Definition set_wrappers (m : gmap nat PoolConn) (n : nat) (pc : gmap nat nat) (w : world) : world :=
  mkWorld w.(pl) m n pc w.(made) w.(done_) w.(held)
    w.(selecting) w.(dialling) w.(closing) w.(draining) w.(panicked).
Definition set_panicked (w : world) : world :=
  mkWorld w.(pl) w.(wrappers) w.(next_wrapper) w.(poolConn) w.(made) w.(done_) w.(held)
    w.(selecting) w.(dialling) w.(closing) w.(draining) true.

(** [wrapConn], and the client's own field in [Pool.Get]. *)
Definition wrapConn (conn : nat) (w : world) : world :=
  set_clients w.(made) w.(done_) ({[conn]} ∪ w.(held))
    (set_wrappers (<[w.(next_wrapper) := mkConn conn false]> w.(wrappers)) (S w.(next_wrapper))
       (<[conn := w.(next_wrapper)]> w.(poolConn)) w).
Definition close_client (conn : nat) (w : world) : world :=
  set_clients w.(made) ({[conn]} ∪ w.(done_)) (w.(held) ∖ {[conn]}) w.

Definition busy (w : world) : gset nat := w.(selecting) ∪ w.(dialling) ∪ w.(closing) ∪ w.(draining).

Inductive action :=
| GetCall (t : nat)
| GetSelect (t : nat)
| Dialled (t : nat) (ok : bool)
| Put (client : nat)
| MarkUnusable (client : nat)
| CloseCall (t : nat)
| CloseChan (t : nat)
| CloseNext (t : nat).
#[global] Instance action_eq_dec : EqDecision action.
Proof. solve_decision. Defined.

(** [Put] of a client that was never given out is a nil pointer dereference, and so is
    the call of the factory once [Close] has taken it away; closing a closed channel
    panics too. *)
Definition pstep (a : action) (w : world) : option world :=
  let p := w.(pl) in
  match a with
  | GetCall t =>
      if bool_decide (t ∈ busy w) then None
      else if p.(conns_set) then Some (set_threads ({[t]} ∪ w.(selecting)) w.(dialling) w.(closing) w.(draining) w)
      else Some w
  | GetSelect t =>
      if bool_decide (t ∉ w.(selecting)) then None
      else
        let w := set_threads (w.(selecting) ∖ {[t]}) w.(dialling) w.(closing) w.(draining) w in
        match select_ p with
        | Took conn rest => Some (wrapConn conn (set_pl (set_buf rest p) w))
        | Nil => Some w
        | Default =>
            if p.(factory_set) then Some (set_threads w.(selecting) ({[t]} ∪ w.(dialling)) w.(closing) w.(draining) w)
            else Some (set_panicked w)
        end
  | Dialled t ok =>
      if bool_decide (t ∉ w.(dialling)) then None
      else
        let w := set_threads w.(selecting) (w.(dialling) ∖ {[t]}) w.(closing) w.(draining) w in
        if ok then Some (wrapConn w.(made) (set_clients (S w.(made)) w.(done_) w.(held) w)) else Some w
  | Put client =>
      match pc ← w.(poolConn) !! client; w.(wrappers) !! pc with
      | None => Some (set_panicked w)
      | Some pc =>
          match PoolConn_Close pc p with
          | (Ok Pooled, p') =>
              Some (set_pl p' (set_clients w.(made) w.(done_) (w.(held) ∖ {[client]}) w))
          | (Ok Closed_, p') => Some (set_pl p' (close_client client w))
          | _ => Some (set_panicked w)
          end
      end
  | MarkUnusable client =>
      match pc ← w.(poolConn) !! client; c ← w.(wrappers) !! pc; Some (pc, c) with
      | None => Some w
      | Some (pc, c) => Some (set_wrappers (<[pc := mkConn c.(closeable) true]> w.(wrappers)) w.(next_wrapper) w.(poolConn) w)
      end
  | CloseCall t =>
      if bool_decide (t ∈ busy w) then None
      else if p.(conns_set)
      then Some (set_pl (detach p) (set_threads w.(selecting) w.(dialling) ({[t]} ∪ w.(closing)) w.(draining) w))
      else Some (set_pl (detach p) w)
  | CloseChan t =>
      if bool_decide (t ∉ w.(closing)) then None
      else if p.(shut) then Some (set_panicked w)
      else Some (set_pl (close_chan p) (set_threads w.(selecting) w.(dialling) (w.(closing) ∖ {[t]}) ({[t]} ∪ w.(draining)) w))
  | CloseNext t =>
      if bool_decide (t ∉ w.(draining)) then None
      else match p.(buf) with
           | conn :: rest => Some (set_pl (set_buf rest p) (close_client conn w))
           | [] => Some (set_threads w.(selecting) w.(dialling) w.(closing) (w.(draining) ∖ {[t]}) w)
           end
  end.
Fixpoint prun (l : list action) (w : world) : option world :=
  match l with [] => Some w | a :: l' => w' ← pstep a w; prun l' w' end.

(** [NewChannelPool], with what the factory does; the users' pools start empty. *)
Definition new_world (p : channelPool) (made_ : nat) (d : gset nat) : world :=
  mkWorld p ∅ 0 ∅ made_ d ∅ ∅ ∅ ∅ ∅ false.
Fixpoint fill (n : nat) (factory : nat → bool) (conns : list nat) : option (list nat) * list nat :=
  match n with
  | O => (Some conns, conns)
  | S n' => if factory (length conns) then fill n' factory (conns ++ [length conns]) else (None, conns)
  end.
(** An error closes what was made; [None] is the invalid capacity. *)
Definition NewChannelPool (initialCap maxCap_ : Z) (factory : nat → bool) : option (bool * world) :=
  if (initialCap <? 0) || (maxCap_ <=? 0) || (maxCap_ <? initialCap) then None
  else match fill (Z.to_nat initialCap) factory [] with
       | (Some conns, _) => Some (true, new_world (mkPool true true conns false (Z.to_nat maxCap_)) (length conns) ∅)
       | (None, conns) => Some (false, new_world (mkPool false false [] true (Z.to_nat maxCap_)) (length conns) (list_to_set conns))
       end.
Definition newPool (capacity : Z) (opener : nat → bool) : option (bool * world) := NewChannelPool 0 capacity opener.

(** ** Proper use: a user gives back, and marks, what he has *)

Definition proper (a : action) (w : world) : bool :=
  match a with Put c | MarkUnusable c => bool_decide (c ∈ w.(held)) | _ => true end.
Definition hstep (a : action) (w : world) : option world := if proper a w then pstep a w else None.
Fixpoint hrun (l : list action) (w : world) : option world :=
  match l with [] => Some w | a :: l' => w' ← hstep a w; hrun l' w' end.

(** Every client made is idle in the pool, held by a user, or closed, and only one of
    these; the channel is closed by the one thread that took it. *)
Record pool_ok (w : world) : Prop := {
  ok_nodup : NoDup w.(pl).(buf);
  ok_made c : (c < w.(made))%nat ↔ c ∈ w.(pl).(buf) ∨ c ∈ w.(held) ∨ c ∈ w.(done_);
  ok_idle c : c ∈ w.(pl).(buf) → c ∉ w.(held) ∧ c ∉ w.(done_);
  ok_apart c : c ∈ w.(held) → c ∉ w.(done_);
  ok_cap : (length w.(pl).(buf) ≤ w.(pl).(maxCap))%nat;
  ok_set : w.(pl).(factory_set) = w.(pl).(conns_set);
  ok_shut : w.(pl).(shut) = true → w.(pl).(conns_set) = false ∧ w.(closing) = ∅;
  ok_closing t t' : t ∈ w.(closing) → t' ∈ w.(closing) → t = t' ∧ w.(pl).(conns_set) = false;
  ok_detached : w.(pl).(conns_set) = false → w.(closing) = ∅ → w.(pl).(shut) = true;
  ok_drained : w.(pl).(shut) = true → w.(draining) = ∅ → w.(pl).(buf) = [];
  ok_wrapped c : c ∈ w.(held) → ∃ pc u, w.(poolConn) !! c = Some pc ∧ w.(wrappers) !! pc = Some (mkConn c u);
  ok_alloc pc x : w.(wrappers) !! pc = Some x → (pc < w.(next_wrapper))%nat
}.

Lemma ok_new conns cap :
  NoDup conns → (∀ c, c ∈ conns ↔ c < length conns)%nat → (length conns ≤ cap)%nat →
  pool_ok (new_world (mkPool true true conns false cap) (length conns) ∅).
Proof.
  intros Hn Hc Hl. split; cbn; try done; set_solver.
Qed.

(** A step of threads that touches neither clients nor channel. *)
Lemma ok_threads sel dial w : pool_ok w → pool_ok (set_threads sel dial w.(closing) w.(draining) w).
Proof. intros []. by split. Qed.
Lemma ok_panicked w : pool_ok w → pool_ok (set_panicked w).
Proof. intros []. by split. Qed.

(** Taking an idle client. *)
Lemma ok_take c rest w :
  pool_ok w → w.(pl).(buf) = c :: rest → pool_ok (wrapConn c (set_pl (set_buf rest w.(pl)) w)).
Proof.
  intros [H1 H2 H3 H4 H5 H6 H7 H8 H9 H10 H11 H12] E. rewrite E in H1 H2 H3 H5 H10. apply NoDup_cons in H1 as [Hc H1].
  split; cbn; try done.
  - intros c'. rw H2. set_solver.
  - intros c' Hc'. specialize (H3 c'). set_solver.
  - intros c' [->%elem_of_singleton|Hc']%elem_of_union; [apply H3; set_solver|by apply H4].
  - cbn in H5. lia.
  - intros Hs Hd. by specialize (H10 Hs Hd).
  - intros c'. destruct (decide (c' = c)) as [->|Hne].
    + intros _. exists w.(next_wrapper), false. by rw !lookup_insert_eq.
    + intros [?%elem_of_singleton|Hc']%elem_of_union; [done|]. destruct (H11 c' Hc') as (pc & u & E1 & E2).
      pose proof (H12 _ _ E2).
      exists pc, u. split; (rw lookup_insert_ne; [lia|done]).
  - intros pc x [[<- _]|[_ Hx]]%lookup_insert_Some; [lia|]. apply H12 in Hx. lia.
Qed.

(** A dialled client is a new one. *)
Lemma ok_dialled w :
  pool_ok w → pool_ok (wrapConn w.(made) (set_clients (S w.(made)) w.(done_) w.(held) w)).
Proof.
  intros [H1 H2 H3 H4 H5 H6 H7 H8 H9 H10 H11 H12].
  assert (Hf : w.(made) ∉ w.(pl).(buf) ∧ w.(made) ∉ w.(held) ∧ w.(made) ∉ w.(done_)).
  { pose proof (H2 w.(made)) as K. split_and!; intros Hin; assert (w.(made) < w.(made))%nat by (apply K; auto); lia. }
  destruct Hf as (F1 & F2 & F3). split; cbn; try done.
  - intros c. rw elem_of_union elem_of_singleton. specialize (H2 c).
    destruct (decide (c = w.(made))) as [->|Hne]; [split; [by right; left; left|lia]|].
    assert (E : (c < S w.(made))%nat ↔ (c < w.(made))%nat) by lia. rw E H2. naive_solver.
  - intros c Hc. specialize (H3 c Hc). set_solver.
  - intros c [->%elem_of_singleton|Hc]%elem_of_union; [done|by apply H4].
  - intros c. destruct (decide (c = w.(made))) as [->|Hne].
    + intros _. exists w.(next_wrapper), false. by rw !lookup_insert_eq.
    + intros [?%elem_of_singleton|Hc]%elem_of_union; [done|]. destruct (H11 c Hc) as (pc & u & E1 & E2).
      pose proof (H12 _ _ E2).
      exists pc, u. split; (rw lookup_insert_ne; [lia|done]).
  - intros pc x [[<- _]|[_ Hx]]%lookup_insert_Some; [lia|]. apply H12 in Hx. lia.
Qed.

(** Giving a client back, to the pool or for good. *)
Lemma ok_pooled c w :
  pool_ok w → c ∈ w.(held) → w.(pl).(conns_set) = true → (length w.(pl).(buf) < w.(pl).(maxCap))%nat →
  pool_ok (set_pl (set_buf (w.(pl).(buf) ++ [c]) w.(pl)) (set_clients w.(made) w.(done_) (w.(held) ∖ {[c]}) w)).
Proof.
  intros [H1 H2 H3 H4 H5 H6 H7 H8 H9 H10 H11 H12] Hc Hset Hlen.
  assert (F : c ∉ w.(pl).(buf)) by (intros Hb; by destruct (H3 c Hb)).
  split; cbn; try done.
  - apply NoDup_app. split_and!; [done| |apply NoDup_singleton]. by intros x Hx ->%list_elem_of_singleton.
  - intros c'. rw H2 elem_of_app list_elem_of_singleton. destruct (decide (c' = c)) as [->|]; set_solver.
  - intros c' [Hb| ->%list_elem_of_singleton]%elem_of_app; [specialize (H3 c' Hb)|specialize (H4 c Hc)]; set_solver.
  - intros c' Hc'. apply H4. set_solver.
  - rw length_app. cbn. lia.
  - intros Hs. destruct (H7 Hs) as [Hf _]. congruence.
  - intros c' Hc'. apply H11. set_solver.
Qed.
Lemma ok_closed c w : pool_ok w → c ∈ w.(held) → pool_ok (close_client c w).
Proof.
  intros [H1 H2 H3 H4 H5 H6 H7 H8 H9 H10 H11 H12] Hc. split; cbn; try done.
  - intros c'. rw H2. destruct (decide (c' = c)) as [->|]; set_solver.
  - intros c' Hb. specialize (H3 c' Hb). set_solver.
  - intros c' Hc'. specialize (H4 c'). set_solver.
  - intros c' Hc'. apply H11. set_solver.
Qed.
Lemma ok_drain c rest w :
  pool_ok w → w.(pl).(buf) = c :: rest → w.(draining) ≠ ∅ →
  pool_ok (set_pl (set_buf rest w.(pl)) (close_client c w)).
Proof.
  intros [H1 H2 H3 H4 H5 H6 H7 H8 H9 H10 H11 H12] E Hd. rewrite E in H1 H2 H3 H5 H10. apply NoDup_cons in H1 as [Hc H1].
  assert (F : c ∉ w.(held) ∧ c ∉ w.(done_)) by (apply H3; by left).
  split; cbn; try done.
  - intros c'. rw H2. set_solver.
  - intros c' Hb. specialize (H3 c'). set_solver.
  - intros c' Hc'. specialize (H4 c'). set_solver.
  - cbn in H5. lia.
  - intros c' Hc'. apply H11. set_solver.
Qed.
Lemma ok_marked pc c u w :
  pool_ok w → w.(wrappers) !! pc = Some (mkConn c u) →
  pool_ok (set_wrappers (<[pc := mkConn c true]> w.(wrappers)) w.(next_wrapper) w.(poolConn) w).
Proof.
  intros [H1 H2 H3 H4 H5 H6 H7 H8 H9 H10 H11 H12] E. split; cbn; try done.
  - intros c' Hc'. destruct (H11 c' Hc') as (pc' & u' & E1 & E2). exists pc'. destruct (decide (pc' = pc)) as [->|].
    + exists true. rw lookup_insert_eq. split; [done|]. congruence.
    + exists u'. rw lookup_insert_ne; [congruence|done].
  - intros pc' x [[<- _]|[_ Hx]]%lookup_insert_Some; [by apply H12 in E|by apply H12 in Hx].
Qed.

Lemma PoolConn_Close_ok pc w r p' :
  pool_ok w → PoolConn_Close pc w.(pl) = (r, p') →
  (r = Ok Pooled ∧ pc.(unusable) = false ∧ w.(pl).(conns_set) = true ∧ (length w.(pl).(buf) < w.(pl).(maxCap))%nat ∧
     p' = set_buf (w.(pl).(buf) ++ [pc.(closeable)]) w.(pl)) ∨
  (r = Ok Closed_ ∧ p' = w.(pl)).
Proof.
  intros Hw. rw /PoolConn_Close /put. destruct (unusable pc); [by intros [= <- <-]; right|].
  destruct (conns_set (pl w)) eqn:Ec; [|by intros [= <- <-]; right]. cbn [negb].
  destruct (shut (pl w)) eqn:Es; [destruct (ok_shut w Hw Es); congruence|].
  destruct (Nat.ltb_spec (length (buf (pl w))) (maxCap (pl w))); [|by intros [= <- <-]; right].
  intros [= <- <-]. left. rw /set_buf Ec Es. by split_and!.
Qed.

Lemma pool_ok_step a w w' : pool_ok w → hstep a w = Some w' → pool_ok w'.
Proof.
  intros Hw. rw /hstep. destruct (proper a w) eqn:Hp; [|done]. destruct a as [t|t|t ok|c|c|t|t|t]; cbn [pstep].
  - case_bool_decide; [done|]. destruct (conns_set _); intros [= <-]; [|done]. by apply ok_threads.
  - case_bool_decide as Ht; [done|]. rw /select_. destruct (buf (pl w)) as [|c rest] eqn:E.
    + destruct (shut _); [intros [= <-]; by apply ok_threads|]. destruct (factory_set _); intros [= <-]; [exact (ok_threads (selecting w ∖ {[t]}) ({[t]} ∪ dialling w) w Hw)|].
      by apply ok_panicked, ok_threads.
    + intros [= <-].
      apply (ok_take c rest (set_threads (selecting w ∖ {[t]}) (dialling w) (closing w) (draining w) w)); [by apply ok_threads|exact E].
  - case_bool_decide; [done|]. destruct ok; intros [= <-]; [|by apply ok_threads].
    apply (ok_dialled (set_threads (selecting w) (dialling w ∖ {[t]}) (closing w) (draining w) w)). by apply ok_threads.
  - cbn in Hp. apply bool_decide_eq_true in Hp. destruct (ok_wrapped w Hw c Hp) as (pc & u & E1 & E2).
    rw E1. cbn [mbind option_bind]. rw E2.
    destruct (PoolConn_Close (mkConn c u) (pl w)) as [r p'] eqn:E.
    destruct (PoolConn_Close_ok _ _ _ _ Hw E) as [(-> & Hu & Hs & Hl & ->)|[-> ->]]; intros [= <-].
    + by apply ok_pooled.
    + exact (ok_closed c w Hw Hp).
  - cbn in Hp. apply bool_decide_eq_true in Hp. destruct (ok_wrapped w Hw c Hp) as (pc & u & E1 & E2).
    rw E1. cbn [mbind option_bind]. rw E2. cbn [mbind option_bind]. intros [= <-]. by apply (ok_marked pc c u).
  - case_bool_decide as Ht; [done|]. destruct Hw as [H1 H2 H3 H4 H5 H6 H7 H8 H9 H10 H11 H12].
    destruct (conns_set (pl w)) eqn:Ec; intros [= <-].
    + split; cbn; try done; [intros Hs; destruct (H7 Hs); congruence| |set_solver].
      intros t1 t2 Ht1 Ht2. assert (Hn : closing w = ∅).
      { apply set_eq. intros x. split; [|set_solver]. intros Hx. destruct (H8 x x Hx Hx). congruence. }
      rewrite Hn in Ht1, Ht2. set_solver.
    + split; cbn; try done; first [intros Hs; by destruct (H7 Hs)|intros t1 t2 Ht1 Ht2; by destruct (H8 t1 t2 Ht1 Ht2)].
  - case_bool_decide as Ht; [done|]. destruct Hw as [H1 H2 H3 H4 H5 H6 H7 H8 H9 H10 H11 H12].
    destruct (shut (pl w)) eqn:Es; intros [= <-]; [by split; cbn; rewrite ?Es|]. split; cbn; try done.
    + intros _. split; [by destruct (H8 t t Ht Ht)|]. apply set_eq. intros x. split; [|set_solver].
      intros [Hx Hne]%elem_of_difference. destruct (H8 x t Hx Ht) as [-> _]. set_solver.
    + intros t1 t2 Ht1 Ht2. apply H8; set_solver.
    + set_solver.
  - case_bool_decide as Ht; [done|]. destruct (buf (pl w)) as [|c rest] eqn:E; intros [= <-].
    + destruct Hw as [H1 H2 H3 H4 H5 H6 H7 H8 H9 H10 H11 H12]. by split; cbn.
    + apply (ok_drain c rest w Hw E). set_solver.
Qed.

Lemma pool_ok_run l w w' : pool_ok w → hrun l w = Some w' → pool_ok w'.
Proof.
  revert w. induction l as [|a l IH]; intros w Hw; cbn; [by intros [= <-]|].
  destruct (hstep a w) as [w1|] eqn:E; [|done]. apply IH. by apply (pool_ok_step a w).
Qed.
Lemma hrun_app l l' w : hrun (l ++ l') w = (w' ← hrun l w; hrun l' w').
Proof. revert w. induction l as [|a l IH]; intros w; cbn; [done|]. by destruct (hstep a w); [apply IH|]. Qed.

(** ** A new pool *)

Lemma fill_seq n factory k r :
  fill n factory (seq 0 k) = r → ∃ m, r.2 = seq 0 m ∧ (m ≤ n + k)%nat ∧ (∀ conns, r.1 = Some conns → conns = seq 0 m).
Proof.
  revert k. induction n as [|n IH]; intros k; cbn.
  - intros <-. exists k. split_and!; [done|lia|by intros conns [= <-]].
  - rw length_seq. destruct (factory k).
    + rewrite -(seq_app k 1). intros Hf. destruct (IH _ Hf) as (m & H1 & H2 & H3). exists m. split_and!; [done|lia|done].
    + intros <-. exists k. split_and!; [done|lia|done].
Qed.
Lemma ok_NewChannelPool i m factory b w : NewChannelPool i m factory = Some (b, w) → pool_ok w.
Proof.
  rw /NewChannelPool. destruct (_ || _) eqn:G; [done|].
  apply orb_false_iff in G as [[G1%Z.ltb_ge G2%Z.leb_gt]%orb_false_iff G3%Z.ltb_ge].
  destruct (fill (Z.to_nat i) factory []) as [o conns] eqn:E.
  destruct (fill_seq _ _ 0 _ E) as (k & H1 & H2 & H3). cbn in H1, H3. subst conns.
  destruct o as [conns|]; intros [= <- <-].
  - rewrite (H3 conns eq_refl) length_seq. pose proof (ok_new (seq 0 k) (Z.to_nat m)) as K. rewrite length_seq in K.
    apply K; [apply NoDup_seq|intros c; rewrite elem_of_seq; lia|lia].
  - rewrite length_seq. split; cbn; try done; try set_solver; try lia; [constructor|].
    intros c. rewrite elem_of_list_to_set elem_of_seq. split; [right; right; lia|].
    intros [?%not_elem_of_nil|[?%not_elem_of_empty|?]]; [done..|lia].
Qed.

(** A client given back by its user. *)
Lemma put_proper c w :
  pool_ok w → c ∈ w.(held) →
  ∃ w', hstep (Put c) w = Some w' ∧ w'.(panicked) = w.(panicked) ∧ w'.(held) = w.(held) ∖ {[c]} ∧
    ((∃ pc, w.(poolConn) !! c = Some pc ∧ w.(wrappers) !! pc = Some (mkConn c true)) ∨ w.(pl).(conns_set) = false →
     c ∈ w'.(done_)).
Proof.
  intros Hw Hc. rw /hstep /proper bool_decide_eq_true_2 //. cbn [pstep].
  destruct (ok_wrapped w Hw c Hc) as (pc & u & E1 & E2). rw E1. cbn [mbind option_bind]. rw E2.
  destruct (PoolConn_Close (mkConn c u) (pl w)) as [r p'] eqn:E.
  destruct (PoolConn_Close_ok _ _ _ _ Hw E) as [(-> & Hu & Hs & Hlen & ->)|[-> ->]]; eexists; (split; [done|]).
  - split_and!; [done..|]. intros [(pc' & E1' & E2')|K]; [|congruence]. cbn in Hu. congruence.
  - split_and!; [done..|]. intros _. cbn. set_solver.
Qed.

Lemma hstep_next t w :
  t ∈ w.(draining) →
  hstep (CloseNext t) w = Some match w.(pl).(buf) with
    | conn :: rest => set_pl (set_buf rest w.(pl)) (close_client conn w)
    | [] => set_threads w.(selecting) w.(dialling) w.(closing) (w.(draining) ∖ {[t]}) w
    end.
Proof. intros Ht. rw /hstep /= bool_decide_eq_false_2; [by intros ?|]. by destruct (buf (pl w)). Qed.
Lemma hrun_cons a l w w' : hstep a w = Some w' → hrun (a :: l) w = hrun l w'.
Proof. intros E. cbn. by rw E. Qed.
Lemma drain_ends t n w :
  t ∈ w.(draining) → length w.(pl).(buf) = n →
  ∃ w', hrun (replicate (S n) (CloseNext t)) w = Some w' ∧ w'.(closing) = w.(closing) ∧ t ∉ w'.(draining) ∧
    w'.(pl).(buf) = [] ∧ (NoDup w.(pl).(buf) → (∀ c, c ∈ w.(pl).(buf) → c ∉ w.(held)) → w'.(held) = w.(held)) ∧
    w'.(done_) = list_to_set w.(pl).(buf) ∪ w.(done_).
Proof.
  revert w. induction n as [|n IH]; intros w Ht Hn; pose proof (hstep_next t w Ht) as E1.
  - apply length_zero_iff_nil in Hn. rewrite Hn in E1 |- *. exists (set_threads (selecting w) (dialling w) (closing w) (draining w ∖ {[t]}) w).
    split; [exact (hrun_cons _ [] _ _ E1)|]. cbn. rw Hn. split_and!; [done|set_solver|done|done|set_solver].
  - destruct (buf (pl w)) as [|c rest] eqn:E; [done|].
    destruct (IH (set_pl (set_buf rest (pl w)) (close_client c w))) as (w' & R & H1 & H2 & H3 & H4 & H5); [done|by injection Hn|].
    exists w'. change (replicate (S (S n)) (CloseNext t)) with (CloseNext t :: replicate (S n) (CloseNext t)).
    rw (hrun_cons _ _ _ _ E1). split; [exact R|]. cbn in H4, H5. split_and!; [done..| |].
    + intros [Hc Hnd]%NoDup_cons Hh. rw H4; [done| |].
      * intros x Hx. specialize (Hh x). set_solver.
      * specialize (Hh c). set_solver.
    + rw H5. cbn. set_solver.
Qed.
Lemma close_ends t w :
  pool_ok w → t ∈ w.(closing) → ∃ w',
    hrun (CloseChan t :: replicate (S (length w.(pl).(buf))) (CloseNext t)) w = Some w' ∧
    w'.(closing) = ∅ ∧ t ∉ w'.(draining) ∧ w'.(pl).(buf) = [] ∧ w'.(held) = w.(held) ∧
    w'.(done_) = list_to_set w.(pl).(buf) ∪ w.(done_).
Proof.
  intros Hw Ht. assert (Hs : shut (pl w) = false).
  { apply not_true_is_false. intros Hs. destruct (ok_shut w Hw Hs) as [_ K]. set_solver. }
  set (w1 := set_pl (close_chan (pl w)) (set_threads (selecting w) (dialling w) (closing w ∖ {[t]}) ({[t]} ∪ draining w) w)).
  assert (E : hstep (CloseChan t) w = Some w1).
  { rw /hstep. cbn [proper pstep]. rw bool_decide_eq_false_2; [by intros ?|]. by rw Hs. }
  destruct (drain_ends t (length (buf (pl w))) w1) as (w' & R & H1 & H2 & H3 & H4 & H5); [cbn; set_solver|done|].
  exists w'. rw (hrun_cons _ _ _ _ E). split; [exact R|]. cbn in H1, H4, H5. split_and!; [|done..| |done].
  - rw H1. apply set_eq. intros x. split; [|set_solver]. intros [Hx Hne]%elem_of_difference.
    destruct (ok_closing w Hw x t Hx Ht) as [-> _]. set_solver.
  - apply H4; [by apply ok_nodup|]. intros c Hc. by apply (ok_idle w Hw c).
Qed.

(** ** What the pool promises *)

Section promises.
Context (initialCap maxCap_ : Z) (factory : nat → bool) (b : bool) (w0 : world).
Hypothesis Hnew : NewChannelPool initialCap maxCap_ factory = Some (b, w0).

Lemma reachable_ok l w : hrun l w0 = Some w → pool_ok w.
Proof. apply pool_ok_run. exact (ok_NewChannelPool _ _ _ _ _ Hnew). Qed.

(** C15. Whatever users get, give back and mark, whenever the pool is closed, and however
    the steps of these interleave: every client made is idle in the pool once, or held,
    or closed, and only one of these; the pool has at most its capacity idle; and giving
    back a client never panics. *)
Theorem pool_keeps_clients l w :
  hrun l w0 = Some w →
  (∀ c, (c < w.(made))%nat ↔
     (c ∈ w.(pl).(buf) ∧ c ∉ w.(held) ∧ c ∉ w.(done_)) ∨ (c ∉ w.(pl).(buf) ∧ c ∈ w.(held) ∧ c ∉ w.(done_)) ∨
     (c ∉ w.(pl).(buf) ∧ c ∉ w.(held) ∧ c ∈ w.(done_))) ∧
  NoDup w.(pl).(buf) ∧ (length w.(pl).(buf) ≤ w.(pl).(maxCap))%nat ∧
  ∀ c, c ∈ w.(held) → ∃ w', hstep (Put c) w = Some w' ∧ w'.(panicked) = w.(panicked) ∧ w'.(held) = w.(held) ∖ {[c]}.
Proof.
  intros Hl. pose proof (reachable_ok l w Hl) as Hw. split_and!; [|by apply ok_nodup|by apply ok_cap|].
  - intros c. rw (ok_made w Hw). pose proof (ok_idle w Hw c). pose proof (ok_apart w Hw c). tauto.
  - intros c Hc. destruct (put_proper c w Hw Hc) as (w' & E & Hp & Hh & _). by exists w'.
Qed.

(** C21. Once [Close] is done no idle client is left open: every client made is closed or
    still held, and one that is given back is closed; and [Close] gets done: the thread
    that took the channel away needs as many steps as there are idle clients, and two. *)
Theorem closed_pool_leaks_nothing l w :
  hrun l w0 = Some w →
  (w.(pl).(conns_set) = false → w.(closing) = ∅ → w.(draining) = ∅ →
     (∀ c, (c < w.(made))%nat ↔ c ∈ w.(held) ∨ c ∈ w.(done_)) ∧
     ∀ c, c ∈ w.(held) → ∃ w', hstep (Put c) w = Some w' ∧ c ∈ w'.(done_)) ∧
  (∀ t, t ∈ w.(closing) → ∃ w',
     hrun (CloseChan t :: replicate (S (length w.(pl).(buf))) (CloseNext t)) w = Some w' ∧
     w'.(closing) = ∅ ∧ t ∉ w'.(draining) ∧ w'.(pl).(buf) = [] ∧ w'.(held) = w.(held) ∧
     w'.(done_) = list_to_set w.(pl).(buf) ∪ w.(done_)).
Proof.
  intros Hl. pose proof (reachable_ok l w Hl) as Hw. split.
  - intros Hs Hc Hd. pose proof (ok_detached w Hw Hs Hc) as Hshut. pose proof (ok_drained w Hw Hshut Hd) as Hb. split.
    + intros c. rw (ok_made w Hw) Hb. split; [|tauto]. by intros [?%not_elem_of_nil|?].
    + intros c Hin. destruct (put_proper c w Hw Hin) as (w' & E & _ & _ & K). exists w'. split; [done|]. by apply K; right.
  - intros t Ht. apply (close_ends t w Hw Ht).
Qed.
End promises.

(** ** Marked clients *)

Definition marked (c : nat) (w : world) : Prop :=
  c ∈ w.(held) ∧ ∃ pc, w.(poolConn) !! c = Some pc ∧ w.(wrappers) !! pc = Some (mkConn c true).

Lemma done_grows a w w' : hstep a w = Some w' → w.(done_) ⊆ w'.(done_).
Proof.
  rw /hstep. destruct (proper a w); [|done]. destruct a; cbn [pstep];
    repeat first [case_bool_decide|progress case_goal|done];
    intros; simplify_eq/=; set_solver.
Qed.
Lemma marked_wrap c c' made_ d w :
  (∀ pc x, w.(wrappers) !! pc = Some x → pc < w.(next_wrapper))%nat → marked c w → c' ≠ c →
  marked c (wrapConn c' (set_clients made_ d w.(held) w)).
Proof.
  intros Hw (Hc & pc & E1 & E2) Hne. pose proof (Hw _ _ E2). split; [cbn; set_solver|].
  exists pc. split; cbn; (rw lookup_insert_ne; [lia|done]).
Qed.
Lemma marked_step c a w w' :
  pool_ok w → marked c w → a ≠ Put c → hstep a w = Some w' → marked c w'.
Proof.
  intros Hw Hm Ha. pose proof Hm as (Hc & pc & E1 & E2).
  rw /hstep. destruct (proper a w); [|done]. destruct a as [t|t|t ok|c'|c'|t|t|t]; cbn [pstep].
  - case_bool_decide; [done|]. by destruct (conns_set _); intros [= <-].
  - case_bool_decide; [done|]. rw /select_. destruct (buf (pl w)) as [|c' rest] eqn:E.
    + destruct (shut _); [by intros [= <-]|]. by destruct (factory_set _); intros [= <-].
    + intros [= <-]. apply (marked_wrap c c' w.(made) w.(done_) (set_pl (set_buf rest (pl w)) (set_threads (selecting w ∖ {[t]}) (dialling w) (closing w) (draining w) w)));
        [exact (ok_alloc w Hw)|done|intros ->; destruct (ok_idle w Hw c); [rewrite E; by left|done]].
  - case_bool_decide; [done|]. destruct ok; intros [= <-]; [|done].
    apply (marked_wrap c w.(made) (S w.(made)) w.(done_) (set_threads (selecting w) (dialling w ∖ {[t]}) (closing w) (draining w) w));
      [exact (ok_alloc w Hw)|done|intros E]. pose proof (proj2 (ok_made w Hw c)) as K. rewrite E in K. 
    assert (c < c)%nat by (apply K; tauto). lia.
  - assert (Hne : c ≠ c') by congruence. destruct (poolConn w !! c') as [pc'|]; cbn; [|by intros [= <-]].
    destruct (wrappers w !! pc') as [x|]; [|by intros [= <-]].
    destruct (PoolConn_Close x (pl w)) as [[[]| |] p']; intros [= <-]; try done; (split; [cbn; set_solver|by exists pc]).
  - destruct (poolConn w !! c') as [pc'|]; cbn; [|by intros [= <-]].
    destruct (wrappers w !! pc') as [x|] eqn:Ex; cbn; intros [= <-]; [|done]. split; [done|]. exists pc. split; [done|]. cbn.
    destruct (decide (pc' = pc)) as [->|]; [|by rw lookup_insert_ne]. rw lookup_insert_eq. rewrite E2 in Ex. by injection Ex as <-.
  - case_bool_decide; [done|]. by destruct (conns_set _); intros [= <-].
  - case_bool_decide; [done|]. by destruct (shut _); intros [= <-].
  - case_bool_decide as Ht; [done|]. destruct (buf (pl w)) as [|c' rest] eqn:E; intros [= <-]; [done|].
    split; [|by exists pc]. cbn. destruct (ok_idle w Hw c'); [rewrite E; by left|]. set_solver.
Qed.
Lemma done_run l w w' : hrun l w = Some w' → w.(done_) ⊆ w'.(done_).
Proof.
  revert w. induction l as [|a l IH]; intros w; cbn; [by intros [= <-]|].
  destruct (hstep a w) as [w1|] eqn:E; [|done]. intros Hl. pose proof (done_grows a w w1 E). pose proof (IH w1 Hl). set_solver.
Qed.
Lemma marked_run c l w w' :
  pool_ok w → marked c w → hrun l w = Some w' → Put c ∈ l → c ∈ w'.(done_).
Proof.
  revert w. induction l as [|a l IH]; intros w Hw Hm Hl Hin; [by apply not_elem_of_nil in Hin|].
  cbn in Hl. destruct (hstep a w) as [w1|] eqn:E; [|done]. cbn in Hl.
  destruct (decide (a = Put c)) as [->|Hne].
  - destruct Hm as (Hc & Hpc). destruct (put_proper c w Hw Hc) as (w1' & E1 & _ & _ & K).
    rewrite E in E1. injection E1 as <-. apply (done_run l w1 w' Hl), K. by left.
  - apply (IH w1); [by apply (pool_ok_step a w)|by apply (marked_step c a w)|done|].
    apply elem_of_cons in Hin as [<-|Hin]; done.
Qed.

(** ** Getting a client *)

Lemma hstep_select t w :
  t ∈ w.(selecting) →
  hstep (GetSelect t) w = Some
    (let w' := set_threads (w.(selecting) ∖ {[t]}) w.(dialling) w.(closing) w.(draining) w in
     match select_ w.(pl) with
     | Took conn rest => wrapConn conn (set_pl (set_buf rest w.(pl)) w')
     | Nil => w'
     | Default => if w.(pl).(factory_set) then set_threads w'.(selecting) ({[t]} ∪ w'.(dialling)) w'.(closing) w'.(draining) w'
                  else set_panicked w'
     end).
Proof. intros Ht. rw /hstep /= bool_decide_eq_false_2; [by intros ?|]. by destruct (select_ (pl w)); [| |destruct (factory_set _)]. Qed.
Lemma hstep_dialled t w :
  t ∈ w.(dialling) →
  hstep (Dialled t true) w = Some
    (wrapConn w.(made) (set_clients (S w.(made)) w.(done_) w.(held)
       (set_threads w.(selecting) (w.(dialling) ∖ {[t]}) w.(closing) w.(draining) w))).
Proof. intros Ht. rw /hstep /= bool_decide_eq_false_2; [by intros ?|done]. Qed.

Lemma hstep_get t w :
  t ∉ busy w → w.(pl).(conns_set) = true →
  hstep (GetCall t) w = Some (set_threads ({[t]} ∪ w.(selecting)) w.(dialling) w.(closing) w.(draining) w).
Proof. intros Ht Hs. rw /hstep /= bool_decide_eq_false_2 //. by rw Hs. Qed.
Lemma hstep_get_closed t w : t ∉ busy w → w.(pl).(conns_set) = false → hstep (GetCall t) w = Some w.
Proof. intros Ht Hs. rw /hstep /= bool_decide_eq_false_2 //. by rw Hs. Qed.
Lemma hstep_close t w :
  t ∉ busy w → w.(pl).(conns_set) = true →
  hstep (CloseCall t) w = Some (set_pl (detach w.(pl)) (set_threads w.(selecting) w.(dialling) ({[t]} ∪ w.(closing)) w.(draining) w)).
Proof. intros Ht Hs. rw /hstep /= bool_decide_eq_false_2 //. by rw Hs. Qed.
Lemma mark_marks c w w' : pool_ok w → hstep (MarkUnusable c) w = Some w' → marked c w'.
Proof.
  intros Hw. rw /hstep /proper. case_bool_decide as Hc; [|done]. cbn [pstep].
  destruct (ok_wrapped w Hw c Hc) as (pc & u & E1 & E2). rw E1. cbn. rw E2. cbn. intros [= <-].
  split; [done|]. exists pc. split; [done|]. cbn. by rw lookup_insert_eq.
Qed.

Lemma get_step t w :
  pool_ok w → t ∉ busy w → w.(pl).(conns_set) = true →
  ∃ l w' c, hrun l w = Some w' ∧ l = GetCall t :: GetSelect t :: (if decide (w.(pl).(buf) = []) then [Dialled t true] else []) ∧
    c ∉ w.(held) ∧ c ∉ w.(done_) ∧ w'.(held) = {[c]} ∪ w.(held) ∧
    (w.(pl).(buf) = [] ∧ c = w.(made) ∨ w.(pl).(buf) = c :: w'.(pl).(buf)) ∧ w'.(pl).(conns_set) = true.
Proof.
  intros Hw Ht Hs.
  pose proof (hstep_get t w Ht Hs) as E1.
  set (w1 := set_threads ({[t]} ∪ selecting w) (dialling w) (closing w) (draining w) w) in *.
  pose proof (hstep_select t w1 ltac:(cbn; set_solver)) as E2.
  assert (Hsh : shut (pl w) = false).
  { apply not_true_is_false. intros K. destruct (ok_shut w Hw K). congruence. }
  rw /select_ in E2. cbn [pl w1 set_threads] in E2. rw Hsh (ok_set w Hw) Hs in E2.
  destruct (buf (pl w)) as [|c rest] eqn:E.
  - exists [GetCall t; GetSelect t; Dialled t true]. eexists. exists (made w). split; [|split; [by case_decide|]].
    + rw (hrun_cons _ _ _ _ E1) (hrun_cons _ _ _ _ E2). refine (hrun_cons _ [] _ _ (hstep_dialled t _ _)).
      cbn. set_solver.
    + cbn. pose proof (ok_made w Hw (made w)) as K.
      assert (F : made w ∉ held w ∧ made w ∉ done_ w).
      { split; intros F; assert (made w < made w)%nat by (apply K; tauto); lia. }
      destruct F. split_and!; [done|done|done|by left|done].
  - exists [GetCall t; GetSelect t]. eexists. exists c. split; [|split; [by case_decide|]].
    + rw (hrun_cons _ _ _ _ E1). apply (hrun_cons _ [] _ _ E2).
    + cbn. destruct (ok_idle w Hw c); [rewrite E; by left|]. split_and!; [done|done|done|by right|done].
Qed.

Section use.
Context (initialCap maxCap_ : Z) (factory : nat → bool) (b : bool) (w0 : world).
Hypothesis Hnew : NewChannelPool initialCap maxCap_ factory = Some (b, w0).

(** C19. A client marked unusable is never reused: once its user has given it back it is
    closed, it is not idle in the pool, and no later [Get] hands it out, whatever else
    happens in between and after. *)
Theorem unusable_never_returns c l1 w1 w2 l2 w3 :
  hrun l1 w0 = Some w1 → hstep (MarkUnusable c) w1 = Some w2 → hrun l2 w2 = Some w3 → Put c ∈ l2 →
  c ∈ w3.(done_) ∧ c ∉ w3.(held) ∧ c ∉ w3.(pl).(buf).
Proof.
  intros R1 S2 R3 Hp. pose proof (reachable_ok _ _ _ _ _ Hnew _ _ R1) as Hw1.
  pose proof (pool_ok_step _ _ _ Hw1 S2) as Hw2. pose proof (pool_ok_run _ _ _ Hw2 R3) as Hw3.
  assert (Hd : c ∈ done_ w3) by (apply (marked_run c l2 w2 w3 Hw2); [by apply (mark_marks c w1)|done..]).
  split_and!; [done|intros Hh; by apply (ok_apart w3 Hw3 c)|intros Hb; by destruct (ok_idle w3 Hw3 c Hb)].
Qed.

(** [Get] on an open pool gives a client nobody has: the one idle longest, or a new one
    when none is idle, whatever the capacity and however many clients are out. *)
Theorem get_never_refuses l w t :
  hrun l w0 = Some w → w.(pl).(conns_set) = true → t ∉ busy w →
  ∃ l' w' c, hrun (l ++ l') w0 = Some w' ∧
    l' = GetCall t :: GetSelect t :: (if decide (w.(pl).(buf) = []) then [Dialled t true] else []) ∧
    c ∉ w.(held) ∧ c ∉ w.(done_) ∧ w'.(held) = {[c]} ∪ w.(held) ∧
    (w.(pl).(buf) = [] ∧ c = w.(made) ∨ w.(pl).(buf) = c :: w'.(pl).(buf)).
Proof.
  intros R Hs Ht. destruct (get_step t w (reachable_ok _ _ _ _ _ Hnew _ _ R) Ht Hs) as (l' & w' & c & R' & Hl & K).
  exists l', w', c. rw hrun_app R. split; [done|]. split; [done|]. by destruct K as (? & ? & ? & ? & _).
Qed.

(** C24. A [Get] that found no idle client and is about to dial, when [Close] is called
    meanwhile, calls the factory that [Close] has just set to nil: a panic, not the
    [ErrClosed] of a [Get] after [Close]. *)
Theorem get_races_close l w t t' :
  hrun l w0 = Some w → w.(pl).(conns_set) = true → w.(pl).(buf) = [] → t ∉ busy w → t' ∉ busy w → t ≠ t' →
  (∃ w', hrun (l ++ [GetCall t; CloseCall t'; GetSelect t]) w0 = Some w' ∧ w'.(panicked) = true) ∧
  ∃ w', hrun (l ++ [CloseCall t'; GetCall t]) w0 = Some w' ∧ w'.(panicked) = w.(panicked) ∧ w'.(held) = w.(held).
Proof.
  intros R Hs Hb Ht Ht' Hne. pose proof (reachable_ok _ _ _ _ _ Hnew _ _ R) as Hw.
  assert (Hsh : shut (pl w) = false).
  { apply not_true_is_false. intros K. destruct (ok_shut w Hw K). congruence. }
  split.
  - rw hrun_app R. cbn [mbind option_bind]. eexists. split.
    + rw (hrun_cons _ _ _ _ (hstep_get t w Ht Hs)). 
      refine (eq_trans (hrun_cons _ _ _ _ (hstep_close t' _ _ _)) _); [cbn; set_solver|done|].
      refine (hrun_cons _ [] _ _ (hstep_select t _ _)). cbn. set_solver.
    + rw /select_. cbn. by rw Hb Hsh.
  - rw hrun_app R. cbn [mbind option_bind]. eexists. split.
    + refine (eq_trans (hrun_cons _ _ _ _ (hstep_close t' _ Ht' Hs)) _).
      refine (hrun_cons _ [] _ _ (hstep_get_closed t _ _ _)); [cbn; set_solver|done].
    + done.
Qed.
End use.

(** ** Runs *)

Module Runs.
Definition start : world := new_world (mkPool true true [] false 2) 0 ∅.
Definition after (l : list action) : world := default start (hrun l start).
Definition get (t : nat) : list action := [GetCall t; GetSelect t; Dialled t true].
End Runs.
Import Runs.

Lemma pool_keeps_clients_witness :
  newPool 2 (λ _, true) = Some (true, start) ∧
  hrun (get 1 ++ get 1 ++ get 2 ++ [Put 0; Put 1; Put 2]) start = Some (after (get 1 ++ get 1 ++ get 2 ++ [Put 0; Put 1; Put 2])) ∧
  (after (get 1 ++ get 1 ++ get 2 ++ [Put 0; Put 1; Put 2])).(pl).(buf) = [0; 1]%nat ∧
  NoDup (after (get 1 ++ get 1 ++ get 2 ++ [Put 0; Put 1; Put 2])).(pl).(buf).
Proof.
  split_and!; [vm_compute; reflexivity..|].
  apply (pool_keeps_clients 0 2 (λ _, true) true start eq_refl (get 1 ++ get 1 ++ get 2 ++ [Put 0; Put 1; Put 2])).
  vm_compute. reflexivity.
Defined.

Lemma closed_pool_leaks_nothing_witness :
  hrun (get 1 ++ get 1 ++ [Put 0; CloseCall 3; CloseChan 3; CloseNext 3; CloseNext 3]) start
    = Some (after (get 1 ++ get 1 ++ [Put 0; CloseCall 3; CloseChan 3; CloseNext 3; CloseNext 3])) ∧
  ∃ w', hstep (Put 1) (after (get 1 ++ get 1 ++ [Put 0; CloseCall 3; CloseChan 3; CloseNext 3; CloseNext 3])) = Some w' ∧
    1%nat ∈ w'.(done_).
Proof.
  assert (E : hrun (get 1 ++ get 1 ++ [Put 0; CloseCall 3; CloseChan 3; CloseNext 3; CloseNext 3]) start
    = Some (after (get 1 ++ get 1 ++ [Put 0; CloseCall 3; CloseChan 3; CloseNext 3; CloseNext 3]))) by (vm_compute; reflexivity).
  split; [exact E|].
  apply (closed_pool_leaks_nothing 0 2 (λ _, true) true start eq_refl _ _ E); [vm_compute; reflexivity..|].
  apply (bool_decide_unpack _). vm_compute. reflexivity.
Defined.

Lemma unusable_never_returns_witness :
  hrun (get 1) start = Some (after (get 1)) ∧ hstep (MarkUnusable 0) (after (get 1)) = Some (after (get 1 ++ [MarkUnusable 0])) ∧
  hrun (get 1 ++ [Put 0] ++ get 2) (after (get 1 ++ [MarkUnusable 0])) = Some (after (get 1 ++ [MarkUnusable 0] ++ get 1 ++ [Put 0] ++ get 2)) ∧
  (0%nat ∉ (after (get 1 ++ [MarkUnusable 0] ++ get 1 ++ [Put 0] ++ get 2)).(held)).
Proof.
  split_and!; [vm_compute; reflexivity..|].
  apply (unusable_never_returns 0 2 (λ _, true) true start eq_refl 0 (get 1) (after (get 1)) (after (get 1 ++ [MarkUnusable 0]))
    (get 1 ++ [Put 0] ++ get 2)); [vm_compute; reflexivity..|]. apply (bool_decide_unpack _). vm_compute. reflexivity.
Defined.

Lemma get_never_refuses_witness :
  hrun (get 1 ++ get 1) start = Some (after (get 1 ++ get 1)) ∧
  ∃ l' w' c, hrun ((get 1 ++ get 1) ++ l') start = Some w' ∧
    l' = GetCall 1 :: GetSelect 1 :: (if decide ((after (get 1 ++ get 1)).(pl).(buf) = []) then [Dialled 1 true] else []) ∧
    c ∉ (after (get 1 ++ get 1)).(held) ∧ c ∉ (after (get 1 ++ get 1)).(done_) ∧
    w'.(held) = {[c]} ∪ (after (get 1 ++ get 1)).(held) ∧
    ((after (get 1 ++ get 1)).(pl).(buf) = [] ∧ c = (after (get 1 ++ get 1)).(made) ∨
     (after (get 1 ++ get 1)).(pl).(buf) = c :: w'.(pl).(buf)).
Proof.
  split; [vm_compute; reflexivity|].
  apply (get_never_refuses 0 2 (λ _, true) true start eq_refl (get 1 ++ get 1) (after (get 1 ++ get 1)) 1); [vm_compute; reflexivity..|].
  apply (bool_decide_unpack _). vm_compute. reflexivity.
Defined.

Lemma get_races_close_witness :
  (∃ w', hrun ([] ++ [GetCall 1; CloseCall 2; GetSelect 1]) start = Some w' ∧ w'.(panicked) = true) ∧
  ∃ w', hrun ([] ++ [CloseCall 2; GetCall 1]) start = Some w' ∧ w'.(panicked) = start.(panicked) ∧ w'.(held) = start.(held).
Proof.
  apply (get_races_close 0 2 (λ _, true) true start eq_refl [] start 1 2); [reflexivity..| | |lia];
    apply (bool_decide_unpack _); vm_compute; reflexivity.
Defined.
