(* ===== verification/Timeago.v ===== *)
(** * Relative times (src/webui/timeago.go)

    The pages say how long ago a job was queued or how soon it is due in words.  The
    words are texts here as in the code; [phrase] is what such a text means, and the
    theorems say how far the meaning is from the truth. *)
From S2P Require Import Prelude GoStrings Float64 GoTime Scores.

(** ** The code *)

Definition minute : Z := 1.
Definition hour : Z := minute * 60.
Definition day : Z := hour * 24.
Definition month : Z := day * 30.
Definition year : Z := day * 365.

Definition pluralize (i : Z) (s : string) : string :=
  let plural := if i =? 1 then "" else "s" in dec i +:+ " " +:+ s +:+ plural.
(** [int(math.Floor(f + 0.50))]. *)
Definition round (f : Z) : Z := f_floor (f_add f (UNIT / 2)).
Definition div (numerator denominator : Z) : Z :=
  let rem := Z.rem numerator denominator in
  let result := Z.quot numerator denominator in
  if Z.quot denominator 2 <=? rem then result + 1 else result.

(** [time.Duration]: nanoseconds in 64 bits; [Sub] saturates. *)
Definition max_duration : Z := 2 ^ 63 - 1.
Definition Sub (t u : Z) : Z := Z.max (- 2 ^ 63) (Z.min max_duration (t - u)).
Definition Seconds (d : Z) : Z := f_add (f_of_Z (Z.quot d SEC)) (f_div (f_of_Z (Z.rem d SEC)) (f_of_Z SEC)).

Definition fromDuration (d : Z) : string :=
  let seconds := round (Seconds d) in
  if seconds <? 30 then "less than a minute" else
  if seconds <? 90 then "1 minute" else
  let minutes := div seconds 60 in
  if minutes <? 45 then dec minutes +:+ " minutes" else
  let hours := div minutes 60 in
  if minutes <? day then "about " +:+ pluralize hours "hour" else
  if minutes <? 42 * hour then "1 day" else
  let days := div hours 24 in
  if minutes <? 30 * day then pluralize days "day" else
  let months := div days 30 in
  if minutes <? 45 * day then "about 1 month" else
  if minutes <? 60 * day then "about 2 months" else
  if minutes <? year then pluralize months "month" else
  let rem := Z.rem minutes year in
  let years := Z.quot minutes year in
  if rem <? 3 * month then "about " +:+ pluralize years "year" else
  if rem <? 9 * month then "over " +:+ pluralize years "year" else
  "almost " +:+ pluralize (years + 1) "year".

Definition Timeago (now t : Z) : string :=
  let '(d, suffix) := if t <? now then (Sub now t, "ago") else (Sub t now, "from now") in
  fromDuration d +:+ " " +:+ suffix.

(** [relativeTime] (helpers.go): a text the pages hold, as stored by the manager. *)
Definition relativeTime (now : Z) (moment : string) : string :=
  match ParseTime moment with Ok tm => Timeago now tm | _ => "invalid timestamp" end.

Example ago1 : Timeago (100 * SEC) (10 * SEC) = "2 minutes ago".
Proof. vm_compute. reflexivity. Qed.
Example ago2 : Timeago 0 (86400 * 400 * SEC) = "about 1 year from now".
Proof. vm_compute. reflexivity. Qed.

(** ** What the words mean *)

Inductive phrase :=
| LessThanAMinute | Minutes (n : Z) | AboutHours (n : Z) | Days (n : Z) | AboutMonths (n : Z) | Months (n : Z)
| AboutYears (n : Z) | OverYears (n : Z) | AlmostYears (n : Z).
#[global] Instance phrase_eq_dec : EqDecision phrase.
Proof. solve_decision. Defined.

Definition text (p : phrase) : string :=
  match p with
  | LessThanAMinute => "less than a minute"
  | Minutes n => pluralize n "minute"
  | AboutHours n => "about " +:+ pluralize n "hour"
  | Days n => pluralize n "day"
  | AboutMonths n => "about " +:+ pluralize n "month"
  | Months n => pluralize n "month"
  | AboutYears n => "about " +:+ pluralize n "year"
  | OverYears n => "over " +:+ pluralize n "year"
  | AlmostYears n => "almost " +:+ pluralize n "year"
  end.

(** In seconds: months of 30 days and years of 365; "over" a year is taken as a year
    and a half. *)
Definition nominal (p : phrase) : Z :=
  match p with
  | LessThanAMinute => 0
  | Minutes n => 60 * n
  | AboutHours n => 3600 * n
  | Days n => 86400 * n
  | AboutMonths n | Months n => 30 * 86400 * n
  | AboutYears n | AlmostYears n => 365 * 86400 * n
  | OverYears n => 365 * 86400 * n + 365 * 43200
  end.
(** How far the nominal duration may be from the real one, in seconds. *)
Definition slack (p : phrase) : Z :=
  match p with
  | LessThanAMinute | Minutes _ => 30
  | AboutHours _ => 1830
  | Days 1 => 18 * 3600
  | Days _ => 12 * 3600 + 1830
  | AboutMonths _ => 15 * 86400 + 30
  | Months _ => 15 * 86400 + 12 * 3600 + 1830
  | AboutYears _ => 90 * 86400
  | OverYears _ => 365 * 43200 - 90 * 86400 + 30
  | AlmostYears _ => 95 * 86400 + 30
  end.

(** The branch as a phrase; [m] is [div seconds 60]. *)
Definition phrase_of (s : Z) : phrase :=
  let m := (s + 30) `div` 60 in
  let h := (m + 30) `div` 60 in
  let d := (h + 12) `div` 24 in
  if s <? 30 then LessThanAMinute
  else if m <? 45 then Minutes m
  else if m <? 1440 then AboutHours h
  else if m <? 2520 then Days 1
  else if m <? 43200 then Days d
  else if m <? 64800 then AboutMonths 1
  else if m <? 86400 then AboutMonths 2
  else if m <? 525600 then Months ((d + 15) `div` 30)
  else if m `mod` 525600 <? 129600 then AboutYears (m `div` 525600)
  else if m `mod` 525600 <? 388800 then OverYears (m `div` 525600)
  else AlmostYears (m `div` 525600 + 1).

Lemma div_half n k : 0 ≤ n → 0 < k → div n (2 * k) = (n + k) `div` (2 * k).
Proof.
  intros Hn Hk. rw /div Z.rem_mod_nonneg; [lia..|]. rw !Z.quot_div_nonneg; [lia..|].
  rw (Z.mul_comm 2) Z.div_mul; [lia|].
  pose proof (Z.div_mod n (k * 2) ltac:(lia)). pose proof (Z.mod_pos_bound n (k * 2) ltac:(lia)).
  destruct (Z.leb_spec k (n `mod` (k * 2))); symmetry.
  - apply (Z_div_mod_unique _ _ _ (n `mod` (k * 2) - k)); lia.
  - apply (Z_div_mod_unique _ _ _ (n `mod` (k * 2) + k)); lia.
Qed.

Lemma pluralize_many n w : n ≠ 1 → pluralize n w = dec n +:+ " " +:+ w +:+ "s".
Proof. intros Hn. rw /pluralize. by destruct (Z.eqb_spec n 1). Qed.
Lemma fromDuration_phrase d :
  0 ≤ round (Seconds d) → fromDuration d = text (phrase_of (round (Seconds d))).
Proof.
  rw /fromDuration. set (s := round (Seconds d)). clearbody s. intros Hs.
  rw /phrase_of /year /month /day /hour /minute !Z.mul_1_l. cbv zeta.
  destruct (Z.ltb_spec s 30); [done|].
  pose proof (div_half s 30 Hs ltac:(lia)) as E. change (2 * 30) with 60 in E.
  set (m := (s + 30) `div` 60) in *. assert (Hm : 0 ≤ m) by (apply Z.div_pos; lia).
  destruct (Z.ltb_spec s 90) as [H90|H90].
  - assert (Em : m = 1) by (unfold m; lia). rw Em. done.
  - assert (H2 : 2 ≤ m) by (unfold m; lia).
    rw E. destruct (Z.ltb_spec m 45) as [H45|H45]; [symmetry; apply pluralize_many; lia|].
    pose proof (div_half m 30 Hm ltac:(lia)) as Eh. change (2 * 30) with 60 in Eh.
    set (h := (m + 30) `div` 60) in *. assert (Hh : 0 ≤ h) by (apply Z.div_pos; lia).
    rw Eh. change (60 * 24) with 1440. destruct (Z.ltb_spec m 1440); [done|].
    change (42 * 60) with 2520. destruct (Z.ltb_spec m 2520); [done|].
    pose proof (div_half h 12 Hh ltac:(lia)) as Ed. change (2 * 12) with 24 in Ed.
    set (dd := (h + 12) `div` 24) in *. assert (Hd : 0 ≤ dd) by (apply Z.div_pos; lia).
    rw Ed. change (30 * 1440) with 43200. destruct (Z.ltb_spec m 43200); [done|].
    change (45 * 1440) with 64800. destruct (Z.ltb_spec m 64800); [done|].
    change (60 * 1440) with 86400. destruct (Z.ltb_spec m 86400); [done|].
    change (1440 * 365) with 525600. destruct (Z.ltb_spec m 525600).
    + pose proof (div_half dd 15 Hd ltac:(lia)) as Emo. change (2 * 15) with 30 in Emo. by rw Emo.
    + rw Z.rem_mod_nonneg; [lia..|]. rw Z.quot_div_nonneg; [lia..|].
      change (3 * (1440 * 30)) with 129600. change (9 * (1440 * 30)) with 388800.
      destruct (m `mod` 525600 <? 129600); [done|]. by destruct (m `mod` 525600 <? 388800).
Qed.

(** ** Rounding a duration to seconds *)

Lemma seconds_score d : 0 ≤ d → Seconds d = score_of d.
Proof.
  intros Hd. rw /Seconds /score_of /unix_sec /nanosecond.
  rewrite Z.quot_div_nonneg ?Z.rem_mod_nonneg; [done|..]; rw /SEC; lia.
Qed.
Lemma duration_in_range d : 0 ≤ d ≤ max_duration → time_in_range d.
Proof. rw /time_in_range /max_duration /day_min /day_max /SEC. lia. Qed.
Lemma score_whole k : 0 ≤ k ≤ 2 ^ 34 → time_in_range (k * SEC) → score_of (k * SEC) = k * UNIT.
Proof.
  intros Hk Hr. rw score_eq // /unix_sec /nanosecond Z.div_mul // Z.mod_mul // /frac_of Z.mul_0_l.
  change (rnd 0 SEC) with 0. rw Z.add_0_r. apply rnd_exact_1. exists k, 1074. split_and!; [done|lia|done].
Qed.
Lemma f_add_half_mono x y : x ≤ y → round x ≤ round y.
Proof. intros Hxy. apply Z.div_le_mono; [exact UNIT_pos|]. apply rnd_mono; [done|lia]. Qed.
Lemma round_whole k : 0 ≤ k ≤ 2 ^ 34 → round (k * UNIT) = k.
Proof.
  intros Hk. rw /round /f_floor /f_add rnd_exact_1.
  - exists (2 * k + 1), 1073. split_and!; [done|lia|]. rw /UNIT. change (2 ^ 1074 / 2) with (2 ^ 1073).
    change (2 ^ 1074) with (2 * 2 ^ 1073). lia.
  - pose proof UNIT_pos. rw Z.add_comm Z.div_add; [lia|]. by rw Z.add_0_l.
Qed.
(** To the second below or the one above. *)
Lemma round_near d :
  0 ≤ d ≤ max_duration → d `div` SEC ≤ round (Seconds d) ≤ d `div` SEC + 1.
Proof.
  intros Hd. rw seconds_score; [lia|]. set (k := d `div` SEC).
  pose proof (Z.div_mod d SEC ltac:(done)) as E. pose proof (Z.mod_pos_bound d SEC ltac:(done)) as M. fold k in E.
  assert (Hk : 0 ≤ k /\ k + 1 ≤ 2 ^ 34) by (rw /max_duration /SEC in Hd E M; lia).
  assert (R1 : time_in_range (k * SEC)) by (rw /time_in_range /day_min /day_max /SEC; lia).
  assert (R2 : time_in_range ((k + 1) * SEC)) by (rw /time_in_range /day_min /day_max /SEC; lia).
  pose proof (duration_in_range d Hd) as R. split.
  - rewrite -{1}(round_whole k); [lia|]. apply f_add_half_mono. rw -(score_whole k) //; [lia|]. apply score_mono; [done..|lia].
  - rw -(round_whole (k + 1)); [lia|]. apply f_add_half_mono. rw -(score_whole (k + 1)) //; [lia|]. apply score_mono; [done..|lia].
Qed.
Lemma round_mono d d' : 0 ≤ d ≤ d' → d' ≤ max_duration → round (Seconds d) ≤ round (Seconds d').
Proof.
  intros [Hd Hdd] Hm. rw !seconds_score; [lia..|]. apply f_add_half_mono, score_mono; [apply duration_in_range; lia..|done].
Qed.

(** ** How far off the words are *)

Lemma phrase_near s : 0 ≤ s → Z.abs (nominal (phrase_of s) - s) ≤ slack (phrase_of s).
Proof.
  intros Hs. rw /phrase_of. set (m := (s + 30) `div` 60). set (h := (m + 30) `div` 60). set (d := (h + 12) `div` 24).
  assert (Hm : 60 * m - 30 ≤ s < 60 * m + 30) by (unfold m; lia).
  assert (Hh : 60 * h - 30 ≤ m < 60 * h + 30) by (unfold h; lia).
  assert (Hd : 24 * d - 12 ≤ h < 24 * d + 12) by (unfold d; lia).
  set (o := (d + 15) `div` 30). assert (Ho : 30 * o - 15 ≤ d < 30 * o + 15) by (unfold o; lia).
  clearbody m h d o.
  destruct (Z.ltb_spec s 30); [cbn; lia|]. destruct (Z.ltb_spec m 45); [cbn [nominal slack]; lia|].
  destruct (Z.ltb_spec m 1440); [cbn [nominal slack]; lia|]. destruct (Z.ltb_spec m 2520); [cbn; lia|].
  destruct (Z.ltb_spec m 43200).
  { assert (E : slack (Days d) = 12 * 3600 + 1830).
    { destruct (Z.eq_dec d 1); [lia|]. rw /slack. by destruct d as [|[]|]. }
    rw E. cbn [nominal]. lia. }
  destruct (Z.ltb_spec m 64800); [cbn; lia|]. destruct (Z.ltb_spec m 86400); [cbn; lia|].
  destruct (Z.ltb_spec m 525600); [cbn [nominal slack]; lia|].
  pose proof (Z.div_mod m 525600 ltac:(lia)) as E. set (y := m `div` 525600) in *. set (r := m `mod` 525600) in *.
  pose proof (Z.mod_pos_bound m 525600 ltac:(lia)) as R. fold r in R. clearbody y r.
  destruct (Z.ltb_spec r 129600); [cbn [nominal slack]; lia|].
  destruct (Z.ltb_spec r 388800); cbn [nominal slack]; lia.
Qed.

Lemma phrase_mono s s' : 0 ≤ s ≤ s' → nominal (phrase_of s) ≤ nominal (phrase_of s').
Proof.
  intros Hs. rw /phrase_of.
  set (m := (s + 30) `div` 60). set (h := (m + 30) `div` 60). set (d := (h + 12) `div` 24).
  set (m' := (s' + 30) `div` 60). set (h' := (m' + 30) `div` 60). set (d' := (h' + 12) `div` 24).
  assert (Hm : m ≤ m') by (apply Z.div_le_mono; lia). assert (Hh : h ≤ h') by (apply Z.div_le_mono; lia).
  assert (Hd : d ≤ d') by (apply Z.div_le_mono; lia).
  assert (Bm : 60 * m - 30 ≤ s < 60 * m + 30) by (unfold m; lia).
  assert (Bm' : 60 * m' - 30 ≤ s' < 60 * m' + 30) by (unfold m'; lia).
  assert (Bh : 60 * h - 30 ≤ m < 60 * h + 30) by (unfold h; lia).
  assert (Bh' : 60 * h' - 30 ≤ m' < 60 * h' + 30) by (unfold h'; lia).
  assert (Bd : 24 * d - 12 ≤ h < 24 * d + 12) by (unfold d; lia).
  assert (Bd' : 24 * d' - 12 ≤ h' < 24 * d' + 12) by (unfold d'; lia).
  set (o := (d + 15) `div` 30). set (o' := (d' + 15) `div` 30).
  assert (Ho : o ≤ o') by (apply Z.div_le_mono; lia).
  assert (Bo : 30 * o - 15 ≤ d < 30 * o + 15) by (unfold o; lia).
  assert (Bo' : 30 * o' - 15 ≤ d' < 30 * o' + 15) by (unfold o'; lia).
  pose proof (Z.div_mod m 525600 ltac:(lia)) as E. pose proof (Z.div_mod m' 525600 ltac:(lia)) as E'.
  assert (Hy : m `div` 525600 ≤ m' `div` 525600) by (apply Z.div_le_mono; lia).
  pose proof (Z.mod_pos_bound m 525600 ltac:(lia)) as R. pose proof (Z.mod_pos_bound m' 525600 ltac:(lia)) as R'.
  set (y := m `div` 525600) in *. set (r := m `mod` 525600) in *.
  set (y' := m' `div` 525600) in *. set (r' := m' `mod` 525600) in *.
  clearbody m h d m' h' d' o o' y r y' r'.
  repeat match goal with |- context [if ?a <? ?b then _ else _] => destruct (Z.ltb_spec a b) end; cbn [nominal]; lia.
Qed.

Lemma Sub_eq t u : 0 ≤ t - u → Sub t u = Z.min max_duration (t - u).
Proof. intros Hd. rw /Sub Z.max_r //. rw /max_duration. lia. Qed.
Lemma Timeago_phrase now t :
  let d := Z.min max_duration (Z.abs (now - t)) in
  0 ≤ d ≤ max_duration ∧
  Timeago now t = text (phrase_of (round (Seconds d))) +:+ " " +:+ (if t <? now then "ago" else "from now").
Proof.
  cbv zeta. set (d := Z.min _ _). assert (Hd : 0 ≤ d ≤ max_duration) by (unfold d, max_duration; lia).
  split; [done|]. rw -fromDuration_phrase; [pose proof (round_near d Hd); pose proof (Z.div_pos d SEC ltac:(lia) ltac:(done)); lia|].
  rw /Timeago /d. destruct (Z.ltb_spec t now); (rw Sub_eq; [lia|]); do 4 f_equal; lia.
Qed.

Lemma relativeTime_Thens now t : time_in_range t → relativeTime now (Thens t) = Timeago now t.
Proof. intros Ht. by rw /relativeTime parse_Thens. Qed.

(** C25. The words of a time less than 292 years away say whether it is past, and are off
    by at most the slack of their unit and a second: half a minute for minutes, half an
    hour for hours, half a day and half an hour for days (but up to 18 hours for "1 day"),
    half a month for months, and up to 95 days for years. *)
Theorem Timeago_near now t :
  Z.abs (now - t) ≤ max_duration →
  ∃ p, Timeago now t = text p +:+ " " +:+ (if t <? now then "ago" else "from now") ∧
    Z.abs (nominal p * SEC - Z.abs (now - t)) ≤ (slack p + 1) * SEC.
Proof.
  intros Hb. destruct (Timeago_phrase now t) as [Hd E]. rewrite -> Z.min_r in Hd, E by done.
  eexists. split; [exact E|]. pose proof (round_near _ Hd) as Hr. set (s := round _) in *.
  set (d := Z.abs (now - t)) in *. pose proof (Z.div_mod d SEC ltac:(done)). pose proof (Z.mod_pos_bound d SEC ltac:(done)).
  pose proof (Z.div_pos d SEC ltac:(lia) ltac:(done)). pose proof (phrase_near s ltac:(lia)).
  set (k := d `div` SEC) in *. set (r := d `mod` SEC) in *. unfold SEC in *. lia.
Qed.

(** The words follow the clock: of two past times, or two future ones, the more
    distant is never described as the nearer; and every time more than 292 years away is
    described alike, as "over 292 years". *)
Theorem Timeago_mono now t t' :
  Z.abs (now - t) ≤ Z.abs (now - t') →
  ∃ p p', Timeago now t = text p +:+ " " +:+ (if t <? now then "ago" else "from now") ∧
    Timeago now t' = text p' +:+ " " +:+ (if t' <? now then "ago" else "from now") ∧
    nominal p ≤ nominal p' ∧ (max_duration ≤ Z.abs (now - t) → p = OverYears 292).
Proof.
  intros Hle. destruct (Timeago_phrase now t) as [Hd E]. destruct (Timeago_phrase now t') as [Hd' E'].
  do 2 eexists. split_and!; [exact E|exact E'| |].
  - apply phrase_mono. pose proof (round_near _ Hd) as Hr. split.
    + pose proof (Z.div_pos (Z.min max_duration (Z.abs (now - t))) SEC ltac:(lia) ltac:(done)). lia.
    + apply round_mono; lia.
  - intros Hmax. rewrite Z.min_l; [done|]. vm_compute. reflexivity.
Qed.

Lemma Timeago_near_witness :
  Timeago (1000 * SEC) (-149000 * SEC) = "1 day ago" ∧
  ∃ p, Timeago (1000 * SEC) (-149000 * SEC) = text p +:+ " " +:+ (if -149000 * SEC <? 1000 * SEC then "ago" else "from now") ∧
    Z.abs (nominal p * SEC - Z.abs (1000 * SEC - -149000 * SEC)) ≤ (slack p + 1) * SEC.
Proof. split; [vm_compute; reflexivity|]. apply (Timeago_near (1000 * SEC) (-149000 * SEC)). done. Defined.
Lemma Timeago_mono_witness :
  Timeago 0 (-100 * SEC) = "2 minutes ago" ∧ Timeago 0 (7200 * SEC) = "about 2 hours from now" ∧
  ∃ p p', Timeago 0 (-100 * SEC) = text p +:+ " " +:+ (if -100 * SEC <? 0 then "ago" else "from now") ∧
    Timeago 0 (7200 * SEC) = text p' +:+ " " +:+ (if 7200 * SEC <? 0 then "ago" else "from now") ∧
    nominal p ≤ nominal p' ∧ (max_duration ≤ Z.abs (0 - -100 * SEC) → p = OverYears 292).
Proof. split_and!; [vm_compute; reflexivity..|]. apply (Timeago_mono 0 (-100 * SEC) (7200 * SEC)). done. Defined.
