(* ===== verification/Locale.v ===== *)
(** * Languages (src/webui/context.go, and what uses them in helpers.go and web.go)

    Every request gets a context: the language its cookie or its browser asks for, and the
    table of the texts in it.  A table is read from its file when it is first needed and
    kept; the tables read so far are the state. *)
From S2P Require Import Prelude GoStrings.

#[local] Open Scope list_scope.

(** ** Go's [strings], where the code uses them *)

(** [ToLower].  Of the letters outside ASCII only the Kelvin sign and the dotted capital I
    have their lower case in it; the others stay outside and are kept, which makes no
    difference to a search among names in ASCII. *)
Definition lower (c : ascii) : ascii :=
  let n := byte_val c in if (65 <=? n) && (n <=? 90) then chr (n + 32) else c.
Fixpoint ToLower (s : string) : string :=
  match s with
  | String c1 (String c2 t2 as t1) =>
      if (byte_val c1 =? 196) && (byte_val c2 =? 176) then String "i" (ToLower t2)
      else
        match t2 with
        | String c3 t3 =>
            if (byte_val c1 =? 226) && (byte_val c2 =? 132) && (byte_val c3 =? 170) then String "k" (ToLower t3)
            else String (lower c1) (ToLower t1)
        | EmptyString => String (lower c1) (ToLower t1)
        end
  | String c EmptyString => String (lower c) ""
  | EmptyString => ""
  end.
(** [Trim] of spaces. *)
Fixpoint trim_left_sp (s : string) : string :=
  match s with String " " t => trim_left_sp t | _ => s end.
Fixpoint trim_right_sp (s : string) : string :=
  match s with
  | String c t => let t' := trim_right_sp t in if bool_decide (c = " "%char) && bool_decide (t' = "") then "" else String c t'
  | EmptyString => ""
  end.
Definition Trim_sp (s : string) : string := trim_right_sp (trim_left_sp s).

(** ** Tables *)

(** [localeMap]: every name there is, with its table or nil. *)
Definition table : Type := gmap string string.
Definition localeMap : Type := gmap string (option table).
(** [init]: the names of the files, up to the first dot. *)
Definition add_name (ls : localeMap) (file : string) : localeMap :=
  match split_char "." file with name :: _ => <[name := None]> ls | [] => ls end.
Definition init (files : list string) : localeMap := foldl add_name ∅ files.

(** [bufio.Scanner]: lines of less than 64 KB; it stops at a longer one. *)
Fixpoint scan_lines (lines : list string) : list string :=
  match lines with
  | [] => []
  | l :: ls => if slen l <? 65536 then l :: scan_lines ls else []
  end.
Definition add_line (strs : table) (line : string) : table :=
  match split_char ":" line with
  | [k; v] => <[trim_space k := trim_space v]> strs
  | _ => strs
  end.
Definition add_file (strs : table) (content : string) : table :=
  foldl add_line strs (scan_lines (split_char (chr 10) content)).

Section with_files.
(** [AssetLookups]: the files compiled into the program. *)
Context (AssetLookups : list (string → option string)).

Definition load (locale : string) : table :=
  foldl (λ strs finder,
    match finder ("static/locales/" +:+ locale +:+ ".yml") with
    | Some content => add_file strs content
    | None => strs
    end) ∅ AssetLookups.
Definition translations (locale : string) (locales : localeMap) : option table * localeMap :=
  match locales !! locale with
  | Some (Some strs) => (Some strs, locales)
  | None => (None, locales)
  | Some None => let strs := load locale in (Some strs, <[locale := Some strs]> locales)
  end.

(** ** The language of a request *)

Definition acceptableLanguages (header : string) : list string :=
  map (λ pair, match split_char ";" (Trim_sp pair) with s :: _ => ToLower s | [] => "" end) (split_char "," header).
Fixpoint exact_language (langs : list string) (locales : localeMap) : option string * localeMap :=
  match langs with
  | [] => (None, locales)
  | lang :: langs' =>
      match translations lang locales with
      | (Some _, locales') => (Some lang, locales')
      | (None, locales') => exact_language langs' locales'
      end
  end.
Fixpoint base_language (langs : list string) (locales : localeMap) : option string * localeMap :=
  match langs with
  | [] => (None, locales)
  | lang :: langs' =>
      match split_char "-" lang with
      | [baselang; _] =>
          match translations baselang locales with
          | (Some _, locales') => (Some baselang, locales')
          | (None, locales') => base_language langs' locales'
          end
      | _ => base_language langs' locales
      end
  end.
Definition localeFromHeader (value : string) (locales : localeMap) : string * localeMap :=
  if bool_decide (value = "") then ("en", locales)
  else
    let langs := acceptableLanguages value in
    match exact_language langs locales with
    | (Some lang, locales') => (lang, locales')
    | (None, locales') =>
        match base_language langs locales' with
        | (Some lang, locales'') => (lang, locales'')
        | (None, locales'') => ("en", locales'')
        end
    end.

(** The context, as far as the language goes; a request is its cookie, if it has one, and
    its [Accept-Language]. *)
Record DefaultContext := mkContext { locale : string; strings : option table }.
Definition asked : Type := option string * string.
Definition NewContext (req : asked) (locales : localeMap) : DefaultContext * localeMap :=
  let cookie := default "" req.1 in
  let '(loc, locales') := if bool_decide (cookie = "") then localeFromHeader req.2 locales else (cookie, locales) in
  let '(strs, locales'') := translations loc locales' in
  (mkContext loc strs, locales'').
Fixpoint requests (reqs : list asked) (locales : localeMap) : localeMap :=
  match reqs with [] => locales | r :: rs => requests rs (NewContext r locales).2 end.

Definition Translation (d : DefaultContext) (str : string) : string :=
  match d.(strings) with Some m => default str (m !! str) | None => str end.
Definition rtl (d : DefaultContext) : bool := bool_decide (Translation d "TextDirection" = "rtl").
Definition textDir (d : DefaultContext) : string :=
  let dir := Translation d "TextDirection" in if bool_decide (dir = "") then "ltr" else dir.

(** ** What the language is, without the state *)

Definition available (locales : localeMap) (l : string) : bool := bool_decide (l ∈ dom locales).
Definition base_of (lang : string) : option string :=
  match split_char "-" lang with [b; _] => Some b | _ => None end.
(** The cookie; else the first language there is a table of; else the first there is one
    of without its region; else English. *)
Definition language_of (req : asked) (names : localeMap) : string :=
  let cookie := default "" req.1 in
  if bool_decide (cookie = "") then
    let langs := if bool_decide (req.2 = "") then [] else acceptableLanguages req.2 in
    match List.find (available names) langs with
    | Some l => l
    | None => default "en" (List.find (available names) (omap base_of langs))
    end
  else cookie.
Definition table_of (names : localeMap) (l : string) : option table :=
  if available names l then Some (load l) else None.

(** The state holds what the files hold. *)
Definition sound (locales : localeMap) : Prop :=
  ∀ l strs, locales !! l = Some (Some strs) → strs = load l.

Lemma translations_spec l ls :
  sound ls → (translations l ls).1 = table_of ls l ∧ sound (translations l ls).2 ∧ dom (translations l ls).2 = dom ls.
Proof.
  intros Hs. rw /translations /table_of /available. destruct (ls !! l) as [[strs|]|] eqn:E; cbn.
  - rewrite bool_decide_eq_true_2; [apply elem_of_dom; eauto|]. by rewrite (Hs l strs E).
  - assert (Hl : l ∈ dom ls) by (apply elem_of_dom; eauto).
    rewrite bool_decide_eq_true_2 //. split_and!; [done| |by rewrite dom_insert_lookup_L].
    intros l' strs [[<- [= <-]]|[_ K]]%lookup_insert_Some; [done|by apply Hs].
  - rewrite bool_decide_eq_false_2; [by apply not_elem_of_dom|done].
Qed.
Lemma available_dom ls ls' l : dom ls = dom ls' → available ls l = available ls' l.
Proof. intros E. by rw /available E. Qed.
Lemma find_dom ls ls' langs : dom ls = dom ls' → List.find (available ls) langs = List.find (available ls') langs.
Proof. intros E. induction langs as [|l langs IH]; cbn; [done|]. by rw (available_dom ls ls' l E) IH. Qed.

Lemma exact_language_spec langs ls :
  sound ls → (exact_language langs ls).1 = List.find (available ls) langs ∧
    sound (exact_language langs ls).2 ∧ dom (exact_language langs ls).2 = dom ls.
Proof.
  revert ls. induction langs as [|lang langs IH]; intros ls Hs; cbn; [done|].
  destruct (translations_spec lang ls Hs) as (E & Hs' & Hd). rw /table_of in E.
  destruct (translations lang ls) as [[strs|] ls']; cbn in E, Hs', Hd |- *; destruct (available ls lang); try done.
  destruct (IH ls' Hs') as (E1 & E2 & E3). rw E1 (find_dom ls' ls) // E3. done.
Qed.
Lemma base_language_spec langs ls :
  sound ls → (base_language langs ls).1 = List.find (available ls) (omap base_of langs) ∧
    sound (base_language langs ls).2 ∧ dom (base_language langs ls).2 = dom ls.
Proof.
  revert ls. induction langs as [|lang langs IH]; intros ls Hs; cbn; [done|]. rw /base_of.
  destruct (split_char "-" lang) as [|b [|r [|]]]; cbn; [by apply IH|by apply IH| |by apply IH].
  destruct (translations_spec b ls Hs) as (E & Hs' & Hd). rw /table_of in E.
  destruct (translations b ls) as [[strs|] ls']; cbn in E, Hs', Hd |- *; destruct (available ls b); try done.
  destruct (IH ls' Hs') as (E1 & E2 & E3). rw E1 (find_dom ls' ls) // E3. done.
Qed.
Lemma NewContext_sound r ls :
  sound ls → (NewContext r ls).1 = mkContext (language_of r ls) (table_of ls (language_of r ls)) ∧
    sound (NewContext r ls).2 ∧ dom (NewContext r ls).2 = dom ls.
Proof.
  intros Hs. rw /NewContext /language_of.
  set (p := if bool_decide _ then localeFromHeader r.2 ls else _). set (loc := if bool_decide _ then _ else _).
  assert (Hp : p.1 = loc ∧ sound p.2 ∧ dom p.2 = dom ls).
  { rw /p /loc. destruct (bool_decide (default "" r.1 = "")); [|done]. rw /localeFromHeader. destruct (bool_decide (r.2 = "")); [done|].
    destruct (exact_language_spec (acceptableLanguages r.2) ls Hs) as (E1 & S1 & D1).
    destruct (exact_language _ ls) as [[l|] ls']; cbn in E1, S1, D1; rw -E1; [done|].
    destruct (base_language_spec (acceptableLanguages r.2) ls' S1) as (E2 & S2 & D2).
    destruct (base_language _ ls') as [o ls'']; cbn in E2, S2, D2.
    rewrite (find_dom ls' ls) // in E2. rw -E2. destruct o; cbn; rw D2; done. }
  destruct p as [l ls']. cbn in Hp. destruct Hp as (-> & Hs' & Hd). clearbody loc.
  destruct (translations_spec loc ls' Hs') as (E & Hs'' & Hd'). destruct (translations loc ls') as [strs ls'']. cbn in E, Hs'', Hd' |- *.
  rw E /table_of (available_dom ls' ls) // Hd'. done.
Qed.
End with_files.

(** ** Every request *)

Section every_request.
Context (AssetLookups : list (string → option string)) (files : list string).
Notation requests := (requests AssetLookups).
Notation NewContext := (NewContext AssetLookups).

Lemma init_none (ls : localeMap) l x :
  (∀ l x, ls !! l = Some x → x = None) → foldl add_name ls files !! l = Some x → x = None.
Proof.
  revert ls. induction files as [|f fs IH]; intros ls Hls; cbn; [apply Hls|]. apply IH. intros l' x'. rw /add_name.
  destruct (split_char "." f) as [|name rest]; [apply Hls|]. intros [[_ <-]|[_ K]]%lookup_insert_Some; [done|by apply (Hls l')].
Qed.
Lemma init_sound : sound AssetLookups (init files).
Proof. intros l strs E. by apply init_none in E. Qed.
Lemma requests_sound reqs :
  sound AssetLookups (requests reqs (init files)) ∧ dom (requests reqs (init files)) = dom (init files).
Proof.
  pose proof init_sound as Hs. revert Hs. generalize (init files). induction reqs as [|r rs IH]; intros ls Hs; cbn; [done|].
  destruct (NewContext_sound _ r ls Hs) as (_ & Hs' & Hd). destruct (IH _ Hs') as [H1 H2]. by rw H2.
Qed.

(** C22. Whatever was asked before, a request's language is its cookie's; without one, the
    first the browser names that there is a table of, else the first there is one of once
    the region is cut off, else English; and its texts are those of the language's files.
    Tables that are kept are not seen, and no name is ever added. *)
Theorem context_of_request reqs r :
  (NewContext r (requests reqs (init files))).1 =
    mkContext (language_of r (init files)) (table_of AssetLookups (init files) (language_of r (init files))) ∧
  dom (requests reqs (init files)) = dom (init files).
Proof.
  destruct (requests_sound reqs) as [Hs Hd]. destruct (NewContext_sound _ r _ Hs) as (E & _ & _). split; [|done]. rw E.
  assert (E1 : language_of r (requests reqs (init files)) = language_of r (init files)).
  { rw /language_of. destruct (bool_decide _); [|done]. by rewrite !(find_dom _ (init files)). }
  by rw E1 /table_of (available_dom _ (init files)).
Qed.
End every_request.

(** A page is laid out from left to right, as meant for most languages, only if the
    language's table says "ltr" or has an empty text for it: where the table has none, as
    in 23 of the 27 files, the direction is the name of the text itself. *)
Theorem textDir_needs_a_text d :
  (textDir d = "ltr" ↔ ∃ m x, d.(strings) = Some m ∧ m !! "TextDirection" = Some x ∧ (x = "" ∨ x = "ltr")) ∧
  ((m ← d.(strings); m !! "TextDirection") = None → textDir d = "TextDirection" ∧ rtl d = false).
Proof.
  rw /textDir /rtl /Translation. destruct d as [l [m|]]; cbn; [|naive_solver].
  destruct (m !! "TextDirection") as [x|] eqn:E; cbn.
  - case_bool_decide; naive_solver.
  - naive_solver.
Qed.

(** ** The files *)

Definition entry_line (e : string * string) : string := "  " +:+ e.1 +:+ ": " +:+ e.2.
Definition file_of (entries : list (string * string)) : string :=
  String.concat "" (map (λ e, entry_line e +:+ LF) entries).
Definition plain_entry (e : string * string) : Prop :=
  no_char ":" e.1 = true ∧ no_char (chr 10) e.1 = true ∧ no_char (chr 10) e.2 = true ∧
  trim_space e.1 = e.1 ∧ trim_space e.2 = e.2 ∧ slen e.1 + slen e.2 < 65000.

Lemma split_char_single c s a : split_char c s = [a] → no_char c s = true.
Proof.
  revert a. induction s as [|x s IH]; intros a; cbn; [done|]. case_bool_decide as Hx; cbn.
  - intros [= _ K]. by apply split_char_nonempty in K.
  - destruct (split_char c s) as [|w [|]] eqn:E; intros [= _]; [by apply split_char_nonempty in E|by apply (IH w)].
Qed.
Lemma trim_left_cons s : trim_left (String " " s) = trim_left s.
Proof. done. Qed.
Lemma add_entry_line strs e :
  plain_entry e → add_line strs (entry_line e) = if no_char ":" e.2 then <[e.1 := e.2]> strs else strs.
Proof.
  destruct e as [k v]. intros (K1 & _ & _ & T1 & T2 & _). rw /add_line /entry_line. cbn [fst snd] in *.
  assert (E : "  " +:+ k +:+ ": " +:+ v = ("  " +:+ k) +:+ String ":" (String " " v)) by (by rw app_str_assoc).
  rw E split_char_app; [done|]. destruct (no_char ":" v) eqn:V.
  - rw (split_char_no ":" (String " " v)) //. rw /trim_space. cbn [String.append]. rw !trim_left_cons. fold (trim_space k) (trim_space v). by rw T1 T2.
  - destruct (split_char ":" (String " " v)) as [|a [|b l]] eqn:S; [done| |done].
    apply split_char_single in S. apply andb_true_iff in S as [_ S]. change (no_char ":" v = true) in S. by rewrite V in S.
Qed.
Lemma slen_app a b : slen (a +:+ b) = slen a + slen b.
Proof. rw /slen length_app_str. lia. Qed.

(** A language's file is read as it is written: entries of an indented name, a colon and
    a text, one to a line, give the table of those names and texts, the last one where a
    name comes twice; except that an entry whose text has a colon in it is lost. *)
Theorem file_gives_table entries strs :
  Forall plain_entry entries →
  add_file strs (file_of entries) =
    foldl (λ strs e, if no_char ":" e.2 then <[e.1 := e.2]> strs else strs) strs entries.
Proof.
  rw /add_file. revert strs. induction entries as [|e es IH]; intros strs He; [done|].
  apply Forall_cons in He as [He Hes].
  assert (E : file_of (e :: es) = entry_line e +:+ String (chr 10) (file_of es)).
  { rw /file_of. cbn [map String.concat]. destruct (map (λ e, entry_line e +:+ LF) es) as [|x xs] eqn:Em.
    - done.
    - rw app_str_assoc. done. }
  rw E split_char_app.
  - pose proof He as (_ & K & V & _). rw /entry_line !no_char_app K V. done.
  - cbn [scan_lines]. destruct (Z.ltb_spec (slen (entry_line e)) 65536) as [_|Hl].
    + cbn [foldl]. rw add_entry_line //. by apply IH.
    + exfalso. destruct He as (_ & _ & _ & _ & _ & Hs). rewrite /entry_line !slen_app in Hl. change (slen "  ") with 2 in Hl. change (slen ": ") with 2 in Hl. lia.
Qed.

(** ** Witnesses: two files *)

Module Files.
Definition lookup_file (name : string) : option string :=
  if bool_decide (name = "static/locales/fr.yml") then Some (file_of [("Home", "Accueil"); ("TextDirection", "ltr")])
  else if bool_decide (name = "static/locales/en.yml") then Some (file_of [("Home", "Home"); ("LastRetry", "Last: retry")])
  else None.
Definition names : list string := ["en.yml"; "fr.yml"].
Definition hindi : list (string * string) := [("Queue", "q"); ("NextRetry", "a:b"); ("Queue", "queue")].
End Files.

Example language1 : language_of (None, "sv-SE, fr-CA;q=0.8, de") (init Files.names) = "fr".
Proof. vm_compute. reflexivity. Qed.
Example language2 : language_of (None, "en-US,fr;q=0.1") (init Files.names) = "fr".
Proof. vm_compute. reflexivity. Qed.
Example direction1 :
  textDir (NewContext [Files.lookup_file] (None, "fr") (init Files.names)).1 = "ltr" ∧
  textDir (NewContext [Files.lookup_file] (None, "en") (init Files.names)).1 = "TextDirection".
Proof. vm_compute. done. Qed.

Lemma file_gives_table_witness :
  Forall plain_entry Files.hindi ∧ add_file ∅ (file_of Files.hindi) = {[ "Queue" := "queue" ]}.
Proof.
  assert (H : Forall plain_entry Files.hindi) by (repeat constructor; vm_compute; done).
  split; [exact H|]. rewrite (file_gives_table Files.hindi ∅ H). vm_compute. reflexivity.
Defined.
