(* ===== verification/Config.v ===== *)
(** * Configuration and passwords (src/cli/cli.go, src/server/config.go)

    From the environment and the configuration files to the options of the server.  The
    process's environment, the files, TOML and the boot of Redis are parameters; flags,
    signals and logging are not modelled. *)
From S2P Require Import Prelude GoStrings.

#[local] Open Scope list_scope.

(** ** What was read

    A section that is not a table is [None], and so is a value that is not a text. *)
Definition section : Type := gmap string (option string).
Definition config : Type := gmap string (option section).

Definition stringConfig (cfg : config) (subsys elm defval : string) : string :=
  match cfg !! subsys with
  | Some (Some mappp) => match mappp !! elm with Some (Some sval) => sval | _ => defval end
  | _ => defval
  end.

Record ServerOptions := mkServerOptions {
  so_Binding : string; so_Environment : string; so_Password : string; GlobalConfig : config
}.
Definition set_GlobalConfig (cfg : config) (so : ServerOptions) : ServerOptions :=
  mkServerOptions so.(so_Binding) so.(so_Environment) so.(so_Password) cfg.
(** [Config]: the value, if it is there; the default is a text wherever it is called. *)
Definition Config (so : ServerOptions) (subsys key defval : string) : option string :=
  match so.(GlobalConfig) !! subsys with
  | Some (Some maps) => default (Some defval) (maps !! key)
  | _ => Some defval
  end.
Definition so_String (so : ServerOptions) (subsys key defval : string) : string :=
  match Config so subsys key defval with Some str => str | None => defval end.

Section with_system.
Context (LookupEnv : string → option string) (ReadFile : string → string + goerr) (FileExists : string → bool).
Context (Unmarshal : string → config + goerr) (Boot : option goerr).

(** The files of the directory, in order, as one text. *)
Definition readConfig (files : list string) : config + goerr :=
  (fix combine (fs : list string) (combined : string) : config + goerr :=
     match fs with
     | [] => Unmarshal combined
     | file :: fs' =>
         match ReadFile file with
         | inl fileBytes => combine fs' (combined +:+ fileBytes +:+ LF)
         | inr e => inr e
         end
     end) files "".

Definition skip : bool :=
  match LookupEnv "FAKTORY_SKIP_PASSWORD" with
  | Some val => bool_decide (val = "1") || bool_decide (val = "true") || bool_decide (val = "yes")
  | None => false
  end.
Definition needs_password : goerr :=
  ErrMsg "Faktory requires a password to be set in staging or production, see the Security wiki page".
(** [cfg["faktory"]["password"]] is a text here, so the section is a table. *)
Definition clear_password (cfg : config) : config :=
  match cfg !! "faktory" with
  | Some (Some x) => <["faktory" := Some (<["password" := Some "********"]> x)]> cfg
  | _ => cfg
  end.
(** From the environment, else from the configuration, which loses it. *)
Definition given_password (cfg : config) : string * config :=
  match LookupEnv "FAKTORY_PASSWORD" with
  | Some val => (val, cfg)
  | None =>
      let val := stringConfig cfg "faktory" "password" "" in
      if bool_decide (val = "") then ("", cfg) else (val, clear_password cfg)
  end.
(** A path is that of the file the password is in. *)
Definition resolve (password : string) : string + goerr :=
  if has_prefix "/" password
  then match ReadFile password with inl data => inl (trim_space data) | inr e => inr e end
  else inl password.
Definition fetchPassword (cfg : config) (env : string) : (string + goerr) * config :=
  let '(password, cfg) := given_password cfg in
  let strict := negb (bool_decide (env = "development")) && negb skip in
  let password :=
    if strict && bool_decide (password = "") && FileExists "/etc/faktory/password"
    then "/etc/faktory/password" else password in
  match resolve password with
  | inr e => (inr e, cfg)
  | inl password => if strict && bool_decide (password = "") then (inr needs_password, cfg) else (inl password, cfg)
  end.

(** [ParseArguments], as far as the environment goes: the flag, if it was given; the process
    ends when it is not one of the three. *)
Definition environment (flag : option string) : option string :=
  let fenv := match LookupEnv "FAKTORY_ENV" with None | Some "" => "development" | Some e => e end in
  let env := default fenv flag in
  if bool_decide (env ∈ ["development"; "staging"; "production"]) then Some env else None.

Definition BuildServer (files : list string) (CmdBinding Environment : string) : ServerOptions + goerr :=
  match readConfig files with
  | inr e => inr e
  | inl globalConfig =>
      match fetchPassword globalConfig Environment with
      | (inr e, _) => inr e
      | (inl pwd, globalConfig) =>
          match Boot with
          | Some e => inr e
          | None =>
              let binding := if bool_decide (CmdBinding = "localhost:7419")
                             then stringConfig globalConfig "faktory" "binding" "localhost:7419" else CmdBinding in
              inl (mkServerOptions binding Environment pwd globalConfig)
          end
      end
  end.
(** The configuration half of [reload]. *)
Definition reload (files : list string) (so : ServerOptions) : option ServerOptions :=
  match readConfig files with inl globalConfig => Some (set_GlobalConfig globalConfig so) | inr _ => None end.

(** ** What they promise *)

Lemma fetch_strict cfg env pwd cfg' :
  env ≠ "development" → skip = false → fetchPassword cfg env = (inl pwd, cfg') → pwd ≠ "".
Proof.
  intros He Hs. rw /fetchPassword Hs (bool_decide_eq_false_2 (env = "development")) //. cbv zeta. cbn [negb andb].
  destruct (given_password cfg) as [p c]. destruct (resolve _) as [p'|e]; [|done]. case_bool_decide; [done|]. by intros [= <- _].
Qed.
Lemma fetch_config cfg env : (fetchPassword cfg env).2 = (given_password cfg).2.
Proof. rw /fetchPassword. destruct (given_password cfg) as [p c]. destruct (resolve _); [|done]. by case_match. Qed.
Lemma clear_other cfg sub elm d :
  ¬ (sub = "faktory" ∧ elm = "password") → stringConfig (clear_password cfg) sub elm d = stringConfig cfg sub elm d.
Proof.
  intros Hne. rw /stringConfig /clear_password. destruct (cfg !! "faktory") as [[x|]|] eqn:E; [|done..].
  destruct (decide (sub = "faktory")) as [->|Hs]; [|rw lookup_insert_ne; [congruence|done]].
  rw lookup_insert_eq E lookup_insert_ne //. intros <-. by destruct Hne.
Qed.
Lemma clear_it cfg d :
  stringConfig cfg "faktory" "password" "" ≠ "" → stringConfig (clear_password cfg) "faktory" "password" d = "********".
Proof.
  rw /stringConfig /clear_password. destruct (cfg !! "faktory") as [[x|]|] eqn:E; [|done..]. intros _. by rw !lookup_insert_eq.
Qed.

Lemma build_strict files bind env so :
  env ≠ "development" → skip = false → BuildServer files bind env = inl so → so.(so_Password) ≠ "".
Proof.
  intros He Hs. rw /BuildServer. destruct (readConfig files) as [cfg|]; [|done].
  destruct (fetchPassword cfg env) as [[pwd|e] cfg'] eqn:E; [|done]. destruct Boot; [done|]. intros [= <-].
  by apply (fetch_strict cfg env pwd cfg').
Qed.

(** A server that is built outside development, unless it is told to skip this, has a
    password.  The configuration it is built with, which is logged, no longer holds the
    password it was taken from, and is otherwise as it was read; but with the password given
    by the environment the one in the files is left in it. *)
Theorem server_has_password files bind env so cfg :
  readConfig files = inl cfg → BuildServer files bind env = inl so →
  (env ≠ "development" → skip = false → so.(so_Password) ≠ "") ∧
  (LookupEnv "FAKTORY_PASSWORD" = None →
     stringConfig so.(GlobalConfig) "faktory" "password" "" ∈ [""; "********"]) ∧
  (is_Some (LookupEnv "FAKTORY_PASSWORD") → so.(GlobalConfig) = cfg) ∧
  ∀ sub elm d, ¬ (sub = "faktory" ∧ elm = "password") → stringConfig so.(GlobalConfig) sub elm d = stringConfig cfg sub elm d.
Proof.
  intros Hr Hb. split; [intros He Hs; by apply (build_strict files bind env so)|]. move: Hb. rw /BuildServer Hr. destruct (fetchPassword cfg env) as [[pwd|e] cfg'] eqn:E; [|done]. destruct Boot; [done|].
  intros [= <-]. cbn [GlobalConfig].
  pose proof (fetch_config cfg env) as Hc. rewrite E in Hc. cbn [snd] in Hc.
  rw Hc /given_password. split_and!.
  - intros ->. case_bool_decide as Hp; [rw Hp; by left|]. rw clear_it //. right. by left.
  - by intros [v ->].
  - intros sub elm d Hne. destruct (LookupEnv _); [done|]. case_bool_decide; [done|]. by apply clear_other.
Qed.

End with_system.

(** ** A production server *)

Module Production.
Definition files : list string := ["/etc/faktory/conf.d/a.toml"].
Definition read (f : string) : string + goerr :=
  if bool_decide (f = "/run/secrets/pw") then inl ("s3cret" +:+ LF) else inl "".
Definition cfg : config := {[ "faktory" := Some {[ "password" := Some "/run/secrets/pw" ]} ]}.
Definition toml (_ : string) : config + goerr := inl cfg.
Definition environ (v : string) : option string := None.
Definition built : ServerOptions + goerr := BuildServer environ read (λ _, false) toml None files "localhost:7419" "production".
Definition options : ServerOptions :=
  match built with inl so => so | inr _ => mkServerOptions "" "" "" ∅ end.
End Production.

Lemma server_has_password_witness :
  Production.built = inl Production.options ∧ so_Password Production.options = "s3cret" ∧ so_Password Production.options ≠ "" ∧
    stringConfig (GlobalConfig Production.options) "faktory" "password" "" ∈ [""; "********"].
Proof.
  assert (E : Production.built = inl Production.options) by (vm_compute; reflexivity).
  split; [exact E|]. split; [vm_compute; reflexivity|].
  destruct (server_has_password Production.environ Production.read (λ _, false) Production.toml None Production.files
    "localhost:7419" "production" Production.options Production.cfg eq_refl E) as (K1 & K2 & _).
  split; [apply K1; [discriminate|vm_compute; reflexivity]|apply K2; vm_compute; reflexivity].
Defined.
