(* ===== verification/Pages.v ===== *)
(** * The web pages' requests (src/webui/web.go, src/webui/pages.go)

    From a request as Go's server hands it over to the answer: the two multiplexers, the
    proxy's prefix, the password, and the handler of every page; then the web interface's
    life: start, reload and shutdown.  A rendered page is named, with what its template is
    given; the templates are in Draw.v, and the language of the page is in Locale.v.
    [nosurf], the third-party check against forged requests, is a parameter. *)
From S2P Require Import Prelude GoStrings Float64 GoTime Scores Json Job Redis Store SortedSet Manager Workers Server Helpers Instances Config.

#[local] Open Scope list_scope.

(** ** Requests and answers *)

(** [Path] and [Query] are [r.URL]'s; [BasicAuth] and [Form] are what the methods of
    those names find; forms are URL-encoded, as the pages send them. *)
Record request := mkRequest {
  Method : string; Path : string; RequestURI : string; ScriptName : string;
  BasicAuth : option (string * string);
  Query : gmap string (list string);
  FormError : option string; Form : gmap string (list string)
}.
Definition set_target (path uri : string) (r : request) : request :=
  mkRequest r.(Method) path uri r.(ScriptName) r.(BasicAuth) r.(Query) r.(FormError) r.(Form).
Definition FormValue (r : request) (k : string) : string :=
  match r.(Form) !! k with Some (v :: _) => v | _ => "" end.
Definition posted (r : request) : bool := bool_decide (r.(Method) = "POST").

Inductive page :=
| PIndex | PQueues | PBusy | PDebug
| PStats (state : json)
| PQueue (q : redisQueue) (count currentPage : Z)
| PSet (set : string) (count currentPage : Z)
| PJob (set key : string) (job : Job).
Inductive response :=
| Render (p : page)
| HttpError (code : Z) (msg : string)
| RedirectTo (path : string) (code : Z)
| StaticFile (path : string).

(** ** Paths *)

(** [path.Clean] of a rooted path: no empty, "." or ".." elements. *)
Fixpoint clean_elements (l : list string) (acc : list string) : list string :=
  match l with
  | [] => rev acc
  | e :: l' =>
      if bool_decide (e = "") || bool_decide (e = ".") then clean_elements l' acc
      else if bool_decide (e = "..") then clean_elements l' (tail acc)
      else clean_elements l' (e :: acc)
  end.
Definition path_Clean (p : string) : string := "/" +:+ join "/" (clean_elements (split_char "/" p) []).
Definition ends_slash (p : string) : bool :=
  match List.rev (split_char "/" p) with "" :: _ :: _ => true | _ => false end.
(** net/http's [cleanPath]. *)
Definition cleanPath (p : string) : string :=
  if bool_decide (p = "") then "/"
  else
    let p := if has_prefix "/" p then p else "/" +:+ p in
    let np := path_Clean p in
    if ends_slash p && negb (bool_decide (np = "/")) then np +:+ "/" else np.

(** The last element of a path, as [LAST_ELEMENT] has it. *)
Definition last_element (s : string) : option string :=
  match List.rev (split_char "/" s) with
  | x :: _ :: _ => if bool_decide (x = "") then None else Some x
  | _ => None
  end.
(** [url.QueryUnescape]. *)
Fixpoint QueryUnescape (s : string) : option string :=
  match s with
  | EmptyString => Some ""
  | String c t =>
      if bool_decide (c = "%"%char) then
        match t with
        | String a (String b t') =>
            x ← hex_val a; y ← hex_val b; rest ← QueryUnescape t'; Some (String (chr (16 * x + y)) rest)
        | _ => None
        end
      else rest ← QueryUnescape t; Some (String (if bool_decide (c = "+"%char) then " "%char else c) rest)
  end.
(** [base64.RawURLEncoding]: line ends are skipped, and the last group is short. *)
Definition b64_val (c : ascii) : option Z :=
  let b := byte_val c in
  if (65 <=? b) && (b <=? 90) then Some (b - 65)
  else if (97 <=? b) && (b <=? 122) then Some (b - 71)
  else if (48 <=? b) && (b <=? 57) then Some (b + 4)
  else if b =? 45 then Some 62
  else if b =? 95 then Some 63
  else None.
Fixpoint b64_bytes (l : list Z) : option (list Z) :=
  match l with
  | [] => Some []
  | [_] => None
  | [a; b] => Some [a * 4 + b `div` 16]
  | [a; b; c] => Some [a * 4 + b `div` 16; b `mod` 16 * 16 + c `div` 4]
  | a :: b :: c :: d :: l' =>
      rest ← b64_bytes l';
      Some (a * 4 + b `div` 16 :: b `mod` 16 * 16 + c `div` 4 :: c `mod` 4 * 64 + d :: rest)
  end.
Definition DecodeString (s : string) : option string :=
  let chars := List.filter (λ c, negb ((byte_val c =? 13) || (byte_val c =? 10))) (list_ascii_of_string s) in
  vals ← mapM b64_val chars; bytes ← b64_bytes vals; Some (of_bytes bytes).
(** [strings.Replace(s, old, "", 1)]. *)
Definition remove_first (old s : string) : string :=
  let i := index_of s old in
  if i <? 0 then s else take_str (Z.to_nat i) s +:+ drop_str (Z.to_nat i + String.length old) s.

(** ** Handlers *)

Section handlers.
Context `{Redis}.
Context (fuel : nat) (MemoryUsageMB : Z) (nosurf : request → bool).

Definition handler : Type := request → M server response.
Definition relative (r : request) (path : string) : string := r.(ScriptName) +:+ path.
Definition redirect (r : request) (path : string) (code : Z) : M server response :=
  retM (RedirectTo (relative r path) code).
Definition http_error (code : Z) (msg : string) : M server response := retM (HttpError code msg).
(** [if err != nil { http.Error(w, err.Error(), 500); return }] *)
Definition or_500 {A} (m : M server A) (k : A → M server response) : M server response :=
  let* r := tryM m in
  match r with inl a => k a | inr e => http_error 500 (err_text e) end.

(** [?page=]: an [int] read as unsigned. *)
Definition with_page (r : request) (k : Z → M server response) : M server response :=
  match r.(Query) !! "page" with
  | None => k 1
  | Some (p :: _) =>
      match atoi p with Some val => k (wrapu64 val) | None => http_error 400 "Invalid parameter" end
  | Some [] => panicM "index out of range"
  end.

Definition statsHandler : handler := λ r, or_500 (CurrentState MemoryUsageMB) (λ hash, retM (Render (PStats hash))).
Definition indexHandler : handler := λ r, retM (Render PIndex).
Definition queuesHandler : handler := λ r, retM (Render PQueues).
Definition debugHandler : handler := λ r, retM (Render PDebug).

(** A form with no job checked acts on the whole queue. *)
Definition queueHandler : handler := λ r,
  match last_element r.(Path) with
  | None => http_error 400 "Invalid input"
  | Some queueName =>
      or_500 (on_mgr (GetQueue queueName)) (λ q,
        if posted r then
          match r.(FormError) with
          | Some e => http_error 400 e
          | None =>
              match default [] (r.(Form) !! "bkey") with
              | (_ :: _) as keys =>
                  match mapM DecodeString keys with
                  | None => http_error 400 "illegal base64 data at input byte"
                  | Some bkeys => or_500 (on_mgr (q_Delete q bkeys)) (λ _, redirect r ("/queues/" +:+ queueName) 302)
                  end
              | [] =>
                  let action := FormValue r "action" in
                  let back := redirect r "/queues" 302 in
                  if bool_decide (action = "delete") then or_500 (on_mgr (q_Clear q)) (λ _, back)
                  else if bool_decide (action = "pause") then or_500 (on_mgr (Pause q.(qname))) (λ _, back)
                  else if bool_decide (action = "resume") then or_500 (on_mgr (Resume q.(qname))) (λ _, back)
                  else back
              end
          end
        else with_page r (λ currentPage, retM (Render (PQueue q 25 currentPage))))
  end.

(** The three listings differ in their set and address only. *)
Definition act (set path : string) (keys : list string) (r : request) : M server response :=
  or_500 (let* now := Now in on_mgr (actOn fuel now set (FormValue r "action") keys)) (λ _, redirect r path 302).
Definition listing (set path : string) : handler := λ r,
  if posted r then act set path (default [] (r.(Form) !! "key")) r
  else with_page r (λ currentPage, retM (Render (PSet set 25 currentPage))).
Definition retriesHandler : handler := listing "retries" "/retries".
Definition scheduledHandler : handler := listing "scheduled" "/scheduled".
Definition morgueHandler : handler := listing "dead" "/morgue".

(** The pages of one job: [name] is taken from the address as it was sent. *)
Definition with_key (r : request) (k : string → M server response) : M server response :=
  match last_element r.(RequestURI) with
  | None => http_error 400 "Invalid input"
  | Some name =>
      match QueryUnescape name with None => http_error 400 "Invalid URL input" | Some key => k key end
  end.
Definition show_job (set path key : string) (check : Job → option string) (r : request) : M server response :=
  or_500 (on_mgr (ss_Get set key)) (λ data,
    match data with
    | None => redirect r path 307
    | Some e =>
        or_500 (ofOutcome (entry_Job e)) (λ job,
          match check job with
          | Some msg => http_error 500 msg
          | None => retM (Render (PJob set key job))
          end)
    end).
Definition not_a_retry (job : Job) : option string :=
  match job.(JFailure) with None => Some ("Job " +:+ job.(Jid) +:+ " is not a retry") | Some _ => None end.
Definition retryHandler : handler := λ r, with_key r (λ key,
  if posted r then act "retries" "/retries" [key] r else show_job "retries" "/retries" key not_a_retry r).
Definition scheduledJobHandler : handler := λ r, with_key r (λ key,
  if posted r then act "scheduled" "/scheduled" [key] r else show_job "scheduled" "/scheduled" key (λ _, None) r).
Definition deadHandler : handler := λ r, with_key r (λ key, show_job "dead" "/morgue" key (λ _, None) r).

Definition busyHandler : handler := λ r,
  if posted r then
    or_500 (zoomM (λ s, s.(snet).(reg)) (λ w s, set_snet (set_reg w s.(snet)) s)
              (Workers.busyHandler (FormValue r "wid") (FormValue r "signal")))
      (λ _, redirect r "/busy" 302)
  else retM (Render PBusy).
Definition GetOnly (h : handler) : handler := λ r,
  if bool_decide (r.(Method) = "GET") then h r else http_error 405 "get only".
(** Used by no route. *)
Definition PostOnly (h : handler) : handler := λ r,
  if posted r then h r else http_error 405 "post only".

(** ** The way to a handler *)

Definition basicAuth (pwd : string) (pass : handler) : handler := λ r,
  match r.(BasicAuth) with
  | None => http_error 401 "Authorization required"
  | Some (_, password) =>
      if bool_decide (password = pwd) then pass r else http_error 401 "Authorization failed"
  end.

(** What [newWeb] fixes for good: the options the handlers were wrapped with.  [Options]
    is the field, which changes. *)
Record Options := mkOptions { Binding : string; Password : string; EnableCSRF : bool }.
#[global] Instance options_eq_dec : EqDecision Options.
Proof. solve_decision. Defined.
Record WebUI := mkUI { options : Options; wrapped_with : Options }.
Definition setup (o : Options) (pass : handler) : handler :=
  if bool_decide (o.(Password) = "") then pass else basicAuth o.(Password) pass.
(** A request [nosurf] does not let pass is answered by it. *)
Definition protect (enabled : bool) (h : handler) : handler := λ r,
  if negb enabled || nosurf r then h r else http_error 400 "Bad Request".
Definition DebugLog (o : Options) (pass : handler) : handler := setup o pass.
Definition Log (o : Options) (pass : handler) : handler := protect o.(EnableCSRF) (setup o pass).
Definition staticHandler : handler := λ r, retM (StaticFile r.(Path)).

Definition routes (o : Options) : list (string * handler) :=
  [("/static/", staticHandler);
   ("/stats", DebugLog o statsHandler);
   ("/", Log o (GetOnly indexHandler));
   ("/queues", Log o queuesHandler);
   ("/queues/", Log o queueHandler);
   ("/retries", Log o retriesHandler);
   ("/retries/", Log o retryHandler);
   ("/scheduled", Log o scheduledHandler);
   ("/scheduled/", Log o scheduledJobHandler);
   ("/morgue", Log o morgueHandler);
   ("/morgue/", Log o deadHandler);
   ("/busy", Log o busyHandler);
   ("/debug", Log o debugHandler)].

(** net/http's [ServeMux] (Go 1.16): the pattern itself, else the longest pattern that
    ends in a slash and begins the path; a path that is not clean, or lacks the slash of
    the only pattern for it, is sent elsewhere. *)
Definition longest (path : string) (best : option (string * handler)) (pat : string * handler) : option (string * handler) :=
  if ends_slash pat.1 && has_prefix pat.1 path
     && match best with Some b => slen b.1 <? slen pat.1 | None => true end
  then Some pat else best.
Definition match_route (rs : list (string * handler)) (path : string) : option handler :=
  match List.find (λ pat : string * handler, bool_decide (pat.1 = path)) rs with
  | Some pat => Some pat.2
  | None => snd <$> foldl (longest path) None rs
  end.
Definition registered (rs : list (string * handler)) (path : string) : bool :=
  List.existsb (λ pat : string * handler, bool_decide (pat.1 = path)) rs.
Definition ServeHTTP (rs : list (string * handler)) : handler := λ r,
  if bool_decide (r.(RequestURI) = "*") then http_error 400 ""
  else
    let path := if bool_decide (r.(Method) = "CONNECT") then r.(Path) else cleanPath r.(Path) in
    if negb (registered rs path) && registered rs (path +:+ "/") then retM (RedirectTo (path +:+ "/") 301)
    else if negb (bool_decide (path = r.(Path))) then retM (RedirectTo path 301)
    else
      match match_route rs r.(Path) with
      | Some h => h r
      | None => http_error 404 "404 page not found"
      end.

Definition Proxy (o : Options) : handler := λ r,
  let prefix := r.(ScriptName) in
  let r := if bool_decide (prefix = "") then r
           else let uri := remove_first prefix r.(RequestURI) in set_target uri uri r in
  ServeHTTP (routes o) r.
(** What the listener calls. *)
Definition serve (ui : WebUI) : handler := ServeHTTP [("/", Proxy ui.(wrapped_with))].
End handlers.

(** ** The interface's life *)

Record Lifecycle := mkLife { webui : option WebUI; defaultBinding : string; closer : bool }.
Definition opts (l : Lifecycle) (s : ServerOptions) : Options :=
  let binding := if bool_decide (l.(defaultBinding) = "localhost:7420")
                 then so_String s "web" "binding" "localhost:7420" else l.(defaultBinding) in
  let pwd := so_String s "web" "password" "" in
  mkOptions binding (if bool_decide (pwd = "") then s.(so_Password) else pwd) true.
Definition newWeb (o : Options) : WebUI := mkUI o o.
(** [Run]: whether it listens, and so has a closer. *)
Definition Run (o : Options) : bool := negb (bool_decide (o.(Binding) = ":0")).
Definition Subsystem (binding : string) : Lifecycle := mkLife None binding false.
Definition Start (l : Lifecycle) (s : ServerOptions) : Lifecycle :=
  let o := opts l s in mkLife (Some (newWeb o)) l.(defaultBinding) (Run o).
(** The closer of an interface that does not listen is a nil function. *)
Definition Reload (l : Lifecycle) (s : ServerOptions) : outcome Lifecycle :=
  match l.(webui) with
  | None => Panic "invalid memory address or nil pointer dereference"
  | Some ui =>
      let o := opts l s in
      if bool_decide (o = ui.(options)) then Ok l
      else if l.(closer) then Ok (mkLife (Some (mkUI o ui.(wrapped_with))) l.(defaultBinding) (Run o))
      else Panic "invalid memory address or nil pointer dereference"
  end.
Definition Shutdown (l : Lifecycle) : Lifecycle :=
  if l.(closer) then mkLife None l.(defaultBinding) false else l.
Fixpoint reloads (l : Lifecycle) (ss : list ServerOptions) : outcome Lifecycle :=
  match ss with
  | [] => Ok l
  | s :: ss' => match Reload l s with Ok l' => reloads l' ss' | r => r end
  end.

Example clean1 : cleanPath "/retries//x/../y/" = "/retries/y/".
Proof. done. Qed.
Example unescape1 : QueryUnescape "a%7Cb+c" = Some "a|b c" ∧ QueryUnescape "100%" = None.
Proof. done. Qed.
Example base64_1 : DecodeString "eyJqaWQiOiJhIn0" = Some ("{" +:+ DQ +:+ "jid" +:+ DQ +:+ ":" +:+ DQ +:+ "a" +:+ DQ +:+ "}") ∧ DecodeString "eyJ$" = None.
Proof. by vm_compute. Qed.
Example last1 : last_element "/queues/default" = Some "default" ∧ last_element "/queues/" = None ∧ last_element "queues" = None.
Proof. done. Qed.

(** ** Who is let in *)

(** The request does not carry the password. *)
Definition stranger (pwd : string) (r : request) : Prop :=
  match r.(BasicAuth) with Some (_, p) => p ≠ pwd | None => True end.
(** What anyone may be answered: errors, redirections to a cleaner path, and the files
    every page uses. *)
Definition public (x : response) : Prop :=
  match x with
  | HttpError code _ => code ∈ [400; 401; 404]
  | RedirectTo _ code => code = 301
  | StaticFile _ => True
  | Render _ => False
  end.

Section routing.
Context `{Redis}.
Implicit Types (rs : list (string * handler)) (s : server).

Lemma foldl_longest (P : string * handler → Prop) path rs best :
  Forall P rs → (∀ b, best = Some b → P b) → ∀ b, foldl (longest path) best rs = Some b → P b.
Proof.
  intros Hrs. revert best. induction Hrs as [|pat rs Hp Hrs IH]; intros best Hb; cbn; [exact Hb|].
  apply IH. intros b. rw /longest. destruct (_ && _); [by intros [= <-]|apply Hb].
Qed.
Lemma match_route_in (P : handler → Prop) rs path h :
  Forall (λ pat, P pat.2) rs → match_route rs path = Some h → P h.
Proof.
  intros Hrs. rw /match_route. destruct (List.find _ rs) as [pat|] eqn:E.
  - intros [= <-]. apply List.find_some in E as [E _]. apply list_elem_of_In in E.
    by apply (proj1 (Forall_forall _ _) Hrs).
  - destruct (foldl (longest path) None rs) as [b|] eqn:F; intros [= <-].
    by apply (foldl_longest (λ pat, P pat.2) path rs None Hrs) in F.
Qed.
(** The multiplexer answers by itself, or as one of its handlers does. *)
Lemma ServeHTTP_cases (P : request → outcome response * server → Prop) rs r s :
  (∀ x, public x → P r (Ok x, s)) → Forall (λ pat, P r (pat.2 r s)) rs → P r (ServeHTTP rs r s).
Proof.
  intros Hpub Hrs. rw /ServeHTTP /http_error. case_bool_decide; [apply Hpub; cbn; set_solver|]. cbv zeta.
  destruct (_ && _); [by apply Hpub|]. destruct (negb _); [by apply Hpub|].
  destruct (match_route rs _) as [h|] eqn:E; [|apply Hpub; cbn; set_solver].
  revert E. apply (match_route_in (λ h, P r (h r s))). done.
Qed.
End routing.

Section access.
Context `{Redis}.
Context (fuel : nat) (MemoryUsageMB : Z) (nosurf : request → bool).
Abbreviation web := (serve fuel MemoryUsageMB nosurf).

Lemma setup_refuses o h r s :
  o.(Password) ≠ "" → stranger o.(Password) r → ∃ x, setup o h r s = (Ok x, s) ∧ public x.
Proof.
  intros Hp Hr. rw /setup bool_decide_eq_false_2 //. rw /basicAuth /stranger in Hr |- *.
  destruct (BasicAuth r) as [[u p]|].
  - rw bool_decide_eq_false_2 //. eexists. split; [done|]. cbn. set_solver.
  - eexists. split; [done|]. cbn. set_solver.
Qed.
Lemma Log_refuses o h r s :
  o.(Password) ≠ "" → stranger o.(Password) r → ∃ x, Log nosurf o h r s = (Ok x, s) ∧ public x.
Proof.
  intros Hp Hr. rw /Log /protect. destruct (_ || _); [by apply setup_refuses|].
  eexists. split; [done|]. cbn. set_solver.
Qed.

Lemma strangers_refused ui r s :
  ui.(wrapped_with).(Password) ≠ "" → stranger ui.(wrapped_with).(Password) r →
  ∃ x, web ui r s = (Ok x, s) ∧ public x.
Proof.
  intros Hp Hr. rw /serve.
  apply (ServeHTTP_cases (λ _ res, ∃ x, res = (Ok x, s) ∧ public x)); [by eauto|].
  constructor; [|done]. cbn [snd]. rw /Proxy. set (r' := if bool_decide _ then r else _).
  assert (Hr' : stranger (wrapped_with ui).(Password) r') by (unfold r'; by destruct (bool_decide _)).
  clearbody r'. apply (ServeHTTP_cases (λ _ res, ∃ x, res = (Ok x, s) ∧ public x)); [by eauto|].
  rw /routes. repeat (constructor; [cbn [snd]; first [by apply Log_refuses | by apply setup_refuses | by eexists]|]). constructor.
Qed.

(** C16. Without the password the interface was started with, a request changes nothing and
    sees nothing, whatever its path, method, form and headers: it gets an error, a
    redirection to a cleaner path, or one of the static files. *)
Theorem strangers_see_nothing ui r s :
  ui.(wrapped_with).(Password) ≠ "" → stranger ui.(wrapped_with).(Password) r →
  ∃ x, web ui r s = (Ok x, s) ∧ public x.
Proof. exact (strangers_refused ui r s). Qed.

(** ** Reloading *)

Lemma reloads_keep l0 ui ss l :
  l0.(webui) = Some ui → reloads l0 ss = Ok l →
  ∃ ui', l.(webui) = Some ui' ∧ ui'.(wrapped_with) = ui.(wrapped_with) ∧ l.(defaultBinding) = l0.(defaultBinding) ∧
    ui'.(options) = match List.rev ss with s :: _ => opts l0 s | [] => ui.(options) end.
Proof.
  revert l0 ui. induction ss as [|s ss IH]; intros l0 ui Hui; cbn [reloads].
  { intros [= <-]. by exists ui. }
  destruct (Reload l0 s) as [l1|e|p] eqn:E; [|done..]. intros Hr.
  assert (Hl1 : ∃ ui1, l1.(webui) = Some ui1 ∧ ui1.(wrapped_with) = ui.(wrapped_with) ∧
            l1.(defaultBinding) = l0.(defaultBinding) ∧ ui1.(options) = opts l0 s).
  { revert E. rw /Reload Hui. case_bool_decide as Ho; [intros [= <-]; by exists ui|].
    destruct (closer l0); [|done]. intros [= <-]. by eexists. }
  destruct Hl1 as (ui1 & H1 & H2 & H3 & H4). destruct (IH l1 ui1 H1 Hr) as (ui' & K1 & K2 & K3 & K4).
  exists ui'. split_and!; [done|congruence|congruence|]. rw K4. cbn [List.rev].
  assert (Eo : ∀ s', opts l1 s' = opts l0 s') by (intros s'; by rw /opts H3).
  destruct (List.rev ss) as [|x xs]; cbn; [done|by rw Eo].
Qed.

(** C20. Changing the password has no effect until the next start: after any reloads the
    interface carries the options of the latest configuration, and answers every request as
    it did at the start, so the first password lets in and the new one does not.  And an
    interface that was started without listening panics at the first reload that changes
    its options. *)
Theorem reload_keeps_password binding c0 cs l :
  reloads (Start (Subsystem binding) c0) cs = Ok l →
  let first := opts (Subsystem binding) c0 in
  ∃ ui, l.(webui) = Some ui ∧
    ui.(options) = match List.rev cs with c :: _ => opts (Subsystem binding) c | [] => first end ∧
    (∀ r s, web ui r s = web (newWeb first) r s) ∧
    (∀ r s, first.(Password) ≠ "" → stranger first.(Password) r → ∃ x, web ui r s = (Ok x, s) ∧ public x) ∧
    (first.(Binding) = ":0" → ∀ c, opts (Subsystem binding) c ≠ first →
       ∃ p, Reload (Start (Subsystem binding) c0) c = Panic p).
Proof.
  intros Hr first. destruct (reloads_keep (Start (Subsystem binding) c0) (newWeb first) _ _ eq_refl Hr) as (ui & H1 & H2 & H3 & H4).
  exists ui. cbn in H2. assert (E : ∀ r s, web ui r s = web (newWeb first) r s) by (intros r s; by rw /serve H2).
  split_and!; [done|done|done| |].
  - intros r s Hp Hs. rw E. destruct (strangers_refused (newWeb first) r s Hp Hs) as (x & E' & Hx). by exists x.
  - intros Hb c Hc. rw /Reload /Start. cbn [webui closer]. fold first.
    assert (Eo : opts (mkLife (Some (newWeb first)) binding (Run first)) c = opts (Subsystem binding) c) by done.
    cbn [Subsystem defaultBinding]. rw Eo. case_bool_decide as Hd; [done|].
    rw /Run Hb bool_decide_eq_true_2 //. by eexists.
Qed.

(** ** Behind a proxy *)

Lemma split_slash p : split_char "/" (String "/" p) = "" :: split_char "/" p.
Proof. done. Qed.
Lemma cleanPath_element p :
  no_char "/" p = true → p ≠ "" → p ≠ "." → p ≠ ".." → cleanPath (String "/" p) = String "/" p.
Proof.
  intros Hp H1 H2 H3. rw /cleanPath. cbn [has_prefix]. 
  assert (E : path_Clean (String "/" p) = String "/" p).
  { rw /path_Clean split_slash (split_char_no "/" p) //. cbn [clean_elements].
    rw (bool_decide_eq_true_2 ("" = "")) //. cbn [orb]. rw !bool_decide_eq_false_2 //. }
  rw bool_decide_eq_false_2 //. replace (has_prefix "/" (String "/" p)) with true by done. rw E /ends_slash split_slash (split_char_no "/" p) //.
  cbn [List.rev app]. by destruct p.
Qed.
Lemma index_from_prefix i a s : has_prefix a s = true → index_from i a s = i.
Proof. intros E. destruct s; cbn [index_from]; by rw E. Qed.
Lemma remove_first_prefix a b : remove_first a (a +:+ b) = b.
Proof.
  rw /remove_first /index_of index_from_prefix; [apply has_prefix_app|]. cbn. by rw drop_str_app.
Qed.

(** The request carries the password, if there is one. *)
Definition admitted (o : Options) (r : request) : Prop :=
  o.(Password) = "" ∨ ∃ user, r.(BasicAuth) = Some (user, o.(Password)).
Lemma setup_admits o h r : admitted o r → setup o h r = h r.
Proof.
  rw /setup. case_bool_decide as Hp; [done|]. intros [?|[u Hu]]; [done|]. by rw /basicAuth Hu bool_decide_eq_true_2.
Qed.
Lemma Log_admits o h r : admitted o r → nosurf r = true → Log nosurf o h r = h r.
Proof. intros Ha Hn. rw /Log /protect Hn orb_true_r. by apply setup_admits. Qed.
(** The outer multiplexer has one route. *)
Lemma serve_eq ui r s :
  r.(RequestURI) ≠ "*" → cleanPath r.(Path) = r.(Path) →
  web ui r s = Proxy fuel MemoryUsageMB nosurf ui.(wrapped_with) r s.
Proof.
  intros Hu Hc. assert (Hh : ∃ t, Path r = String "/" t).
  { revert Hc. rw /cleanPath. case_bool_decide as Hp; [by intros <-; exists ""|]. rw /path_Clean.
    destruct (_ && _); intros <-; by eexists. }
  destruct Hh as [t Ht].
  rw /serve /ServeHTTP bool_decide_eq_false_2 // Hc. cbv zeta.
  assert (E : (if bool_decide (Method r = "CONNECT") then Path r else Path r) = Path r) by (by destruct (bool_decide _)).
  rw E. rw (bool_decide_eq_true_2 (Path r = Path r)) //. cbn [negb].
  assert (Ereg : negb (registered [("/", Proxy fuel MemoryUsageMB nosurf ui.(wrapped_with))] (Path r)) &&
            registered [("/", Proxy fuel MemoryUsageMB nosurf ui.(wrapped_with))] (Path r +:+ "/") = false).
  { rw Ht /registered. cbn. rw (bool_decide_eq_false_2 ("/" = String "/" (t +:+ "/"))); [by destruct t|]. apply andb_false_r. }
  rw Ereg. rw /match_route. cbn [List.find fst]. destruct (bool_decide ("/" = Path r)); [done|].
  cbn [foldl]. rw /longest. cbn [fst]. replace (ends_slash "/") with true by done. rw Ht. done.
Qed.

(** The pages with an address of their own. *)
Definition page_paths : list string := ["stats"; "queues"; "retries"; "scheduled"; "morgue"; "busy"; "debug"].

Lemma routed_to_index o p q r s :
  p ∈ page_paths → no_char "/" q = true → r.(Method) = "GET" →
  r.(Path) = "/" +:+ p +:+ "?" +:+ q → r.(RequestURI) = r.(Path) →
  ServeHTTP (routes fuel MemoryUsageMB nosurf o) r s = Log nosurf o (GetOnly indexHandler) r s.
Proof.
  intros Hp Hq Hm Hpath Huri. rw /ServeHTTP Huri Hm Hpath. rw (bool_decide_eq_false_2 ("GET" = "CONNECT")) //.
  rw (bool_decide_eq_false_2 (_ = "*")) //. cbv zeta.
  repeat (apply elem_of_cons in Hp as [->|Hp]); [..|by apply not_elem_of_nil in Hp];
    (rw cleanPath_element; [done..|]; rw (bool_decide_eq_true_2 (_ = _)) //; reflexivity).
Qed.

(** The listings: their address and their set. *)
Definition listings : list (string * string) := [("retries", "retries"); ("scheduled", "scheduled"); ("morgue", "dead")].
Lemma listing_routed o n set r s :
  (n, set) ∈ listings → r.(Path) = "/" +:+ n → r.(RequestURI) ≠ "*" → r.(Method) ≠ "CONNECT" →
  cleanPath r.(Path) = r.(Path) ∧
  ServeHTTP (routes fuel MemoryUsageMB nosurf o) r s = Log nosurf o (listing fuel set ("/" +:+ n)) r s.
Proof.
  intros Hin Hp Hu Hm. rw /ServeHTTP Hp (bool_decide_eq_false_2 (RequestURI r = "*")) //.
  rw (bool_decide_eq_false_2 (Method r = "CONNECT")) //. cbv zeta.
  repeat (apply elem_of_cons in Hin as [[= -> ->]|Hin]); [..|by apply not_elem_of_nil in Hin]; done.
Qed.


End access.

(** ** What a program changes *)

(** A program ends, well or not, in a state related to the one it began in. *)
Section within.
Context {S : Type} (R : S → S → Prop) `{!PreOrder R}.

Definition within {A} (m : M S A) : Prop := ∀ s, R s (m s).2.
Lemma within_ret {A} (a : A) : within (retM a).
Proof. intros s. cbn. reflexivity. Qed.
Lemma within_fail {A} e : within (failM e : M S A).
Proof. intros s. cbn. reflexivity. Qed.
Lemma within_panic {A} p : within (panicM p : M S A).
Proof. intros s. cbn. reflexivity. Qed.
Lemma within_outcome {A} (o : outcome A) : within (ofOutcome o).
Proof. intros s. cbn. reflexivity. Qed.
Lemma within_bind {A B} (m : M S A) (k : A → M S B) : within m → (∀ a, within (k a)) → within (bindM m k).
Proof.
  intros Hm Hk s. specialize (Hm s). rw /bindM. destruct (m s) as [[a|e|p] s']; [|done..].
  transitivity s'; [done|apply Hk].
Qed.
Lemma within_get {A} (k : S → M S A) : (∀ s, within (k s)) → within (let* s := getM in k s).
Proof. intros Hk s. apply Hk. Qed.
Lemma within_try {A} (m : M S A) : within m → within (tryM m).
Proof. intros Hm s. specialize (Hm s). rw /tryM. by destruct (m s) as [[] ?]. Qed.
Lemma within_ignore {A} (m : M S A) : within m → within (ignoreM m).
Proof. intros Hm s. specialize (Hm s). rw /ignoreM. by destruct (m s) as [[] ?]. Qed.
Lemma within_modify f : (∀ s, R s (f s)) → within (modifyM f).
Proof. intros Hf s. apply Hf. Qed.
End within.

Section quiet.
Context `{Redis}.

(** Keys a page may write when it reads: the names of the queues, and the counters,
    which are read by adding nothing to them, so they keep their values. *)
Definition counter (k : string) : bool :=
  bool_decide (k = "processed") || bool_decide (k = "failures") || has_prefix "processed:" k || has_prefix "failures:" k.
Definition settled (d d' : dataset) : Prop :=
  ∀ k, k ≠ "queues" → (counter k = false → d' !! k = d !! k) ∧ as_int d' k = as_int d k.
Definition kept_m (m m' : mgr) : Prop :=
  alive m → alive m' ∧ settled (db m) (db m') ∧ m'.(workingMap) = m.(workingMap) ∧ m'.(paused_) = m.(paused_).
Definition kept (s s' : server) : Prop :=
  kept_m s.(smgr) s'.(smgr) ∧ s'.(snet) = s.(snet) ∧ s'.(closed) = s.(closed).
#[global] Instance kept_m_preorder : PreOrder kept_m.
Proof.
  split; [by intros m Ha; split_and!|]. intros m1 m2 m3 H1 H2 Ha. destruct (H1 Ha) as (Ha2 & K1 & K2 & K3).
  destruct (H2 Ha2) as (Ha3 & L1 & L2 & L3). split_and!; [done| |congruence..].
  intros k Hk. destruct (K1 k Hk) as [K K'], (L1 k Hk) as [L L']. split; [intros Hc; by rw L // K|by rw L' K'].
Qed.
#[global] Instance kept_preorder : PreOrder kept.
Proof.
  split; [done|]. intros s1 s2 s3 (H1 & H2 & H3) (K1 & K2 & K3). split_and!; [|congruence..]. by transitivity (smgr s2).
Qed.

Definition harmless {A} (c : cmd A) : Prop := ∀ d, settled d (redis_doc c d).2.
Lemma quiet_redis {A} (c : cmd A) : harmless c → within kept_m (redis c).
Proof.
  intros Hc m Ha. rw /redis. destruct (exec_up c _ Ha) as (r & He & Hv & Hu). rw He. cbn [snd].
  split_and!; [done| |done|done]. rw /db /=. rw Hv. by apply Hc.
Qed.
Lemma quiet_redis_val {A} (z : A) (c : cmd A) : harmless c → within kept_m (redis_val z c).
Proof.
  intros Hc. apply within_bind; [apply _|by apply within_try, quiet_redis|]. intros [a|e]; by apply within_ret, _.
Qed.
Lemma with_val_settled {V A} (r : outcome V) d (k : V → A * dataset) :
  (∀ v, r = Ok v → settled d (k v).2) → settled d (with_val r d k).2.
Proof. intros Hk. rw /with_val. destruct r as [v|e|p]; [|done..]. specialize (Hk v eq_refl). by destruct (k v). Qed.
(** Commands that only read. *)
Definition reads {A} (c : cmd A) : bool :=
  match c with
  | SIsMember _ _ | SMembers _ | LRange _ _ _ | LLen _ | ZCard _ | ZRangeByScore _ _ _ _ | ZRangeWithScores _ _ _ | KGet _ => true
  | _ => false
  end.
Lemma reads_harmless {A} (c : cmd A) : reads c = true → harmless c.
Proof.
  intros Hc d. destruct c; try discriminate Hc; cbn [redis_doc]; try by apply with_val_settled.
  - repeat (destruct (parse_bound _); [|done]). by apply with_val_settled.
  - by destruct (d !! k) as [[]|].
Qed.
Lemma atoi_range s n : atoi s = Some n → in_int64 n = true.
Proof. rw /atoi. intros E. repeat case_match; simplify_eq; done. Qed.
Lemma counts_harmless k : counter k = true → harmless (IncrBy k 0).
Proof.
  intros Hc d. cbn [redis_doc]. apply with_val_settled. intros n Hn k' Hq. cbn [snd]. rw Z.add_0_r. destruct (decide (k' = k)) as [->|Hne].
  - split; [by rw Hc|]. rw Hn /as_int lookup_insert_eq. cbn. rw atoi_dec; [|done].
    rewrite /as_int in Hn. destruct (d !! k) as [[s|l|ss|z]|]; try discriminate Hn; [|by injection Hn as <-].
    destruct (atoi s) eqn:E; [|discriminate Hn]. injection Hn as <-. by apply (atoi_range s).
  - by rw /as_int lookup_insert_ne; [congruence|].
Qed.
Lemma names_harmless m : harmless (SAdd "queues" m).
Proof.
  intros d. cbn [redis_doc]. apply with_val_settled. intros s _ k Hk. cbn [snd].
  by rw /as_int put_set_ne; [congruence|].
Qed.
Lemma on_mgr_within {A} (m : M mgr A) : within kept_m m → within kept (on_mgr m).
Proof. intros Hm s. specialize (Hm (smgr s)). rw /on_mgr /zoomM. by destruct (m (smgr s)). Qed.
Lemma quiet_now : within kept Now.
Proof. by intros s. Qed.
Lemma quiet_mapM {A B} (l : list A) (f : A → M server B) : (∀ x, within kept (f x)) → within kept (mapM_ l f).
Proof.
  intros Hf. induction l as [|x l IH]; [apply within_ret, _|]. apply within_bind; [apply _|done|].
  intros y. apply within_bind; [apply _|done|]. intros ys. apply within_ret, _.
Qed.
End quiet.

(** Go through a program. *)
Ltac within_step :=
  lazymatch goal with
  | |- within _ (retM _) => apply within_ret, _
  | |- within _ (failM _) => apply within_fail, _
  | |- within _ (panicM _) => apply within_panic, _
  | |- within _ (ofOutcome _) => apply within_outcome, _
  | |- within _ Now => apply quiet_now
  | |- within _ (on_mgr _) => apply on_mgr_within
  | |- within _ (bindM getM _) => apply within_get; intros ?
  | |- within _ (bindM _ _) => apply within_bind; [apply _| |intros ?]
  | |- within _ (tryM _) => apply within_try
  | |- within _ (ignoreM _) => apply within_ignore
  | |- within _ (mapM_ _ _) => apply quiet_mapM; intros ?
  | |- within _ (redis _) => apply quiet_redis
  | |- within _ (redis_val _ _) => apply quiet_redis_val
  | |- harmless (IncrBy _ _) => by apply counts_harmless
  | |- harmless (SAdd _ _) => apply names_harmless
  | |- harmless _ => by apply reads_harmless
  | |- within _ (match ?x with _ => _ end) => destruct x
  end.
Ltac within := repeat within_step.

Section safe.
Context `{Redis}.
Context (fuel : nat) (MemoryUsageMB : Z) (nosurf : request → bool).

Lemma quiet_CurrentState : within kept (CurrentState MemoryUsageMB).
Proof.
  rw /CurrentState /task_stats /TotalFailures /TotalProcessed /total /ss_Size. within.
Qed.
Lemma quiet_GetQueue name : within kept_m (GetQueue name).
Proof.
  rw /GetQueue /q_init /q_Size. within. apply within_modify. by intros m Ha; split_and!.
Qed.
Lemma quiet_ss_Get set key : within kept_m (ss_Get set key).
Proof.
  rw /ss_Get /getScore. within.
Qed.
Lemma quiet_or_500 {A} (m : M server A) k : within kept m → (∀ a, within kept (k a)) → within kept (or_500 m k).
Proof. intros Hm Hk. rw /or_500 /http_error. within_step; [by apply within_try|]. destruct a; [apply Hk|by within]. Qed.
Lemma quiet_with_page r k : (∀ n, within kept (k n)) → within kept (with_page r k).
Proof. intros Hk. rw /with_page /http_error. repeat (first [apply Hk | within_step]). Qed.
Lemma quiet_show_job set path key check r : within kept (show_job set path key check r).
Proof.
  rw /show_job /redirect /http_error. apply quiet_or_500; [apply on_mgr_within, quiet_ss_Get|]. intros [e|]; [|within].
  apply quiet_or_500; [within|]. intros job. within.
Qed.
Lemma quiet_with_key r k : (∀ key, within kept (k key)) → within kept (with_key r k).
Proof. intros Hk. rw /with_key /http_error. repeat (first [apply Hk | within_step]). Qed.

Lemma quiet_Log o h r : within kept (h r) → within kept (Log nosurf o h r).
Proof.
  intros Hh. rw /Log /protect /setup /basicAuth /http_error. destruct (_ || _); [|within].
  destruct (bool_decide (Password o = "")); [done|]. destruct (BasicAuth r) as [[u p]|]; [|within].
  destruct (bool_decide (p = _)); [done|within].
Qed.
Lemma quiet_routes o r : posted r = false → Forall (λ pat, within kept (pat.2 r)) (routes fuel MemoryUsageMB nosurf o).
Proof.
  intros Hp. rw /routes. repeat apply Forall_cons_2; [..|apply Forall_nil_2]; cbn [snd]; try apply quiet_Log.
  - by within.
  - rw /DebugLog /setup /basicAuth /http_error.
    assert (Hs : within kept (statsHandler MemoryUsageMB r)).
    { apply quiet_or_500; [apply quiet_CurrentState|by within]. }
    destruct (bool_decide (Password o = "")); [done|]. destruct (BasicAuth r) as [[u p]|]; [|within].
    destruct (bool_decide (p = _)); [done|within].
  - rw /GetOnly /http_error. by within.
  - by within.
  - rw /queueHandler /http_error. destruct (last_element _); [|within]. 
    apply quiet_or_500; [apply on_mgr_within, quiet_GetQueue|]. intros q. rw Hp. apply quiet_with_page. by within.
  - rw /retriesHandler /listing Hp. apply quiet_with_page. by within.
  - apply quiet_with_key. intros key. rw Hp. apply quiet_show_job.
  - rw /scheduledHandler /listing Hp. apply quiet_with_page. by within.
  - apply quiet_with_key. intros key. rw Hp. apply quiet_show_job.
  - rw /morgueHandler /listing Hp. apply quiet_with_page. by within.
  - apply quiet_with_key. intros key. apply quiet_show_job.
  - rw /busyHandler Hp. by within.
  - by within.
Qed.
Lemma quiet_serve ui r : posted r = false → within kept (serve fuel MemoryUsageMB nosurf ui r).
Proof.
  intros Hp s. rw /serve. apply (ServeHTTP_cases (λ _ res, kept s res.2)); [done|]. constructor; [|done].
  cbn [snd]. rw /Proxy. set (r' := if bool_decide _ then r else _).
  assert (Hp' : posted r' = false) by (unfold r'; by destruct (bool_decide _)). clearbody r'.
  apply (ServeHTTP_cases (λ _ res, kept s res.2)); [done|].
  eapply Forall_impl; [apply (quiet_routes _ _ Hp')|]. intros pat Hpat. apply Hpat.
Qed.

Lemma name_no_slash name : ValidQueueName name = true → name ≠ "" ∧ no_char "/" name = true.
Proof.
  rw /ValidQueueName. intros [Hn Hc]%andb_true_iff. split.
  - by apply negb_true_iff, bool_decide_eq_false in Hn.
  - revert Hc. by apply all_chars_no_char.
Qed.
(** A path of two elements. *)
Lemma split_two dir name :
  no_char "/" dir = true → no_char "/" name = true → split_char "/" ("/" +:+ dir +:+ "/" +:+ name) = [""; dir; name].
Proof.
  intros Hd Hn. change ("/" +:+ dir +:+ "/" +:+ name) with (String "/" (dir +:+ String "/" name)).
  rw split_slash split_char_app // split_char_no //.
Qed.
Lemma cleanPath_two dir name :
  no_char "/" dir = true → no_char "/" name = true → dir ≠ "" → dir ≠ "." → dir ≠ ".." → name ≠ "" → name ≠ "." → name ≠ ".." →
  cleanPath ("/" +:+ dir +:+ "/" +:+ name) = "/" +:+ dir +:+ "/" +:+ name.
Proof.
  intros Hd Hn H1 H2 H3 H4 H5 H6. set (p := "/" +:+ dir +:+ "/" +:+ name).
  assert (Es : split_char "/" p = [""; dir; name]) by (by apply split_two).
  rw /cleanPath bool_decide_eq_false_2 //. replace (has_prefix "/" p) with true by done.
  assert (E : path_Clean p = p).
  { rw /path_Clean Es. cbn [clean_elements]. rw (bool_decide_eq_true_2 ("" = "")) //. cbn [orb].
    rw !bool_decide_eq_false_2 //. }
  rw E /ends_slash Es. cbn [List.rev app]. by destruct name.
Qed.
Lemma last_element_two dir name :
  no_char "/" dir = true → no_char "/" name = true → name ≠ "" → last_element ("/" +:+ dir +:+ "/" +:+ name) = Some name.
Proof. intros Hd Hn Hne. rw /last_element split_two //. cbn [List.rev app]. by rw bool_decide_eq_false_2. Qed.

(** The pages of one thing, by their directory. *)
Definition one_page (dir : string) : option handler :=
  if bool_decide (dir = "queues") then Some queueHandler
  else if bool_decide (dir = "retries") then Some (retryHandler fuel)
  else if bool_decide (dir = "scheduled") then Some (scheduledJobHandler fuel)
  else if bool_decide (dir = "morgue") then Some deadHandler
  else None.
Lemma one_page_routed ui dir name h r s :
  dir ∈ ["queues"; "retries"; "scheduled"; "morgue"] → one_page dir = Some h →
  no_char "/" name = true → name ≠ "" → name ≠ "." → name ≠ ".." →
  r.(Path) = "/" +:+ dir +:+ "/" +:+ name → r.(RequestURI) ≠ "*" → r.(Method) ≠ "CONNECT" → r.(ScriptName) = "" →
  admitted ui.(wrapped_with) r → nosurf r = true →
  serve fuel MemoryUsageMB nosurf ui r s = h r s.
Proof.
  intros Hd Hone Hn H1 H2 H3 Hp Hu Hm Hs Ha Hnf.
  assert (Hc : cleanPath (Path r) = Path r).
  { rw Hp. repeat (apply elem_of_cons in Hd as [->|Hd]); [..|by apply not_elem_of_nil in Hd]; by apply cleanPath_two. }
  rw serve_eq // /Proxy Hs bool_decide_eq_true_2 //. cbv zeta. rw /ServeHTTP bool_decide_eq_false_2 //.
  rw (bool_decide_eq_false_2 (Method r = "CONNECT")) // Hc. cbv zeta. rw (bool_decide_eq_true_2 (Path r = Path r)) //. cbn [negb].
  rw -(Log_admits nosurf ui.(wrapped_with) h r Ha Hnf).
  destruct name as [|c name]; [done|].
  repeat (apply elem_of_cons in Hd as [->|Hd]); [..|by apply not_elem_of_nil in Hd];
    (rw Hp; injection Hone as <-; reflexivity).
Qed.

(** Looking at the page of a queue that does not exist makes it. *)
Theorem visiting_makes_queue ui r s name ns :
  posted r = false → alive s.(smgr) →
  let s' := (serve fuel MemoryUsageMB nosurf ui r s).2 in
    admitted ui.(wrapped_with) r → nosurf r = true → r.(Method) = "GET" → r.(ScriptName) = "" →
    r.(Query) !! "page" = None → r.(RequestURI) ≠ "*" → r.(Path) = "/queues/" +:+ name → name ≠ "." → name ≠ ".." →
    ValidQueueName name = true → knows s.(smgr) !! name = None → as_set (db s.(smgr)) "queues" = Ok ns →
    (serve fuel MemoryUsageMB nosurf ui r s).1 = Ok (Render (PQueue (NewQueue name) 25 1)) ∧
    as_set (db s'.(smgr)) "queues" = Ok ({[name]} ∪ ns) ∧ knows s'.(smgr) !! name = Some (NewQueue name).
Proof.
  intros Hp Ha. cbv zeta. intros Hadm Hnf Hm Hsn Hq Hu Hpath Hd1 Hd2 Hv Hnew Hns.
  destruct (name_no_slash name Hv) as [Hne Hsl]. assert (Hcon : Method r ≠ "CONNECT") by (by rw Hm).
  rewrite (one_page_routed ui "queues" name queueHandler r s) //; [by left|].
  rw /queueHandler Hpath (last_element_two "queues" name) // Hp /with_page Hq /or_500.
  destruct (wp_exec (GetQueue name) (smgr s) (λ res m', res = Ok (NewQueue name) ∧
      as_set (db m') "queues" = Ok ({[name]} ∪ ns) ∧ knows m' !! name = Some (NewQueue name))) as (res & m' & E & -> & E1 & E2).
  { apply (wp_GetQueue_new _ _ ns); [done..|]. intros m' Hm'. split_and!; [done| |].
    - by rw (upd_db _ _ _ _ Hm') as_put_set.
    - by rw (upd_knows _ _ _ _ Hm') lookup_insert_eq. }
  rw /bindM /tryM /on_mgr /zoomM E. cbn [fst snd retM smgr set_smgr]. by rw E1 E2.
Qed.

(** ** The page of a job *)

(** The characters of a key that an address keeps as they are. *)
Definition link_char (c : ascii) : bool :=
  negb (bool_decide (c ∈ ["/"%char; "%"%char; "+"%char; "|"%char; "?"%char; "#"%char])).
Lemma QueryUnescape_plain s :
  no_char "%" s = true → no_char "+" s = true → QueryUnescape s = Some s.
Proof.
  induction s as [|c s IH]; [done|]. cbn [no_char QueryUnescape]. intros [H1 H1']%andb_true_iff [H2 H2']%andb_true_iff.
  apply negb_true_iff in H1, H2. rw H1 H2 IH //.
Qed.
Lemma key_chars t jid c :
  c ∈ ["/"%char; "%"%char; "+"%char] → all_chars link_char jid = true → no_char c (Thens t +:+ "|" +:+ jid) = true.
Proof.
  intros Hc Hj. apply (all_chars_no_char (λ x, negb (bool_decide (x = c)))).
  - rw bool_decide_eq_true_2 //.
  - rw (all_chars_app _ (Thens t)) (all_chars_app _ "|"). apply andb_true_iff. split.
    + apply (all_chars_impl time_char); [|apply Thens_chars]. intros x Hx. apply negb_true_iff, bool_decide_eq_false_2.
      intros ->. revert Hx. repeat (apply elem_of_cons in Hc as [->|Hc]); [..|by apply not_elem_of_nil in Hc]; by vm_compute.
    + apply andb_true_iff. split.
      * repeat (apply elem_of_cons in Hc as [->|Hc]); [..|by apply not_elem_of_nil in Hc]; by vm_compute.
      * apply (all_chars_impl link_char); [|done]. intros x. rw /link_char. intros Hx%negb_true_iff%bool_decide_eq_false.
        apply negb_true_iff, bool_decide_eq_false_2. intros ->. apply Hx. set_solver.
Qed.

Lemma wp_on_mgr {A} (m : M mgr A) s (Q : outcome A → server → Prop) :
  wp m s.(smgr) (λ r m', Q r (set_smgr m' s)) → wp (on_mgr m) s Q.
Proof. rw /wp /on_mgr /zoomM. by destruct (m (smgr s)). Qed.
Lemma wp_Now s (Q : outcome Z → server → Prop) :
  Q (Ok (s.(clock) s.(readings))) (set_readings (S s.(readings)) s) → wp Now s Q.
Proof. done. Qed.
Lemma wp_or_500 {A} (m : M server A) k s (Q : outcome response → server → Prop) :
  wp m s (λ r s', ∃ a, r = Ok a ∧ wp (k a) s' Q) → wp (or_500 m k) s Q.
Proof.
  intros Hm. rw /or_500. wp_steps. eapply wp_mono; [exact Hm|]. intros r s' (a & -> & Hk). by wp_steps.
Qed.

Section entry.
Context (ui : WebUI) (s : server) (set : string) (z : gmap string Z) (m : string) (sc : Z) (j : Job) (key : string).
Hypothesis Ha : alive s.(smgr).
Hypothesis Hz : as_zset (db s.(smgr)) set = Ok z.
Hypothesis Hm : z !! m = Some sc.
Hypothesis Hsc : usual_score sc.
Hypothesis Hj : entry_Job (NewEntry sc m) = Ok j.
Hypothesis Hjid : all_chars link_char j.(Jid) = true.
Hypothesis Hholds : holds_jid j.(Jid) m.
Hypothesis Honly : ∀ m', z !! m' = Some sc → holds_jid j.(Jid) m' → m' = m.
Hypothesis Hkey : entry_Key (NewEntry sc m) = Ok key.

Lemma key_eq : key = Thens (key_time sc) +:+ "|" +:+ j.(Jid).
Proof. move: Hkey. rw /entry_Key Hj. by intros [= <-]. Qed.
Lemma key_decomposes : decompose key = Ok (sc, j.(Jid)).
Proof.
  destruct (entry_Key_finds_score (NewEntry sc m) j Hj Hsc) as (k & E & D).
  - revert Hjid. by apply all_chars_no_char.
  - rewrite Hkey in E. by injection E as <-.
Qed.
Lemma score_f64 : is_f64 sc.
Proof. rw -(key_time_score sc Hsc). by apply score_is_f64, key_time_in_range. Qed.
Lemma picked : pick j.(Jid) (at_score sc z) = Some m.
Proof.
  apply pick_spec; [by apply elem_of_at_score|apply at_score_NoDup|done|].
  intros m' Hm'. by apply Honly, elem_of_at_score.
Qed.
Lemma wp_Get_entry (st : mgr) (Q : outcome (option setEntry) → mgr → Prop) :
  alive st → as_zset (db st) set = Ok z →
  (∀ st', upd st (db st) (knows st) st' → Q (Ok (Some (NewEntry sc m))) st') → wp (ss_Get set key) st Q.
Proof.
  intros Hst Hzst HQ. rw /ss_Get key_decomposes. wp_steps. apply (wp_getScore _ _ _ z); [done|apply score_f64|done|].
  intros st' Hst'. wp_steps. rw picked. by apply HQ.
Qed.
Lemma wp_Remove_entry (st : mgr) (Q : outcome bool → mgr → Prop) :
  alive st → as_zset (db st) set = Ok z →
  (∀ st', upd st (put_zset set (delete m z) (db st)) (knows st) st' → Q (Ok true) st') → wp (ss_Remove set key) st Q.
Proof.
  intros Hst Hzst HQ. rw /ss_Remove key_decomposes. wp_steps. apply (wp_rem _ _ _ _ z); [done|apply score_f64|done|].
  intros st'. rw picked. apply HQ.
Qed.
Lemma key_not_all : is_all [key] = false.
Proof.
  rw /is_all. apply bool_decide_eq_false_2. intros [= E]. move: key_decomposes. by rw E.
Qed.
(** A request of the entry's page: the address is the listing's link. *)
Definition of_entry (dir : string) (r : request) : Prop :=
  r.(Path) = "/" +:+ dir +:+ "/" +:+ key ∧ r.(RequestURI) = r.(Path) ∧ r.(ScriptName) = "" ∧ r.(Method) ≠ "CONNECT" ∧
  admitted ui.(wrapped_with) r ∧ nosurf r = true.
Lemma key_plain : no_char "/" key = true ∧ QueryUnescape key = Some key ∧ key ≠ "" ∧ key ≠ "." ∧ key ≠ "..".
Proof.
  assert (Hc : ∀ c, c ∈ ["/"%char; "%"%char; "+"%char] → no_char c key = true) by (intros c Hc; rw key_eq; by apply key_chars).
  split_and!; [apply Hc; set_solver|apply QueryUnescape_plain; apply Hc; set_solver|..];
    intros E; move: key_decomposes; by rw E.
Qed.
Lemma of_entry_routed dir h r :
  dir ∈ ["queues"; "retries"; "scheduled"; "morgue"] → no_char "/" dir = true → one_page dir = Some h → of_entry dir r →
  serve fuel MemoryUsageMB nosurf ui r s = h r s ∧ ∀ k, with_key r k = k key.
Proof.
  destruct key_plain as (K1 & K2 & K3 & K4 & K5). intros Hd Hnd Hh (Hp & Hu & Hsn & Hm' & Hadm & Hnf). split.
  - apply (one_page_routed ui dir key); try done. by rw Hu Hp.
  - intros k. by rw /with_key Hu Hp last_element_two // K2.
Qed.
Lemma show_entry path check r :
  check j = None → ∃ s', show_job set path key check r s = (Ok (Render (PJob set key j)), s') ∧ as_zset (db s'.(smgr)) set = Ok z.
Proof.
  intros Hc. destruct (wp_exec (show_job set path key check r) s
    (λ res s', res = Ok (Render (PJob set key j)) ∧ as_zset (db s'.(smgr)) set = Ok z)) as (res & s' & E & -> & Hs'); [|by exists s'].
  apply wp_or_500, wp_on_mgr, wp_Get_entry; [done..|]. intros st' Hst'. eexists. split; [done|].
  apply wp_or_500. rw Hj. wp_steps. eexists. split; [done|]. rw Hc. wp_steps. split; [done|]. cbn. by rw (upd_db _ _ _ _ Hst').
Qed.
Lemma delete_entry path r :
  FormValue r "action" = "delete" →
  ∃ s', act fuel set path [key] r s = (Ok (RedirectTo (relative r path) 302), s') ∧
    upd s.(smgr) (put_zset set (delete m z) (db s.(smgr))) (knows s.(smgr)) s'.(smgr).
Proof.
  intros Hact. destruct (wp_exec (act fuel set path [key] r) s
    (λ res s', res = Ok (RedirectTo (relative r path) 302) ∧
       upd s.(smgr) (put_zset set (delete m z) (db s.(smgr))) (knows s.(smgr)) s'.(smgr))) as (res & s' & E & -> & Hs'); [|by exists s'].
  apply wp_or_500. wp_steps. apply wp_Now, wp_on_mgr. rw Hact /actOn bool_decide_eq_true_2 // key_not_all. cbn [forM].
  wp_steps. cbn [smgr set_readings]. apply wp_Remove_entry; [done..|]. intros st' Hst'. wp_steps.
  eexists. split; [done|]. rw /redirect. wp_steps. split; [done|]. exact Hst'.
Qed.

(** C18. The link a listing shows for a job leads back to that very job, as long as the job's
    id has none of six characters in it and no other job of the set with the same instant
    holds the id; "delete" on its page removes that entry and nothing else.  But the page
    of a dead job does not look at the method: its "retry" and "delete" buttons show the
    page again and do nothing. *)
Theorem link_leads_to_job dir :
  (dir, set) ∈ listings →
  (∀ r, of_entry dir r → (r.(Method) = "GET" ∧ (dir = "retries" → is_Some j.(JFailure))) ∨ dir = "morgue" →
     ∃ s', serve fuel MemoryUsageMB nosurf ui r s = (Ok (Render (PJob set key j)), s') ∧ as_zset (db s'.(smgr)) set = Ok z) ∧
  (∀ r, of_entry dir r → r.(Method) = "POST" → dir ≠ "morgue" → FormValue r "action" = "delete" →
     ∃ s', serve fuel MemoryUsageMB nosurf ui r s = (Ok (RedirectTo ("/" +:+ dir) 302), s') ∧
       upd s.(smgr) (put_zset set (delete m z) (db s.(smgr))) (knows s.(smgr)) s'.(smgr)).
Proof.
  intros Hd. split; intros r Hr.
  - intros Hcase. repeat (apply elem_of_cons in Hd as [[= E1 E2]|Hd]); [..|by apply not_elem_of_nil in Hd].
    + destruct Hcase as [[Hm' Hf]|Hcase]; [|congruence].
      destruct (of_entry_routed "retries" (retryHandler fuel) r) as [E K]; [set_solver|done|done|by rw -E1|].
      assert (Hc : not_a_retry j = None) by (rw /not_a_retry; by destruct (Hf E1) as [f ->]).
      destruct (show_entry "/retries" not_a_retry r Hc) as (s' & Es & Hs'). exists s'.
      rw E /retryHandler K /posted Hm'. split; [|done]. rewrite E2 in Es. rewrite E2. exact Es.
    + destruct Hcase as [[Hm' _]|Hcase]; [|congruence].
      destruct (of_entry_routed "scheduled" (scheduledJobHandler fuel) r) as [E K]; [set_solver|done|done|by rw -E1|].
      destruct (show_entry "/scheduled" (λ _, None) r eq_refl) as (s' & Es & Hs'). exists s'.
      rw E /scheduledJobHandler K /posted Hm'. split; [|done]. rewrite E2 in Es. rewrite E2. exact Es.
    + destruct (of_entry_routed "morgue" deadHandler r) as [E K]; [set_solver|done|done|by rw -E1|].
      destruct (show_entry "/morgue" (λ _, None) r eq_refl) as (s' & Es & Hs'). exists s'.
      rw E /deadHandler K. split; [|done]. rewrite E2 in Es. rewrite E2. exact Es.
  - intros Hm' Hne Hact. assert (Hrel : relative r ("/" +:+ dir) = "/" +:+ dir) by (rw /relative; by destruct Hr as (_ & _ & -> & _)).
    destruct (delete_entry ("/" +:+ dir) r Hact) as (s' & Es & Hs'). rewrite Hrel in Es. exists s'.
    repeat (apply elem_of_cons in Hd as [[= E1 E2]|Hd]); [..|by apply not_elem_of_nil in Hd]; [| |done].
    + destruct (of_entry_routed "retries" (retryHandler fuel) r) as [E K]; [set_solver|done|done|by rw -E1|].
      rw E /retryHandler K /posted Hm'. split; [|done]. rewrite E2 E1 in Es. rewrite E1. exact Es.
    + destruct (of_entry_routed "scheduled" (scheduledJobHandler fuel) r) as [E K]; [set_solver|done|done|by rw -E1|].
      rw E /scheduledJobHandler K /posted Hm'. split; [|done]. rewrite E2 E1 in Es. rewrite E1. exact Es.
Qed.
End entry.
End safe.

(** ** The page of a queue *)

Section queue_page.
Context `{Redis}.

Lemma each_from_collects (l : list string) (jobs : list Job) idx (st : store) seen :
  Forall2 (λ data job, unmarshal_job zero_job data = Ok job) l jobs →
  each_from idx l (λ idx data, let* job := ofOutcome (unmarshal_job zero_job data) in
      modifyM (λ s : store * list (string * Job), (s.1, s.2 ++ [(data, job)]))) (st, seen)
    = (Ok tt, (st, seen ++ zip l jobs)).
Proof.
  intros Hl. revert idx seen. induction Hl as [|data job l jobs Hd Hl IH]; intros idx seen; cbn [each_from zip].
  { by rw app_nil_r. }
  rw {1}/bindM {1}/bindM Hd. cbn [ofOutcome modifyM fst snd]. rw IH. by rw -app_assoc.
Qed.
(** A queue's page of 25 shows 26 jobs: [LRANGE] counts its last index in.  The last job of
    a full page is the first of the next. *)
Theorem queue_pages_overlap name (p : nat) l jobs (st : store) :
  alive st → as_list (db st) name = Ok l → Forall2 (λ data job, unmarshal_job zero_job data = Ok job) l jobs →
  25 * (Z.of_nat p + 1) < 2 ^ 63 →
  ∃ st', queueJobs (NewQueue name) 25 (Z.of_nat (S p))
           (λ _ data job, modifyM (λ s : store * list (string * Job), (s.1, s.2 ++ [(data, job)]))) (st, [])
         = (Ok tt, (st', take 26 (drop (25 * p) (zip l jobs)))) ∧ db st' = db st.
Proof.
  intros Ha Hl Hj Hp. assert (Es : page_start 25 (Z.of_nat (S p)) = Z.of_nat (25 * p)).
  { rw /page_start Z.mod_small; [lia|]. destruct (Z.ltb_spec ((Z.of_nat (S p) - 1) * 25) (2 ^ 63)); lia. }
  destruct (wp_exec (queueJobs (NewQueue name) 25 (Z.of_nat (S p))
           (λ _ data job, modifyM (λ s : store * list (string * Job), (s.1, s.2 ++ [(data, job)])))) (st, [])
     (λ r s', r = Ok tt ∧ s'.2 = take 26 (drop (25 * p) (zip l jobs)) ∧ db s'.1 = db st)) as (r & [st' seen] & E & -> & E1 & E2).
  - rw /queueJobs. apply wp_ignore. rw /q_Page. wp_steps. apply wp_redis; [done|]. cbn [redis_doc NewQueue qname].
    rw (with_val_eq _ _ _ _ Hl). cbn [fst snd]. intros s' Hs'. rw Es.
    assert (Er : range_of l (Z.of_nat (25 * p)) (Z.of_nat (25 * p) + 25) = take 26 (drop (25 * p) l)).
    { rewrite -(range_of_page l (25 * p) 26); [lia|]. f_equal. lia. }
    rw Er. destruct Hs' as (rd & Hu & Hv & ->). cbn [set_store store_pair fst snd].
    rw /wp (each_from_collects (take 26 (drop (25 * p) l)) (take 26 (drop (25 * p) jobs))).
    { by apply Forall2_take, Forall2_drop. }
    cbn [fst snd app]. split_and!; [done| |done]. by rw -zip_with_take -zip_with_drop.
  - exists st'. cbn in E1, E2. rewrite E E1. done.
Qed.
End queue_page.

(** ** Requests *)

Module Requests.
Import MemRedis PushWitness.

(** An interface with a password, started with it; a server with one scheduled job. *)
Definition conf1 : ServerOptions := mkServerOptions "localhost:7419" "production" "" {[ "web" := Some {[ "password" := Some "secret" ]} ]}.
Definition conf2 : ServerOptions := mkServerOptions "localhost:7419" "production" "" {[ "web" := Some {[ "password" := Some "changed" ]} ]}.
Definition first : Options := opts (Subsystem "localhost:7420") conf1.
Definition ui1 : WebUI := newWeb first.
Definition server1 : @server mem_redis := mkServer m_due no_net false 0 0 now0 startTasks (λ n, now0 + Z.of_nat n * SEC) 0.
Definition GET (path uri prefix : string) (q : gmap string (list string)) : request :=
  mkRequest "GET" path uri prefix (Some ("admin", "secret")) q None ∅.
Definition POST (path : string) (form : gmap string (list string)) : request :=
  mkRequest "POST" path path "" (Some ("admin", "secret")) ∅ None form.
Definition everyone : request → bool := λ _, true.
Definition key1 : string := "2020-09-13T12:26:40Z|jid-0001".
Definition intruder : request := mkRequest "POST" "/scheduled" "/scheduled" "" (Some ("admin", "guess")) ∅ None
  {[ "action" := ["delete"]; "key" := ["all"] ]}.
Lemma admitted1 r : BasicAuth r = Some ("admin", "secret") → admitted ui1.(wrapped_with) r.
Proof. intros E. right. by exists "admin". Qed.
End Requests.
Import Requests MemRedis PushWitness.

Lemma strangers_see_nothing_witness :
  serve 5 12 everyone ui1 intruder server1 = (Ok (HttpError 401 "Authorization failed"), server1) ∧
  ∃ x, serve 5 12 everyone ui1 intruder server1 = (Ok x, server1) ∧ public x.
Proof.
  split; [reflexivity|]. apply (strangers_see_nothing 5 12 everyone ui1 intruder server1); cbn; discriminate.
Defined.

Lemma reload_keeps_password_witness :
  ∃ ui l, reloads (Start (Subsystem "localhost:7420") conf1) [conf2] = Ok l ∧ l.(webui) = Some ui ∧
    ui.(options).(Password) = "changed" ∧
    ∀ r s, serve (H:=mem_redis) 5 12 everyone ui r s = serve 5 12 everyone ui1 r s.
Proof.
  assert (E : reloads (Start (Subsystem "localhost:7420") conf1) [conf2]
    = Ok (mkLife (Some (mkUI (opts (Subsystem "localhost:7420") conf2) first)) "localhost:7420" true)) by reflexivity.
  destruct (reload_keeps_password 5 12 everyone "localhost:7420" conf1 [conf2] _ E) as (ui & H1 & H2 & H3 & _).
  exists ui. eexists. split; [exact E|]. split; [exact H1|]. split; [by rewrite H2|]. exact H3.
Defined.


Lemma visiting_makes_queue_witness :
  (serve 5 12 everyone ui1 (GET "/queues/new" "/queues/new" "" ∅) server1).1 = Ok (Render (PQueue (NewQueue "new") 25 1)).
Proof.
  apply (visiting_makes_queue 5 12 everyone ui1 (GET "/queues/new" "/queues/new" "" ∅) server1 "new" ∅);
    [done|apply Forall_nil_2|by apply admitted1|first [done|by vm_compute]..].
Defined.

Lemma link_leads_to_job_witness :
  (∃ s', serve 5 12 everyone ui1 (GET ("/scheduled/" +:+ key1) ("/scheduled/" +:+ key1) "" ∅) server1
    = (Ok (Render (PJob "scheduled" key1 job1)), s')) ∧
  ∃ s', serve 5 12 everyone ui1 (POST ("/scheduled/" +:+ key1) {[ "action" := ["delete"] ]}) server1
    = (Ok (RedirectTo "/scheduled" 302), s') ∧ db s'.(smgr) = put_zset "scheduled" (delete queued1 due_set) (db server1.(smgr)).
Proof.
  destruct (link_leads_to_job 5 12 everyone ui1 server1 "scheduled" due_set queued1 (score_of now0) job1 key1) with (dir := "scheduled")
    as [H1 H2]; [apply Forall_nil_2|done|by rewrite lookup_singleton_eq|exact now0_usual|exact (unmarshal_marshal_job job1 job1_wf)
    |by vm_compute|by vm_compute| |by vm_compute|right; by left|].
  - intros m' Hm' _. rewrite /due_set in Hm'. by apply lookup_singleton_Some in Hm' as [<- _].
  - split.
    + destruct (H1 (GET ("/scheduled/" +:+ key1) ("/scheduled/" +:+ key1) "" ∅)) as (s' & E & _);
        [split_and!; [done|done|done|done|by apply admitted1|done]|by left|]. by exists s'.
    + destruct (H2 (POST ("/scheduled/" +:+ key1) {[ "action" := ["delete"] ]})) as (s' & E & Hs');
        [split_and!; [done|done|done|done|by apply admitted1|done]|done|done|by vm_compute|].
      exists s'. split; [exact E|]. exact (upd_db _ _ _ _ Hs').
Defined.
Lemma queue_pages_overlap_witness :
  ∃ st', queueJobs (NewQueue "default") 25 1
           (λ _ data job, modifyM (λ s : store * list (string * Job), (s.1, s.2 ++ [(data, job)]))) (m_queued.(mstore), [])
         = (Ok tt, (st', [(queued1, job1)])).
Proof.
  destruct (queue_pages_overlap "default" 0 [queued1] [job1] m_queued.(mstore)) as (st' & E & _);
    [apply Forall_nil_2|done|by repeat constructor|done|]. by exists st'.
Defined.
