(* ===== verification/Draw.v ===== *)
(** * What the pages show (src/webui/*.ego, src/webui/helpers.go)

    The templates as programs: they read the server and write texts to the page.  A text
    that comes from data is written through [html.EscapeString]; it is kept with the name
    of its place, and the markup around it and the words of the language are left out.
    Also left out are what the templates get from outside the server: the version, the
    forgery token, the figures of the Go runtime and of the disk on the debug page, and the
    values of a job's custom fields. *)
From S2P Require Import Prelude GoStrings Float64 GoTime Scores Json Job Redis Store SortedSet Manager Working Workers Server Helpers Timeago Instances Locale Config Pages.

#[local] Open Scope list_scope.

(** ** Texts *)

(** [html.EscapeString]. *)
Fixpoint EscapeString (s : string) : string :=
  match s with
  | EmptyString => ""
  | String c t =>
      (if bool_decide (c = "&"%char) then "&amp;"
       else if bool_decide (c = "'"%char) then "&#39;"
       else if bool_decide (c = "<"%char) then "&lt;"
       else if bool_decide (c = ">"%char) then "&gt;"
       else if bool_decide (c = chr 34) then "&#34;"
       else String c "") +:+ EscapeString t
  end.
(** [base64.RawURLEncoding.EncodeToString]. *)
Definition b64_char (n : Z) : ascii :=
  if n <? 26 then chr (n + 65) else if n <? 52 then chr (n + 71) else if n <? 62 then chr (n - 4)
  else if n =? 62 then "-"%char else "_"%char.
Fixpoint b64_groups (l : list Z) : list Z :=
  match l with
  | [] => []
  | [a] => [a `div` 4; a `mod` 4 * 16]
  | [a; b] => [a `div` 4; a `mod` 4 * 16 + b `div` 16; b `mod` 16 * 4]
  | a :: b :: c :: l' =>
      a `div` 4 :: a `mod` 4 * 16 + b `div` 16 :: b `mod` 16 * 4 + c `div` 64 :: c `mod` 64 :: b64_groups l'
  end.
Definition EncodeToString (s : string) : string :=
  string_of_list_ascii (b64_char <$> b64_groups (byte_val <$> list_ascii_of_string s)).

(** [fmt.Sprintf("%.0f", x)]. *)
Definition format_f0 (x : Z) : string :=
  if x <? 0 then "-" +:+ dec_nat (round_half_even (- x) UNIT) else dec_nat (round_half_even x UNIT).
(** The strings of Go's [sort.Strings]: in the order of their bytes. *)
Definition str_le (a b : string) : Prop := str_leb a b = true.
#[global] Instance str_le_dec : RelDecision str_le.
Proof. intros a b. apply bool_eq_dec. Defined.

(** ** The page being written *)

Record shown := Shown { place : string; texts : list string }.
#[global] Instance shown_eq_dec : EqDecision shown.
Proof. solve_decision. Defined.

(** A queue of the listing: [Queue] of helpers.go. *)
Record listed := mkListed { Name : string; Size : Z; Paused : bool }.
#[global] Instance listed_eq_dec : EqDecision listed.
Proof. solve_decision. Defined.
Definition by_name (a b : listed) : Prop := str_le a.(Name) b.(Name).
#[global] Instance by_name_dec : RelDecision by_name.
Proof. intros a b. apply bool_eq_dec. Defined.

Section draw.
Context `{Redis}.
(** The language's texts, the names of the languages, the server's option file, and the
    settings of loops and places. *)
Context (lc : DefaultContext) (locales : localeMap) (so : ServerOptions) (fuel : nat) (tz MemoryUsageMB : Z).

#[global] Program Instance server_store : HasStore server :=
  {| get_store := λ s, s.(smgr).(mstore); set_store := λ st s, set_smgr (set_store st s.(smgr)) s |}.
Next Obligation. done. Qed.
Next Obligation. done. Qed.
Next Obligation. by intros [[]]. Qed.

Definition canvas : Type := server * list shown.
Definition on_site {A} (m : M server A) : M canvas A := zoomM fst (λ s c, (s, c.2)) m.
Definition write (place : string) (texts : list string) : M canvas unit :=
  modifyM (λ c, (c.1, c.2 ++ [Shown place (EscapeString <$> texts)])).
Definition nil_deref {A} : M canvas A := panicM "invalid memory address or nil pointer dereference".

(** ** Helpers that read the server *)

Definition root (r : request) : string := r.(ScriptName).
Definition pageparam (pageValue : Z) : string := "page=" +:+ dec_nat pageValue.
Definition currentStatus (s : server) : string :=
  if WorkingCount s.(smgr) =? 0 then "idle" else "active".

(** The order of [EachQueue] is the map's, until they are sorted. *)
Definition every_queue (s : server) : list redisQueue := (map_to_list s.(smgr).(mstore).(queueSet)).*2.
Fixpoint sizes (pq : list string) (order : list redisQueue) : M server (list listed) :=
  match order with
  | [] => retM []
  | q :: order' =>
      let* n := q_Size q in
      let* rest := sizes pq order' in
      retM (mkListed q.(qname) n (bool_decide (q.(qname) ∈ pq)) :: rest)
  end.
Definition queues : M server (list listed) :=
  let* r := tryM PausedQueues in
  let* s := getM in
  let* l := sizes (match r with inl pq => pq | inr _ => [] end) (every_queue s) in
  retM (merge_sort by_name l).

(** The first entry that does not parse ends the list. *)
Definition busyReservations (fn : Reservation → M canvas unit) : M canvas unit :=
  ignoreM (ss_Each fuel "working" (λ _ e, let* res := ofOutcome (unmarshal_reservation e.(e_value)) in fn res)).
Definition busyWorkers (fn : ClientData → M canvas unit) : M canvas unit :=
  let* c := getM in
  forM (merge_sort str_le (map_to_list c.1.(snet).(reg).(heartbeats)).*1)
    (λ wid, match Workers.registered c.1.(snet).(reg) wid with Some (_, proc) => fn proc | None => nil_deref end).

Definition daystring (s : string) (n : Z) (m : gmap string Z) : gmap string Z := <[s := n]> m.
(** A map of days to counts, as its JSON text. *)
Definition history_text (days : Z) (count : Z → Z → Z) : M server string :=
  let* now := Now in
  λ s, match tryM (History days tz now (λ day p f, modifyM (λ c, (c.1, daystring day (count p f) c.2)))) (s, ∅) with
       | (Ok (inl _), (s', m)) => (Ok (print (sorted_obj (prod_map id int_json <$> map_to_list m))), s')
       | (Ok (inr e), (s', _)) => (Ok (err_text e), s')
       | (Err e, (s', _)) => (Err e, s')
       | (Panic p, (s', _)) => (Panic p, s')
       end.
Definition query_days (r : request) : list string := default [] (r.(Query) !! "days").
Definition processedHistory (r : request) : M server string := history_text (days (query_days r)) (λ p f, p).
Definition failedHistory (r : request) : M server string := history_text (days (query_days r)) (λ p f, f).

Definition sortedLocaleNames (fn : string → bool → M canvas unit) : M canvas unit :=
  forM (merge_sort str_le (map_to_list locales).*1) (λ name, fn name (bool_decide (name = lc.(locale)))).
Definition uptimeInDays : M server string :=
  let* now := Now in
  let* s := getM in
  retM (format_f0 (f_div (Seconds (Sub now s.(ServerStartedAt))) (f_of_Z 86400))).

(** ** The frame of every page *)

(** [DefaultTabs] of web.go. *)
Definition DefaultTabs : list (string * string) :=
  [("Home", "/"); ("Busy", "/busy"); ("Queues", "/queues"); ("Retries", "/retries"); ("Scheduled", "/scheduled"); ("Dead", "/morgue")].
Definition active_tab (r : request) (path : string) : string :=
  let active := if bool_decide (path = "/") then bool_decide (r.(RequestURI) = "/") else has_prefix path r.(RequestURI) in
  if active then "active" else "".
Definition ego_nav (r : request) : M canvas unit :=
  let* c := getM in
  let x := currentStatus c.1 in
  write "status" [x; root r] ;;;
  forM DefaultTabs (λ tab, write "tab" [active_tab r tab.2; relative r tab.2; Translation lc tab.1]) ;;;
  write "status-text" [x; Translation lc x].

Definition count_text (place : string) (n : M server Z) : M canvas unit :=
  let* n := on_site n in
  let* txt := ofOutcome (uintWithDelimiter n) in
  write place [txt].
Definition enqueued_now : M server Z := let* s := getM in enqueuedSize (every_queue s).
Definition ego_summary : M canvas unit :=
  count_text "processed" TotalProcessed ;;;
  count_text "failed" TotalFailures ;;;
  count_text "busy" (ss_Size "working") ;;;
  count_text "enqueued" enqueued_now ;;;
  count_text "retries" (ss_Size "retries") ;;;
  count_text "scheduled" (ss_Size "scheduled") ;;;
  count_text "dead" (ss_Size "dead").

Definition ego_footer (r : request) : M canvas unit :=
  write "faktory-url" [so.(so_Binding)] ;;;
  let* now := on_site Now in
  write "server-utc-time" [utc_time now] ;;;
  write "environment" [so.(so_Environment)].

Definition ego_layout (r : request) (yield : M canvas unit) : M canvas unit :=
  write "html" [textDir lc; lc.(locale)] ;;;
  ego_nav r ;;; ego_summary ;;; yield ;;; ego_footer r.

(** Links to the first, previous, next and last pages. *)
Definition page_link (r : request) (url : string) (n : Z) : list string := [relative r url +:+ "?" +:+ pageparam n; dec_nat n].
(** [math.Ceil] of the quotient of two [float64]s. *)
Definition last_page (total count : Z) : Z := (f_div (f_of_Z total) (f_of_Z count) + UNIT - 1) `div` UNIT.
Definition ego_paging (r : request) (url : string) (total_size count current_page : Z) : M canvas unit :=
  if count <? total_size then
    write "first" [if current_page =? 1 then "disabled" else ""; relative r url +:+ "?page=1"] ;;;
    (if 1 <? current_page then write "previous" (page_link r url (current_page - 1)) else retM tt) ;;;
    write "current" (page_link r url current_page) ;;;
    let more := wrapu64 (current_page * count) <? total_size in
    (if more then write "next" (page_link r url (wrapu64 (current_page + 1))) else retM tt) ;;;
    write "last" [if more then "" else "disabled"; relative r url +:+ "?" +:+ pageparam (last_page total_size count)]
  else retM tt.

(** ** The pages *)

Definition ego_index (r : request) : M canvas unit :=
  write "history-graph" [daysMatches (query_days r) "7" false; daysMatches (query_days r) "30" true;
                         daysMatches (query_days r) "90" false; daysMatches (query_days r) "180" false] ;;;
  let* processed := on_site (processedHistory r) in
  write "data-processed" [processed] ;;;
  let* failed := on_site (failedHistory r) in
  write "data-failed" [failed; relative r "/stats"] ;;;
  let* uptime := on_site uptimeInDays in
  let* c := getM in
  write "stat" [uptime; dec_nat c.1.(Connections); dec_nat MemoryUsageMB; dec_nat c.1.(Commands)].

Definition ego_listQueues (r : request) : M canvas unit :=
  let* qs := on_site queues in
  forM qs (λ queue,
    let* size := ofOutcome (uintWithDelimiter queue.(Size)) in
    write "queue" [root r +:+ "/queues/" +:+ queue.(Name); queue.(Name); size;
                   if queue.(Paused) then "resume" else "pause"]).

Definition ego_queue (r : request) (q : redisQueue) (count currentPage : Z) : M canvas unit :=
  let paging := let* n := on_site (q_Size q) in ego_paging r ("/queues/" +:+ q.(qname)) n count currentPage in
  write "queue" [q.(qname)] ;;;
  paging ;;;
  queueJobs q count currentPage (λ _ key job,
    write "job" [EncodeToString key; job.(Jid); job.(Type_); displayArgs (default [] job.(Args))]) ;;;
  paging.

Definition job_cells (r : request) (job : Job) : list string :=
  [root r +:+ "/queues/" +:+ job.(Queue); job.(Queue); job.(Type_); displayArgs (default [] job.(Args))].
Definition relative_now (moment : string) : M canvas string := let* now := on_site Now in retM (relativeTime now moment).
Definition error_text (f : Failure) : string := f.(ErrorType) +:+ ": " +:+ f.(ErrorMessage).

(** The listings of the three sets differ in the row of a job and in when there are links. *)
Definition listSet (r : request) (set path : string) (count currentPage : Z) (row : string → Job → M canvas unit) : M canvas unit :=
  let* totalSize := on_site (ss_Size set) in
  ego_layout r (
    ego_paging r path totalSize count currentPage ;;;
    (if 0 <? totalSize then setJobs set count currentPage (λ _ key job, row key job) else retM tt)).
Definition ego_listRetries (r : request) : Z → Z → M canvas unit := λ count currentPage,
  listSet r "retries" "/retries" count currentPage (λ key job,
    write "retry" [key; root r +:+ "/retries/" +:+ key] ;;;
    match job.(JFailure) with
    | None => nil_deref
    | Some f =>
        let* next := relative_now f.(NextAt) in
        write "failure" ([next; dec f.(RetryCount)] ++ job_cells r job ++ [error_text f])
    end).
Definition ego_listScheduled (r : request) : Z → Z → M canvas unit := λ count currentPage,
  listSet r "scheduled" "/scheduled" count currentPage (λ key job,
    let* at_ := relative_now job.(At) in
    write "scheduled" ([key; root r +:+ "/scheduled/" +:+ key; at_] ++ job_cells r job)).
Definition ego_listDead (r : request) : Z → Z → M canvas unit := λ count currentPage,
  listSet r "dead" "/morgue" count currentPage (λ key job,
    let* enq := relative_now job.(EnqueuedAt) in
    write "dead" ([key; root r +:+ "/morgue/" +:+ key; enq] ++ job_cells r job ++
                  match job.(JFailure) with Some f => [error_text f] | None => [] end)).

Definition ego_job_info (r : request) (job : Job) : M canvas unit :=
  write "job" [job.(Jid); job.(Type_); displayFullArgs (default [] job.(Args))] ;;;
  let* created := relative_now job.(CreatedAt) in
  write "created" [created] ;;;
  (if bool_decide (job.(At) = "") then retM tt else let* at_ := relative_now job.(At) in write "scheduled" [at_]) ;;;
  write "queue" [root r +:+ "/queues/" +:+ job.(Queue); job.(Queue)] ;;;
  (if bool_decide (job.(EnqueuedAt) = "") then write "enqueued" [Translation lc "NotYetEnqueued"]
   else let* enq := relative_now job.(EnqueuedAt) in write "enqueued" [enq]) ;;;
  match job.(JFailure) with
  | None => retM tt
  | Some f =>
      let* failed := relative_now f.(FailedAt) in
      let* next := relative_now f.(NextAt) in
      write "failure" [dec f.(RetryCount); failed; next]
  end.
(** The error's table: in the pages of a retry and of a dead job. *)
Definition job_error (job : Job) : M canvas unit :=
  match job.(JFailure) with
  | None => nil_deref
  | Some f => write "error" ([f.(ErrorType); f.(ErrorMessage)] ++ f.(FBacktrace))
  end.
Definition ego_retry (r : request) (key : string) (retry : Job) : M canvas unit :=
  ego_layout r (ego_job_info r retry ;;; job_error retry ;;; write "form" [root r +:+ "/retries/" +:+ key]).
Definition ego_scheduled_job (r : request) (key : string) (job : Job) : M canvas unit :=
  ego_layout r (ego_job_info r job ;;; write "form" [root r +:+ "/scheduled/" +:+ key]).
Definition ego_dead (r : request) (key : string) (dead : Job) : M canvas unit :=
  ego_layout r (ego_job_info r dead ;;; job_error dead ;;; write "form" [root r +:+ "/morgue/" +:+ key]).

Definition ego_busy (r : request) : M canvas unit :=
  ego_layout r (
    busyWorkers (λ worker,
      let* now := on_site Now in
      let* c := getM in
      write "worker" ([worker.(cWid); worker.(Hostname); dec worker.(Pid)] ++ worker.(Labels)) ;;;
      write "process" [if IsQuiet worker then "quiet" else ""; Timeago now worker.(StartedAt); displayRss worker.(RssKb);
                       dec (BusyCount worker.(cWid) c.1.(smgr))]) ;;;
    busyReservations (λ res,
      write "reservation" [res.(Wid)] ;;;
      match res.(rJob) with
      | None => nil_deref
      | Some job =>
          let* since := relative_now res.(Since) in
          write "reserved" ([job.(Jid)] ++ job_cells r job ++ [since])
      end)).
Definition ego_debug (r : request) : M canvas unit :=
  ego_layout r (sortedLocaleNames (λ name current, write "locale" [name; if current then "selected" else ""])).

(** What a handler does with the page it has chosen; the statistics are JSON, not a page. *)
Definition draw (r : request) (p : page) : M canvas unit :=
  match p with
  | PIndex => ego_layout r (ego_index r)
  | PQueues => ego_layout r (ego_listQueues r)
  | PBusy => ego_busy r
  | PDebug => ego_debug r
  | PStats _ => retM tt
  | PQueue q count currentPage => ego_layout r (ego_queue r q count currentPage)
  | PSet set count currentPage =>
      if bool_decide (set = "retries") then ego_listRetries r count currentPage
      else if bool_decide (set = "scheduled") then ego_listScheduled r count currentPage
      else ego_listDead r count currentPage
  | PJob set key job =>
      if bool_decide (set = "retries") then ego_retry r key job
      else if bool_decide (set = "scheduled") then ego_scheduled_job r key job
      else ego_dead r key job
  end.
(** The request as the handlers see it ([Proxy] of web.go). *)
Definition proxied (r : request) : request :=
  if bool_decide (r.(ScriptName) = "") then r
  else let uri := remove_first r.(ScriptName) r.(RequestURI) in set_target uri uri r.
(** The whole of a request: the handler, then its page. *)
Definition respond (nosurf : request → bool) (ui : WebUI) (r : request) : M canvas response :=
  let* x := on_site (serve fuel MemoryUsageMB nosurf ui r) in
  match x with Render p => draw (proxied r) p | _ => retM tt end ;;;
  retM x.
End draw.

(** ** What drawing a page may do *)

(** A text with none of the characters that end a text or an attribute of HTML. *)
Definition plain_text (s : string) : Prop :=
  no_char "<" s && no_char ">" s && no_char (chr 34) s && no_char "'" s = true.
Lemma EscapeString_plain s : plain_text (EscapeString s).
Proof.
  rw /plain_text. induction s as [|c s IH]; [done|]. cbn [EscapeString]. rw !no_char_app.
  apply andb_prop in IH as [[[H1 H2]%andb_prop H3]%andb_prop H4]. rw H1 H2 H3 H4 !andb_true_r.
  repeat (case_bool_decide; [done|]). cbn. by rw !bool_decide_eq_false_2.
Qed.

Section drawing.
Context `{Redis}.

(** The server is left as it is, as far as looking goes, and what is written is plain. *)
Definition drawn (c c' : canvas) : Prop :=
  kept c.1 c'.1 ∧ ∃ l, c'.2 = c.2 ++ l ∧ Forall (λ x, Forall plain_text x.(texts)) l.
#[global] Instance drawn_preorder : PreOrder drawn.
Proof.
  split.
  - intros c. split; [done|]. exists []. by rw app_nil_r.
  - intros c1 c2 c3 (K1 & l1 & E1 & F1) (K2 & l2 & E2 & F2). split; [by transitivity c2.1|].
    exists (l1 ++ l2). by rw E2 E1 app_assoc Forall_app.
Qed.

Lemma draws_on_site {A} (m : M server A) : within kept m → within drawn (on_site m).
Proof.
  intros Hm c. specialize (Hm c.1). rw /on_site /zoomM. destruct (m c.1) as [r s]. split; [done|].
  exists []. by rw app_nil_r.
Qed.
Lemma draws_write place l : within drawn (write place l).
Proof.
  intros c. split; [done|]. eexists. split; [done|]. constructor; [|done].
  apply Forall_fmap, Forall_true. intros s. apply EscapeString_plain.
Qed.
Lemma server_redis {A} (c : cmd A) : within kept_m (redis c) → within kept (redis c).
Proof.
  intros Hc s. pose proof (on_mgr_within (redis c) Hc s) as K. revert K. rw /on_mgr /zoomM /redis. cbn [get_store server_store mgr_store].
  by destruct (exec c _).
Qed.
Lemma canvas_redis {A} (c : cmd A) : within kept_m (redis c) → within drawn (redis c).
Proof.
  intros Hc s. pose proof (draws_on_site (redis c) (server_redis c Hc) s) as K. revert K. rw /on_site /zoomM /redis.
  cbn [get_store set_store store_pair]. by destruct (exec c _).
Qed.
Lemma server_redis_val {A} (z : A) (c : cmd A) : harmless c → within kept (redis_val z c).
Proof.
  intros Hc. rw /redis_val. within_step; [by apply within_try, server_redis, quiet_redis|within].
Qed.

(** Loops. *)
Lemma within_forM {S A} (R : S → S → Prop) `{!PreOrder R} (l : list A) (body : A → M S unit) :
  (∀ x, within R (body x)) → within R (forM l body).
Proof.
  intros Hb. induction l as [|x l IH]; [by apply within_ret|]. apply within_bind; [done|done|]. by intros _.
Qed.
Lemma within_each_from {S A} (R : S → S → Prop) `{!PreOrder R} (fn : Z → A → M S unit) l : (∀ i x, within R (fn i x)) → ∀ idx,
  within R (each_from idx l fn).
Proof.
  intros Hf. induction l as [|x l IH]; intros idx; [by apply within_ret|]. apply within_bind; [done|done|]. by intros _.
Qed.
Lemma draws_ss_Page set start count fn : (∀ i e, within drawn (fn i e)) → within drawn (ss_Page set start count fn).
Proof.
  intros Hf. rw /ss_Page. within_step; [by apply canvas_redis, quiet_redis, reads_harmless|].
  within_step; [by apply within_each_from; [apply _|]|within].
Qed.
Lemma draws_ss_Each f set fn : (∀ i e, within drawn (fn i e)) → within drawn (ss_Each f set fn).
Proof.
  intros Hf. rw /ss_Each. generalize 0. induction f as [|f IH]; intros n; cbn [ss_Each_from]; [within|].
  within_step; [by apply draws_ss_Page|]. within. apply IH.
Qed.
End drawing.

(** Go through a template. *)
Ltac draw_step :=
  lazymatch goal with
  | |- within _ (write _ _) => apply draws_write
  | |- within _ (on_site _) => apply draws_on_site
  | |- within kept (redis _) => apply server_redis
  | |- within kept (redis_val _ _) => apply server_redis_val
  | |- within drawn (redis _) => apply canvas_redis
  | |- within _ (forM _ _) => apply within_forM; [apply _|intros ?]
  | |- within _ (each_from _ _ _) => apply within_each_from; [apply _|intros ? ?]
  | |- within _ (ss_Page _ _ _ _) => apply draws_ss_Page; intros ? ?
  | |- within _ (ss_Each _ _ _) => apply draws_ss_Each; intros ? ?
  | |- _ => within_step
  end.
Ltac draws := repeat draw_step.

Section pages_drawn.
Context `{Redis}.
Context (lc : DefaultContext) (locales : localeMap) (so : ServerOptions) (fuel : nat) (tz MemoryUsageMB : Z).

Lemma draws_sizes pq order : within kept (sizes pq order).
Proof. induction order as [|q order IH]; cbn [sizes]; rw /q_Size; draws. exact IH. Qed.
Lemma draws_enqueuedSize order : within kept (enqueuedSize order : M server Z).
Proof. induction order as [|q order IH]; cbn [enqueuedSize]; rw /q_Size; draws. exact IH. Qed.
Lemma draws_queues : within kept queues.
Proof. rw /queues /PausedQueues. draws; apply draws_sizes. Qed.
Lemma draws_count place n : within kept n → within drawn (count_text place n).
Proof. intros Hn. rw /count_text. draws. exact Hn. Qed.
Lemma draws_relative moment : within drawn (relative_now moment).
Proof. rw /relative_now. draws. Qed.
Lemma draws_paging r url n count cur : within drawn (ego_paging r url n count cur).
Proof. rw /ego_paging. cbv zeta. draws. Qed.
Lemma draws_layout r yield : within drawn yield → within drawn (ego_layout lc so r yield).
Proof.
  intros Hy. rw /ego_layout /ego_nav /ego_summary /ego_footer /ss_Size /TotalProcessed /TotalFailures /total. cbv zeta. draws; try (apply draws_count; draws).
  - rw /enqueued_now. draws. apply draws_enqueuedSize.
  - exact Hy.
Qed.
Lemma draws_listSet r set path count cur row :
  (∀ key job, within drawn (row key job)) → within drawn (listSet lc so r set path count cur row).
Proof.
  intros Hrow. rw /listSet /ss_Size. draws. apply draws_layout. draws; [apply draws_paging|].
  rw /setJobs. draws. apply Hrow.
Qed.
Lemma draws_job_info r job : within drawn (ego_job_info lc r job).
Proof. rw /ego_job_info. draws; apply draws_relative. Qed.
Lemma draws_job_error job : within drawn (job_error job).
Proof. rw /job_error /nil_deref. draws. Qed.

(** *** The history: counters are read by adding nothing to them *)

Definition kept_site {X} (c c' : server * X) : Prop := kept c.1 c'.1.
#[global] Instance kept_site_preorder {X} : PreOrder (kept_site (X:=X)).
Proof. split; [by intros c; rw /kept_site|]. intros c1 c2 c3. rw /kept_site. intros H1 H2. by transitivity c2.1. Qed.
Lemma kept_site_redis {X A} (c : cmd A) : harmless c → within (kept_site (X:=X)) (redis c).
Proof.
  intros Hc s. pose proof (server_redis c (quiet_redis c Hc) s.1) as K. revert K. rw /kept_site /redis.
  cbn [get_store set_store store_pair]. by destruct (exec c _).
Qed.
Lemma history_pipe_keeps {X} n t : within (kept_site (X:=X)) (History_pipe n tz t).
Proof.
  assert (Hp : ∀ d, counter ("processed:" +:+ d) = true) by (intros d; rewrite /counter has_prefix_app !orb_true_r; reflexivity).
  assert (Hf : ∀ d, counter ("failures:" +:+ d) = true) by (intros d; rewrite /counter (has_prefix_app "failures:") !orb_true_r; reflexivity).
  revert t. induction n as [|n IH]; intros t; cbn [History_pipe]; [within|]. cbv zeta.
  within_step; [apply within_try, kept_site_redis, counts_harmless; first [apply Hp|apply Hf]|].
  within_step; [apply within_try, kept_site_redis, counts_harmless; first [apply Hp|apply Hf]|].
  within_step; [apply IH|within].
Qed.
Lemma draws_history n count : within kept (history_text tz n count).
Proof.
  rw /history_text. within_step; [apply quiet_now|]. intros s.
  set (m := History n tz a _). assert (Hm : within (kept_site (X:=gmap string Z)) m).
  { rw /m /History. destruct (n <? 0); [within|]. within_step; [apply history_pipe_keeps|]. within_step; [within|].
    apply within_forM; [apply _|]. intros x. apply within_modify. by intros c. }
  specialize (Hm (s, ∅)). rw /tryM. by destruct (m (s, ∅)) as [[] []].
Qed.

Lemma draws_draw r p : within drawn (draw lc locales so fuel tz MemoryUsageMB r p).
Proof.
  destruct p; cbn [draw]; rw /ego_busy /ego_debug.
  - apply draws_layout. rw /ego_index /processedHistory /failedHistory /uptimeInDays. draws; apply draws_history.
  - apply draws_layout. rw /ego_listQueues. draws. apply draws_queues.
  - apply draws_layout. rw /busyWorkers /busyReservations /nil_deref. draws. apply draws_relative.
  - apply draws_layout. rw /sortedLocaleNames. draws.
  - draws.
  - apply draws_layout. rw /ego_queue /queueJobs /q_Page /q_Size. draws; apply draws_paging.
  - rw /ego_listRetries /ego_listScheduled /ego_listDead /nil_deref.
    draws; apply draws_listSet; intros key job; draws; apply draws_relative.
  - rw /ego_retry /ego_scheduled_job /ego_dead. draws; apply draws_layout; draws; try apply draws_job_info; apply draws_job_error.
Qed.
End pages_drawn.

(** ** Whether a page can be drawn *)

(** On a server whose database answers, a program ends well, with a value in [P]. *)
Section calm.
Context `{Redis} {S : Type} `{!HasStore S}.

Definition calm {A} (m : M S A) (P : A → Prop) : Prop :=
  ∀ s, alive s → wp m s (λ r s', ∃ a, r = Ok a ∧ P a ∧ alive s').
(** It panics. *)
Definition stops {A} (m : M S A) : Prop := ∀ s, alive s → ∃ p, (m s).1 = Panic p.

Lemma calm_ret {A} (a : A) (P : A → Prop) : P a → calm (retM a) P.
Proof. intros Ha s Hs. exists a. split_and!; [done|exact Ha|exact Hs]. Qed.
Lemma calm_outcome {A} (o : outcome A) (a : A) : o = Ok a → calm (ofOutcome o) (λ _, True).
Proof. intros -> s Hs. exists a. split_and!; [done|done|exact Hs]. Qed.
Lemma calm_bind {A B} (m : M S A) (k : A → M S B) (P : A → Prop) (Q : B → Prop) :
  calm m P → (∀ a, P a → calm (k a) Q) → calm (bindM m k) Q.
Proof.
  intros Hm Hk s Hs. apply wp_bind. eapply wp_mono; [by apply Hm|]. intros r s' (a & -> & Ha & Hs'). by apply Hk.
Qed.
Lemma calm_then {A B} (m : M S A) (k : M S B) Q : calm m (λ _, True) → calm k Q → calm (m ;;; k) Q.
Proof. intros Hm Hk. apply (calm_bind _ _ (λ _, True)); [exact Hm|]. intros _ _. exact Hk. Qed.
Lemma calm_get {A} (k : S → M S A) Q : (∀ s, calm (k s) Q) → calm (let* s := getM in k s) Q.
Proof. intros Hk s Hs. by apply Hk. Qed.
Lemma calm_forM {A} (l : list A) body : (∀ x, calm (body x) (λ _, True)) → calm (forM l body) (λ _, True).
Proof. intros Hb. induction l as [|x l IH]; [by apply calm_ret|]. by apply calm_then. Qed.
(** A number the database holds: what it counts, or zero. *)
Lemma calm_redis_val {A} (z : A) (c : cmd A) (P : A → Prop) :
  P z → (∀ d a, (redis_doc c d).1 = Ok a → P a) → (∀ d p, (redis_doc c d).1 ≠ Panic p) → calm (redis_val z c) P.
Proof.
  intros Hz Hc Hp s Hs. apply wp_redis_val; [done|]. intros s' Hs'. pose proof (upd_alive _ _ _ _ Hs').
  destruct (redis_doc c (db s)).1 as [a|e|p] eqn:E; [|exists z; by split_and!|by destruct (Hp _ _ E)].
  exists a. split_and!; [done|exact (Hc _ _ E)|done].
Qed.
Lemma stops_first {A B} (m : M S A) (k : A → M S B) : stops m → stops (bindM m k).
Proof. intros Hm s Hs. destruct (Hm s Hs) as [p Hp]. exists p. rw /bindM. destruct (m s) as [[] ?]; cbn in *; congruence. Qed.
Lemma stops_then {A B} (m : M S A) (k : A → M S B) P : calm m P → (∀ a, P a → stops (k a)) → stops (bindM m k).
Proof.
  intros Hm Hk s Hs. destruct (wp_exec _ _ _ (Hm s Hs)) as (r & s' & E & a & -> & Ha & Hs').
  rw /bindM E. by apply Hk.
Qed.
End calm.

(** One statement after another. *)
Ltac calm_seq := repeat lazymatch goal with |- calm (bindM _ _) _ => apply calm_then end.

Section job_pages.
Context `{Redis}.
Context (lc : DefaultContext) (locales : localeMap) (so : ServerOptions) (fuel : nat) (tz MemoryUsageMB : Z).

Lemma calm_on_site {A} (m : M server A) P : calm m P → calm (on_site m) P.
Proof.
  intros Hm c Hc. specialize (Hm c.1 Hc). revert Hm. rw /wp /on_site /zoomM. by destruct (m c.1).
Qed.
Lemma calm_write place l : calm (write place l) (λ _, True).
Proof. intros c Hc. exists tt. split_and!; [done|done|exact Hc]. Qed.
Lemma calm_now : calm (S:=server) Now (λ _, True).
Proof. intros s Hs. eexists. split_and!; [done|done|exact Hs]. Qed.
Lemma calm_llen k : calm (S:=server) (redis_val 0 (LLen k)) (λ n, 0 ≤ n).
Proof.
  apply calm_redis_val; [done|..]; intros d a; cbn; rw /as_list /with_val; destruct (d !! k) as [[]|]; try done;
    intros [= <-]; lia.
Qed.
Lemma calm_zcard k : calm (S:=server) (redis_val 0 (ZCard k)) (λ n, 0 ≤ n).
Proof.
  apply calm_redis_val; [done|..]; intros d a; cbn; rw /as_zset /with_val; destruct (d !! k) as [[]|]; try done;
    intros [= <-]; lia.
Qed.
Lemma calm_total k : calm (S:=server) (total k) (λ n, 0 ≤ n).
Proof.
  eapply calm_bind.
  - apply (calm_redis_val _ _ (λ _, True)); [done..|]. intros d p. cbn. rw /as_int /with_val.
    destruct (d !! k) as [[]|]; try done. by destruct (atoi _).
  - intros n _. apply calm_ret. lia.
Qed.
Lemma calm_enqueued order : calm (S:=server) (enqueuedSize order) (λ n, 0 ≤ n).
Proof.
  induction order as [|q order IH]; cbn [enqueuedSize]; [by apply calm_ret|].
  eapply calm_bind; [apply calm_llen|]. intros n _. eapply calm_bind; [exact IH|]. intros t _. apply calm_ret. lia.
Qed.
Lemma calm_count place n : calm n (λ n, 0 ≤ n) → calm (count_text place n) (λ _, True).
Proof.
  intros Hn. eapply calm_bind; [exact (calm_on_site _ _ Hn)|]. intros x Hx.
  apply (calm_bind _ _ (λ _, True)); [|intros ? _; apply calm_write]. eapply calm_outcome. by apply uintWithDelimiter_eq.
Qed.
Lemma calm_relative moment : calm (relative_now moment) (λ _, True).
Proof. eapply calm_bind; [apply calm_on_site, calm_now|]. intros now _. by apply calm_ret. Qed.
Lemma calm_nav r : calm (ego_nav lc r) (λ _, True).
Proof.
  apply calm_get. intros c. cbv zeta. calm_seq; [apply calm_write| |apply calm_write].
  apply calm_forM. intros tab. apply calm_write.
Qed.
Lemma calm_summary : calm ego_summary (λ _, True).
Proof.
  rw /ego_summary. calm_seq; apply calm_count; first [apply calm_total|apply calm_zcard|idtac].
  apply calm_get. intros s. apply calm_enqueued.
Qed.
Lemma calm_layout r yield : calm yield (λ _, True) → calm (ego_layout lc so r yield) (λ _, True).
Proof.
  intros Hy. do 5 (apply calm_then; [first [exact Hy|apply calm_write|apply calm_nav|apply calm_summary]|]).
  eapply calm_bind; [apply calm_on_site, calm_now|]. intros now _. calm_seq; apply calm_write.
Qed.
Lemma stops_layout r yield : stops yield → stops (ego_layout lc so r yield).
Proof.
  intros Hy. do 3 (eapply stops_then; [first [apply calm_write|apply calm_nav|apply calm_summary]|intros ? _]). by apply stops_first.
Qed.
Lemma calm_job_info r job : calm (ego_job_info lc r job) (λ _, True).
Proof.
  rw /ego_job_info. apply calm_then; [apply calm_write|]. eapply calm_bind; [apply calm_relative|]. intros created _.
  apply calm_then; [apply calm_write|]. apply calm_then.
  { case_bool_decide; [by apply calm_ret|]. eapply calm_bind; [apply calm_relative|]. intros x _. apply calm_write. }
  apply calm_then; [apply calm_write|]. apply calm_then.
  { case_bool_decide; [apply calm_write|]. eapply calm_bind; [apply calm_relative|]. intros x _. apply calm_write. }
  destruct (JFailure job) as [f|]; [|by apply calm_ret].
  do 2 (eapply calm_bind; [apply calm_relative|intros ? _]). apply calm_write.
Qed.
Lemma calm_job_error job : is_Some job.(JFailure) → calm (job_error job) (λ _, True).
Proof. intros [f Hf]. rw /job_error Hf. apply calm_write. Qed.
Lemma stops_job_error job : job.(JFailure) = None → stops (job_error job).
Proof. intros Hf c _. rw /job_error Hf. by eexists. Qed.
End job_pages.

Section theorems.
Context `{Redis}.
Context (lc : DefaultContext) (locales : localeMap) (so : ServerOptions) (fuel : nat) (tz MemoryUsageMB : Z).
Context (nosurf : request → bool).
Notation answer := (respond lc locales so fuel tz MemoryUsageMB nosurf).

(** C17. Only a POST changes anything: whatever else is asked, in whatever state, neither the
    handler nor the drawing of its page touches the jobs, queues, sets, reservations,
    pauses and workers.  They do write: the names of the queues, and the counters, which are
    read by adding nothing to them.  But every other key of the database stays as it is, and
    the counters keep their values. *)
Theorem looking_changes_little ui r c :
  posted r = false → alive c.1.(smgr) →
  let s' := (answer ui r c).2.1 in
  alive s'.(smgr) ∧
  (∀ k, k ≠ "queues" → (counter k = false → db s'.(smgr) !! k = db c.1.(smgr) !! k) ∧
                       as_int (db s'.(smgr)) k = as_int (db c.1.(smgr)) k) ∧
  s'.(smgr).(workingMap) = c.1.(smgr).(workingMap) ∧ s'.(smgr).(paused_) = c.1.(smgr).(paused_) ∧ s'.(snet) = c.1.(snet).
Proof.
  intros Hp Ha. assert (Hd : within drawn (answer ui r)).
  { rw /respond. draw_step; [by apply draws_on_site, quiet_serve|]. draws. apply draws_draw. }
  destruct (Hd c) as [(Hk & Hn & _) _]. by destruct (Hk Ha) as (H1 & H2 & H3 & H4).
Qed.

(** Whatever is stored, and whatever is asked: no text that a page shows can end the text or
    the attribute it stands in. *)
Theorem data_is_escaped ui r c :
  ∃ l, (answer ui r c).2.2 = c.2 ++ l ∧ Forall (λ x, Forall plain_text x.(texts)) l.
Proof.
  rw /respond. set (m := on_site _). destruct (m c) as [o c1] eqn:E.
  assert (E1 : c1.2 = c.2). { revert E. rw /m /on_site /zoomM. by destruct (serve _ _ _ _ _ c.1); intros [= _ <-]. }
  rw /bindM E -E1. destruct o as [x|e|p]; [|exists []; by rw app_nil_r..].
  set (d := match x with Render p => draw lc locales so fuel tz MemoryUsageMB (proxied r) p | _ => retM tt end).
  assert (Hd : within drawn d) by (unfold d; draws; apply draws_draw).
  destruct (Hd c1) as [_ Hl]. by destruct (d c1) as [[] ?].
Qed.

(** C39. On a server whose database answers, the page of a scheduled job is drawn, and that of a
    retry or a dead job with the error it failed with; but a dead job that never failed, as
    one killed before it was due, has no page: its handler panics. *)
Theorem dead_page_needs_failure r c set key job :
  alive c.1.(smgr) → set ∈ ["retries"; "scheduled"; "dead"] →
  let page := draw lc locales so fuel tz MemoryUsageMB r (PJob set key job) c in
  if bool_decide (set = "scheduled") || bool_decide (is_Some job.(JFailure))
  then ∃ c', page = (Ok tt, c') ∧ alive c'.1.(smgr)
  else ∃ p, page.1 = Panic p.
Proof.
  intros Ha Hset. cbv zeta. destruct (_ || _) eqn:E.
  - assert (Hc : calm (draw lc locales so fuel tz MemoryUsageMB r (PJob set key job)) (λ _, True)).
    { assert (Hi : set = "scheduled" ∨ is_Some (JFailure job)).
      { apply orb_prop in E as [E|E]; apply bool_decide_eq_true in E; auto. }
      cbn [draw]. rw /ego_retry /ego_scheduled_job /ego_dead. repeat case_bool_decide; subst;
        (apply calm_layout; calm_seq; first [apply calm_job_info|apply calm_write|apply calm_job_error]); by destruct Hi. }
    destruct (wp_exec _ _ _ (Hc c Ha)) as (r' & c' & E' & [] & -> & _ & Ha'). by exists c'.
  - apply orb_false_elim in E as [E1%bool_decide_eq_false E2%bool_decide_eq_false].
    assert (Hn : JFailure job = None) by (destruct (JFailure job); [by destruct E2|done]).
    assert (Hs : stops (draw lc locales so fuel tz MemoryUsageMB r (PJob set key job))); [|by apply Hs].
    cbn [draw]. rw (bool_decide_eq_false_2 (set = "scheduled")) //. rw /ego_retry /ego_dead. destruct (bool_decide _);
      (apply stops_layout; eapply stops_then; [apply calm_job_info|intros ? _; by apply stops_first, stops_job_error]).
Qed.
End theorems.

(** ** The server of Pages.v *)

Section witnesses.
Import Requests MemRedis PushWitness.
Local Notation english := (mkContext "en" None).

Lemma looking_changes_little_witness :
  db (respond english ∅ conf1 5 0 12 everyone ui1 (GET "/" "/?days=7" "" {[ "days" := ["7"] ]}) (server1, [])).2.1.(smgr) !! "scheduled"
    = Some (RZSet due_set).
Proof.
  destruct (looking_changes_little english ∅ conf1 5 0 12 everyone ui1 (GET "/" "/?days=7" "" {[ "days" := ["7"] ]}) (server1, []))
    as (_ & K & _); [done|apply Forall_nil_2|].
  destruct (K "scheduled" ltac:(discriminate)) as [K1 _]. etransitivity; [exact (K1 eq_refl)|by rewrite lookup_singleton_eq].
Defined.
(** A job killed before it was due. *)
Lemma dead_page_needs_failure_witness :
  ∃ p, (draw english ∅ conf1 5 0 12 (GET ("/morgue/" +:+ key1) ("/morgue/" +:+ key1) "" ∅) (PJob "dead" key1 job1) (server1, [])).1 = Panic p.
Proof.
  apply (dead_page_needs_failure english ∅ conf1 5 0 12 (GET ("/morgue/" +:+ key1) ("/morgue/" +:+ key1) "" ∅) (server1, []) "dead" key1 job1);
    [apply Forall_nil_2|right; right; by left].
Defined.
End witnesses.
