(* ===== verification/Listings.v ===== *)
(** * The lists of queues and jobs, and what comes back from them

    The page of all queues (queues.ego) against the database, and the boxes of a queue's page
    (queue.ego) against the handler of the form they are sent with (pages.go). *)
From S2P Require Import Prelude GoStrings GoTime Json Job Redis Store SortedSet Manager Workers Server Helpers Instances Locale Config Pages Draw.

#[local] Open Scope list_scope.

(** ** The listing of the queues *)

Definition members (d : dataset) (k : string) : gset string := match as_set d k with Ok l => l | _ => ∅ end.
Definition size_of (d : dataset) (k : string) : Z := match as_list d k with Ok l => Z.of_nat (length l) | _ => 0 end.
Definition listed_as (d : dataset) (q : redisQueue) : listed :=
  mkListed q.(qname) (size_of d q.(qname)) (bool_decide (q.(qname) ∈ members d "paused")).

#[global] Instance by_name_total : Total by_name.
Proof. intros a b. apply str_leb_total. Qed.
#[global] Instance by_name_trans : Transitive by_name.
Proof. intros a b c. apply str_leb_trans. Qed.
Lemma sum_perm (l l' : list Z) : l ≡ₚ l' → foldr Z.add 0 l = foldr Z.add 0 l'.
Proof. induction 1; cbn; lia. Qed.

Section listing.
Context `{Redis}.

(** On a server whose database answers, commands that read find what is there. *)
Lemma wp_Size (q : redisQueue) (s : server) (Q : outcome Z → server → Prop) :
  alive s → (∀ s', upd s (db s) (knows s) s' → Q (Ok (size_of (db s) q.(qname))) s') → wp (q_Size q) s Q.
Proof.
  intros Ha HQ. rw /q_Size. apply wp_redis_val; [done|]. intros s' Hs'. revert Hs'. cbn [redis_doc]. rewrite /size_of /as_list in HQ.
  rw /as_list /with_val. destruct (db s !! qname q) as [[]|]; intros Hs'; by apply HQ.
Qed.
Lemma wp_sizes pq order (s : server) (Q : outcome (list listed) → server → Prop) :
  alive s →
  (∀ s', upd s (db s) (knows s) s' →
     Q (Ok ((λ q, mkListed q.(qname) (size_of (db s) q.(qname)) (bool_decide (q.(qname) ∈ pq))) <$> order)) s') →
  wp (sizes pq order) s Q.
Proof.
  revert s Q. induction order as [|q order IH]; intros s Q Ha HQ; cbn [sizes]; wp_steps; [by apply HQ, upd_refl|].
  apply wp_Size; [done|]. intros s1 H1. wp_steps. apply IH; [exact (upd_alive _ _ _ _ H1)|]. intros s2 H2. wp_steps.
  rewrite (upd_db _ _ _ _ H1) (upd_knows _ _ _ _ H1) in H2. rw (upd_db _ _ _ _ H1). apply HQ. exact (upd_trans _ _ _ _ _ _ _ H1 H2).
Qed.
Lemma wp_enqueued order (s : server) (Q : outcome Z → server → Prop) :
  alive s →
  (∀ s', upd s (db s) (knows s) s' →
     Q (Ok (foldr (λ q n, (size_of (db s) q.(qname) + n) `mod` 2 ^ 64) 0 order)) s') →
  wp (enqueuedSize order) s Q.
Proof.
  revert s Q. induction order as [|q order IH]; intros s Q Ha HQ; cbn [enqueuedSize]; wp_steps; [by apply HQ, upd_refl|].
  apply wp_Size; [done|]. intros s1 H1. wp_steps. apply IH; [exact (upd_alive _ _ _ _ H1)|]. intros s2 H2. wp_steps.
  rewrite (upd_db _ _ _ _ H1) (upd_knows _ _ _ _ H1) in H2. rw (upd_db _ _ _ _ H1). apply HQ. exact (upd_trans _ _ _ _ _ _ _ H1 H2).
Qed.
Lemma sum_wraps {A} (f : A → Z) l :
  foldr (λ x n, (f x + n) `mod` 2 ^ 64) 0 l = foldr Z.add 0 (f <$> l) `mod` 2 ^ 64.
Proof. induction l as [|x l IH]; [done|]. cbn. by rw IH Zplus_mod_idemp_r. Qed.

Lemma every_queue_upd (s s' : server) d : upd s d (knows s) s' → every_queue s' = every_queue s.
Proof. intros Hs. change (every_queue s') with ((map_to_list (knows s')).*2). by rw (upd_knows _ _ _ _ Hs). Qed.

(** The listing has every queue the server knows, once, in the order of the names, with its
    length and whether it is paused in the database; and the figure "Enqueued" of every page
    is the sum of the lengths listed. *)
Theorem queues_lists_all (s : server) :
  alive s →
  ∃ l s', queues s = (Ok l, s') ∧ db s' = db s ∧
    StronglySorted by_name l ∧ l ≡ₚ listed_as (db s) <$> every_queue s ∧
    ∃ s2, enqueued_now s' = (Ok (foldr Z.add 0 (Size <$> l) `mod` 2 ^ 64), s2).
Proof.
  intros Ha. set (l := merge_sort by_name (listed_as (db s) <$> every_queue s)).
  destruct (wp_exec queues s (λ r s', r = Ok l ∧ upd s (db s) (knows s) s')) as (r & s' & E & -> & Hs').
  { rw /queues /PausedQueues. wp_steps. apply wp_redis; [done|]. intros s1 H1. revert H1. cbn [redis_doc].
    assert (Hm : ∀ pq s1, upd s (db s) (knows s) s1 → (∀ n, n ∈ pq ↔ n ∈ members (db s) "paused") →
      ∃ s2, sizes pq (every_queue s1) s1 = (Ok (listed_as (db s) <$> every_queue s), s2) ∧ upd s (db s) (knows s) s2).
    { intros pq s1' H1 Hpq. destruct (wp_exec (sizes pq (every_queue s1')) s1' (λ r s2, r = Ok (listed_as (db s) <$> every_queue s) ∧
        upd s (db s) (knows s) s2)) as (r & s2 & E & -> & H2); [|by exists s2].
      apply wp_sizes; [exact (upd_alive _ _ _ _ H1)|]. intros s2 H2. split.
      - rw (upd_db _ _ _ _ H1) (every_queue_upd _ _ _ H1). f_equal. apply list_fmap_ext. intros i q _. rw /listed_as. f_equal. by apply bool_decide_ext.
      - rewrite (upd_db _ _ _ _ H1) (upd_knows _ _ _ _ H1) in H2. exact (upd_trans _ _ _ _ _ _ _ H1 H2). }
    rewrite /members in Hm. destruct (as_set (db s) "paused") as [ps|e|p] eqn:Eps; cbn [with_val fst snd]; intros H1; wp_steps.
    - destruct (Hm (elements ps) s1 H1) as (s2 & E & H2); [intros n; apply elem_of_elements|]. by rewrite /wp E.
    - destruct (Hm [] s1 H1) as (s2 & E & H2); [intros n; set_solver|]. by rewrite /wp E.
    - exfalso. revert Eps. rw /as_set. by destruct (_ !! _) as [[]|]. }
  exists l, s'. split_and!; [done|exact (upd_db _ _ _ _ Hs')| | |].
  - apply (StronglySorted_merge_sort by_name).
  - apply (merge_sort_Permutation by_name).
  - destruct (wp_exec enqueued_now s' (λ r _, r = Ok (foldr Z.add 0 (Size <$> l) `mod` 2 ^ 64))) as (r & s2 & E2 & ->); [|by exists s2].
    rw /enqueued_now. wp_steps. apply wp_enqueued; [exact (upd_alive _ _ _ _ Hs')|]. intros s2 H2. rw sum_wraps (upd_db _ _ _ _ Hs'). do 2 f_equal.
    rw (every_queue_upd _ _ _ Hs'). apply sum_perm. rewrite /l (merge_sort_Permutation by_name) -list_fmap_compose. by apply reflexive_eq, list_fmap_ext.
Qed.
End listing.

(** ** The boxes of a queue's page *)

Lemma b64_val_char n : 0 ≤ n < 64 → b64_val (b64_char n) = Some n ∧ (byte_val (b64_char n) =? 13) || (byte_val (b64_char n) =? 10) = false.
Proof.
  intros Hn. assert (Hall : Forall (λ n, b64_val (b64_char n) = Some n ∧
    (byte_val (b64_char n) =? 13) || (byte_val (b64_char n) =? 10) = false) (seqZ 0 64)).
  { apply (bool_decide_unpack _). by vm_compute. }
  rewrite Forall_forall in Hall. apply Hall, elem_of_seqZ. lia.
Qed.
Lemma list_ind3 {A} (P : list A → Prop) :
  P [] → (∀ a, P [a]) → (∀ a b, P [a; b]) → (∀ a b c l, P l → P (a :: b :: c :: l)) → ∀ l, P l.
Proof.
  intros H0 H1 H2 H3. assert (∀ n l, (length l ≤ n)%nat → P l) as Hn; [|intros l; by eapply Hn].
  induction n as [|n IH]; intros [|a [|b [|c l]]] Hl; try done; cbn in Hl; try lia. apply H3, IH. lia.
Qed.
Lemma b64_groups_spec l :
  Forall (λ b, 0 ≤ b < 256) l → Forall (λ n, 0 ≤ n < 64) (b64_groups l) ∧ b64_bytes (b64_groups l) = Some l.
Proof.
  induction l as [|a|a b|a b c l IH] using list_ind3; intros Hl.
  - done.
  - apply Forall_cons in Hl as [Ha _]. cbn. split; [repeat constructor; lia|]. do 2 f_equal. lia.
  - apply Forall_cons in Hl as [Ha [Hb _]%Forall_cons]. cbn. split; [repeat constructor; lia|]. do 2 f_equal; [lia|f_equal; lia].
  - apply Forall_cons in Hl as [Ha [Hb [Hc Hl]%Forall_cons]%Forall_cons]. destruct (IH Hl) as [IH1 IH2].
    cbn [b64_groups]. split; [repeat constructor; try lia; done|]. cbn [b64_bytes]. rw IH2. cbn. do 2 f_equal; [lia|f_equal; [lia|f_equal; lia]].
Qed.
Lemma DecodeString_EncodeToString s : DecodeString (EncodeToString s) = Some s.
Proof.
  set (bs := byte_val <$> list_ascii_of_string s).
  assert (Hbs : Forall (λ b, 0 ≤ b < 256) bs) by (apply Forall_fmap, Forall_true; intros c; apply byte_val_range).
  destruct (b64_groups_spec bs Hbs) as [Hg Hd]. rw /EncodeToString /DecodeString list_ascii_of_string_of_list_ascii -/bs.
  assert (E : List.filter (λ c, negb ((byte_val c =? 13) || (byte_val c =? 10))) (b64_char <$> b64_groups bs) = b64_char <$> b64_groups bs
    ∧ mapM b64_val (b64_char <$> b64_groups bs) = Some (b64_groups bs)).
  { clear Hd. revert Hg. generalize (b64_groups bs). intros g Hg. induction Hg as [|n l Hn Hl IH]; [done|]. destruct IH as [I1 I2], (b64_val_char n Hn) as [V1 V2].
    rewrite fmap_cons. split; [cbn [List.filter]; rewrite V2; cbn [negb]; by rewrite I1|]. cbn. rewrite V1. cbn. by rewrite I2. }
  destruct E as [-> ->]. cbn. rw Hd. cbn. f_equal. rw /bs.
  clear. induction s as [|c s IH]; [done|]. cbn. by rw chr_byte_val IH.
Qed.

Lemma list_rem_perm v l : v ∈ l → l ≡ₚ v :: list_rem 1 v l.
Proof.
  induction l as [|x l IH]; [by intros ?%not_elem_of_nil|]. intros Hv. cbn [list_rem]. case_bool_decide as E.
  - subst. by destruct l.
  - apply elem_of_cons in Hv as [->|Hv]; [done|]. rewrite {1}(IH Hv). apply Permutation_swap.
Qed.

Section boxes.
Context `{Redis}.

(** Each payload that is there is taken out once. *)
Lemma wp_q_Delete (q : redisQueue) vals l (s : mgr) (Q : outcome unit → mgr → Prop) :
  alive s → as_list (db s) q.(qname) = Ok l → vals ⊆+ l →
  (∀ rest s', l ≡ₚ vals ++ rest → as_list (db s') q.(qname) = Ok rest → knows s' = knows s →
     (∀ k, k ≠ q.(qname) → db s' !! k = db s !! k) → alive s' → Q (Ok tt) s') →
  wp (q_Delete q vals) s Q.
Proof.
  rw /q_Delete. revert l s Q. induction vals as [|v vals IH]; intros l s Q Ha Hl Hsub HQ; cbn [forM]; wp_steps; [by apply (HQ l)|].
  apply wp_redis; [done|]. intros s1. cbn [redis_doc]. rw (with_val_eq _ _ _ _ Hl). cbn [fst snd]. intros H1. wp_steps.
  assert (Hv : v ∈ l) by (eapply elem_of_submseteq; [|exact Hsub]; by left).
  pose proof (list_rem_perm v l Hv) as Hp. rewrite {1}Hp in Hsub. apply submseteq_cons_l in Hsub.
  apply (IH (list_rem 1 v l)); [exact (upd_alive _ _ _ _ H1)|by rw (upd_db _ _ _ _ H1) as_put_list| |].
  - destruct Hsub as (k & Hk & Hsub). apply Permutation_cons_inv in Hk. by rewrite Hk.
  - intros rest s' Hr Hrest Hkn Hoth Ha'. apply (HQ rest); [by rewrite Hp Hr|done|by rw Hkn (upd_knows _ _ _ _ H1)| |done].
    intros k Hk. by rw Hoth // (upd_db _ _ _ _ H1) put_list_ne; [apply not_eq_sym|].
Qed.

Context (fuel : nat) (MemoryUsageMB : Z) (nosurf : request → bool).

(** C40. The boxes checked on the page of a queue come back as the jobs they stand for: a POST with
    the values the page wrote takes those jobs out of the queue, each once, and touches
    nothing else. *)
Theorem checked_boxes_delete ui r s name l vals :
  alive s.(smgr) → knows s.(smgr) !! name = Some (NewQueue name) → as_list (db s.(smgr)) name = Ok l →
  admitted ui.(wrapped_with) r → nosurf r = true → r.(Method) = "POST" → r.(ScriptName) = "" → r.(RequestURI) ≠ "*" →
  r.(Path) = "/queues/" +:+ name → ValidQueueName name = true → name ≠ "." → name ≠ ".." →
  r.(FormError) = None → r.(Form) !! "bkey" = Some (EncodeToString <$> vals) → vals ≠ [] → vals ⊆+ l →
  ∃ s' rest, serve fuel MemoryUsageMB nosurf ui r s = (Ok (RedirectTo ("/queues/" +:+ name) 302), s') ∧
    l ≡ₚ vals ++ rest ∧ as_list (db s'.(smgr)) name = Ok rest ∧
    (∀ k, k ≠ name → db s'.(smgr) !! k = db s.(smgr) !! k) ∧ knows s'.(smgr) = knows s.(smgr).
Proof.
  intros Ha Hk Hl Hadm Hnf Hm Hs Hu Hp Hv Hd1 Hd2 Hfe Hform Hne Hsub. destruct (name_no_slash name Hv) as [Hn Hsl].
  assert (Hcon : Method r ≠ "CONNECT") by by rw Hm.
  rewrite (one_page_routed fuel MemoryUsageMB nosurf ui "queues" name queueHandler r s) //; [by left|].
  destruct (wp_exec (queueHandler r) s (λ res s', res = Ok (RedirectTo ("/queues/" +:+ name) 302) ∧ ∃ rest,
    l ≡ₚ vals ++ rest ∧ as_list (db s'.(smgr)) name = Ok rest ∧
    (∀ k, k ≠ name → db s'.(smgr) !! k = db s.(smgr) !! k) ∧ knows s'.(smgr) = knows s.(smgr)))
    as (res & s' & E & -> & rest & K); [|by exists s', rest].
  rw /queueHandler Hp (last_element_two "queues" name) //. apply wp_or_500, wp_on_mgr.
  apply (wp_GetQueue_known name (NewQueue name)); [done..|]. eexists. split; [done|].
  rw {1}/posted Hm bool_decide_eq_true_2 // Hfe Hform. cbn [default].
  destruct vals as [|v vals]; [done|]. rewrite fmap_cons.
  assert (Hdec : mapM DecodeString (EncodeToString <$> v :: vals) = Some (v :: vals)).
  { generalize (v :: vals). intros vs. induction vs as [|x vs IH]; [done|]. cbn. rewrite DecodeString_EncodeToString. cbn. by rewrite IH. }
  rewrite fmap_cons in Hdec. cbn [default id]. rewrite Hdec.
  apply wp_or_500, wp_on_mgr. eapply (wp_q_Delete _ _ l); [done..|]. intros rest m' Hr Hrest Hkn Hoth Ha'.
  eexists. split; [done|]. rw /redirect /relative Hs. apply wp_ret. split; [done|]. by exists rest.
Qed.
End boxes.

(** ** A server with a paused queue of one job *)

Module Paused.
Import Requests MemRedis PushWitness.
Definition m_paused : @mgr mem_redis :=
  mkMgr (mkStore {| data := {[ "default" := RList [queued1]; "paused" := RSet {["default"]} ]}; faults := [] |}
                 {[ "default" := NewQueue "default" ]}) ∅ ["default"].
Definition s_paused : @server mem_redis := mkServer m_paused no_net false 0 0 now0 startTasks (λ n, now0 + Z.of_nat n * SEC) 0.
Definition checked : request := POST "/queues/default" {[ "bkey" := [EncodeToString queued1] ]}.
End Paused.
Import Paused.

Lemma queues_lists_all_witness : ∃ l s', queues s_paused = (Ok l, s') ∧ l ≡ₚ [mkListed "default" 1 true].
Proof.
  destruct (queues_lists_all s_paused) as (l & s' & E & _ & _ & Hl & _); [apply Forall_nil_2|]. exists l, s'. split; [exact E|].
  rewrite Hl. apply reflexive_eq. vm_compute. reflexivity.
Defined.
Lemma checked_boxes_delete_witness :
  ∃ s', serve (H:=MemRedis.mem_redis) 5 12 Requests.everyone Requests.ui1 checked s_paused = (Ok (RedirectTo "/queues/default" 302), s') ∧
    as_list (db s'.(smgr)) "default" = Ok [].
Proof.
  destruct (checked_boxes_delete (H:=MemRedis.mem_redis) 5 12 Requests.everyone Requests.ui1 checked s_paused "default" [queued1] [queued1])
    as (s' & rest & E & Hp & Hr & _);
    [apply Forall_nil_2|by rewrite lookup_singleton_eq|reflexivity|by apply Requests.admitted1|reflexivity|reflexivity|reflexivity|discriminate
    |reflexivity|reflexivity|discriminate|discriminate|reflexivity|by rewrite lookup_singleton_eq|discriminate|reflexivity|].
  exists s'. split; [exact E|]. rewrite Hr. change ([queued1] ++ rest) with (queued1 :: rest) in Hp.
  apply (Permutation_cons_inv (l:=[])) in Hp. by apply Permutation_nil in Hp as ->.
Defined.
