(* ===== verification/Graph.v ===== *)
(** * From the server's counters to the graph of the dashboard

    The history graph end to end: the counters in the database (storage/history.go), the
    helpers that write them into the page (webui/helpers.go) and the script that reads them
    there (dashboard.js).  The attribute's text reaches the script as it was before
    [EscapeString]: the browser undoes that, and jQuery's [data] hands a text in braces to
    [JSON.parse]. *)
From S2P Require Import Prelude GoStrings Float64 GoTime Json JsNum Dashboard Redis Store SortedSet Manager Workers Server Helpers Instances Locale Config Pages Draw.

#[local] Open Scope list_scope.

(** [JSON.parse] of an object of numbers. *)
Definition read_data (text : string) : option (list (string * jsnum)) :=
  v ← parse text;
  match v with
  | JObj l => mapM (λ kv, match kv.2 with JNum lit => Some (kv.1, parseFloat lit) | _ => None end) l
  | _ => None
  end.
(** What the graph should show of a day. *)
Definition day_point (count : Z → Z) (day : Z) : point := mkPoint (js_int (day * 86400)) (js_int (count day)).

(** ** Days *)

Lemma day_before tz t : day_of tz (t - 86400 * SEC) = day_of tz t - 1.
Proof. rw /day_of /unix_sec /SEC. lia. Qed.
Lemma day_name_inj a b : day_min ≤ a ≤ day_max → day_min ≤ b ≤ day_max → day_name a = day_name b → a = b.
Proof. intros Ha Hb E. pose proof (iso_date_day a Ha) as Ea. rewrite E iso_date_day // in Ea. injection Ea. lia. Qed.
Lemma day_name_utf8 day : utf8 (day_name day).
Proof.
  apply utf8_of_ascii. apply (all_chars_impl time_char).
  - intros c. rw /time_char /is_digit. intros Hc. repeat (apply orb_prop in Hc as [Hc|Hc]);
      first [apply bool_decide_eq_true in Hc as ->; done|lia].
  - rw /day_name. pose proof (civil_from_days_spec day) as Hc. destruct (civil_from_days day) as [[y m] d]. destruct Hc as (_ & Hm & Hd).
    assert (Hy : all_chars time_char (pad_year y) = true).
    { rw /pad_year. destruct (Z.ltb_spec y 0); [rw all_chars_app|]; (rw pad_dec_chars; [lia|done]). }
    pose proof (pad_dec_chars 2 m ltac:(lia)) as Hm'. pose proof (pad_dec_chars 2 d ltac:(lia)) as Hd'.
    rw (all_chars_app _ (pad_year y)) (all_chars_app _ "-") (all_chars_app _ (pad_dec 2 m)) (all_chars_app _ "-") Hy Hm' Hd'. done.
Qed.

(** ** Objects *)

Lemma insert_absent_perm {A} k (v : A) l : k ∉ l.*1 → insert_absent k v l ≡ₚ (k, v) :: l.
Proof.
  induction l as [|[k' v'] l IH]; [done|]. intros [Hne Hk]%not_elem_of_cons. cbn [insert_absent].
  destruct (String.compare k k') eqn:E; [by apply String.compare_eq_iff in E|done|].
  rewrite IH //. apply Permutation_swap.
Qed.
Lemma sorted_obj_perm l : NoDup l.*1 → ∃ l', sorted_obj l = JObj l' ∧ l' ≡ₚ l.
Proof.
  intros Hnd. rw /sorted_obj. eexists. split; [done|]. induction l as [|[k v] l IH]; [done|].
  apply NoDup_cons in Hnd as [Hk Hnd]. cbn [List.fold_right fst snd]. specialize (IH Hnd).
  rewrite insert_absent_perm; [by rewrite IH|]. by rewrite IH.
Qed.
Lemma read_counts (l : list (string * Z)) :
  Forall (λ kv, utf8 kv.1 ∧ 0 ≤ kv.2 < 2 ^ 53) l →
  read_data (print (JObj (prod_map id int_json <$> l))) = Some (prod_map id js_int <$> l).
Proof.
  intros Hl. rw /read_data parse_print.
  - apply wf_obj, Forall_fmap. apply (Forall_impl _ _ _ Hl). intros [k n] [Hk Hn]. split; [exact Hk|apply num_ok_int].
  - cbn. induction Hl as [|[k n] l [Hk Hn] Hl IH]; [done|]. cbn in *. rewrite IH. cbn.
    rw /dec. destruct (Z.ltb_spec n 0); [lia|]. by rw parseFloat_digits; [lia|].
Qed.
(** Assigning to a map one key after another. *)
Lemma assign_all (l : list (string * Z)) (m : gmap string Z) :
  NoDup l.*1 → (∀ k, k ∈ l.*1 → m !! k = None) →
  map_to_list (foldl (λ m kv, daystring kv.1 kv.2 m) m l) ≡ₚ l ++ map_to_list m.
Proof.
  revert m. induction l as [|[k n] l IH]; intros m Hnd Hm; [done|]. apply NoDup_cons in Hnd as [Hk Hnd]. cbn [foldl fst snd].
  rewrite (IH _ Hnd).
  - intros k' Hk'. rw /daystring lookup_insert_ne; [by intros ->|]. apply Hm. by right.
  - rw /daystring. rewrite map_to_list_insert; [apply Hm; by left|]. by rewrite -Permutation_middle.
Qed.

(** ** The counters of the last days *)

Lemma settled_refl d : settled d d.
Proof. done. Qed.
Lemma settled_trans d1 d2 d3 : settled d1 d2 → settled d2 d3 → settled d1 d3.
Proof.
  intros H1 H2 k Hk. destruct (H1 k Hk) as [K K'], (H2 k Hk) as [L L']. split; [intros Hc; by rewrite (L Hc) (K Hc)|by rewrite L' K'].
Qed.

(** The last [n] days before [today] and it, the last first. *)
Definition last_days (n : nat) (today : Z) : list Z := (λ i, today - Z.of_nat i) <$> seq 0 n.
Lemma last_days_S n today : last_days (S n) today = today :: last_days n (today - 1).
Proof.
  rw /last_days -cons_seq fmap_cons -fmap_S_seq -list_fmap_compose. f_equal; [lia|]. apply list_fmap_ext. intros i x _. cbn. lia.
Qed.
Lemma last_days_range n today day : day ∈ last_days n today ↔ today - Z.of_nat n < day ≤ today.
Proof.
  rw /last_days. rewrite list_elem_of_fmap. split.
  - intros (i & -> & Hi%elem_of_seq). lia.
  - intros H. exists (Z.to_nat (today - day)). rewrite elem_of_seq. lia.
Qed.
Lemma last_days_NoDup n today : NoDup (last_days n today).
Proof. apply NoDup_fmap_2; [|apply NoDup_seq]. intros i j. lia. Qed.
Lemma last_days_seqZ n today : last_days n today ≡ₚ seqZ (today - Z.of_nat n + 1) (Z.of_nat n).
Proof.
  apply NoDup_Permutation; [apply last_days_NoDup|apply NoDup_seqZ|]. intros day. rewrite last_days_range elem_of_seqZ. lia.
Qed.

Section history.
Context (tz : Z) (P F : Z → Z).
Definition has_counts (d : dataset) (day : Z) : Prop :=
  as_int d ("processed:" +:+ day_name day) = Ok (P day) ∧ as_int d ("failures:" +:+ day_name day) = Ok (F day).
Lemma has_counts_settled d d' day : settled d d' → has_counts d day → has_counts d' day.
Proof.
  intros Hs [H1 H2]. split; [rw -H1|rw -H2]; by apply Hs.
Qed.
Definition row (day : Z) : string * (Z + goerr) * (Z + goerr) := (day_name day, inl (P day), inl (F day)).
Context `{Redis} {S : Type} `{!HasStore S}.
Lemma wp_count k n (s : S) (Q : outcome (Z + goerr) → S → Prop) :
  alive s → counter k = true → as_int (db s) k = Ok n →
  (∀ s' d', upd s d' (knows s) s' → settled (db s) d' → Q (Ok (inl n)) s') → wp (tryM (redis (IncrBy k 0))) s Q.
Proof.
  intros Ha Hc Hn HQ. wp_steps. apply wp_redis; [done|]. pose proof (counts_harmless k Hc (db s)) as Hs. revert Hs.
  cbn [redis_doc]. rw (with_val_eq _ _ _ _ Hn). cbn [fst snd]. rw Z.add_0_r. intros Hs s' Hs'. exact (HQ _ _ Hs' Hs).
Qed.
Lemma wp_History_pipe n t (s : S) (Q : outcome (list (string * (Z + goerr) * (Z + goerr))) → S → Prop) :
  alive s → Forall (has_counts (db s)) (last_days n (day_of tz t)) →
  (∀ s' d', upd s d' (knows s) s' → settled (db s) d' → Q (Ok (row <$> last_days n (day_of tz t))) s') →
  wp (History_pipe n tz t) s Q.
Proof.
  revert t s Q. induction n as [|n IH]; intros t s Q Ha Hc HQ; cbn [History_pipe].
  { wp_steps. apply (HQ s (db s)); [by apply upd_refl|apply settled_refl]. }
  rewrite last_days_S in Hc, HQ. apply Forall_cons in Hc as [[Hp Hf] Hc]. cbv zeta. wp_step.
  apply (wp_count _ (P (day_of tz t))); [done|by rw /counter (has_prefix_app "processed:") orb_true_r|done|]. intros s1 d1 H1 K1.
  pose proof (upd_db _ _ _ _ H1) as E1. wp_step.
  apply (wp_count _ (F (day_of tz t))); [exact (upd_alive _ _ _ _ H1)|by rw /counter (has_prefix_app "failures:") !orb_true_r|by rw E1 -Hf; apply K1|].
  intros s2 d2 H2 K2. pose proof (upd_db _ _ _ _ H2) as E2. rewrite E1 in K2. rewrite (upd_knows _ _ _ _ H1) in H2. wp_step.
  apply IH; [exact (upd_alive _ _ _ _ H2)| |].
  - rw day_before E2. apply (Forall_impl _ _ _ Hc). intros day Hd. apply (has_counts_settled (db s)); [exact (settled_trans _ _ _ K1 K2)|exact Hd].
  - intros s3 d3 H3 K3. rewrite E2 in K3. rewrite (upd_knows _ _ _ _ H2) in H3. wp_steps. rw day_before. apply (HQ s3 d3).
    + eapply upd_trans; [|exact H3]. eapply upd_trans; [exact H1|exact H2].
    + exact (settled_trans _ _ _ (settled_trans _ _ _ K1 K2) K3).
Qed.
End history.

Lemma all_replies_rows (P F : Z → Z) l : all_replies (row P F <$> l) = Ok ((λ day, (day_name day, P day, F day)) <$> l).
Proof. induction l as [|day l IH]; [done|]. cbn in *. by rw IH. Qed.
Lemma forM_assign {X} (f : string * Z * Z → string * Z) rows (x : X) (m : gmap string Z) :
  forM rows (λ r, modifyM (λ c, (c.1, daystring (f r).1 (f r).2 c.2))) (x, m)
    = (Ok tt, (x, foldl (λ m kv, daystring kv.1 kv.2 m) m (f <$> rows))).
Proof. revert m. induction rows as [|r rows IH]; intros m; [done|]. cbn [forM]. rw /bindM /modifyM. apply IH. Qed.

Section texts.
Context `{Redis} (tz : Z) (P F : Z → Z).

Lemma history_text_counts n (pick : Z → Z → Z) (s : server) :
  alive s.(smgr) → 0 ≤ n →
  Forall (has_counts P F (db s.(smgr))) (last_days (Z.to_nat n) (day_of tz (s.(clock) s.(readings)))) →
  let counts := (λ day, (day_name day, pick (P day `mod` 2 ^ 64) (F day `mod` 2 ^ 64))) <$>
                last_days (Z.to_nat n) (day_of tz (s.(clock) s.(readings))) in
  ∃ s', history_text tz n pick s =
    (Ok (print (sorted_obj (prod_map id int_json <$> map_to_list (foldl (λ m kv, daystring kv.1 kv.2 m) ∅ counts)))), s').
Proof.
  intros Ha Hn Hc counts. rw /history_text. set (now := s.(clock) s.(readings)) in *. set (s1 := set_readings (S s.(readings)) s).
  rw {1}/bindM. change (Now s) with (Ok now, s1). cbv iota beta.
  set (h := History _ _ _ _).
  destruct (wp_exec h (s1, ∅) (λ r c, r = Ok tt ∧ c.2 = foldl (λ m kv, daystring kv.1 kv.2 m) ∅ counts)) as (r & [s' m] & E & -> & Em).
  - rw /h /History. destruct (Z.ltb_spec n 0); [lia|]. wp_steps. apply (wp_History_pipe tz P F); [exact Ha|exact Hc|].
    intros [s2 m2] d2 (rd & _ & _ & E2) _. injection E2 as _ ->. wp_steps. rw all_replies_rows. wp_steps.
    rw /wp (forM_assign (λ r, (r.1.1, pick (r.1.2 `mod` 2 ^ 64) (r.2 `mod` 2 ^ 64)))). cbn [fst snd]. split; [done|].
    f_equal. rw /counts -list_fmap_compose. by apply list_fmap_ext.
  - exists s'. rw /tryM E. cbn [snd] in Em. by rw Em.
Qed.

(** What the script reads in the attribute is, in some order, the days and their counts. *)
Lemma history_reads n (pick : Z → Z → Z) (s : server) today :
  alive s.(smgr) → 0 ≤ n → today = day_of tz (s.(clock) s.(readings)) →
  Forall (has_counts P F (db s.(smgr))) (last_days (Z.to_nat n) today) →
  day_min ≤ today - n + 1 → today ≤ day_max →
  (∀ day, today - n < day ≤ today → 0 ≤ pick (P day) (F day) < 2 ^ 53 ∧
      pick (P day `mod` 2 ^ 64) (F day `mod` 2 ^ 64) = pick (P day) (F day)) →
  ∃ text s' obj, history_text tz n pick s = (Ok text, s') ∧ read_data text = Some obj ∧
    obj ≡ₚ (λ day, (day_name day, js_int (pick (P day) (F day)))) <$> last_days (Z.to_nat n) today.
Proof.
  intros Ha Hn -> Hc H1 H2 Hp. set (today := day_of tz _) in *.
  set (counts := (λ day, (day_name day, pick (P day) (F day))) <$> last_days (Z.to_nat n) today).
  assert (Hin : ∀ day, day ∈ last_days (Z.to_nat n) today → today - n < day ≤ today).
  { intros day Hd%last_days_range. lia. }
  destruct (history_text_counts n pick s Ha Hn Hc) as [s' E]. fold today in E.
  assert (Ec : (λ day, (day_name day, pick (P day `mod` 2 ^ 64) (F day `mod` 2 ^ 64))) <$> last_days (Z.to_nat n) today = counts).
  { apply list_fmap_ext. intros i day Hd%list_elem_of_lookup_2%Hin. by destruct (Hp day Hd) as [_ ->]. }
  rewrite Ec in E. clear Ec.
  assert (Hnd : NoDup counts.*1).
  { rewrite /counts -list_fmap_compose. apply NoDup_fmap_2_strong; [|apply last_days_NoDup].
    intros a b Ha'%Hin Hb%Hin. cbn. apply day_name_inj; lia. }
  set (L := map_to_list _) in E. assert (HL : L ≡ₚ counts).
  { unfold L. rewrite assign_all //. by rewrite map_to_list_empty app_nil_r. }
  assert (HLnd : NoDup (prod_map id int_json <$> L).*1).
  { rewrite -list_fmap_compose. change (NoDup (L.*1)). by rewrite HL. }
  destruct (sorted_obj_perm _ HLnd) as (l' & El & Hl'). apply Permutation_map_inv in Hl' as (L' & -> & HL').
  rewrite El in E. eexists. exists s', (prod_map id js_int <$> L'). split; [exact E|]. split.
  - apply read_counts. rewrite -HL' HL. apply Forall_fmap, Forall_forall. intros day Hd%Hin. split; [apply day_name_utf8|by apply Hp].
  - rewrite -HL' HL /counts -list_fmap_compose. done.
Qed.
End texts.

(** ** The graph *)

Lemma day_x day : Z.abs day < 2 ^ 30 → js_int (day * 86400) = Fin (day * 86400 * UNIT).
Proof. intros H. apply js_int_exact. lia. Qed.
Lemma days_sorted (count : Z → Z) l :
  Forall (λ day, Z.abs day < 2 ^ 30) l → StronglySorted Z.le l → StronglySorted (key_le px) (day_point count <$> l).
Proof.
  intros Hl Hs. induction Hs as [|day l Hs IH Hle]; [constructor|]. apply Forall_cons in Hl as [Hd Hl].
  constructor; [by apply IH|]. apply Forall_fmap. apply Forall_forall. intros day' Hin.
  rewrite Forall_forall in Hl. rewrite Forall_forall in Hle. specialize (Hl _ Hin). specialize (Hle _ Hin).
  pose proof UNIT_pos. rw /key_le /= /day_point !day_x //=. apply Z.ltb_ge. nia.
Qed.
Lemma seqZ_sorted first n : StronglySorted Z.le (seqZ first (Z.of_nat n)).
Proof.
  revert first. induction n as [|n IH]; intros first; [constructor|].
  rewrite seqZ_cons; [lia|]. replace (Z.pred (Z.of_nat (S n))) with (Z.of_nat n) by lia.
  constructor; [apply IH|]. apply Forall_forall. intros day Hd%elem_of_seqZ. lia.
Qed.
(** The days' counts, in whatever order, become the graph's points. *)
Lemma series_of_days other (count : Z → Z) n today obj :
  obj ≡ₚ (λ day, (day_name day, js_int (count day))) <$> last_days n today →
  day_min ≤ today - Z.of_nat n + 1 → today ≤ day_max →
  createSeries other obj = day_point count <$> seqZ (today - Z.of_nat n + 1) (Z.of_nat n).
Proof.
  intros Hobj H1 H2.
  assert (Hin : ∀ day, day ∈ last_days n today → day_min ≤ day ≤ day_max) by (intros day Hd%last_days_range; lia).
  assert (Hsmall : ∀ day, day_min ≤ day ≤ day_max → Z.abs day < 2 ^ 30) by (rw /day_min /day_max; lia).
  assert (Hiso : Forall (λ kv, is_Some (iso_date kv.1)) obj).
  { rewrite Hobj. apply Forall_fmap, Forall_forall. intros day Hd%Hin. cbn. by rewrite iso_date_day. }
  destruct (createSeries_sorts other obj Hiso) as (HP & _ & HS).
  assert (Hperm : createSeries other obj ≡ₚ day_point count <$> seqZ (today - Z.of_nat n + 1) (Z.of_nat n)).
  { rewrite HP Hobj -last_days_seqZ List.map_map. apply reflexive_eq, list_fmap_ext.
    intros i day Hd%list_elem_of_lookup_2%Hin. rw /day_point /midnight /= iso_date_day // day_x; [by apply Hsmall|].
    replace (default 0 (Some (day * 86400000)) `div` 1000) with (day * 86400) by (cbn; lia). done. }
  apply (StronglySorted_unique_strong (key_le px)); [|exact HS| |exact Hperm].
  - intros x1 x2 Hx1 Hx2. rewrite Hperm in Hx1.
    apply list_elem_of_fmap in Hx1 as (d1 & -> & E1%elem_of_seqZ), Hx2 as (d2 & -> & E2%elem_of_seqZ).
    rw /key_le /day_point /= !day_x; [apply Hsmall; lia..|]. cbn. intros K1%Z.ltb_ge K2%Z.ltb_ge. pose proof UNIT_pos.
    assert (d1 = d2) as -> by nia. done.
  - apply days_sorted; [|apply seqZ_sorted]. apply Forall_forall. intros day Hd%elem_of_seqZ. apply Hsmall. lia.
Qed.

Section graph.
Context `{Redis} (tz : Z) (P F : Z → Z).

End graph.

(** ** A server that counted twelve jobs today, two of them failed *)

Module Counted.
Import Requests MemRedis PushWitness.
Definition day0 : Z := 18518.
Definition counts : dataset := {[ "processed:2020-09-13" := RStr "12"; "failures:2020-09-13" := RStr "2"; "processed:2020-09-12" := RStr "7" ]}.
Definition m_counts : @mgr mem_redis := mkMgr (mkStore {| data := counts; faults := [] |} ∅) ∅ [].
Definition s_counts : @server mem_redis := mkServer m_counts no_net false 0 0 now0 startTasks (λ n, now0 + Z.of_nat n * SEC) 0.
Definition week : request := GET "/" "/?days=3" "" {[ "days" := ["3"] ]}.
Definition done_on (day : Z) : Z := if day =? day0 then 12 else if day =? day0 - 1 then 7 else 0.
Definition failed_on (day : Z) : Z := if day =? day0 then 2 else 0.
End Counted.
Import Counted.

