(* ===== verification/Security.v ===== *)
(** * A production server is closed to strangers

    Configuration, handshake and web interface together: what Config.v, Handshake.v and
    Pages.v say of one server. *)
From S2P Require Import Prelude GoStrings Json Job Redis Store SortedSet Manager Workers Server Instances Handshake Config Pages.

#[local] Open Scope list_scope.

Section closed.
Context `{Redis}.
Context (LookupEnv : string → option string) (ReadFile : string → string + goerr) (FileExists : string → bool).
Context (Unmarshal : string → config + goerr) (Boot : option goerr).
Context (Sum256 : string → string) (fuel : nat) (MemoryUsageMB : Z) (nosurf : request → bool).
Abbreviation build := (BuildServer LookupEnv ReadFile FileExists Unmarshal Boot).

Lemma accepted_hash pwd iter salt line cl :
  pwd ≠ "" → check_hello Sum256 pwd iter salt line = Accepted cl →
  cl.(PasswordHash) = server_hash Sum256 pwd salt (if cl.(Version) <? 2 then 1 else iter).
Proof.
  intros Hp. rw /check_hello. destruct (has_prefix _ _); [|done]. destruct (clientDataFromHello _) as [c|e|p]; [|done..].
  rw (bool_decide_eq_false_2 (pwd = "")) //. case_bool_decide as Hh; [|done]. by intros [= <-].
Qed.
Lemma web_password binding so :
  so.(so_Password) ≠ "" → (opts (Subsystem binding) so).(Password) ≠ "" ∧
    (so_String so "web" "password" "" = "" → (opts (Subsystem binding) so).(Password) = so.(so_Password)).
Proof. intros Hp. rw /opts. cbn [Password]. by case_bool_decide. Qed.

(** C14. A server that starts in staging or production, unless it is told to skip passwords,
    takes on no client that does not answer its greeting with the hash of the server's
    password, and its web interface shows and changes nothing without the password of the
    "web" section, or the server's when there is none. *)
Theorem production_is_closed files bind env so binding :
  env ≠ "development" → skip LookupEnv = false → build files bind env = inl so →
  let ui := newWeb (opts (Subsystem binding) so) in
  (∀ iter salt line cl, check_hello Sum256 so.(so_Password) iter salt line = Accepted cl →
     so.(so_Password) ≠ "" ∧ cl.(PasswordHash) = server_hash Sum256 so.(so_Password) salt (if cl.(Version) <? 2 then 1 else iter)) ∧
  (∀ r (s : server), stranger ui.(wrapped_with).(Password) r →
     ∃ x, serve fuel MemoryUsageMB nosurf ui r s = (Ok x, s) ∧ public x) ∧
  (so_String so "web" "password" "" = "" → ui.(wrapped_with).(Password) = so.(so_Password)).
Proof.
  intros He Hs Hb ui. pose proof (build_strict _ _ _ _ _ _ _ _ _ He Hs Hb) as Hp. destruct (web_password binding so Hp) as [Hw1 Hw2].
  split_and!; [|intros r s Hr; by apply strangers_refused|exact Hw2].
  intros iter salt line cl Ha. split; [done|]. by apply (accepted_hash _ _ _ line).
Qed.
End closed.

(** ** The production server of Config.v *)

Lemma production_is_closed_witness :
  Production.built = inl Production.options ∧
  ∃ x, serve (H:=MemRedis.mem_redis) 5 12 Requests.everyone (newWeb (opts (Subsystem "localhost:7420") Production.options))
    Requests.intruder Requests.server1 = (Ok x, Requests.server1) ∧ public x.
Proof.
  assert (E : Production.built = inl Production.options) by (vm_compute; reflexivity).
  split; [exact E|].
  destruct (production_is_closed (H:=MemRedis.mem_redis) Production.environ Production.read (λ _, false) Production.toml None
    (λ s, s) 5 12 Requests.everyone Production.files "localhost:7419" "production" Production.options "localhost:7420") as (_ & K & _);
    [discriminate|vm_compute; reflexivity|exact E|].
  apply (K Requests.intruder Requests.server1). vm_compute. discriminate.
Defined.
